(* ===== verification/_CoqProject ===== *)
-Q . S2P
Prelude.v
Protocol.v
CodeGenerator.v
SessionRegistry.v
ConnectionTracker.v
SignalingRouter.v
Lifecycle.v
RelayFacts.v
Jinja.v
Pages.v
HostClient.v
ViewerClient.v
System.v
Delivery.v
Codes.v
Quiescence.v
Teardown.v
Departure.v
Fairness.v
Handshake.v
