(* ===== verification/Prelude.v ===== *)
(** * A verification development for streamrender

    streamrender lets a host share a screen capture with viewers over a
    peer-to-peer WebRTC channel.  The repository is one file, [src/app.py]:
    a Flask application whose three routes serve a host page, a viewer page
    and a welcome text.  Each page embeds a JavaScript client that talks
    Socket.IO to a separate signaling relay.  The relay (stream codes,
    sessions, routing of offers, answers and ICE candidates, cleanup on
    disconnect) is described by the specification, but its code is not in
    [src/].  It is modelled here from the specification, and the manifest
    marks each such definition as spec-modelled.

    ** How the parts interact

    The host page captures the screen and emits [start_stream].  The relay
    answers [stream_started] with a six-character code.  A viewer page
    emits [join_stream] with that code, and the relay tells the host
    [viewer_joined].  The host then creates one RTCPeerConnection per
    viewer and sends an offer.  The viewer answers, and both sides
    exchange ICE candidates through the relay, which checks that sender
    and target are the two ends of one session.  When the host disconnects,
    the relay destroys the session and tells every viewer [stream_ended].

    ** Files, modules and what they model

    - [Prelude] (this file) holds the shared infrastructure:
      - the error monad [result], with notations in [relay_scope];
      - the tactics [invc], [destruct_results] and [case_guards];
      - the hint databases [relay] and [relay_rw];
      - lemmas on maps and on [addressed_to], the messages of an outbox
        addressed to one connection;
      - [foldl_appends]: a run whose every step only appends to what it
        sends.
    - [Protocol] holds the event vocabulary. [ClientMsg] and [ServerMsg]
      are the event names and payloads of the pages' [socket.emit] and
      [socket.on] calls (src/app.py lines 141-237).
    - [CodeGenerator] generates stream codes with retry on collision.
      - It works over a type class [CodeSource], a random source.
      - Its fuel is [S (size active)] draws. This is enough: with
        pairwise distinct draws, at most [size active] of them collide.
      - The base-36 encoder is an instance of [CodeSource].
    - [SessionRegistry] (Module SessionRegistry) is the table from code to
      session, a [gmap].
      - Operations: createSession, getSession, addViewer, removeViewer,
        destroySession, each returning a [result].
      - It is refined against an abstract set of live codes.
    - [ConnectionTracker] (Module ConnectionTracker) is the table from
      connection to role.
    - [SignalingRouter] (Module SignalingRouter) holds [counterparts], the
      authorisation check, [route], the verbatim relay, and best-effort
      delivery.
    - [Lifecycle] (Module Lifecycle) is the whole relay.
      - Its state is the record [Relay]: the two tables, the outbox and the
        code source.
      - There is one handler per event, and [dispatch] turns an error into
        an [error] message to the requester.
      - [relay_step] is the step relation and [reachable] its closure from
        [init].
      - [relay_wf] is the invariant, proved by rule induction.
    - [RelayFacts] (Module RelayFacts) holds what one relay event does to
      the outbox and to the host-viewer pairs ([dispatch_delta],
      [hosts_stable], [hosts_new]). The composition uses these facts.
    - [Jinja] holds Python f-string evaluation and the fragment of Jinja2's
      lexer and parser that the two templates reach.
    - [Pages] (Module Pages) is the Flask side of [src/app.py].
      - The page literals are copied line by line (lines 16-241).
      - [HOST_HTML] and [VIEWER_HTML] are the f-strings' values.
      - [host], [viewer] and [index] are the views, and [dispatch_request]
        is the URL map.
      - [run_main] is the [__main__] entry point.
    - [HostClient] (Module HostClient) is the host page's script
      (lines 128-178) as a state machine.
      - The state is the record [Host], holding [localStream],
        [peerConnections] and the DOM fields.
      - There is one handler per listener, plus the events [offer_ready]
        and [on_icecandidate] for the promise chain and the browser's ICE
        gathering.
      - [run] folds [step] over any list of events.
    - [ViewerClient] (Module ViewerClient) is the viewer page's script
      (lines 203-238).
      - The one shared [peerConnection] variable is modelled with a serial
        number per connection object.
      - The answer chain reads this variable when it resolves, and the
        model keeps that.
    - [System] (Module System) is the whole application.
      - It is the relay together with any set of host and viewer pages.
      - They are connected by ordered channels, one per direction and
        connection.
      - [sys_step] is one event: a page event, a transmission, a
        delivery, a connect or a disconnect.
    - [Delivery] (Module Delivery) is the transport doing its work.
      - [flush_out] transmits all of a page's unsent messages, and
        [flush_in] delivers all the relay's unhandled messages to a page.
      - Each is as long as the backlog it empties ([backlog_out],
        [backlog_in]), so the schedules are finite by construction.
    - [Codes] (Module Codes) follows the stream code from the relay to
      the host page's [streamCode] element and, typed by a person, through
      a viewer page's join button back to the relay.  Its invariant
      [code_inv] holds in every reachable state of [System].
    - [Teardown] (Module Teardown) composes the relay's cleanup on a
      host's disconnect with the viewer page's [stream_ended] listener.
    - [Quiescence] (Module Quiescence) writes out all of the transport's
      work from a state ([quiesce]): every outgoing channel is flushed,
      then every incoming one.
    - [Departure] (Module Departure) composes the relay's cleanup on a
      viewer's disconnect with the host page's [viewer_left] listener.
    - [Handshake] (Module Handshake) follows the specification's scenario
      on the two pages to its end, in five phases, each a lemma over any
      state that meets its precondition: join, offer, offer delivered,
      answers resolved ([resolve_answers]), answer delivered.
    - [Fairness] (Module Fairness) lets the transport run on any infinite
      [schedule] of transmissions and deliveries that is [weakly_fair]:
      a channel with work is, later on, served or out of work.

    ** The theorems, by group

    - Pages. No page is ever served:
      - [/host] and [/viewer] answer 500;
      - both f-strings leave a Jinja2 print statement [{{ iceServers: ...],
        which Jinja2 rejects at the colon;
      - running the script raises a NameError on [socketio].
    - The whole application. In every interleaving, no page ever throws
      ([System.no_page_throws]). The pages' own errors need a relay that
      breaks the specification's order or authorisation.
      Every signal a page receives was sent, unchanged and addressed to
      it, by the page it names as sender ([System.signals_authentic]).
      Both follow from one invariant ([System.inv]) preserved by every
      event; [RelayFacts] describes what one relay event may append.
    - Delivery (liveness). Once the sender's channel and then the
      receiver's channel are flushed, an offer, answer or ICE candidate
      that one end of a session emitted for the other has been handled by
      the other end's listener ([Delivery.signal_reaches_peer]).  A viewer the relay has paired
      with a live host gets an offer from it once the host page has
      handled its messages and the browser has resolved the offer
      ([Delivery.joined_viewer_gets_offer]).
    - Clients. These are ordering invariants over any interleaving of
      events:
      - the host sends a viewer ICE candidates only after an offer;
      - the viewer sends a host ICE candidates only after an answer;
      - each page sends only its own role's messages
        ([ViewerClient.pages_keep_their_role]).
    - Round trip of the stream code. A live host page that has been sent
      its code shows exactly that code, and a connected viewer page in no
      session, into which the shown code is typed and joined, is paired
      with that host, which is sent [viewer_joined]
      ([Codes.code_roundtrip]).
      From there the viewer gets the host's offer once the host page has
      handled its messages, the browser has resolved the offer and the
      channels are flushed ([Codes.join_by_code_gets_offer]): the
      specification's scenario on the two pages.
      A code that names no session is refused: the viewer stays
      unassigned, and the last alert its page shows is the invalid-code
      message ([Codes.wrong_code_reported]).
    - The handshake completes. From the same point, once the offer and
      then the answer have been resolved by the browsers and carried by
      the transport, the host's connection to the viewer has the captured
      tracks, the offer as local and the answer as remote description,
      and the viewer's connection to the host the same two the other way
      round ([Handshake.handshake_completes]).
    - End of a stream. When a host disconnects, each live viewer page of
      its session, once the relay's messages are delivered, has last
      alerted "Stream <code> has ended.", shows no video, holds no open
      connection, and can join again ([Teardown.stream_end_reaches_viewer]).
    - Termination of the transport's work. From every reachable state,
      [quiesce] leads to a state where no transmission or delivery changes
      anything ([Quiescence.transport_quiesces]). The reason is in the
      pages' code: no [socket.on] listener emits.
      Every weakly fair scheduler gets there too: it reaches a step at
      which every live page's messages have reached the relay and every
      message of the relay has been handled, and after which nothing
      changes ([Fairness.fair_transport_quiesces]).  The proof is over two
      backlog measures, outgoing first, and uses
      [Prelude.eventually_all_zero].
    - A viewer's departure. When a viewer disconnects, the host page,
      once the relay's messages are delivered, holds no connection to it,
      and a late offer to it sends nothing
      ([Departure.viewer_departure_reaches_host]).
    - Bounds on what the pages send, over any interleaving of events:
      - the host sends a viewer at most as many offers as it has received
        [viewer_joined] for it ([HostClient.offers_bounded_by_joins]);
      - the viewer sends a host at most as many answers as it has received
        offers from it ([ViewerClient.answers_bounded_by_offers]).
      Both are proved with [foldl_bound]: a measure that each event raises
      by at most one, and only on the counted events.
    - A refused capture. If every capture the host's Start button asks
      for is refused, the host page sends nothing, whatever else happens,
      and shows one alert per click ([HostClient.capture_failed_silent]).
    - The host page's connection table.
      - [peerConnections] refines the abstract set of viewers that have
        joined and not left ([HostClient.peerConnections_refine]).
      - The answer, ice_candidate and viewer_left listeners of two
        different viewers commute ([HostClient.quiet_listeners_commute]).
    - Client handlers, behaviour and errors:
      - the offer carries the captured tracks;
      - a [viewer_joined] that arrives before a capture throws a TypeError;
      - so do late signals after [viewer_left] and ICE candidates before an
        offer;
      - a second offer makes the first answer go nowhere;
      - after [stream_ended] the viewer sends no answer and no candidate
        until a new offer, because the closed connection stays in
        [peerConnection].
    - Relay (spec-modelled):
      - the invariant holds on every reachable state;
      - a host's disconnect ends the stream for exactly its viewers;
      - an unauthorised relay is dropped;
      - an authorised one is verbatim;
      - the error paths of start and join;
      - two joins commute;
      - the specification's end-to-end scenario runs as written.
    - Supporting theorems:
      - code generation returns a fresh code when the draws are distinct;
      - decoding inverts encoding;
      - the registry refines the set of live codes;
      - escaping braces inverts f-string evaluation;
      - Jinja2 renders Jinja-free text verbatim.

    ** Modelling choices for the browser

    - The callbacks of one promise chain run as microtasks, before the next
      task. So [setLocalDescription] followed by the [then] that emits is
      one event ([offer_ready], [answer_ready]).
    - The browser gathers ICE candidates only for an open connection that
      has a local description.
    - [setLocalDescription] with an answer created by another connection
      object rejects, because the DTLS fingerprint does not match.
    - A handler that throws keeps the effects performed before the throw.

    ** Not modelled

    - CSS and HTML layout: they have no behaviour.
    - The browser's media and WebRTC internals: a connection is the
      abstract record [PC], and a capture is a list of tracks.
    - The Socket.IO transport's internals: it is modelled as one ordered
      channel per direction and connection, and it carries messages only
      when a transmission or delivery event says so.  The signals'
      liveness is proved for the schedules that flush the channels; the
      end of the transport's work for every weakly fair scheduler.
    - [console.log] calls.
    - Flask's HTTP layer beyond routing and the 500 answer to a view that
      raises.
    - Socket.IO's reconnection: a page that disconnects is closed, and its
      id never connects again. *)

From stdpp Require Export base gmap strings list.

(** ** The result monad *)

(** Fallible operations of the relay return a value or an error. *)
Inductive result (E A : Type) : Type :=
| Ok (a : A)
| Err (e : E).
Arguments Ok {E A} a.
Arguments Err {E A} e.

Definition result_bind {E A B} (m : result E A) (k : A → result E B) : result E B :=
  match m with
  | Ok a => k a
  | Err e => Err e
  end.

Definition result_map {E A B} (f : A → B) (m : result E A) : result E B :=
  match m with
  | Ok a => Ok (f a)
  | Err e => Err e
  end.

(** Translate the error of a callee into the caller's error type. *)
Definition map_err {E E' A} (f : E → E') (m : result E A) : result E' A :=
  match m with
  | Ok a => Ok a
  | Err e => Err (f e)
  end.

Definition is_ok {E A} (m : result E A) : bool :=
  match m with Ok _ => true | Err _ => false end.

Declare Scope relay_scope.
Delimit Scope relay_scope with relay.

Notation "x ←? m ;; k" := (result_bind m (λ x, k))
  (at level 100, m at next level, right associativity) : relay_scope.
Notation "'assert?' b 'else' e ;; k" := (if b then k else Err e)
  (at level 100, b at next level, e at next level, right associativity) : relay_scope.

Open Scope relay_scope.

Lemma result_bind_Ok_inv {E A B} (m : result E A) (k : A → result E B) b :
  result_bind m k = Ok b → ∃ a, m = Ok a ∧ k a = Ok b.
Proof. destruct m; simpl; [eauto | discriminate]. Qed.

Lemma result_bind_Err_inv {E A B} (m : result E A) (k : A → result E B) e :
  result_bind m k = Err e → m = Err e ∨ ∃ a, m = Ok a ∧ k a = Err e.
Proof. destruct m; simpl; [eauto | intros [= ->]; auto]. Qed.

Lemma map_err_Ok_inv {E E' A} (f : E → E') (m : result E A) a :
  map_err f m = Ok a → m = Ok a.
Proof. destruct m; simpl; congruence. Qed.

Lemma result_bind_Ok {E A B} (a : A) (k : A → result E B) :
  result_bind (Ok a) k = k a.
Proof. reflexivity. Qed.

Lemma result_bind_Err {E A B} (e : E) (k : A → result E B) :
  result_bind (Err e) k = Err e.
Proof. reflexivity. Qed.

(** ** Tactics and hints shared by the components *)

Create HintDb relay discriminated.
Create Rewrite HintDb relay_rw.
#[export] Hint Rewrite @result_bind_Ok @result_bind_Err : relay_rw.

Ltac invc H := inversion H; subst; clear H.

(** Split every hypothesis [result_bind m k = Ok b] into its two halves. *)
Ltac destruct_results :=
  repeat match goal with
  | H : result_bind _ _ = Ok _ |- _ =>
      let a := fresh "a" in let Ha := fresh "Ha" in
      apply result_bind_Ok_inv in H as (a & Ha & H)
  | H : map_err _ _ = Ok _ |- _ => apply map_err_Ok_inv in H
  | H : Ok _ = Ok _ |- _ => injection H; clear H; intros; subst
  | H : Err _ = Ok _ |- _ => discriminate H
  | H : Ok _ = Err _ |- _ => discriminate H
  end.

(** Case analysis on the [if]s and [match]es of an unfolded handler. *)
Ltac case_guards :=
  repeat (case_match || case_decide); simplify_eq/=.

(** ** Generic lemmas on maps and lists *)

Section map_lemmas.
Context {K V : Type} `{Countable K}.

Lemma lookup_insert_Some_iff (m : gmap K V) i j x y :
  <[i:=x]> m !! j = Some y ↔ (i = j ∧ x = y) ∨ (i ≠ j ∧ m !! j = Some y).
Proof. apply lookup_insert_Some. Qed.

Lemma insert_fresh_dom (m : gmap K V) i x :
  dom (<[i:=x]> m) = {[i]} ∪ dom m.
Proof. apply dom_insert_L. Qed.

Lemma map_Exists_insert_fresh (P : K → V → Prop) (m : gmap K V) i x :
  m !! i = None →
  map_Exists P (<[i:=x]> m) ↔ P i x ∨ map_Exists P m.
Proof.
  intros Hi. split.
  - intros (j & y & Hj & HP). apply lookup_insert_Some in Hj as [[-> ->]|[? ?]];
      [by left | right; by exists j, y].
  - intros [HP | (j & y & Hj & HP)].
    + exists i, x. by rewrite lookup_insert_eq.
    + exists j, y. split; [|done]. rewrite lookup_insert_ne; [done|]. congruence.
Qed.
End map_lemmas.

(** Messages addressed to one recipient, in order. *)
Definition addressed_to {A B} `{EqDecision A} (a : A) (l : list (A * B)) : list B :=
  snd <$> filter (λ p, p.1 = a) l.

Lemma addressed_to_app {A B} `{EqDecision A} (a : A) (l1 l2 : list (A * B)) :
  addressed_to a (l1 ++ l2) = addressed_to a l1 ++ addressed_to a l2.
Proof. unfold addressed_to. by rewrite filter_app, fmap_app. Qed.

Lemma addressed_to_cons_eq {A B} `{EqDecision A} (a : A) (b : B) l :
  addressed_to a ((a, b) :: l) = b :: addressed_to a l.
Proof. unfold addressed_to. rewrite filter_cons_True; done. Qed.

Lemma addressed_to_cons_ne {A B} `{EqDecision A} (a a' : A) (b : B) l :
  a' ≠ a → addressed_to a ((a', b) :: l) = addressed_to a l.
Proof. intros. unfold addressed_to. rewrite filter_cons_False; done. Qed.

#[export] Hint Rewrite @addressed_to_app @addressed_to_cons_eq : relay_rw.

(** What holds of every entry of a list holds of the entries addressed to
    one recipient. *)
Lemma Forall_addressed_to {A B} `{EqDecision A} (P : A * B → Prop) (a : A) l :
  Forall P l → Forall (λ b, P (a, b)) (addressed_to a l).
Proof.
  unfold addressed_to. intros Hl. apply Forall_fmap, Forall_forall.
  intros [a' b] [Ha Hin]%list_elem_of_filter. cbn in *. subst a'.
  by apply (proj1 (Forall_forall _ _) Hl).
Qed.
#[export] Hint Resolve result_bind_Ok_inv : relay.

Lemma elem_of_addressed_to {A B} `{EqDecision A} (a : A) (b : B) l :
  b ∈ addressed_to a l ↔ (a, b) ∈ l.
Proof.
  unfold addressed_to. rewrite list_elem_of_fmap. split.
  - intros ([a' b'] & -> & [? ?]%list_elem_of_filter). simpl in *. by subst.
  - intros Hin. exists (a, b). split; [done|]. by apply list_elem_of_filter.
Qed.

(** The same message sent to each of a list of recipients. *)
Lemma addressed_to_broadcast_notin {A B} `{EqDecision A} (a : A) (m : B) l :
  a ∉ l → addressed_to a ((λ x, (x, m)) <$> l) = [].
Proof.
  induction l as [|x l IH]; intros Ha; [done|]. rewrite fmap_cons, addressed_to_cons_ne; set_solver.
Qed.

Lemma addressed_to_broadcast {A B} `{EqDecision A} (a : A) (m : B) l :
  NoDup l → a ∈ l → addressed_to a ((λ x, (x, m)) <$> l) = [m].
Proof.
  induction l as [|x l IH]; intros Hnd Ha; [set_solver|]. apply NoDup_cons in Hnd as [Hx Hnd].
  rewrite fmap_cons. destruct (decide (x = a)) as [->|Hne].
  - by rewrite addressed_to_cons_eq, addressed_to_broadcast_notin.
  - rewrite addressed_to_cons_ne by done. apply IH; [done|set_solver].
Qed.

(** ** Order of the elements of a list

    [preceded late first l]: every element of [l] that is [late] for some
    key [k] comes after an element that is [first] for [k].  The pages send
    ICE candidates only after their offer or answer, and the relay keeps
    that order per recipient. *)
Section preceded.
Context {A K : Type} (late first : K → A → Prop).

Definition preceded (l : list A) : Prop :=
  ∀ i k a, l !! i = Some a → late k a → ∃ j b, j < i ∧ l !! j = Some b ∧ first k b.

Lemma preceded_nil : preceded [].
Proof. intros i k a Hi. by rewrite lookup_nil in Hi. Qed.

(** Appending keeps the order when every late element appended finds its
    first element already in the list. *)
Lemma preceded_app l l' :
  preceded l → (∀ k a, a ∈ l' → late k a → ∃ b, b ∈ l ∧ first k b) →
  preceded (l ++ l').
Proof.
  intros Hl Hl' i k a Hi Hlate. apply lookup_app_Some in Hi as [Hi|[Hge Hi]].
  - destruct (Hl _ _ _ Hi Hlate) as (j & b & Hj & Hjl & Hf). exists j, b.
    split; [done|]. split; [by apply lookup_app_l_Some|done].
  - apply list_elem_of_lookup_2 in Hi. destruct (Hl' _ _ Hi Hlate) as (b & Hb & Hf).
    apply list_elem_of_lookup_1 in Hb as [j Hj]. exists j, b.
    split; [apply lookup_lt_Some in Hj; lia|]. split; [by apply lookup_app_l_Some|done].
Qed.

(** The first element of a late element at position [i] is among the [i]
    elements before it. *)
Lemma preceded_take l i k a :
  preceded l → l !! i = Some a → late k a → ∃ b, b ∈ take i l ∧ first k b.
Proof.
  intros Hl Hi Hlate. destruct (Hl _ _ _ Hi Hlate) as (j & b & Hj & Hjl & Hf).
  exists b. split; [|done]. apply list_elem_of_lookup_2 with j. by rewrite lookup_take_lt.
Qed.
End preceded.

Lemma filter_none {A} (P : A → Prop) `{∀ x, Decision (P x)} (l : list A) :
  (∀ x, x ∈ l → ¬ P x) → filter P l = [].
Proof.
  induction l as [|x l IH]; intros Hl; [done|].
  rewrite filter_cons_False; [apply IH; set_solver|apply Hl; set_solver].
Qed.

(** ** Runs that only append to what they send

    A page's listeners only ever append to the list of messages it has
    sent.  When every step from a state satisfying [I], on an event
    satisfying [Q], keeps [I] and appends messages satisfying [P], so does
    every run on such events. *)
Section appends.
Context {St Ev M : Type} (step : St → Ev → St) (out : St → list M).
Context (P : M → Prop) (I : St → Prop) (Q : Ev → Prop).
Hypothesis Hstep : ∀ s e, I s → Q e → I (step s e) ∧ ∃ l, out (step s e) = out s ++ l ∧ Forall P l.

Lemma foldl_appends s es :
  I s → Forall Q es → I (foldl step s es) ∧ ∃ l, out (foldl step s es) = out s ++ l ∧ Forall P l.
Proof.
  revert s. induction es as [|e es IH]; intros s Hs Hes; simpl.
  - split; [done|]. exists []. by rewrite app_nil_r.
  - apply Forall_cons in Hes as [He Hes].
    destruct (Hstep s e Hs He) as [Hs1 (l1 & E1 & F1)].
    destruct (IH _ Hs1 Hes) as [HI (l2 & E2 & F2)]. split; [done|]. exists (l1 ++ l2).
    rewrite E2, E1, app_assoc. split; [done|]. by apply Forall_app.
Qed.
End appends.

(** ** Counting along a run

    [count_if p l] is the number of elements of [l] satisfying the test
    [p].  When each step raises a measure by at most one, and only on an
    event that passes [p], a run raises it by at most the number of such
    events. *)
Fixpoint count_if {A} (p : A → bool) (l : list A) : nat :=
  match l with
  | [] => 0
  | x :: l' => (if p x then 1 else 0) + count_if p l'
  end.

Lemma count_if_app {A} (p : A → bool) l l' : count_if p (l ++ l') = count_if p l + count_if p l'.
Proof. induction l as [|x l IH]; simpl; [done|]. rewrite IH. lia. Qed.

Lemma count_if_none {A} (p : A → bool) l : Forall (λ x, p x = false) l → count_if p l = 0.
Proof. induction 1 as [|x l Hx _ IH]; simpl; [done|]. by rewrite Hx, IH. Qed.

#[export] Hint Rewrite @count_if_app : relay_rw.

Section bound.
Context {St Ev : Type} (step : St → Ev → St) (μ : St → nat) (p : Ev → bool).
Hypothesis Hstep : ∀ s e, μ (step s e) ≤ μ s + (if p e then 1 else 0).

Lemma foldl_bound s es : μ (foldl step s es) ≤ μ s + count_if p es.
Proof.
  revert s. induction es as [|e es IH]; intros s; simpl; [lia|].
  specialize (Hstep s e). specialize (IH (step s e)). lia.
Qed.
End bound.

(** ** Sequences of measures that only go down

    A measure [f] over the steps of an infinite execution that never
    rises from step [n0] on, and that falls whenever a step [P] is taken
    while it is positive, reaches zero when the execution is weakly fair
    to [P]: from any step where [f] is positive, some later step either
    has [f] at zero or takes [P]. *)
Section eventually.
Context (n0 : nat).

Lemma nonincreasing_le (f : nat → nat) :
  (∀ n, n0 ≤ n → f (S n) ≤ f n) → ∀ n m, n0 ≤ n → n ≤ m → f m ≤ f n.
Proof.
  intros Hf n m Hn Hm. induction Hm as [|m Hm IH]; [done|].
  specialize (Hf m ltac:(lia)). lia.
Qed.

Lemma eventually_zero (f : nat → nat) (P : nat → Prop) :
  (∀ n, n0 ≤ n → f (S n) ≤ f n) →
  (∀ n, n0 ≤ n → P n → 0 < f n → f (S n) < f n) →
  (∀ n, n0 ≤ n → 0 < f n → ∃ m, n ≤ m ∧ (f m = 0 ∨ P m)) →
  ∀ n, n0 ≤ n → ∃ m, n ≤ m ∧ f m = 0.
Proof.
  intros Hmono Hdec Hfair n. remember (f n) as k eqn:Hk. revert n Hk.
  induction (lt_wf k) as [k _ IH]. intros n -> Hn.
  destruct (decide (f n = 0)) as [Hz|Hpos]; [by exists n|].
  destruct (Hfair n Hn ltac:(lia)) as (m & Hnm & [Hz|HP]); [by exists m|].
  pose proof (nonincreasing_le f Hmono n m Hn Hnm).
  destruct (decide (f m = 0)) as [Hz|Hpos']; [by exists m|].
  pose proof (Hdec m ltac:(lia) HP ltac:(lia)).
  destruct (IH (f (S m)) ltac:(lia) (S m) eq_refl ltac:(lia)) as (m' & ? & ?).
  exists m'. split; [lia|done].
Qed.

(** Finitely many such measures reach zero together. *)
Lemma eventually_all_zero {I} (l : list I) (f : I → nat → nat) :
  (∀ i n, i ∈ l → n0 ≤ n → f i (S n) ≤ f i n) →
  (∀ i n, i ∈ l → n0 ≤ n → ∃ m, n ≤ m ∧ f i m = 0) →
  ∀ n, n0 ≤ n → ∃ N, n ≤ N ∧ ∀ i, i ∈ l → f i N = 0.
Proof.
  intros Hmono Hev. induction l as [|i l IH]; intros n Hn; [exists n; split; [lia|set_solver]|].
  destruct (IH (λ j k Hj, Hmono j k ltac:(set_solver)) (λ j k Hj, Hev j k ltac:(set_solver)) n Hn)
    as (N & HnN & Hall).
  destruct (Hev i N ltac:(set_solver) ltac:(lia)) as (M & HNM & Hi).
  exists M. split; [lia|]. intros j [->|Hj]%elem_of_cons; [done|].
  pose proof (nonincreasing_le (f j) (λ k Hk, Hmono j k ltac:(set_solver) Hk) N M ltac:(lia) HNM).
  specialize (Hall j Hj). lia.
Qed.
End eventually.
