(* ===== verification/Protocol.v ===== *)
(** * The signaling vocabulary

    The events exchanged between the two JavaScript clients of
    [src/app.py] and the signaling relay.  Client-to-relay messages are the
    [socket.emit] calls of the host page (lines 141, 161, 165) and of the
    viewer page (lines 214, 225, 228); relay-to-client messages are the
    [socket.on] handlers of the two pages (lines 150-178 and 218-237).
    Field names follow the JavaScript objects ([to], [from], [stream_code],
    [viewer_id], [message]).  SDP descriptions and ICE candidates are opaque
    payloads. *)

From S2P Require Import Prelude.

(** Transport connection identities (Socket.IO session ids). *)
Abbreviation ConnId := nat (only parsing).
(** Stream codes and opaque SDP / ICE payloads. *)
Abbreviation Code := string (only parsing).
Abbreviation Payload := string (only parsing).

(** Client to relay: [socket.emit(name, data)]. *)
Inductive ClientMsg : Type :=
| start_stream
| join_stream (stream_code : Code)
| offer (to : ConnId) (sdp : Payload)
| answer (to : ConnId) (sdp : Payload)
| ice_candidate (to : ConnId) (candidate : Payload).

(** Relay to client: the events the pages subscribe to with [socket.on]. *)
Inductive ServerMsg : Type :=
| stream_started (stream_code : Code)
| viewer_joined (viewer_id : ConnId)
| viewer_left (viewer_id : ConnId)
| stream_ended (stream_code : Code)
| offer_from (from : ConnId) (sdp : Payload)
| answer_from (from : ConnId) (sdp : Payload)
| ice_candidate_from (from : ConnId) (candidate : Payload)
| error (message : string).

(** Transport-level events the relay subscribes to. *)
Inductive TransportEvent : Type :=
| ev_connect
| ev_disconnect
| ev_message (m : ClientMsg).

#[export] Instance ClientMsg_eq_dec : EqDecision ClientMsg.
Proof. solve_decision. Defined.
#[export] Instance ServerMsg_eq_dec : EqDecision ServerMsg.
Proof. solve_decision. Defined.
#[export] Instance TransportEvent_eq_dec : EqDecision TransportEvent.
Proof. solve_decision. Defined.

(** The three signaling message kinds the router relays, and the payload
    they carry; [relayed] is the message the target receives. *)
Inductive SignalKind : Type := SigOffer | SigAnswer | SigIce.

#[export] Instance SignalKind_eq_dec : EqDecision SignalKind.
Proof. solve_decision. Defined.

Definition relayed (k : SignalKind) (from : ConnId) (p : Payload) : ServerMsg :=
  match k with
  | SigOffer => offer_from from p
  | SigAnswer => answer_from from p
  | SigIce => ice_candidate_from from p
  end.

(** The signal a client message carries, if it is one. *)
Definition as_signal (m : ClientMsg) : option (SignalKind * ConnId * Payload) :=
  match m with
  | offer t p => Some (SigOffer, t, p)
  | answer t p => Some (SigAnswer, t, p)
  | ice_candidate t p => Some (SigIce, t, p)
  | _ => None
  end.

(** A message of the relay about viewer [v] that the host page's
    listeners act on: its joining and leaving, and its signals. *)
Definition concerns (v : ConnId) (m : ServerMsg) : bool :=
  match m with
  | viewer_joined w | viewer_left w | answer_from w _ | ice_candidate_from w _ => bool_decide (w = v)
  | _ => false
  end.

(** An outbox: messages queued for delivery, each with its recipient. *)
Abbreviation Outbox := (list (ConnId * ServerMsg)).

Notation "c ◃ m" := (@pair ConnId ServerMsg c m) (at level 60) : relay_scope.
