(* ===== verification/CodeGenerator.v ===== *)
(** * CodeGenerator: stream codes, drawn at random and retried on collision

    Specification section 4.1: [generate() -> code] draws a code from an
    alphanumeric space of at least six characters and, on a collision with
    an active session, retries with a new draw.  The randomness source is
    an interface, the type class [CodeSource]; the retry loop is proved
    against it.  The loop is given [S (size active)] draws: when the draws
    of the source are pairwise distinct over that window, one of them is
    fresh by counting, so the fuel is enough.  [CounterSource] is an
    instance (a base-36 counter of six digits) that discharges this. *)

From S2P Require Import Prelude Protocol.
From Stdlib Require Import Ascii.

(** ** The randomness source, an interface *)

Class CodeSource (G : Type) := draw : G → Code * G.

Section Generate.
Context `{CodeSource G}.

(** The first [k] codes the source draws from state [g]. *)
Fixpoint draws (k : nat) (g : G) : list Code :=
  match k with
  | 0 => []
  | S k' => let '(c, g') := draw g in c :: draws k' g'
  end.

(** The retry loop: draw; on a collision with an active code, draw again. *)
Fixpoint generate_aux (fuel : nat) (active : gset Code) (g : G) : option (Code * G) :=
  match fuel with
  | 0 => None
  | S fuel' =>
      let '(c, g') := draw g in
      if bool_decide (c ∈ active) then generate_aux fuel' active g' else Some (c, g')
  end.

Definition generate (active : gset Code) (g : G) : option (Code * G) :=
  generate_aux (S (size active)) active g.

Lemma generate_aux_fresh fuel active g c g' :
  generate_aux fuel active g = Some (c, g') → (c ∉ active) ∧ (c ∈ draws fuel g).
Proof.
  revert g. induction fuel as [|fuel IH]; intros g; simpl; [done|].
  destruct (draw g) as [c0 g0]. case_bool_decide.
  - intros Hgen. destruct (IH _ Hgen). split; [done|]. by right.
  - intros [= -> ->]. split; [done|]. by left.
Qed.

Lemma generate_aux_None fuel active g :
  generate_aux fuel active g = None → ∀ c, c ∈ draws fuel g → c ∈ active.
Proof.
  revert g. induction fuel as [|fuel IH]; intros g; simpl.
  - intros _ c Hc. by apply elem_of_nil in Hc.
  - destruct (draw g) as [c0 g0]. case_bool_decide; [|done].
    intros Hgen c [-> | Hc]%elem_of_cons; [done|]. by eapply IH.
Qed.

Lemma length_draws k g : length (draws k g) = k.
Proof.
  revert g. induction k as [|k IH]; intros g; simpl; [done|].
  destruct (draw g). simpl. by rewrite IH.
Qed.

(** Pigeonhole: [n] distinct codes cannot all lie in a set of fewer. *)
Lemma NoDup_not_all_in (l : list Code) (X : gset Code) :
  NoDup l → size X < length l → ∃ c, c ∈ l ∧ c ∉ X.
Proof.
  intros Hnd Hlt. destruct (decide (Forall (λ c, c ∈ X) l)) as [Hall|Hnot].
  - exfalso. rewrite Forall_forall in Hall.
    assert (list_to_set l ⊆ X) as Hsub.
    { intros c Hc. apply Hall. by apply elem_of_list_to_set in Hc. }
    apply subseteq_size in Hsub. rewrite size_list_to_set in Hsub; [lia|done].
  - apply not_Forall_Exists in Hnot; [|apply _].
    apply Exists_exists in Hnot as (c & Hc & Hn). by exists c.
Qed.
(** a code returned by the generator collides with no active code and
    is one of the source's draws. *)
Theorem generate_fresh active g c g' :
  generate active g = Some (c, g') → (c ∉ active) ∧ (c ∈ draws (S (size active)) g).
Proof. apply generate_aux_fresh. Qed.

(** the retry loop terminates with a code: when the source's first
    [S (size active)] draws are pairwise distinct, [generate] returns a
    fresh code within its fuel. *)
Theorem generate_total active g :
  NoDup (draws (S (size active)) g) → ∃ c g', generate active g = Some (c, g').
Proof.
  intros Hnd. unfold generate.
  destruct (generate_aux _ active g) as [[c g']|] eqn:Hgen; [by eauto|].
  destruct (NoDup_not_all_in _ active Hnd) as (c & Hc & Hn).
  { rewrite length_draws. lia. }
  exfalso. by eapply Hn, generate_aux_None.
Qed.
End Generate.

(** ** A concrete source: a base-36 counter of six digits *)

Definition alphabet : string := "ABCDEFGHIJKLMNOPQRSTUVWXYZ0123456789".
Definition code_length : nat := 6.

Definition char_of (d : nat) : ascii :=
  match String.get d alphabet with Some a => a | None => "A"%char end.

(** The position of a character in [alphabet]. *)
Fixpoint index_in (a : ascii) (s : string) : nat :=
  match s with
  | EmptyString => 0
  | String b s' => if decide (a = b) then 0 else S (index_in a s')
  end.

(** The [k] base-36 digits of [n], most significant first. *)
Fixpoint digits (k n : nat) : list nat :=
  match k with
  | 0 => []
  | S k' => digits k' (n / 36) ++ [n mod 36]
  end.

Definition undigits (l : list nat) : nat := foldl (λ acc d, acc * 36 + d) 0 l.

Definition encode (n : nat) : Code :=
  String.string_of_list_ascii (char_of <$> digits code_length n).

Definition decode (c : Code) : nat :=
  undigits ((λ a, index_in a alphabet) <$> String.list_ascii_of_string c).

#[export] Instance CounterSource : CodeSource nat := λ n, (encode n, S n).

(** A recorded random tape: the draws a run of the relay observed, in
    order (after the tape, the empty code).  Used to replay scenarios. *)
#[export] Instance TapeSource : CodeSource (list Code) := λ t,
  match t with
  | [] => (""%string, [])
  | c :: t' => (c, t')
  end.

(** A code is well formed when it has six characters of [alphabet]. *)
Definition valid_code (c : Code) : Prop :=
  String.length c = code_length ∧
  Forall (λ a, a ∈ String.list_ascii_of_string alphabet) (String.list_ascii_of_string c).

Lemma index_in_char_of d : d < 36 → index_in (char_of d) alphabet = d.
Proof.
  intros Hd. do 36 (destruct d as [|d]; [reflexivity|]). lia.
Qed.

Lemma char_of_in_alphabet d : char_of d ∈ String.list_ascii_of_string alphabet.
Proof.
  unfold char_of. destruct (String.get d alphabet) eqn:E; [|vm_compute; left].
  do 36 (destruct d as [|d]; [simpl in E; injection E as <-; vm_compute;
    repeat (left || right)|]). done.
Qed.

Lemma digits_lt k n : Forall (λ d, d < 36) (digits k n).
Proof.
  revert n. induction k as [|k IH]; intros n; cbn [digits]; [done|].
  apply Forall_app. split; [apply IH|]. constructor; [|done]. apply Nat.mod_upper_bound. lia.
Qed.

Lemma length_digits k n : length (digits k n) = k.
Proof.
  revert n. induction k as [|k IH]; intros n; cbn [digits]; [done|].
  rewrite length_app, IH. simpl. lia.
Qed.

Lemma undigits_digits k n : undigits (digits k n) = n mod 36 ^ k.
Proof.
  revert n. induction k as [|k IH]; intros n; cbn [digits].
  - by rewrite Nat.mod_1_r.
  - unfold undigits in *. rewrite foldl_app. cbn [foldl]. rewrite IH.
    rewrite Nat.pow_succ_r', Nat.Div0.mod_mul_r. lia.
Qed.

Lemma decode_encode n : n < 36 ^ code_length → decode (encode n) = n.
Proof.
  intros Hn. unfold decode, encode.
  rewrite String.list_ascii_of_string_of_list_ascii, <-list_fmap_compose.
  rewrite (list_fmap_ext _ id).
  - rewrite list_fmap_id, undigits_digits. by apply Nat.mod_small.
  - intros i d Hd. apply index_in_char_of.
    eapply (Forall_lookup_1 (λ d, d < 36)); [apply digits_lt|exact Hd].
Qed.

Lemma length_string_of_list_ascii (l : list ascii) :
  String.length (String.string_of_list_ascii l) = length l.
Proof. induction l; simpl; by f_equal. Qed.

Lemma encode_valid n : valid_code (encode n).
Proof.
  split.
  - unfold encode. rewrite length_string_of_list_ascii, length_fmap.
    apply length_digits.
  - unfold encode. rewrite String.list_ascii_of_string_of_list_ascii.
    apply Forall_fmap, Forall_forall. intros d _. apply char_of_in_alphabet.
Qed.

(** Each character of [alphabet] is the digit of its position. *)
Lemma char_of_index_in a : a ∈ String.list_ascii_of_string alphabet → char_of (index_in a alphabet) = a.
Proof.
  intros Ha%list_elem_of_In. vm_compute in Ha.
  repeat destruct Ha as [<-|Ha]; try (vm_compute; reflexivity); done.
Qed.

Lemma index_in_lt a : a ∈ String.list_ascii_of_string alphabet → index_in a alphabet < 36.
Proof.
  intros Ha%list_elem_of_In. vm_compute in Ha.
  repeat destruct Ha as [<-|Ha]; try (vm_compute; lia); done.
Qed.

(** [digits] inverts [undigits] on base-36 digit lists. *)
Lemma digits_undigits l : Forall (λ d, d < 36) l → digits (length l) (undigits l) = l.
Proof.
  induction l as [|d l IH] using rev_ind; intros Hl; [done|].
  apply Forall_app in Hl as [Hl Hd]. rewrite Forall_singleton in Hd.
  rewrite length_app, Nat.add_1_r. cbn [digits].
  assert (Hu : undigits (l ++ [d]) = undigits l * 36 + d) by (unfold undigits; by rewrite foldl_app).
  assert (E1 : (undigits l * 36 + d) / 36 = undigits l)
    by (rewrite Nat.div_add_l, Nat.div_small by lia; lia).
  assert (E2 : (undigits l * 36 + d) mod 36 = d)
    by (rewrite Nat.add_comm, Nat.Div0.mod_add; by apply Nat.mod_small).
  by rewrite Hu, E1, E2, IH.
Qed.

Lemma length_list_ascii_of_string c : length (String.list_ascii_of_string c) = String.length c.
Proof.
  rewrite <- (String.string_of_list_ascii_of_string c) at 2. by rewrite length_string_of_list_ascii.
Qed.

(** The code space has at least 36 codes (computing [36 ^ 6] in unary is
    out of the question, so this is proved by monotonicity). *)
Lemma code_space_large : 36 ≤ 36 ^ code_length.
Proof.
  rewrite <-(Nat.pow_1_r 36) at 1. apply Nat.pow_le_mono_r; unfold code_length; lia.
Qed.

(** decoding then encoding gives back every well-formed code:
    [encode] maps the numbers below [36 ^ 6] onto the well-formed codes,
    and [decode] is its inverse on them. *)
Theorem encode_decode c : valid_code c → encode (decode c) = c.
Proof.
  intros [Hlen Hc]. unfold encode, decode.
  set (l := String.list_ascii_of_string c) in *.
  assert (Hk : code_length = length ((λ a, index_in a alphabet) <$> l))
    by (rewrite length_fmap; unfold l; by rewrite length_list_ascii_of_string).
  rewrite Hk, digits_undigits.
  - rewrite <- list_fmap_compose, (list_fmap_ext _ id), list_fmap_id;
      [apply String.string_of_list_ascii_of_string|].
    intros i a Ha. unfold compose, id. apply char_of_index_in. exact (Forall_lookup_1 _ _ _ _ Hc Ha).
  - apply Forall_fmap, (Forall_impl _ _ _ Hc). intros a. apply index_in_lt.
Qed.

Lemma draws_counter k n : draws k n = encode <$> seq n k.
Proof.
  revert n. induction k as [|k IH]; intros n; simpl; [done|]. by rewrite IH.
Qed.

Lemma draws_counter_NoDup k n : n + k ≤ 36 ^ code_length → NoDup (draws k n).
Proof.
  intros Hk. rewrite draws_counter. apply NoDup_fmap_2_strong; [|apply NoDup_seq].
  intros x y Hx%elem_of_seq Hy%elem_of_seq Heq.
  rewrite <-(decode_encode x), <-(decode_encode y) by lia. by rewrite Heq.
Qed.

(** with the counter source, below the size of the code space, code
    generation always succeeds with a well-formed code of six characters of
    [alphabet] that no active session uses. *)
Theorem counter_generate_ok (active : gset Code) (n : nat) :
  n + S (size active) ≤ 36 ^ code_length →
  ∃ c n', generate active n = Some (c, n') ∧ (c ∉ active) ∧ valid_code c.
Proof.
  intros Hb. destruct (generate_total active n) as (c & n' & Hgen).
  { by apply draws_counter_NoDup. }
  exists c, n'. split; [done|]. split; [by apply generate_fresh in Hgen as []|].
  apply generate_fresh in Hgen as [_ Hin]. rewrite draws_counter in Hin.
  apply list_elem_of_fmap in Hin as (m & -> & _). apply encode_valid.
Qed.

Lemma counter_generate_ok_witness :
  0 + S (size ({["AAAAAA"]} : gset Code)) ≤ 36 ^ code_length ∧
  ∃ c n', generate {["AAAAAA"]} 0 = Some (c, n') ∧ (c ∉ ({["AAAAAA"]} : gset Code)) ∧
    valid_code c.
Proof.
  assert (Hs : size ({["AAAAAA"]} : gset Code) = 1) by reflexivity.
  assert (Hb : 0 + S (size ({["AAAAAA"]} : gset Code)) ≤ 36 ^ code_length)
    by (rewrite Hs; pose proof code_space_large; lia).
  split; [exact Hb | apply (counter_generate_ok {["AAAAAA"]} 0 Hb)].
Defined.

Lemma generate_fresh_witness :
  generate ({["AAAAAA"]} : gset Code) 0 = Some ("AAAAAB", 2) ∧
  ("AAAAAB" ∉ ({["AAAAAA"]} : gset Code)) ∧ ("AAAAAB" ∈ draws 2 0).
Proof.
  assert (Hg : generate ({["AAAAAA"]} : gset Code) 0 = Some ("AAAAAB", 2)) by reflexivity.
  split; [exact Hg | exact (generate_fresh _ _ _ _ Hg)].
Defined.

Lemma generate_total_witness :
  NoDup (draws 2 0) ∧ ∃ c g', generate ({["AAAAAA"]} : gset Code) 0 = Some (c, g').
Proof.
  assert (Hs : size ({["AAAAAA"]} : gset Code) = 1) by reflexivity.
  assert (Hnd : NoDup (draws (S (size ({["AAAAAA"]} : gset Code))) 0))
    by (apply draws_counter_NoDup; rewrite Hs; pose proof code_space_large; lia).
  split; [exact Hnd | exact (generate_total _ _ Hnd)].
Defined.

Lemma encode_decode_witness : valid_code "AB12CD" ∧ encode (decode "AB12CD") = "AB12CD".
Proof.
  assert (H : valid_code "AB12CD") by (split; [reflexivity|]; apply (bool_decide_unpack _); vm_compute; reflexivity).
  split; [exact H|exact (encode_decode _ H)].
Defined.
