(* ===== verification/SessionRegistry.v ===== *)
(** * SessionRegistry: the table of active streams

    Specification sections 3 (StreamSession) and 4.2.  The registry maps a
    stream code to its session: the code, the host's connection id and the
    set of joined viewers (a [gset]: unordered, no duplicates).  Each
    operation returns its new table, and the fallible ones a [result].
    [createSession] draws its code from the [CodeGenerator].

    The registry's own invariant [reg_wf]: each session is stored under its
    own code, and no connection hosts two sessions.  Its abstract
    specification is the set of live codes: [createSession] adds the code it
    returns, [destroySession] removes its code, the viewer operations leave
    the set alone. *)

From S2P Require Import Prelude Protocol CodeGenerator.

Module SessionRegistry.

Record Session : Type := mkSession {
  code : Code;
  hostConnectionId : ConnId;
  viewerConnectionIds : gset ConnId
}.

Abbreviation Registry := (gmap Code Session).

Inductive RegistryError : Type :=
| AlreadyHosting
| NotFound
| CodeSpaceExhausted.

#[export] Instance RegistryError_eq_dec : EqDecision RegistryError.
Proof. solve_decision. Defined.

Definition with_viewers (s : Session) (vs : gset ConnId) : Session :=
  mkSession (code s) (hostConnectionId s) vs.

(** Does [h] already own a session? *)
Definition hosting (reg : Registry) (h : ConnId) : bool :=
  bool_decide (map_Exists (λ _ s, hostConnectionId s = h) reg).

(** [createSession(hostConnectionId) -> code]: fails with [AlreadyHosting]
    when the connection already owns a session; otherwise draws a code that
    no active session uses and stores an empty session under it.  The error
    [CodeSpaceExhausted] is the generator giving up within its fuel. *)
Definition createSession `{CodeSource G} (reg : Registry) (g : G) (h : ConnId)
    : result RegistryError (Code * Registry * G) :=
  assert? negb (hosting reg h) else AlreadyHosting ;;
  match generate (dom reg) g with
  | None => Err CodeSpaceExhausted
  | Some (c, g') => Ok (c, <[c := mkSession c h ∅]> reg, g')
  end.

(** [getSession(code) -> StreamSession | NotFound]. *)
Definition getSession (reg : Registry) (c : Code) : result RegistryError Session :=
  match reg !! c with
  | Some s => Ok s
  | None => Err NotFound
  end.

(** [addViewer(code, viewerConnectionId) -> ok | NotFound]. *)
Definition addViewer (reg : Registry) (c : Code) (v : ConnId) : result RegistryError Registry :=
  s ←? getSession reg c ;;
  Ok (<[c := with_viewers s (viewerConnectionIds s ∪ {[v]})]> reg).

(** [removeViewer(code, viewerConnectionId)]: idempotent, a no-op when the
    session is absent. *)
Definition removeViewer (reg : Registry) (c : Code) (v : ConnId) : Registry :=
  match reg !! c with
  | Some s => <[c := with_viewers s (viewerConnectionIds s ∖ {[v]})]> reg
  | None => reg
  end.

(** [destroySession(code) -> former viewer ids]: removes the session and
    returns its viewers, so the caller can notify them. *)
Definition destroySession (reg : Registry) (c : Code) : Registry * list ConnId :=
  match reg !! c with
  | Some s => (delete c reg, elements (viewerConnectionIds s))
  | None => (reg, [])
  end.

(** ** The registry's invariant *)

Definition reg_wf (reg : Registry) : Prop :=
  (∀ c s, reg !! c = Some s → code s = c) ∧
  (∀ c1 c2 s1 s2, reg !! c1 = Some s1 → reg !! c2 = Some s2 →
     hostConnectionId s1 = hostConnectionId s2 → c1 = c2).

Lemma hosting_spec reg h :
  hosting reg h = true ↔ ∃ c s, reg !! c = Some s ∧ hostConnectionId s = h.
Proof. unfold hosting. by rewrite bool_decide_eq_true. Qed.

Lemma hosting_false reg h c s :
  hosting reg h = false → reg !! c = Some s → hostConnectionId s ≠ h.
Proof.
  intros Hh Hc Heq. assert (hosting reg h = true); [|congruence].
  apply hosting_spec. eauto.
Qed.

Lemma getSession_Ok reg c s : getSession reg c = Ok s ↔ reg !! c = Some s.
Proof. unfold getSession. destruct (reg !! c); split; congruence. Qed.

Lemma createSession_Ok `{CodeSource G} reg (g : G) h c reg' g' :
  createSession reg g h = Ok (c, reg', g') →
  hosting reg h = false ∧ generate (dom reg) g = Some (c, g') ∧
  reg' = <[c := mkSession c h ∅]> reg.
Proof.
  unfold createSession. destruct (hosting reg h); simpl; [discriminate|].
  destruct (generate _ _) as [[c0 g0]|]; [|discriminate]. intros [= <- <- <-]. auto.
Qed.

Lemma createSession_fresh `{CodeSource G} reg (g : G) h c reg' g' :
  createSession reg g h = Ok (c, reg', g') → reg !! c = None.
Proof.
  intros (_ & Hgen & _)%createSession_Ok. apply generate_fresh in Hgen as [Hn _].
  by apply not_elem_of_dom.
Qed.

Lemma addViewer_Ok reg c v reg' :
  addViewer reg c v = Ok reg' →
  ∃ s, reg !! c = Some s ∧
       reg' = <[c := with_viewers s (viewerConnectionIds s ∪ {[v]})]> reg.
Proof.
  unfold addViewer. intros Hadd. destruct_results. apply getSession_Ok in Ha. eauto.
Qed.

Lemma addViewer_Err reg c v e :
  addViewer reg c v = Err e ↔ reg !! c = None ∧ e = NotFound.
Proof.
  unfold addViewer, getSession. destruct (reg !! c); simpl; split; naive_solver.
Qed.

#[export] Hint Resolve createSession_fresh : relay.

(** ** The invariant is preserved by every operation *)

(** creating a session keeps each session under its own code and no
    host owning two sessions (the [AlreadyHosting] guard is what keeps the
    second conjunct). *)
Theorem createSession_wf `{CodeSource G} reg (g : G) h c reg' g' :
  reg_wf reg → createSession reg g h = Ok (c, reg', g') → reg_wf reg'.
Proof.
  intros [Hcode Huniq] Hcr. pose proof (createSession_fresh _ _ _ _ _ _ Hcr) as Hfresh.
  apply createSession_Ok in Hcr as (Hh & _ & ->). split.
  - intros c' s' [[<- <-]|[_ Hs]]%lookup_insert_Some; [done|]. by apply Hcode.
  - intros c1 c2 s1 s2 [[<- <-]|[? H1]]%lookup_insert_Some
      [[<- <-]|[? H2]]%lookup_insert_Some; simpl; intros Heq; [done|..].
    + exfalso. by apply (hosting_false _ _ _ _ Hh H2).
    + exfalso. by apply (hosting_false _ _ _ _ Hh H1).
    + by apply (Huniq c1 c2 s1 s2).
Qed.

(** Replacing the viewer set of a stored session keeps the invariant. *)
Lemma with_viewers_wf reg c s vs :
  reg_wf reg → reg !! c = Some s → reg_wf (<[c := with_viewers s vs]> reg).
Proof.
  intros [Hcode Huniq] Hs. split.
  - intros c' s' [[<- <-]|[_ Hs']]%lookup_insert_Some; [simpl; by apply Hcode|]. by apply Hcode.
  - intros c1 c2 s1 s2 [[<- <-]|[? H1]]%lookup_insert_Some
      [[<- <-]|[? H2]]%lookup_insert_Some; simpl; intros Heq; [done|..];
      eapply Huniq; eauto.
Qed.

Lemma addViewer_wf reg c v reg' :
  reg_wf reg → addViewer reg c v = Ok reg' → reg_wf reg'.
Proof. intros Hwf (s & Hs & ->)%addViewer_Ok. by apply with_viewers_wf. Qed.

Lemma removeViewer_wf reg c v : reg_wf reg → reg_wf (removeViewer reg c v).
Proof.
  intros Hwf. unfold removeViewer. destruct (reg !! c) eqn:Hs; [|done].
  by apply with_viewers_wf.
Qed.

Lemma destroySession_wf reg c : reg_wf reg → reg_wf (destroySession reg c).1.
Proof.
  intros [Hcode Huniq]. unfold destroySession. destruct (reg !! c); simpl; [|done].
  split.
  - intros c' s' [_ Hs]%lookup_delete_Some. by apply Hcode.
  - intros c1 c2 s1 s2 [_ H1]%lookup_delete_Some [_ H2]%lookup_delete_Some. eauto.
Qed.

(** ** Abstract specification: the set of live codes *)

(** The calls the specification's first testable property quantifies over,
    and what each observably did. *)
Inductive RegOp : Type :=
| OpCreate (h : ConnId)
| OpDestroy (c : Code).

Inductive RegEvent : Type :=
| Created (c : Code)
| Destroyed (c : Code)
| Rejected (e : RegistryError).

(** Run a sequence of calls, recording the codes issued and destroyed. *)
Fixpoint run_ops `{CodeSource G} (reg : Registry) (g : G) (ops : list RegOp)
    : Registry * G * list RegEvent :=
  match ops with
  | [] => (reg, g, [])
  | OpCreate h :: ops' =>
      match createSession reg g h with
      | Ok (c, reg', g') =>
          let '(r, g'', tr) := run_ops reg' g' ops' in (r, g'', Created c :: tr)
      | Err e => let '(r, g'', tr) := run_ops reg g ops' in (r, g'', Rejected e :: tr)
      end
  | OpDestroy c :: ops' =>
      let '(r, g'', tr) := run_ops (destroySession reg c).1 g ops' in
      (r, g'', Destroyed c :: tr)
  end.

(** The abstract registry: codes created and not yet destroyed. *)
Definition abs_step (live : gset Code) (ev : RegEvent) : gset Code :=
  match ev with
  | Created c => {[c]} ∪ live
  | Destroyed c => live ∖ {[c]}
  | Rejected _ => live
  end.

Definition live_codes (live : gset Code) (tr : list RegEvent) : gset Code :=
  foldl abs_step live tr.

Lemma createSession_dom `{CodeSource G} reg (g : G) h c reg' g' :
  createSession reg g h = Ok (c, reg', g') → dom reg' = {[c]} ∪ dom reg.
Proof. intros (_ & _ & ->)%createSession_Ok. apply dom_insert_L. Qed.

Lemma destroySession_dom reg c : dom (destroySession reg c).1 = dom reg ∖ {[c]}.
Proof.
  unfold destroySession. destruct (reg !! c) eqn:Hc; simpl; [apply dom_delete_L|].
  apply not_elem_of_dom in Hc. set_solver.
Qed.

(** refinement.  After any sequence of createSession / destroySession
    calls, [getSession] succeeds on exactly the codes the abstract registry
    holds: those created and not yet destroyed. *)
Theorem run_ops_refines `{CodeSource G} (ops : list RegOp) reg (g : G) :
  let '(r, _, tr) := run_ops reg g ops in
  ∀ c, is_ok (getSession r c) = true ↔ c ∈ live_codes (dom reg) tr.
Proof.
  revert reg g. induction ops as [|[h|c0] ops IH]; intros reg g; simpl.
  - intros c. unfold getSession. rewrite elem_of_dom.
    destruct (reg !! c); simpl; split; intros; by try destruct H.
  - destruct (createSession reg g h) as [[[c reg'] g']|e] eqn:Hcr.
    + specialize (IH reg' g'). destruct (run_ops reg' g' ops) as [[r g''] tr].
      intros c'. rewrite IH. unfold live_codes. simpl.
      by erewrite createSession_dom by done.
    + specialize (IH reg g). destruct (run_ops reg g ops) as [[r g''] tr]. done.
  - specialize (IH (destroySession reg c0).1 g).
    destruct (run_ops _ g ops) as [[r g''] tr].
    intros c'. rewrite IH. unfold live_codes. simpl. by rewrite destroySession_dom.
Qed.

Lemma reg_wf_empty : reg_wf ∅.
Proof. split; intros *; rewrite ?lookup_empty; done. Qed.

Lemma createSession_wf_witness :
  reg_wf ∅ ∧
  createSession ∅ ["AB12CD"] 1 = Ok ("AB12CD", {["AB12CD" := mkSession "AB12CD" 1 ∅]}, []) ∧
  reg_wf {["AB12CD" := mkSession "AB12CD" 1 ∅]}.
Proof.
  assert (Hc : createSession ∅ ["AB12CD"] 1 =
                 Ok ("AB12CD", {["AB12CD" := mkSession "AB12CD" 1 ∅]}, [])) by reflexivity.
  split; [exact reg_wf_empty|split; [exact Hc|exact (createSession_wf _ _ _ _ _ _ reg_wf_empty Hc)]].
Defined.
End SessionRegistry.
