(* ===== verification/ConnectionTracker.v ===== *)
(** * ConnectionTracker: the role of every live connection

    Specification sections 3 (Connection) and 4.3.  The tracker maps each
    live connection to its role: [Unassigned] on connect, then [Host code]
    or [Viewer code], set exactly once by [setHost] / [setViewer] (a second
    assignment fails with [AlreadyAssigned]).  [unregister] removes the
    record on disconnect and returns the prior role.  [clearAssociation]
    is the demotion the lifecycle applies to the viewers of a torn-down
    session (specification 4.5: "each viewer's ConnectionTracker record,
    if still present, is cleared"). *)

From S2P Require Import Prelude Protocol.

Module ConnectionTracker.

Inductive Role : Type :=
| Unassigned
| Host (c : Code)
| Viewer (c : Code).

#[export] Instance Role_eq_dec : EqDecision Role.
Proof. solve_decision. Defined.

Abbreviation Tracker := (gmap ConnId Role).

Inductive TrackerError : Type :=
| AlreadyAssigned
| NotFound.

#[export] Instance TrackerError_eq_dec : EqDecision TrackerError.
Proof. solve_decision. Defined.

(** [register(connectionId)]: a new connection starts unassigned. *)
Definition register (t : Tracker) (id : ConnId) : Tracker := <[id := Unassigned]> t.

(** Assign a role, only from [Unassigned]. *)
Definition setRole (t : Tracker) (id : ConnId) (r : Role) : result TrackerError Tracker :=
  match t !! id with
  | Some Unassigned => Ok (<[id := r]> t)
  | Some _ => Err AlreadyAssigned
  | None => Err NotFound
  end.

Definition setHost (t : Tracker) (id : ConnId) (c : Code) : result TrackerError Tracker :=
  setRole t id (Host c).

Definition setViewer (t : Tracker) (id : ConnId) (c : Code) : result TrackerError Tracker :=
  setRole t id (Viewer c).

(** [lookup(connectionId) -> {role, associatedCode} | NotFound]. *)
Definition lookup (t : Tracker) (id : ConnId) : result TrackerError Role :=
  match t !! id with
  | Some r => Ok r
  | None => Err NotFound
  end.

(** [unregister(connectionId) -> {role, associatedCode}]: return the prior
    state, then remove the record. *)
Definition unregister (t : Tracker) (id : ConnId) : result TrackerError (Role * Tracker) :=
  match t !! id with
  | Some r => Ok (r, delete id t)
  | None => Err NotFound
  end.

(** Clear the association of a connection, if it is still present. *)
Definition clearAssociation (t : Tracker) (id : ConnId) : Tracker :=
  match t !! id with
  | Some _ => <[id := Unassigned]> t
  | None => t
  end.

Definition clearAll (t : Tracker) (ids : list ConnId) : Tracker :=
  foldl clearAssociation t ids.

(** The code a role refers to. *)
Definition associatedCode (r : Role) : option Code :=
  match r with
  | Unassigned => None
  | Host c | Viewer c => Some c
  end.

(** ** Behaviour of the operations *)

Lemma setRole_Ok t id r t' :
  setRole t id r = Ok t' ↔ t !! id = Some Unassigned ∧ t' = <[id := r]> t.
Proof.
  unfold setRole. destruct (t !! id) as [[]|]; split; intros; naive_solver.
Qed.

Lemma setRole_Err t id r e :
  setRole t id r = Err e ↔
  (t !! id = None ∧ e = NotFound) ∨
  (∃ r0, t !! id = Some r0 ∧ r0 ≠ Unassigned ∧ e = AlreadyAssigned).
Proof.
  unfold setRole. destruct (t !! id) as [[]|]; split; intros; naive_solver.
Qed.

Lemma lookup_Ok t id r : lookup t id = Ok r ↔ t !! id = Some r.
Proof. unfold lookup. destruct (t !! id); split; congruence. Qed.

Lemma unregister_Ok t id r t' :
  unregister t id = Ok (r, t') ↔ t !! id = Some r ∧ t' = delete id t.
Proof. unfold unregister. destruct (t !! id); split; naive_solver. Qed.

Lemma clearAssociation_lookup t id j :
  clearAssociation t id !! j =
    if decide (id = j) then (λ _, Unassigned) <$> t !! j else t !! j.
Proof.
  unfold clearAssociation. destruct (t !! id) eqn:Hid; case_decide; subst.
  - by rewrite lookup_insert_eq, Hid.
  - by rewrite lookup_insert_ne.
  - by rewrite Hid.
  - done.
Qed.

(** After clearing a list of connections, each of them is unassigned or
    gone, and every other record is untouched. *)
Lemma clearAll_lookup t ids j :
  clearAll t ids !! j = if decide (j ∈ ids) then (λ _, Unassigned) <$> t !! j else t !! j.
Proof.
  unfold clearAll. revert t. induction ids as [|i ids IH]; intros t; cbn [foldl].
  - rewrite decide_False; [done|]. apply not_elem_of_nil.
  - rewrite IH, !clearAssociation_lookup.
    destruct (t !! j); repeat case_decide; subst; try done; exfalso; set_solver.
Qed.

Lemma clearAll_dom t ids : dom (clearAll t ids) = dom t.
Proof.
  apply set_eq. intros j. rewrite !elem_of_dom, clearAll_lookup.
  case_decide; [destruct (t !! j); simpl|]; done.
Qed.

#[export] Hint Resolve setRole_Ok lookup_Ok : relay.
End ConnectionTracker.
