(* ===== verification/SignalingRouter.v ===== *)
(** * SignalingRouter: authorised, verbatim relay of signaling payloads

    Specification section 4.4.  [route] checks that the sender and the
    target are counterparts in one active session (the host of the session
    and one of its joined viewers, in either direction) and then produces
    the message the target receives: the sender's id and the payload,
    unmodified.  Otherwise it fails with [UnauthorizedRelay] and nothing is
    produced for the target.  Notifications are best-effort: [deliver]
    appends to the outbox only when the recipient is still connected, and
    is a no-op otherwise (section 5: "notification delivery to a transport
    that has just disconnected must be a no-op"). *)

From S2P Require Import Prelude Protocol SessionRegistry ConnectionTracker.

Module SignalingRouter.
Import SessionRegistry ConnectionTracker.

Inductive RouteError : Type := UnauthorizedRelay.

(** Are [sender] and [target] the two ends of one active session? *)
Definition counterparts (reg : Registry) (t : Tracker) (sender target : ConnId) : bool :=
  match t !! sender with
  | Some (Host c) =>
      match reg !! c with
      | Some s => bool_decide (hostConnectionId s = sender ∧ target ∈ viewerConnectionIds s)
      | None => false
      end
  | Some (Viewer c) =>
      match reg !! c with
      | Some s => bool_decide (sender ∈ viewerConnectionIds s ∧ hostConnectionId s = target)
      | None => false
      end
  | _ => false
  end.

(** [route(sender, messageType, target, payload)]: the addressed message to
    deliver, or [UnauthorizedRelay].  The payload is not inspected. *)
Definition route (reg : Registry) (t : Tracker) (sender : ConnId) (k : SignalKind)
    (target : ConnId) (p : Payload) : result RouteError (ConnId * ServerMsg) :=
  if counterparts reg t sender target
  then Ok (target ◃ relayed k sender p)
  else Err UnauthorizedRelay.

(** Best-effort delivery: a send to a connection that is gone is dropped. *)
Definition deliver (t : Tracker) (o : Outbox) (to : ConnId) (m : ServerMsg) : Outbox :=
  if bool_decide (to ∈ dom t) then o ++ [to ◃ m] else o.

Definition notifyStreamStarted (t : Tracker) (o : Outbox) (h : ConnId) (c : Code) : Outbox :=
  deliver t o h (stream_started c).

Definition notifyViewerJoined (t : Tracker) (o : Outbox) (h v : ConnId) : Outbox :=
  deliver t o h (viewer_joined v).

Definition notifyViewerLeft (t : Tracker) (o : Outbox) (h v : ConnId) : Outbox :=
  deliver t o h (viewer_left v).

(** One [stream_ended] to each former viewer, in the order given. *)
Definition notifyStreamEnded (t : Tracker) (o : Outbox) (c : Code) (vs : list ConnId) : Outbox :=
  foldl (λ o v, deliver t o v (stream_ended c)) o vs.

(** ** Lemmas *)

Lemma counterparts_spec reg t sender target :
  counterparts reg t sender target = true ↔
  ∃ c s, reg !! c = Some s ∧
    ((t !! sender = Some (Host c) ∧ hostConnectionId s = sender ∧
        target ∈ viewerConnectionIds s) ∨
     (t !! sender = Some (Viewer c) ∧ sender ∈ viewerConnectionIds s ∧
        hostConnectionId s = target)).
Proof.
  unfold counterparts. split.
  - destruct (t !! sender) as [[|c|c]|] eqn:Ht; [done| | |done];
      destruct (reg !! c) as [s|] eqn:Hs; try done;
      rewrite bool_decide_eq_true; intros; exists c, s; naive_solver.
  - intros (c & s & Hs & [(-> & ? & ?)|(-> & ? & ?)]); rewrite Hs;
      by apply bool_decide_eq_true.
Qed.

Lemma route_Ok reg t sender k target p out :
  route reg t sender k target p = Ok out ↔
  counterparts reg t sender target = true ∧ out = (target, relayed k sender p).
Proof. unfold route. destruct (counterparts _ _ _ _); naive_solver. Qed.

Lemma route_Err reg t sender k target p e :
  route reg t sender k target p = Err e ↔ counterparts reg t sender target = false.
Proof. unfold route. destruct (counterparts _ _ _ _), e; naive_solver. Qed.

Lemma deliver_live t o to m : to ∈ dom t → deliver t o to m = o ++ [to ◃ m].
Proof. intros. unfold deliver. by rewrite bool_decide_eq_true_2. Qed.

Lemma deliver_gone t o to m : to ∉ dom t → deliver t o to m = o.
Proof. intros. unfold deliver. by rewrite bool_decide_eq_false_2. Qed.

(** What [deliver] adds for a recipient: the message, when it is live. *)
Lemma addressed_to_deliver t o to m a :
  addressed_to a (deliver t o to m) =
    addressed_to a o ++ (if bool_decide (to = a ∧ to ∈ dom t) then [m] else []).
Proof.
  unfold deliver. destruct (decide (to = a)) as [->|Hne].
  - case_bool_decide as Hl.
    + rewrite bool_decide_eq_true_2 by done.
      by rewrite addressed_to_app, addressed_to_cons_eq.
    + rewrite bool_decide_eq_false_2 by naive_solver. by rewrite app_nil_r.
  - rewrite (bool_decide_eq_false_2 (to = a ∧ _)) by naive_solver. rewrite app_nil_r.
    case_bool_decide; [|done]. by rewrite addressed_to_app, addressed_to_cons_ne, app_nil_r.
Qed.

Lemma notifyStreamEnded_prefix t o c vs : ∃ o', notifyStreamEnded t o c vs = o ++ o'.
Proof.
  unfold notifyStreamEnded. revert o. induction vs as [|v vs IH]; intros o; simpl.
  - exists []. by rewrite app_nil_r.
  - destruct (IH (deliver t o v (stream_ended c))) as [o' ->]. unfold deliver.
    case_bool_decide; [exists ([v ◃ stream_ended c] ++ o')|exists o'];
      by rewrite ?app_assoc.
Qed.

#[export] Hint Resolve deliver_live deliver_gone : relay.
End SignalingRouter.
