(* ===== verification/Lifecycle.v ===== *)
(** * Lifecycle: the relay as a whole

    Specification sections 4.5, 5 and 7.  The relay's state is a record of
    the session table ([SessionRegistry]), the role table
    ([ConnectionTracker]), the outbox of messages sent so far and the state
    of the code source.  Each transport event of a connection has a handler:
    [onConnect], [onStartStream], [onJoinStream], [onRelay] (offer, answer,
    ICE candidate) and [onDisconnect], which composes the components the
    way section 4.5 orders them.  A handler that fails returns an error
    value; [dispatch] turns it into an [error] message to the requester and
    leaves the tables unchanged (section 7: failures are scoped to the
    offending connection).

    Concurrency (section 5) is modelled by atomic handlers: every mutation
    of one event happens in one [dispatch], and an execution is any
    interleaving of events ([relay_step], [reachable]).  The per-code
    critical section of the specification makes this the observable
    behaviour. *)

From S2P Require Import Prelude Protocol CodeGenerator SessionRegistry ConnectionTracker SignalingRouter.

Module Lifecycle.
Import SessionRegistry ConnectionTracker SignalingRouter.

(** The errors surfaced to a requester (section 7). *)
Inductive LifecycleError : Type :=
| E_AlreadyHosting
| E_AlreadyAssigned
| E_InvalidCode
| E_UnauthorizedRelay
| E_NotConnected
| E_CodeSpaceExhausted.

#[export] Instance LifecycleError_eq_dec : EqDecision LifecycleError.
Proof. solve_decision. Defined.

Definition lift_reg (e : RegistryError) : LifecycleError :=
  match e with
  | AlreadyHosting => E_AlreadyHosting
  | SessionRegistry.NotFound => E_InvalidCode
  | CodeSpaceExhausted => E_CodeSpaceExhausted
  end.

Definition lift_trk (e : TrackerError) : LifecycleError :=
  match e with
  | AlreadyAssigned => E_AlreadyAssigned
  | ConnectionTracker.NotFound => E_NotConnected
  end.

(** The text of the [error] message sent to the requester. *)
Definition error_message (e : LifecycleError) : string :=
  match e with
  | E_AlreadyHosting => "already hosting a stream"
  | E_AlreadyAssigned => "already in a stream"
  | E_InvalidCode => "invalid or ended stream code"
  | E_UnauthorizedRelay => "relay rejected"
  | E_NotConnected => "not connected"
  | E_CodeSpaceExhausted => "no stream code available"
  end.

Section Relay.
Context `{CodeSource G}.

Record Relay : Type := mkRelay {
  reg : Registry;
  conns : Tracker;
  outbox : Outbox;
  gen : G
}.

Definition init (g : G) : Relay := mkRelay ∅ ∅ [] g.

(** A new transport connection is registered unassigned. *)
Definition onConnect (st : Relay) (c : ConnId) : Relay :=
  if bool_decide (c ∈ dom (conns st)) then st
  else mkRelay (reg st) (register (conns st) c) (outbox st) (gen st).

(** [onStartStream]: requires Unassigned; createSession, setHost, then
    notifyStreamStarted. *)
Definition onStartStream (st : Relay) (c : ConnId) : result LifecycleError Relay :=
  role ←? map_err lift_trk (lookup (conns st) c) ;;
  assert? bool_decide (role = Unassigned) else E_AlreadyHosting ;;
  created ←? map_err lift_reg (createSession (reg st) (gen st) c) ;;
  let '(code, reg', g') := created in
  conns' ←? map_err lift_trk (setHost (conns st) c code) ;;
  Ok (mkRelay reg' conns' (notifyStreamStarted conns' (outbox st) c code) g').

(** [onJoinStream]: requires Unassigned; addViewer (NotFound surfaces as
    InvalidCode), setViewer, then notifyViewerJoined to the host. *)
Definition onJoinStream (st : Relay) (c : ConnId) (code : Code) : result LifecycleError Relay :=
  role ←? map_err lift_trk (lookup (conns st) c) ;;
  assert? bool_decide (role = Unassigned) else E_AlreadyAssigned ;;
  reg' ←? map_err lift_reg (addViewer (reg st) code c) ;;
  conns' ←? map_err lift_trk (setViewer (conns st) c code) ;;
  s ←? map_err lift_reg (getSession reg' code) ;;
  Ok (mkRelay reg' conns' (notifyViewerJoined conns' (outbox st) (hostConnectionId s) c)
       (gen st)).

(** Offer, answer and ICE candidate: route, then deliver to the target. *)
Definition onRelay (st : Relay) (c : ConnId) (k : SignalKind) (target : ConnId)
    (p : Payload) : result LifecycleError Relay :=
  msg ←? map_err (λ _, E_UnauthorizedRelay) (route (reg st) (conns st) c k target p) ;;
  Ok (mkRelay (reg st) (conns st) (deliver (conns st) (outbox st) msg.1 msg.2) (gen st)).

(** [onDisconnect]: unregister, then clean up according to the prior role. *)
Definition onDisconnect (st : Relay) (c : ConnId) : Relay :=
  match unregister (conns st) c with
  | Err _ => st
  | Ok (role, conns') =>
      match role with
      | Unassigned => mkRelay (reg st) conns' (outbox st) (gen st)
      | Host code =>
          let '(reg', viewers) := destroySession (reg st) code in
          mkRelay reg' (clearAll conns' viewers)
            (notifyStreamEnded conns' (outbox st) code viewers) (gen st)
      | Viewer code =>
          let reg' := removeViewer (reg st) code c in
          let out' :=
            match reg' !! code with
            | Some s => notifyViewerLeft conns' (outbox st) (hostConnectionId s) c
            | None => outbox st
            end in
          mkRelay reg' conns' out' (gen st)
      end
  end.

Definition onMessage (st : Relay) (c : ConnId) (m : ClientMsg) : result LifecycleError Relay :=
  match m with
  | start_stream => onStartStream st c
  | join_stream code => onJoinStream st c code
  | offer t p => onRelay st c SigOffer t p
  | answer t p => onRelay st c SigAnswer t p
  | ice_candidate t p => onRelay st c SigIce t p
  end.

(** One event of one connection, processed atomically. *)
Definition dispatch (st : Relay) (c : ConnId) (ev : TransportEvent) : Relay :=
  match ev with
  | ev_connect => onConnect st c
  | ev_disconnect => onDisconnect st c
  | ev_message m =>
      match onMessage st c m with
      | Ok st' => st'
      | Err e => mkRelay (reg st) (conns st)
                   (deliver (conns st) (outbox st) c (error (error_message e))) (gen st)
      end
  end.

(** A sequence of events, in the order the relay processes them. *)
Definition run (st : Relay) (evs : list (ConnId * TransportEvent)) : Relay :=
  foldl (λ st ce, dispatch st ce.1 ce.2) st evs.

Inductive relay_step : Relay → Relay → Prop :=
| step_event st c ev : relay_step st (dispatch st c ev).

Definition reachable (g0 : G) (st : Relay) : Prop := rtc relay_step (init g0) st.

(** ** The relay's invariant *)

(** The two tables agree (section 3, relationship invariants): every
    session's host is tracked as its [Host], every joined viewer as its
    [Viewer]; conversely every [Host] or [Viewer] role points at a live
    session that lists the connection.  The last two fields are "no
    dangling references". *)
Record tables_wf (r : Registry) (t : Tracker) : Prop := {
  wf_reg : reg_wf r;
  wf_host_tracked : ∀ code s, r !! code = Some s →
    t !! hostConnectionId s = Some (Host code);
  wf_viewer_tracked : ∀ code s v, r !! code = Some s → v ∈ viewerConnectionIds s →
    t !! v = Some (Viewer code);
  wf_host_backed : ∀ c code, t !! c = Some (Host code) →
    ∃ s, r !! code = Some s ∧ hostConnectionId s = c;
  wf_viewer_backed : ∀ c code, t !! c = Some (Viewer code) →
    ∃ s, r !! code = Some s ∧ c ∈ viewerConnectionIds s
}.

Definition relay_wf (st : Relay) : Prop := tables_wf (reg st) (conns st).

Lemma init_wf g : relay_wf (init g).
Proof. split; [split|..]; intros *; rewrite ?lookup_empty; done. Qed.

(** Close the goals left once every table has been rewritten into inserts
    and deletes of the old ones. *)
Ltac wf_solve :=
  repeat match goal with
  | H : <[_:=_]> _ !! _ = Some _ |- _ => apply lookup_insert_Some in H
  | H : delete _ _ !! _ = Some _ |- _ => apply lookup_delete_Some in H
  | |- <[_:=_]> _ !! _ = Some _ => apply lookup_insert_Some
  | |- delete _ _ !! _ = Some _ => apply lookup_delete_Some
  end; simpl in *; naive_solver.

Lemma onConnect_wf st c : relay_wf st → relay_wf (onConnect st c).
Proof.
  intros Hwf. unfold onConnect. case_bool_decide as Hc; [done|].
  apply not_elem_of_dom in Hc. destruct Hwf as [Hr Hh Hv Hhb Hvb].
  unfold relay_wf, register; simpl. split; [done|..].
  - intros code s Hs. pose proof (Hh _ _ Hs). wf_solve.
  - intros code s v Hs Hin. pose proof (Hv _ _ _ Hs Hin). wf_solve.
  - intros c' code Hc'. apply lookup_insert_Some in Hc' as [[_ ?]|[_ ?]]; [done|eauto].
  - intros c' code Hc'. apply lookup_insert_Some in Hc' as [[_ ?]|[_ ?]]; [done|eauto].
Qed.

(** Starting a stream: a fresh session hosted by an unassigned connection. *)
Lemma tables_wf_start r t c code :
  tables_wf r t → reg_wf (<[code := mkSession code c ∅]> r) →
  t !! c = Some Unassigned → r !! code = None →
  tables_wf (<[code := mkSession code c ∅]> r) (<[c := Host code]> t).
Proof.
  intros [Hr Hh Hv Hhb Hvb] Hr' Hc Hfresh. split; [done|..].
  - intros code' s' Hs'. apply lookup_insert_Some in Hs' as [[<- <-]|[? Hs']];
      [by rewrite lookup_insert_eq|]. pose proof (Hh _ _ Hs'). wf_solve.
  - intros code' s' v Hs' Hin. apply lookup_insert_Some in Hs' as [[<- <-]|[? Hs']];
      [set_solver|]. pose proof (Hv _ _ _ Hs' Hin). wf_solve.
  - intros c' code' Hc'. apply lookup_insert_Some in Hc' as [[<- [= <-]]|[? Hc']].
    + exists (mkSession code c ∅). by rewrite lookup_insert_eq.
    + destruct (Hhb _ _ Hc') as (s' & Hs' & Hhost). exists s'.
      rewrite lookup_insert_ne; [done|congruence].
  - intros c' code' Hc'. apply lookup_insert_Some in Hc' as [[_ ?]|[? Hc']]; [done|].
    destruct (Hvb _ _ Hc') as (s' & Hs' & Hin). exists s'.
    rewrite lookup_insert_ne; [done|congruence].
Qed.

Lemma onStartStream_Ok st c st' :
  onStartStream st c = Ok st' →
  ∃ code, conns st !! c = Some Unassigned ∧
    createSession (reg st) (gen st) c = Ok (code, reg st', gen st') ∧
    conns st' = <[c := Host code]> (conns st) ∧
    outbox st' = notifyStreamStarted (conns st') (outbox st) c code.
Proof.
  unfold onStartStream. destruct (lookup (conns st) c) as [role|] eqn:Hl; simpl; [|done].
  case_bool_decide; [subst|done]. apply lookup_Ok in Hl.
  destruct (createSession _ _ _) as [[[code reg'] g']|] eqn:Hcr; simpl; [|done].
  destruct (setHost _ _ _) as [t'|] eqn:Hsh; simpl; [|done].
  intros [= <-]. apply setRole_Ok in Hsh as [_ ->]. by exists code.
Qed.

Lemma onStartStream_wf st c st' :
  relay_wf st → onStartStream st c = Ok st' → relay_wf st'.
Proof.
  intros Hwf (code & Hc & Hcr & Hconns & _)%onStartStream_Ok.
  unfold relay_wf. rewrite Hconns.
  pose proof (createSession_fresh _ _ _ _ _ _ Hcr) as Hfresh.
  pose proof (createSession_wf _ _ _ _ _ _ (wf_reg _ _ Hwf) Hcr) as Hr'.
  apply createSession_Ok in Hcr as (_ & _ & Hreg). rewrite Hreg in *.
  by apply tables_wf_start.
Qed.

(** Joining: an unassigned connection added to a live session. *)
Lemma tables_wf_join r t c code s :
  tables_wf r t → t !! c = Some Unassigned → r !! code = Some s →
  tables_wf (<[code := with_viewers s (viewerConnectionIds s ∪ {[c]})]> r)
            (<[c := Viewer code]> t).
Proof.
  intros [Hr Hh Hv Hhb Hvb] Hc Hs. split; [by apply with_viewers_wf|..].
  - intros code' s' Hs'. apply lookup_insert_Some in Hs' as [[<- <-]|[? Hs']].
    + pose proof (Hh _ _ Hs). simpl. wf_solve.
    + pose proof (Hh _ _ Hs'). wf_solve.
  - intros code' s' v Hs' Hin. apply lookup_insert_Some in Hs' as [[<- <-]|[? Hs']].
    + simpl in Hin. apply elem_of_union in Hin as [Hin| ->%elem_of_singleton];
        [pose proof (Hv _ _ _ Hs Hin)|]; wf_solve.
    + pose proof (Hv _ _ _ Hs' Hin). wf_solve.
  - intros c' code' Hc'. apply lookup_insert_Some in Hc' as [[_ ?]|[? Hc']]; [done|].
    destruct (Hhb _ _ Hc') as (s' & Hs' & <-).
    destruct (decide (code = code')) as [<-|?].
    + exists (with_viewers s (viewerConnectionIds s ∪ {[c]})).
      rewrite lookup_insert_eq. simplify_eq. done.
    + exists s'. by rewrite lookup_insert_ne.
  - intros c' code' Hc'. apply lookup_insert_Some in Hc' as [[<- [= <-]]|[? Hc']].
    + eexists. rewrite lookup_insert_eq. split; [done|]. simpl. set_solver.
    + destruct (Hvb _ _ Hc') as (s' & Hs' & Hin).
      destruct (decide (code = code')) as [<-|?].
      * eexists. rewrite lookup_insert_eq. split; [done|]. simplify_eq. simpl. set_solver.
      * exists s'. by rewrite lookup_insert_ne.
Qed.

Lemma onJoinStream_Ok st c code st' :
  onJoinStream st c code = Ok st' →
  ∃ s, conns st !! c = Some Unassigned ∧ reg st !! code = Some s ∧
    reg st' = <[code := with_viewers s (viewerConnectionIds s ∪ {[c]})]> (reg st) ∧
    conns st' = <[c := Viewer code]> (conns st) ∧
    outbox st' = notifyViewerJoined (conns st') (outbox st) (hostConnectionId s) c ∧
    gen st' = gen st.
Proof.
  unfold onJoinStream. destruct (lookup (conns st) c) as [role|] eqn:Hl; simpl; [|done].
  case_bool_decide; [subst|done]. apply lookup_Ok in Hl.
  destruct (addViewer _ _ _) as [reg'|] eqn:Hadd; simpl; [|done].
  destruct (setViewer _ _ _) as [t'|] eqn:Hsv; simpl; [|done].
  apply addViewer_Ok in Hadd as (s & Hs & ->). apply setRole_Ok in Hsv as [_ ->].
  unfold getSession. rewrite lookup_insert_eq. simpl. intros [= <-]. by exists s.
Qed.

Lemma onJoinStream_wf st c code st' :
  relay_wf st → onJoinStream st c code = Ok st' → relay_wf st'.
Proof.
  intros Hwf (s & Hc & Hs & Hreg & Hconns & _)%onJoinStream_Ok.
  unfold relay_wf. rewrite Hreg, Hconns. by apply tables_wf_join.
Qed.

Lemma onRelay_Ok st c k target p st' :
  onRelay st c k target p = Ok st' →
  counterparts (reg st) (conns st) c target = true ∧
  st' = mkRelay (reg st) (conns st)
          (deliver (conns st) (outbox st) target (relayed k c p)) (gen st).
Proof.
  unfold onRelay. destruct (route _ _ _ _ _ _) as [msg|] eqn:Hr; simpl; [|done].
  apply route_Ok in Hr as [? ->]. intros [= <-]. done.
Qed.

Lemma onRelay_wf st c k target p st' :
  relay_wf st → onRelay st c k target p = Ok st' → relay_wf st'.
Proof. intros Hwf [_ ->]%onRelay_Ok. done. Qed.

Lemma onMessage_wf st c m st' :
  relay_wf st → onMessage st c m = Ok st' → relay_wf st'.
Proof.
  destruct m; simpl;
    eauto using onStartStream_wf, onJoinStream_wf, onRelay_wf.
Qed.

(** Disconnect of an unassigned connection. *)
Lemma tables_wf_leave_unassigned r t c :
  tables_wf r t → t !! c = Some Unassigned → tables_wf r (delete c t).
Proof.
  intros [Hr Hh Hv Hhb Hvb] Hc. split; [done|..].
  - intros code s Hs. pose proof (Hh _ _ Hs). wf_solve.
  - intros code s v Hs Hin. pose proof (Hv _ _ _ Hs Hin). wf_solve.
  - intros c' code [_ ?]%lookup_delete_Some. eauto.
  - intros c' code [_ ?]%lookup_delete_Some. eauto.
Qed.

(** Disconnect of a viewer: it leaves its session's viewer set. *)
Lemma tables_wf_leave_viewer r t c code :
  tables_wf r t → t !! c = Some (Viewer code) →
  tables_wf (removeViewer r code c) (delete c t).
Proof.
  intros [Hr Hh Hv Hhb Hvb] Hc. unfold removeViewer.
  destruct (r !! code) as [s0|] eqn:Hs0.
  2:{ split; [done|..].
      - intros code' s Hs. pose proof (Hh _ _ Hs). wf_solve.
      - intros code' s v Hs Hin. pose proof (Hv _ _ _ Hs Hin). wf_solve.
      - intros c' code' [_ ?]%lookup_delete_Some. eauto.
      - intros c' code' [? Hc']%lookup_delete_Some. eauto. }
  split; [by apply with_viewers_wf|..].
  - intros code' s Hs. apply lookup_insert_Some in Hs as [[<- <-]|[? Hs]].
    + pose proof (Hh _ _ Hs0). simpl. wf_solve.
    + pose proof (Hh _ _ Hs). wf_solve.
  - intros code' s v Hs Hin. apply lookup_insert_Some in Hs as [[<- <-]|[? Hs]].
    + simpl in Hin. apply elem_of_difference in Hin as [Hin Hnc].
      pose proof (Hv _ _ _ Hs0 Hin). apply lookup_delete_Some. set_solver.
    + pose proof (Hv _ _ _ Hs Hin). wf_solve.
  - intros c' code' [? Hc']%lookup_delete_Some.
    destruct (Hhb _ _ Hc') as (s & Hs & <-).
    destruct (decide (code = code')) as [<-|?].
    + eexists. rewrite lookup_insert_eq. split; [done|]. by simplify_eq.
    + exists s. by rewrite lookup_insert_ne.
  - intros c' code' [? Hc']%lookup_delete_Some.
    destruct (Hvb _ _ Hc') as (s & Hs & Hin).
    destruct (decide (code = code')) as [<-|?].
    + eexists. rewrite lookup_insert_eq. split; [done|]. simplify_eq. simpl. set_solver.
    + exists s. by rewrite lookup_insert_ne.
Qed.

(** Disconnect of a host: its session is destroyed and every former viewer
    is demoted to unassigned. *)
Lemma tables_wf_leave_host r t c code s0 :
  tables_wf r t → t !! c = Some (Host code) → r !! code = Some s0 →
  tables_wf (delete code r) (clearAll (delete c t) (elements (viewerConnectionIds s0))).
Proof.
  intros Hwf Hc Hs0. pose proof Hwf as [Hr Hh Hv Hhb Hvb].
  assert (∀ v, v ∈ elements (viewerConnectionIds s0) → t !! v = Some (Viewer code))
    as Hvs by (intros v ?%elem_of_elements; eauto).
  split.
  - pose proof (destroySession_wf _ code Hr) as Hr'.
    unfold destroySession in Hr'. by rewrite Hs0 in Hr'.
  - intros code' s [? Hs]%lookup_delete_Some. pose proof (Hh _ _ Hs).
    rewrite clearAll_lookup. case_decide as Hin; [apply Hvs in Hin; congruence|].
    wf_solve.
  - intros code' s v [? Hs]%lookup_delete_Some Hin. pose proof (Hv _ _ _ Hs Hin).
    rewrite clearAll_lookup. case_decide as Hin'; [apply Hvs in Hin'; congruence|].
    wf_solve.
  - intros c' code'. rewrite clearAll_lookup. case_decide as Hin.
    + by destruct (delete c t !! c').
    + intros [? Hc']%lookup_delete_Some. destruct (Hhb _ _ Hc') as (s & Hs & <-).
      exists s. split; [|done]. apply lookup_delete_Some. split; [|done].
      intros <-. destruct (Hhb _ _ Hc) as (s' & Hs' & <-). congruence.
  - intros c' code'. rewrite clearAll_lookup. case_decide as Hin.
    + by destruct (delete c t !! c').
    + intros [? Hc']%lookup_delete_Some. destruct (Hvb _ _ Hc') as (s & Hs & Hin').
      exists s. split; [|done]. apply lookup_delete_Some. split; [|done].
      intros <-. simplify_eq. by apply Hin, elem_of_elements.
Qed.

Lemma onDisconnect_wf st c : relay_wf st → relay_wf (onDisconnect st c).
Proof.
  intros Hwf. unfold onDisconnect.
  destruct (unregister (conns st) c) as [[role t']|] eqn:Hu; [|done].
  apply unregister_Ok in Hu as [Hc ->].
  destruct role as [|code|code]; unfold relay_wf; simpl.
  - by apply tables_wf_leave_unassigned.
  - destruct (wf_host_backed _ _ Hwf _ _ Hc) as (s0 & Hs0 & _).
    unfold destroySession. rewrite Hs0. simpl. by apply tables_wf_leave_host.
  - by apply tables_wf_leave_viewer.
Qed.

Lemma dispatch_wf st c ev : relay_wf st → relay_wf (dispatch st c ev).
Proof.
  intros Hwf. destruct ev as [| |m]; simpl.
  - by apply onConnect_wf.
  - by apply onDisconnect_wf.
  - destruct (onMessage st c m) eqn:Hm; [by eapply onMessage_wf|done].
Qed.

Lemma rtc_wf st st' : rtc relay_step st st' → relay_wf st → relay_wf st'.
Proof.
  induction 1 as [|x y z Hxy _ IH]; intros Hx; [done|].
  apply IH. destruct Hxy. by apply dispatch_wf.
Qed.

Lemma reachable_wf_aux g0 st : reachable g0 st → relay_wf st.
Proof. intros Hr. eapply rtc_wf; [exact Hr|apply init_wf]. Qed.

(** C21: every reachable state of the relay satisfies the invariant: every
    session's host and viewers are tracked with that session's code, and
    every Host or Viewer role refers to a live session that lists the
    connection, so no association dangles, whatever the interleaving of
    connects, starts, joins, relays and disconnects. *)
Theorem reachable_wf g0 st : reachable g0 st → relay_wf st.
Proof. apply reachable_wf_aux. Qed.

(** ** Behaviour of the handlers (specification section 8) *)

Lemma run_reachable g0 st evs : reachable g0 st → reachable g0 (run st evs).
Proof.
  revert st. induction evs as [|[c ev] evs IH]; intros st Hr; simpl; [done|].
  apply IH. eapply rtc_r; [exact Hr|constructor].
Qed.

Lemma tables_live r t v code s :
  tables_wf r t → r !! code = Some s → v ∈ viewerConnectionIds s → v ∈ dom t.
Proof. intros Hwf Hs Hin. apply elem_of_dom. erewrite wf_viewer_tracked; eauto. Qed.

Lemma notifyStreamEnded_live t o code vs :
  Forall (λ v, v ∈ dom t) vs →
  notifyStreamEnded t o code vs = o ++ ((λ v, v ◃ stream_ended code) <$> vs).
Proof.
  unfold notifyStreamEnded. revert o. induction vs as [|v vs IH]; intros o Hall; simpl.
  - by rewrite app_nil_r.
  - apply Forall_cons in Hall as [Hv Hall]. rewrite deliver_live, IH by done.
    by rewrite <-app_assoc.
Qed.

(** A host's disconnect, in a well-formed state: [stream_ended] for
    each viewer of the session, in the order of the viewer set, the
    session gone, and every viewer unassigned. *)
Lemma host_disconnect_wf st h code s :
  relay_wf st → conns st !! h = Some (Host code) → reg st !! code = Some s →
  let st' := dispatch st h ev_disconnect in
  outbox st' = outbox st ++ ((λ v, v ◃ stream_ended code) <$> elements (viewerConnectionIds s)) ∧
  reg st' !! code = None ∧
  (∀ v, v ∈ viewerConnectionIds s → conns st' !! v = Some Unassigned).
Proof.
  intros Hwf Hh Hs. simpl.
  unfold onDisconnect, unregister. rewrite Hh. simpl.
  unfold destroySession. rewrite Hs. simpl. split; [|split].
  - apply notifyStreamEnded_live, Forall_forall. intros v Hv%elem_of_elements.
    pose proof (wf_viewer_tracked _ _ Hwf _ _ _ Hs Hv).
    apply elem_of_dom. rewrite lookup_delete_ne; [by eexists|congruence].
  - apply lookup_delete_eq.
  - intros v Hv. rewrite clearAll_lookup, decide_True by by apply elem_of_elements.
    pose proof (wf_viewer_tracked _ _ Hwf _ _ _ Hs Hv).
    rewrite lookup_delete_ne by congruence. by rewrite H0.
Qed.

(** A viewer's disconnect, in a well-formed state: one [viewer_left] to
    the host of its session, the viewer out of the session, and its
    connection forgotten. *)
Lemma viewer_disconnect_wf st v code s :
  relay_wf st → conns st !! v = Some (Viewer code) → reg st !! code = Some s →
  let st' := dispatch st v ev_disconnect in
  outbox st' = outbox st ++ [hostConnectionId s ◃ viewer_left v] ∧
  reg st' !! code = Some (with_viewers s (viewerConnectionIds s ∖ {[v]})) ∧
  conns st' !! v = None.
Proof.
  intros Hwf Hv Hs. simpl.
  unfold onDisconnect, unregister. rewrite Hv. simpl.
  unfold removeViewer. rewrite Hs, lookup_insert_eq. simpl. split_and!; [|done|apply lookup_delete_eq].
  unfold notifyViewerLeft. apply deliver_live, elem_of_dom.
  pose proof (wf_host_tracked _ _ Hwf _ _ Hs) as Hh.
  rewrite lookup_delete_ne; [by eexists|congruence].
Qed.

(** C22: when a host disconnects, its session is destroyed,
    each of its N viewers receives exactly one [stream_ended] with the
    session's code (the outbox grows by exactly those N messages), and
    every former viewer is left unassigned, never pointing at the
    destroyed session. *)
Theorem host_disconnect_ends_stream g0 st h code s :
  reachable g0 st → conns st !! h = Some (Host code) → reg st !! code = Some s →
  let st' := dispatch st h ev_disconnect in
  outbox st' = outbox st ++ ((λ v, v ◃ stream_ended code) <$> elements (viewerConnectionIds s)) ∧
  reg st' !! code = None ∧
  (∀ v, v ∈ viewerConnectionIds s → conns st' !! v = Some Unassigned).
Proof. intros Hr. apply host_disconnect_wf, (reachable_wf_aux _ _ Hr). Qed.

(** [a] and [b] are the two ends of one active session (specification
    4.4: the host of a session and a viewer currently joined to it). *)
Definition same_session (st : Relay) (a b : ConnId) : Prop :=
  ∃ code s, reg st !! code = Some s ∧
    ((hostConnectionId s = a ∧ b ∈ viewerConnectionIds s) ∨
     (a ∈ viewerConnectionIds s ∧ hostConnectionId s = b)).

Lemma counterparts_same_session st a b :
  counterparts (reg st) (conns st) a b = true → same_session st a b.
Proof. intros (code & s & Hs & Hor)%counterparts_spec. exists code, s. naive_solver. Qed.

Lemma same_session_counterparts st a b :
  relay_wf st → same_session st a b →
  counterparts (reg st) (conns st) a b = true ∧ b ∈ dom (conns st).
Proof.
  intros Hwf (code & s & Hs & [[<- Hb]|[Ha <-]]); rewrite counterparts_spec.
  - split.
    + exists code, s. split; [done|]. left. split; [by eapply wf_host_tracked|done].
    + by eapply tables_live.
  - split.
    + exists code, s. split; [done|]. right. split; [by eapply wf_viewer_tracked|done].
    + apply elem_of_dom. erewrite wf_host_tracked; eauto.
Qed.

Lemma dispatch_signal st c m k target p :
  as_signal m = Some (k, target, p) →
  dispatch st c (ev_message m) =
    match onRelay st c k target p with
    | Ok st' => st'
    | Err e => mkRelay (reg st) (conns st)
                 (deliver (conns st) (outbox st) c (error (error_message e))) (gen st)
    end.
Proof. destruct m; simpl; by intros [= <- <- <-]. Qed.

(** C23: a relay attempt (offer, answer or ICE candidate) whose
    sender and target are not the two ends of one active session is
    rejected: the tables are unchanged and the target receives nothing. *)
Theorem relay_unauthorized_dropped st c m k target p :
  as_signal m = Some (k, target, p) → ¬ same_session st c target → c ≠ target →
  let st' := dispatch st c (ev_message m) in
  reg st' = reg st ∧ conns st' = conns st ∧
  addressed_to target (outbox st') = addressed_to target (outbox st).
Proof.
  intros Hm Hns Hne. cbv zeta. rewrite (dispatch_signal _ _ _ _ _ _ Hm).
  unfold onRelay, route.
  destruct (counterparts _ _ c target) eqn:Hcp;
    [by apply counterparts_same_session in Hcp|].
  simpl. split; [done|split; [done|]].
  rewrite addressed_to_deliver, bool_decide_eq_false_2 by naive_solver.
  apply app_nil_r.
Qed.

(** C24: in a reachable state, a signaling message between the two
    ends of one session is delivered to its target, and only to it, as the
    relayed message carrying the sender's id and the unmodified payload. *)
Theorem relay_authorized_verbatim g0 st c m k target p :
  reachable g0 st → as_signal m = Some (k, target, p) → same_session st c target →
  dispatch st c (ev_message m) =
    mkRelay (reg st) (conns st) (outbox st ++ [target ◃ relayed k c p]) (gen st).
Proof.
  intros Hr Hm Hss. rewrite (dispatch_signal _ _ _ _ _ _ Hm).
  destruct (same_session_counterparts st c target) as [Hcp Hlive];
    [by eapply reachable_wf_aux|done|].
  unfold onRelay, route. rewrite Hcp. simpl. by rewrite deliver_live.
Qed.

(** C26: after a connection has started a stream, starting again
    fails with AlreadyHosting: the tables are unchanged, the first session
    is intact and the requester receives the error. *)
Theorem start_twice_rejected st c st1 :
  onStartStream st c = Ok st1 →
  let st2 := dispatch st1 c (ev_message start_stream) in
  reg st2 = reg st1 ∧ conns st2 = conns st1 ∧
  outbox st2 = outbox st1 ++ [c ◃ error "already hosting a stream"] ∧
  ∃ code, conns st2 !! c = Some (Host code) ∧ reg st2 !! code = Some (mkSession code c ∅).
Proof.
  intros Hst. pose proof Hst as (code & _ & Hcr & Hconns & _)%onStartStream_Ok.
  apply createSession_Ok in Hcr as (_ & _ & Hreg).
  assert (conns st1 !! c = Some (Host code)) as Hc by (rewrite Hconns; apply lookup_insert_eq).
  assert (onStartStream st1 c = Err E_AlreadyHosting) as Hrej
    by (unfold onStartStream, lookup; by rewrite Hc).
  cbv zeta. unfold dispatch, onMessage. rewrite Hrej. simpl.
  split; [done|split; [done|split]].
  - rewrite deliver_live; [done|]. apply elem_of_dom. by eexists.
  - exists code. split; [done|]. rewrite Hreg. apply lookup_insert_eq.
Qed.

(** A join with an unknown code fails with InvalidCode. *)
Lemma onJoinStream_unknown st c code :
  conns st !! c = Some Unassigned → reg st !! code = None → onJoinStream st c code = Err E_InvalidCode.
Proof. intros Hc Hcode. unfold onJoinStream, lookup, addViewer, getSession. by rewrite Hc, Hcode. Qed.

(** C25: joining with a code no active session has (never issued,
    or destroyed) fails with InvalidCode: no viewer record is created, the
    tables are unchanged and the requester receives the user-visible
    message. *)
Theorem join_invalid_code st c code :
  conns st !! c = Some Unassigned → reg st !! code = None →
  dispatch st c (ev_message (join_stream code)) =
    mkRelay (reg st) (conns st)
      (outbox st ++ [c ◃ error "invalid or ended stream code"]) (gen st).
Proof.
  intros Hc Hcode. unfold dispatch, onMessage. rewrite onJoinStream_unknown by done. simpl.
  rewrite deliver_live; [done|]. apply elem_of_dom. by eexists.
Qed.

Lemma dispatch_join_Ok st c code s :
  conns st !! c = Some Unassigned → reg st !! code = Some s →
  dispatch st c (ev_message (join_stream code)) =
    mkRelay (<[code := with_viewers s (viewerConnectionIds s ∪ {[c]})]> (reg st))
      (<[c := Viewer code]> (conns st))
      (notifyViewerJoined (<[c := Viewer code]> (conns st)) (outbox st) (hostConnectionId s) c)
      (gen st).
Proof.
  intros Hc Hs. unfold dispatch, onMessage, onJoinStream, lookup, addViewer, getSession.
  rewrite Hc, Hs. simpl. unfold setViewer, setRole. rewrite Hc. simpl.
  by rewrite lookup_insert_eq.
Qed.

(** C27: two viewers joining the same code, in either order,
    both succeed and end up in the session's viewer set: the two
    interleavings reach the same tables, with no lost update. *)
Theorem concurrent_joins st v1 v2 code s :
  v1 ≠ v2 → conns st !! v1 = Some Unassigned → conns st !! v2 = Some Unassigned →
  reg st !! code = Some s →
  let J := ev_message (join_stream code) in
  let A := dispatch (dispatch st v1 J) v2 J in
  let B := dispatch (dispatch st v2 J) v1 J in
  reg A = reg B ∧ conns A = conns B ∧
  reg A !! code = Some (with_viewers s (viewerConnectionIds s ∪ {[v1]} ∪ {[v2]})).
Proof.
  intros Hne H1 H2 Hs. cbv zeta.
  rewrite (dispatch_join_Ok st v1 code s), (dispatch_join_Ok st v2 code s) by done.
  rewrite (dispatch_join_Ok _ v2 _ (with_viewers s (viewerConnectionIds s ∪ {[v1]})));
    [|cbn; by rewrite lookup_insert_ne|cbn; by rewrite lookup_insert_eq].
  rewrite (dispatch_join_Ok _ v1 _ (with_viewers s (viewerConnectionIds s ∪ {[v2]})));
    [|cbn; by rewrite lookup_insert_ne|cbn; by rewrite lookup_insert_eq].
  cbn [reg conns].
  rewrite !insert_insert_eq. split; [|split].
  - f_equal. unfold with_viewers. simpl. f_equal. set_solver.
  - by apply insert_insert_ne.
  - by rewrite lookup_insert_eq.
Qed.

End Relay.
Arguments Relay G : clear implicits.


(** ** Witnesses at concrete states of the scenario *)

Definition scenario_prefix : list (ConnId * TransportEvent) :=
  [(1, ev_connect); (2, ev_connect); (3, ev_connect); (4, ev_connect);
   (1, ev_message start_stream);
   (2, ev_message (join_stream "AB12CD"))].

Definition st_joined : Relay (list Code) := run (init ["AB12CD"]) scenario_prefix.

Lemma st_joined_reachable : reachable ["AB12CD"] st_joined.
Proof. apply run_reachable, rtc_refl. Qed.

Lemma reachable_wf_witness :
  reachable ["AB12CD"] st_joined ∧ relay_wf st_joined.
Proof.
  split; [exact st_joined_reachable | exact (reachable_wf _ _ st_joined_reachable)].
Defined.

Lemma host_disconnect_ends_stream_witness :
  conns st_joined !! 1 = Some (Host "AB12CD") ∧
  reg st_joined !! "AB12CD" = Some (mkSession "AB12CD" 1 {[2]}) ∧
  outbox (dispatch st_joined 1 ev_disconnect) =
    outbox st_joined ++ ((λ v, v ◃ stream_ended "AB12CD") <$> elements ({[2]} : gset ConnId)).
Proof.
  assert (H1 : conns st_joined !! 1 = Some (Host "AB12CD")) by reflexivity.
  assert (H2 : reg st_joined !! "AB12CD" = Some (mkSession "AB12CD" 1 {[2]})) by reflexivity.
  split; [exact H1|split; [exact H2|]].
  exact (proj1 (host_disconnect_ends_stream _ _ _ _ _ st_joined_reachable H1 H2)).
Defined.

Lemma relay_unauthorized_dropped_witness :
  ¬ same_session st_joined 3 2 ∧
  addressed_to 2 (outbox (dispatch st_joined 3 (ev_message (offer 2 "x")))) =
    addressed_to 2 (outbox st_joined).
Proof.
  assert (Hns : ¬ same_session st_joined 3 2).
  { intros (code & s & Hs & Hor).
    assert (reg st_joined = {["AB12CD" := mkSession "AB12CD" 1 {[2]}]}) as Hreg
      by reflexivity.
    rewrite Hreg in Hs. apply lookup_singleton_Some in Hs as [_ <-].
    cbn [hostConnectionId viewerConnectionIds] in Hor.
    destruct Hor as [[? _]|[Hin _]]; [lia|]. apply elem_of_singleton in Hin. lia. }
  split; [exact Hns|].
  exact (proj2 (proj2 (relay_unauthorized_dropped st_joined 3 (offer 2 "x") SigOffer 2 "x"
    eq_refl Hns ltac:(lia)))).
Defined.

Lemma relay_authorized_verbatim_witness :
  same_session st_joined 1 2 ∧
  dispatch st_joined 1 (ev_message (offer 2 "sdp")) =
    mkRelay (reg st_joined) (conns st_joined)
      (outbox st_joined ++ [2 ◃ offer_from 1 "sdp"]) (gen st_joined).
Proof.
  assert (Hss : same_session st_joined 1 2).
  { exists "AB12CD", (mkSession "AB12CD" 1 {[2]}). split; [reflexivity|]. left.
    cbn [hostConnectionId viewerConnectionIds]. split; [reflexivity|].
    by apply elem_of_singleton. }
  split; [exact Hss|].
  exact (relay_authorized_verbatim _ st_joined 1 (offer 2 "sdp") SigOffer 2 "sdp"
    st_joined_reachable eq_refl Hss).
Defined.

Lemma join_invalid_code_witness :
  conns st_joined !! 3 = Some Unassigned ∧ reg st_joined !! "ZZZZZZ" = None ∧
  dispatch st_joined 3 (ev_message (join_stream "ZZZZZZ")) =
    mkRelay (reg st_joined) (conns st_joined)
      (outbox st_joined ++ [3 ◃ error "invalid or ended stream code"]) (gen st_joined).
Proof.
  assert (H1 : conns st_joined !! 3 = Some Unassigned) by reflexivity.
  assert (H2 : reg st_joined !! "ZZZZZZ" = None) by reflexivity.
  split; [exact H1|split; [exact H2|exact (join_invalid_code _ _ _ H1 H2)]].
Defined.

Definition st_connected : Relay (list Code) := run (init ["AB12CD"]) [(1, ev_connect)].
Definition st_started : Relay (list Code) := run st_connected [(1, ev_message start_stream)].

Lemma start_twice_rejected_witness :
  onStartStream st_connected 1 = Ok st_started ∧
  outbox (dispatch st_started 1 (ev_message start_stream)) =
    outbox st_started ++ [1 ◃ error "already hosting a stream"].
Proof.
  assert (H : onStartStream st_connected 1 = Ok st_started) by reflexivity.
  split; [exact H|exact (proj1 (proj2 (proj2 (start_twice_rejected _ _ _ H))))].
Defined.

Lemma concurrent_joins_witness :
  conns st_joined !! 3 = Some Unassigned ∧ conns st_joined !! 4 = Some Unassigned ∧
  reg st_joined !! "AB12CD" = Some (mkSession "AB12CD" 1 {[2]}) ∧
  reg (dispatch (dispatch st_joined 3 (ev_message (join_stream "AB12CD"))) 4
         (ev_message (join_stream "AB12CD"))) =
  reg (dispatch (dispatch st_joined 4 (ev_message (join_stream "AB12CD"))) 3
         (ev_message (join_stream "AB12CD"))).
Proof.
  assert (H3 : conns st_joined !! 3 = Some Unassigned) by reflexivity.
  assert (H4 : conns st_joined !! 4 = Some Unassigned) by reflexivity.
  assert (Hs : reg st_joined !! "AB12CD" = Some (mkSession "AB12CD" 1 {[2]})) by reflexivity.
  split; [exact H3|split; [exact H4|split; [exact Hs|]]].
  exact (proj1 (concurrent_joins st_joined 3 4 "AB12CD" _ ltac:(lia) H3 H4 Hs)).
Defined.

End Lifecycle.
