(* ===== verification/RelayFacts.v ===== *)
(** * RelayFacts: what one relay event does to the outbox and the sessions

    The facts about [Lifecycle.dispatch] that the composition with the
    pages ([System]) needs:
    - the outbox only grows, and each message one event appends is of a
      known form ([new_msg]): a relayed signal comes from the sender to a
      counterpart, [viewer_joined v] comes from [v]'s own join, and so on;
    - a message is appended only for a connection that is still registered
      after the event;
    - a host-viewer pair ([hosts]) lasts until one of the two disconnects,
      and a new pair appears only when the viewer joins. *)

From S2P Require Import Prelude Protocol CodeGenerator SessionRegistry ConnectionTracker SignalingRouter Lifecycle.

Module RelayFacts.
Import SessionRegistry ConnectionTracker SignalingRouter Lifecycle.

Section Facts.
Context `{CodeSource G}.

(** [h] hosts a live session that lists [v] among its viewers. *)
Definition hosts (st : Relay G) (h v : ConnId) : Prop :=
  ∃ code s, conns st !! h = Some (Host code) ∧ reg st !! code = Some s ∧
    v ∈ viewerConnectionIds s.

(** [hosts] as a computation: look up [h]'s role, then its session. *)
Definition hostsb (st : Relay G) (h v : ConnId) : bool :=
  match conns st !! h with
  | Some (Host code) =>
      match reg st !! code with
      | Some s => bool_decide (v ∈ viewerConnectionIds s)
      | None => false
      end
  | _ => false
  end.

Lemma hostsb_spec st h v : hostsb st h v = true ↔ hosts st h v.
Proof.
  unfold hostsb, hosts. split.
  - destruct (conns st !! h) as [[|code|code]|]; try discriminate.
    destruct (reg st !! code) as [s|] eqn:Hs; [|discriminate].
    intros ?%bool_decide_eq_true_1. by exists code, s.
  - intros (code & s & -> & -> & Hv). by apply bool_decide_eq_true_2.
Qed.

#[global] Instance hosts_dec st h v : Decision (hosts st h v).
Proof.
  destruct (hostsb st h v) eqn:E; [left; by apply hostsb_spec|right].
  intros ?%hostsb_spec. congruence.
Defined.

(** The messages one event of connection [c] may append for [x]. *)
Definition new_msg (st : Relay G) (c : ConnId) (ev : TransportEvent) (x : ConnId)
    (m : ServerMsg) : Prop :=
  match m with
  | offer_from h p =>
      c = h ∧ ev = ev_message (offer x p) ∧ counterparts (reg st) (conns st) h x = true
  | answer_from h p =>
      c = h ∧ ev = ev_message (answer x p) ∧ counterparts (reg st) (conns st) h x = true
  | ice_candidate_from h p =>
      c = h ∧ ev = ev_message (ice_candidate x p) ∧ counterparts (reg st) (conns st) h x = true
  | viewer_joined v =>
      c = v ∧ (∃ code, ev = ev_message (join_stream code)) ∧
      conns st !! v = Some Unassigned ∧ hosts (dispatch st c ev) x v
  | viewer_left v =>
      c = v ∧ ev = ev_disconnect ∧
      ∃ code s, conns st !! v = Some (Viewer code) ∧ reg st !! code = Some s ∧
        hostConnectionId s = x
  | stream_started code => x = c ∧ conns (dispatch st c ev) !! c = Some (Host code)
  | stream_ended _ =>
      ev = ev_disconnect ∧
      ∃ code s, conns st !! c = Some (Host code) ∧ reg st !! code = Some s ∧
        x ∈ viewerConnectionIds s
  | error _ => x = c
  end.

(** What an event appends: messages of the forms above, each for a
    connection registered after the event. *)
Definition delta_ok (st : Relay G) (c : ConnId) (ev : TransportEvent) (o' : Outbox) : Prop :=
  Forall (λ xm, new_msg st c ev xm.1 xm.2 ∧ xm.1 ∈ dom (conns (dispatch st c ev))) o'.

(** ** Lemmas *)

Lemma deliver_delta t o x m : ∃ o', deliver t o x m = o ++ o' ∧
  Forall (λ ym, ym = (x, m) ∧ x ∈ dom t) o'.
Proof.
  unfold deliver. case_bool_decide.
  - exists [(x, m)]. split; [done|]. by repeat constructor.
  - exists []. by rewrite app_nil_r.
Qed.

Lemma delta_ok_nil st c ev : delta_ok st c ev [].
Proof. constructor. Qed.

(** A single delivery is a correct delta when its message is. *)
Lemma delta_ok_deliver st c ev st' t x m :
  dispatch st c ev = st' → outbox st' = deliver t (outbox st) x m →
  new_msg st c ev x m → dom t ⊆ dom (conns st') →
  ∃ o', outbox st' = outbox st ++ o' ∧ delta_ok st c ev o'.
Proof.
  intros Hd Ho Hm Hdom. destruct (deliver_delta t (outbox st) x m) as (o' & Heq & Ho').
  exists o'. rewrite Ho, Heq. split; [done|]. eapply Forall_impl; [exact Ho'|].
  intros ym [-> Hx]. split; [done|]. rewrite Hd. set_solver.
Qed.

Lemma notifyStreamEnded_delta t o code vs : ∃ o', notifyStreamEnded t o code vs = o ++ o' ∧
  Forall (λ ym, ym.2 = stream_ended code ∧ ym.1 ∈ vs ∧ ym.1 ∈ dom t) o'.
Proof.
  unfold notifyStreamEnded. revert o. induction vs as [|v vs IH]; intros o; cbn [foldl].
  - exists []. by rewrite app_nil_r.
  - destruct (deliver_delta t o v (stream_ended code)) as (o1 & -> & Ho1).
    destruct (IH (o ++ o1)) as (o2 & -> & Ho2). exists (o1 ++ o2).
    split; [by rewrite app_assoc|]. apply Forall_app; split.
    + eapply Forall_impl; [exact Ho1|]. intros ym [-> ?]. simpl. set_solver.
    + eapply Forall_impl; [exact Ho2|]. intros ym (? & ? & ?). set_solver.
Qed.

(** A successful client message. *)
Lemma delta_message st c m st' :
  relay_wf st → onMessage st c m = Ok st' →
  ∃ o', outbox st' = outbox st ++ o' ∧ delta_ok st c (ev_message m) o'.
Proof.
  intros Hwf Hm. assert (Hd : dispatch st c (ev_message m) = st') by (simpl; by rewrite Hm).
  destruct m as [|code|t p|t p|t p]; simpl in Hm.
  - destruct (onStartStream_Ok _ _ _ Hm) as (code & Hc & _ & Hconns & Ho).
    eapply delta_ok_deliver; [exact Hd|exact Ho| |done].
    split; [done|]. by rewrite Hd, Hconns, lookup_insert_eq.
  - destruct (onJoinStream_Ok _ _ _ _ Hm) as (s & Hc & Hs & Hreg & Hconns & Ho & _).
    eapply delta_ok_deliver; [exact Hd|exact Ho| |done].
    unfold new_msg. split; [done|]. split; [by eexists|]. split; [done|]. rewrite Hd.
    pose proof (wf_host_tracked _ _ Hwf _ _ Hs) as Hh.
    exists code, (with_viewers s (viewerConnectionIds s ∪ {[c]})).
    rewrite Hreg, Hconns, lookup_insert_eq, lookup_insert_ne by congruence.
    split; [done|]. split; [done|]. simpl. set_solver.
  - destruct (onRelay_Ok _ _ _ _ _ _ Hm) as [Hcp ->].
    eapply delta_ok_deliver; [exact Hd|done|done|]. simpl. set_solver.
  - destruct (onRelay_Ok _ _ _ _ _ _ Hm) as [Hcp ->].
    eapply delta_ok_deliver; [exact Hd|done|done|]. simpl. set_solver.
  - destruct (onRelay_Ok _ _ _ _ _ _ Hm) as [Hcp ->].
    eapply delta_ok_deliver; [exact Hd|done|done|]. simpl. set_solver.
Qed.

(** A disconnect: [stream_ended] to the viewers of a hosted session, or
    [viewer_left] to the host of a joined one. *)
Lemma delta_disconnect st c :
  relay_wf st →
  ∃ o', outbox (dispatch st c ev_disconnect) = outbox st ++ o' ∧ delta_ok st c ev_disconnect o'.
Proof.
  intros Hwf. unfold delta_ok. cbn [dispatch]. unfold onDisconnect.
  destruct (unregister (conns st) c) as [[role t']|] eqn:Hu;
    [|exists []; split; [by rewrite app_nil_r|constructor]].
  apply unregister_Ok in Hu as [Hc ->].
  destruct role as [|code|code].
  - exists []. simpl. split; [by rewrite app_nil_r|constructor].
  - destruct (wf_host_backed _ _ Hwf _ _ Hc) as (s0 & Hs0 & Hhost).
    unfold destroySession. rewrite Hs0. simpl.
    destruct (notifyStreamEnded_delta (delete c (conns st)) (outbox st) code
      (elements (viewerConnectionIds s0))) as (o' & -> & Ho').
    exists o'. split; [done|]. eapply Forall_impl; [exact Ho'|].
    intros [x m] (Hm & Hx & Hdom). simpl in *. subst m. split.
    + split; [done|]. exists code, s0. split; [done|]. split; [done|].
      by apply elem_of_elements in Hx.
    + by rewrite clearAll_dom.
  - destruct (wf_viewer_backed _ _ Hwf _ _ Hc) as (s0 & Hs0 & Hin).
    unfold removeViewer. rewrite Hs0, lookup_insert_eq. simpl.
    destruct (deliver_delta (delete c (conns st)) (outbox st) (hostConnectionId s0)
      (viewer_left c)) as (o' & Heq & Ho').
    unfold notifyViewerLeft. rewrite Heq. exists o'. split; [done|].
    eapply Forall_impl; [exact Ho'|]. intros ym [-> Hx]. split; [|done].
    simpl. split; [done|]. split; [done|]. by exists code, s0.
Qed.

(** Every event appends to the outbox, and only messages of the forms
    [new_msg] describes, each for a connection still registered. *)
Lemma dispatch_delta st c ev :
  relay_wf st → ∃ o', outbox (dispatch st c ev) = outbox st ++ o' ∧ delta_ok st c ev o'.
Proof.
  intros Hwf. destruct ev as [| |m].
  - exists []. split; [|constructor]. unfold dispatch, onConnect.
    case_bool_decide; simpl; by rewrite app_nil_r.
  - by apply delta_disconnect.
  - destruct (onMessage st c m) as [st'|e] eqn:Hm.
    + assert (Hd : dispatch st c (ev_message m) = st') by (simpl; by rewrite Hm).
      rewrite Hd. by apply delta_message.
    + eapply (delta_ok_deliver st c (ev_message m) _ (conns st) c); [done|..].
      * simpl. by rewrite Hm.
      * done.
      * simpl. rewrite Hm. simpl. set_solver.
Qed.


Lemma hosts_host_role st h v code :
  relay_wf st → hosts st h v → conns st !! h = Some (Host code) →
  ∃ s, reg st !! code = Some s ∧ hostConnectionId s = h ∧ v ∈ viewerConnectionIds s.
Proof.
  intros Hwf (code' & s & Hh & Hs & Hv) Hh'. rewrite Hh in Hh'. simplify_eq.
  destruct (wf_host_backed _ _ Hwf _ _ Hh) as (s' & Hs' & Hhost). simplify_eq. eauto.
Qed.

(** A message of any connection keeps every host-viewer pair. *)
Lemma hosts_message st c m h v :
  relay_wf st → hosts st h v → hosts (dispatch st c (ev_message m)) h v.
Proof.
  intros Hwf Hhv. unfold hosts. cbn [dispatch].
  destruct (onMessage st c m) as [st'|e] eqn:Hm; [|done].
  destruct Hhv as (code & s & Hh & Hs & Hv).
  destruct m as [|code'|t p|t p|t p]; simpl in Hm;
    try (destruct (onRelay_Ok _ _ _ _ _ _ Hm) as [_ ->]; by exists code, s).
  - destruct (onStartStream_Ok _ _ _ Hm) as (code' & Hcu & Hcr & -> & _).
    apply createSession_Ok in Hcr as (_ & Hgen & ->).
    assert (code' ≠ code).
    { intros ->. apply generate_fresh in Hgen as [Hn _]. apply Hn, elem_of_dom. by eexists. }
    exists code, s. rewrite !lookup_insert_ne by congruence. done.
  - destruct (onJoinStream_Ok _ _ _ _ Hm) as (s' & Hcu & Hs' & -> & -> & _).
    rewrite lookup_insert_ne by congruence.
    destruct (decide (code' = code)) as [->|Hne].
    + rewrite Hs in Hs'. simplify_eq. eexists code, _.
      rewrite lookup_insert_eq. split; [done|]. split; [done|]. simpl. set_solver.
    + exists code, s. by rewrite lookup_insert_ne.
Qed.

(** A disconnect of a third connection keeps every host-viewer pair. *)
Lemma hosts_disconnect st c h v :
  relay_wf st → hosts st h v → c ≠ h → c ≠ v → hosts (dispatch st c ev_disconnect) h v.
Proof.
  intros Hwf Hhv Hch Hcv. pose proof Hhv as (code & s & Hh & Hs & Hv).
  unfold hosts. cbn [dispatch]. unfold onDisconnect.
  destruct (unregister (conns st) c) as [[role t']|] eqn:Hu; [|done].
  apply unregister_Ok in Hu as [Hc ->]. destruct role as [|code'|code']; simpl.
  - exists code, s. by rewrite lookup_delete_ne.
  - destruct (wf_host_backed _ _ Hwf _ _ Hc) as (s0 & Hs0 & Hhost0).
    destruct (hosts_host_role _ _ _ _ Hwf Hhv Hh) as (s1 & Hs1 & Hhost1 & _).
    assert (code' ≠ code) by (intros ->; simplify_eq).
    unfold destroySession. rewrite Hs0. simpl. exists code, s.
    rewrite clearAll_lookup, lookup_delete_ne by done. rewrite decide_False.
    + split; [done|]. by rewrite lookup_delete_ne.
    + intros Hin%elem_of_elements.
      pose proof (wf_viewer_tracked _ _ Hwf _ _ _ Hs0 Hin). congruence.
  - unfold removeViewer. destruct (reg st !! code') as [s0|] eqn:Hs0; simpl.
    + destruct (decide (code' = code)) as [->|Hne].
      * rewrite Hs in Hs0. simplify_eq. eexists code, _.
        rewrite lookup_delete_ne, lookup_insert_eq by done.
        split; [done|]. split; [done|]. simpl. set_solver.
      * exists code, s. by rewrite lookup_delete_ne, lookup_insert_ne.
    + exists code, s. by rewrite lookup_delete_ne.
Qed.

(** A new host-viewer pair appears only when the viewer, unassigned
    before, joins. *)
Lemma hosts_new st c ev h v :
  relay_wf st → hosts (dispatch st c ev) h v →
  hosts st h v ∨
  (c = v ∧ (∃ code, ev = ev_message (join_stream code)) ∧ conns st !! v = Some Unassigned).
Proof.
  intros Hwf (code & s & Hh & Hs & Hv). destruct ev as [| |m]; cbn [dispatch] in *.
  - left. unfold onConnect in *. case_bool_decide; [by exists code, s|].
    simpl in *. unfold register in Hh.
    apply lookup_insert_Some in Hh as [[_ ?]|[_ ?]]; [done|by exists code, s].
  - left. unfold onDisconnect in *.
    destruct (unregister (conns st) c) as [[role t']|] eqn:Hu; [|by exists code, s].
    apply unregister_Ok in Hu as [Hc ->]. destruct role as [|code'|code']; simpl in *.
    + apply lookup_delete_Some in Hh as [_ ?]. by exists code, s.
    + unfold destroySession in *. destruct (reg st !! code') eqn:Hs0; simpl in *.
      * rewrite clearAll_lookup in Hh. case_decide; [by destruct (delete c _ !! h)|].
        apply lookup_delete_Some in Hh as [_ ?].
        apply lookup_delete_Some in Hs as [_ ?]. by exists code, s.
      * apply lookup_delete_Some in Hh as [_ ?]. by exists code, s.
    + apply lookup_delete_Some in Hh as [_ ?]. unfold removeViewer in Hs.
      destruct (reg st !! code') as [s0|] eqn:Hs0; [|by exists code, s].
      apply lookup_insert_Some in Hs as [[<- <-]|[_ ?]]; [|by exists code, s].
      exists code', s0. simpl in Hv. set_solver.
  - destruct (onMessage st c m) as [st'|e] eqn:Hm; [|left; by exists code, s].
    destruct m as [|code'|t p|t p|t p]; simpl in Hm;
      try (destruct (onRelay_Ok _ _ _ _ _ _ Hm) as [_ ->]; left; by exists code, s).
    + left. destruct (onStartStream_Ok _ _ _ Hm) as (code' & Hcu & Hcr & Hconns & _).
      apply createSession_Ok in Hcr as (_ & _ & Hreg).
      rewrite Hreg in Hs. rewrite Hconns in Hh.
      apply lookup_insert_Some in Hs as [[<- <-]|[Hne Hs]]; [set_solver|].
      apply lookup_insert_Some in Hh as [[_ [= ->]]|[_ Hh]]; [done|]. by exists code, s.
    + destruct (onJoinStream_Ok _ _ _ _ Hm) as (s0 & Hcu & Hs0 & Hreg & Hconns & _).
      rewrite Hreg in Hs. rewrite Hconns in Hh.
      apply lookup_insert_Some in Hh as [[_ [=]]|[Hne Hh]].
      apply lookup_insert_Some in Hs as [[<- <-]|[_ Hs]]; [|left; by exists code, s].
      simpl in Hv. apply elem_of_union in Hv as [Hv|Hv%elem_of_singleton].
      * left. by exists code', s0.
      * subst v. right. split; [done|]. split; [by eexists|done].
Qed.

(** A host-viewer pair survives every event but a disconnect of one of
    the two. *)
Lemma hosts_stable st c ev h v :
  relay_wf st → hosts st h v → (ev = ev_disconnect → c ≠ h ∧ c ≠ v) →
  hosts (dispatch st c ev) h v.
Proof.
  intros Hwf Hhv Hdis. destruct ev as [| |m].
  - pose proof Hhv as (code & s & Hh & Hs & Hv). unfold hosts. cbn [dispatch].
    unfold onConnect. case_bool_decide as Hc; [done|]. exists code, s. simpl.
    unfold register. rewrite lookup_insert_ne; [done|]. intros ->. apply Hc, elem_of_dom. by eexists.
  - destruct (Hdis eq_refl). by apply hosts_disconnect.
  - by apply hosts_message.
Qed.

(** Which connections are registered after an event. *)
Lemma dispatch_dom_connect st c :
  dom (conns (dispatch st c ev_connect)) = {[c]} ∪ dom (conns st).
Proof.
  cbn [dispatch]. unfold onConnect. case_bool_decide; simpl; [set_solver|].
  unfold register. by rewrite dom_insert_L.
Qed.

Lemma dispatch_dom_disconnect st c :
  dom (conns (dispatch st c ev_disconnect)) = dom (conns st) ∖ {[c]}.
Proof.
  cbn [dispatch]. unfold onDisconnect.
  destruct (unregister (conns st) c) as [[role t']|] eqn:Hu.
  - apply unregister_Ok in Hu as [Hc ->].
    destruct role as [|code|code]; simpl; [by rewrite dom_delete_L| |by rewrite dom_delete_L].
    destruct (destroySession (reg st) code). simpl. by rewrite clearAll_dom, dom_delete_L.
  - unfold unregister in Hu. destruct (conns st !! c) eqn:Hc; [done|].
    apply not_elem_of_dom in Hc. set_solver.
Qed.

Lemma dispatch_dom_message st c m :
  c ∈ dom (conns st) → dom (conns (dispatch st c (ev_message m))) = dom (conns st).
Proof.
  intros Hc. cbn [dispatch]. destruct (onMessage st c m) as [st'|e] eqn:Hm; [|done].
  destruct m as [|code|t p|t p|t p]; simpl in Hm;
    try (by destruct (onRelay_Ok _ _ _ _ _ _ Hm) as [_ ->]).
  - destruct (onStartStream_Ok _ _ _ Hm) as (code & _ & _ & -> & _).
    rewrite dom_insert_L. set_solver.
  - destruct (onJoinStream_Ok _ _ _ _ Hm) as (s & _ & _ & _ & -> & _).
    rewrite dom_insert_L. set_solver.
Qed.

(** A [Host] role lasts as long as its connection: no event of any
    connection changes it into another role. *)
Lemma host_role_kept st c ev h code :
  relay_wf st → conns st !! h = Some (Host code) → h ∈ dom (conns (dispatch st c ev)) →
  conns (dispatch st c ev) !! h = Some (Host code).
Proof.
  intros Hwf Hh Hdom. destruct ev as [| |m].
  - cbn [dispatch]. unfold onConnect. case_bool_decide as Hc; [done|]. cbn [conns].
    unfold register. rewrite lookup_insert_ne; [done|]. intros ->. apply Hc, elem_of_dom. by eexists.
  - destruct (decide (h = c)) as [->|Hne].
    { rewrite dispatch_dom_disconnect in Hdom. set_solver. }
    cbn [dispatch]. unfold onDisconnect.
    destruct (unregister (conns st) c) as [[role t']|] eqn:Hu; [|done].
    apply unregister_Ok in Hu as [Hc ->].
    destruct role as [|code'|code']; cbn [conns]; [by rewrite lookup_delete_ne| |by rewrite lookup_delete_ne].
    unfold destroySession. destruct (reg st !! code') as [s0|] eqn:Hs0; cbn [conns];
      rewrite clearAll_lookup; case_decide as Hin; try (by rewrite lookup_delete_ne);
      [|by apply elem_of_nil in Hin].
    apply elem_of_elements in Hin.
    rewrite (wf_viewer_tracked _ _ Hwf _ _ _ Hs0 Hin) in Hh. discriminate.
  - cbn [dispatch]. destruct (onMessage st c m) as [st'|e] eqn:Hm; [|done].
    destruct m as [|code'|t p|t p|t p]; simpl in Hm;
      try (by destruct (onRelay_Ok _ _ _ _ _ _ Hm) as [_ ->]).
    + destruct (onStartStream_Ok _ _ _ Hm) as (code' & Hc & _ & -> & _).
      rewrite lookup_insert_ne; [done|congruence].
    + destruct (onJoinStream_Ok _ _ _ _ Hm) as (s & Hc & _ & _ & -> & _).
      rewrite lookup_insert_ne; [done|congruence].
Qed.

(** A [Host] role is only ever given to a connection that starts a
    stream. *)
Lemma host_role_new st c ev x code :
  conns (dispatch st c ev) !! x = Some (Host code) →
  conns st !! x = Some (Host code) ∨ (x = c ∧ ev = ev_message start_stream).
Proof.
  intros Hx. destruct ev as [| |m]; cbn [dispatch] in Hx.
  - left. unfold onConnect in Hx. case_bool_decide; [done|]. simpl in Hx. unfold register in Hx.
    by apply lookup_insert_Some in Hx as [[_ ?]|[_ ?]].
  - left. unfold onDisconnect in Hx.
    destruct (unregister (conns st) c) as [[role t']|] eqn:Hu; [|done].
    apply unregister_Ok in Hu as [Hc ->].
    destruct role as [|code'|code']; simpl in Hx; [by apply lookup_delete_Some in Hx as [_ ?]| |
      by apply lookup_delete_Some in Hx as [_ ?]].
    destruct (destroySession (reg st) code'). simpl in Hx. rewrite clearAll_lookup in Hx.
    case_decide; [by destruct (delete c _ !! x)|]. by apply lookup_delete_Some in Hx as [_ ?].
  - destruct (onMessage st c m) as [st'|e] eqn:Hm; [|by left].
    destruct m as [|code'|t p|t p|t p]; simpl in Hm;
      try (destruct (onRelay_Ok _ _ _ _ _ _ Hm) as [_ ->]; by left).
    + destruct (onStartStream_Ok _ _ _ Hm) as (code' & _ & _ & Hconns & _). rewrite Hconns in Hx.
      apply lookup_insert_Some in Hx as [[-> _]|[_ ?]]; [by right|by left].
    + destruct (onJoinStream_Ok _ _ _ _ Hm) as (s & _ & _ & _ & Hconns & _). rewrite Hconns in Hx.
      left. by apply lookup_insert_Some in Hx as [[_ ?]|[_ ?]].
Qed.

(** A relay to a connection that is not a host goes from the host of its
    session. *)
Lemma counterparts_to_viewer st h x :
  relay_wf st → counterparts (reg st) (conns st) h x = true →
  (∀ code, conns st !! x ≠ Some (Host code)) → hosts st h x.
Proof.
  intros Hwf Hcp Hx. apply counterparts_spec in Hcp
    as (code & s & Hs & [(Hh & <- & Hv)|(Hh & Hv & <-)]).
  - by exists code, s.
  - exfalso. apply (Hx code). by apply (wf_host_tracked _ _ Hwf).
Qed.

(** An offer, answer or ICE candidate of a host to one of its viewers is
    appended for the viewer, unchanged. *)
Lemma dispatch_signal_hosts st h v m k p :
  relay_wf st → hosts st h v → as_signal m = Some (k, v, p) →
  dispatch st h (ev_message m) =
    mkRelay (reg st) (conns st) (outbox st ++ [(v, relayed k h p)]) (gen st).
Proof.
  intros Hwf (code & s & Hh & Hs & Hv) Hm. rewrite (dispatch_signal _ _ _ _ _ _ Hm).
  assert (Hcp : counterparts (reg st) (conns st) h v = true).
  { apply counterparts_spec. exists code, s. split; [done|]. left.
    split; [done|]. split; [|done].
    destruct (wf_host_backed _ _ Hwf _ _ Hh) as (s' & Hs' & <-). congruence. }
  unfold onRelay, route. rewrite Hcp. simpl. rewrite deliver_live; [done|].
  apply elem_of_dom. eexists. by apply (wf_viewer_tracked _ _ Hwf code s).
Qed.

(** A [Viewer] role is only ever given to a connection that joins. *)
Lemma viewer_role_new st c ev x code :
  conns (dispatch st c ev) !! x = Some (Viewer code) →
  conns st !! x = Some (Viewer code) ∨ (x = c ∧ ∃ code', ev = ev_message (join_stream code')).
Proof.
  intros Hx. destruct ev as [| |m]; cbn [dispatch] in Hx.
  - left. unfold onConnect in Hx. case_bool_decide; [done|]. simpl in Hx. unfold register in Hx.
    by apply lookup_insert_Some in Hx as [[_ ?]|[_ ?]].
  - left. unfold onDisconnect in Hx.
    destruct (unregister (conns st) c) as [[role t']|] eqn:Hu; [|done].
    apply unregister_Ok in Hu as [Hc ->].
    destruct role as [|code'|code']; simpl in Hx; [by apply lookup_delete_Some in Hx as [_ ?]| |
      by apply lookup_delete_Some in Hx as [_ ?]].
    destruct (destroySession (reg st) code'). simpl in Hx. rewrite clearAll_lookup in Hx.
    case_decide; [by destruct (delete c _ !! x)|]. by apply lookup_delete_Some in Hx as [_ ?].
  - destruct (onMessage st c m) as [st'|e] eqn:Hm; [|by left].
    destruct m as [|code'|t p|t p|t p]; simpl in Hm;
      try (destruct (onRelay_Ok _ _ _ _ _ _ Hm) as [_ ->]; by left).
    + destruct (onStartStream_Ok _ _ _ Hm) as (code' & _ & _ & Hconns & _). rewrite Hconns in Hx.
      left. by apply lookup_insert_Some in Hx as [[_ ?]|[_ ?]].
    + destruct (onJoinStream_Ok _ _ _ _ Hm) as (s & _ & _ & _ & Hconns & _). rewrite Hconns in Hx.
      apply lookup_insert_Some in Hx as [[-> _]|[_ ?]]; [right; eauto|by left].
Qed.

(** A relay to a connection that is not a viewer goes from one of the
    viewers of its session. *)
Lemma counterparts_from_viewer st v h :
  relay_wf st → counterparts (reg st) (conns st) v h = true →
  (∀ code, conns st !! h ≠ Some (Viewer code)) → hosts st h v.
Proof.
  intros Hwf Hcp Hh. apply counterparts_spec in Hcp
    as (code & s & Hs & [(Hv & <- & Hin)|(Hv & Hin & <-)]).
  - exfalso. apply (Hh code). by apply (wf_viewer_tracked _ _ Hwf code s).
  - exists code, s. split; [by apply (wf_host_tracked _ _ Hwf)|done].
Qed.

(** Both ends of a host-viewer pair are registered. *)
Lemma hosts_dom st h v : relay_wf st → hosts st h v → h ∈ dom (conns st) ∧ v ∈ dom (conns st).
Proof.
  intros Hwf (code & s & Hh & Hs & Hv). split; apply elem_of_dom; [by eexists|].
  eexists. by apply (wf_viewer_tracked _ _ Hwf code s).
Qed.

(** The two ends of a session are two connections. *)
Lemma hosts_distinct st h v : relay_wf st → hosts st h v → h ≠ v.
Proof.
  intros Hwf (code & s & Hh & Hs & Hv) ->.
  rewrite (wf_viewer_tracked _ _ Hwf code s v Hs Hv) in Hh. discriminate.
Qed.

(** A connection that has no role yet is in no session. *)
Lemma unassigned_unpaired st v a :
  relay_wf st → conns st !! v = Some Unassigned → ¬ hosts st a v ∧ ¬ hosts st v a.
Proof.
  intros Hwf Hv. split.
  - intros (code & s & Hh & Hs & Hin). rewrite (wf_viewer_tracked _ _ Hwf code s v Hs Hin) in Hv.
    discriminate.
  - intros (code & s & Hh & _). congruence.
Qed.

(** A signal between the two ends of a session, in either direction, is
    relayed to its target as it is. *)
Lemma dispatch_signal_pair st h v x y m k p :
  relay_wf st → hosts st h v → (x = h ∧ y = v ∨ x = v ∧ y = h) → as_signal m = Some (k, y, p) →
  dispatch st x (ev_message m) =
    mkRelay (reg st) (conns st) (outbox st ++ [(y, relayed k x p)]) (gen st).
Proof.
  intros Hwf Hhv Hxy Hm. pose proof Hhv as (code & s & Hh & Hs & Hv).
  rewrite (dispatch_signal _ _ _ _ _ _ Hm).
  assert (Hcp : counterparts (reg st) (conns st) x y = true).
  { apply counterparts_spec. exists code, s. split; [done|].
    destruct (wf_host_backed _ _ Hwf _ _ Hh) as (s' & Hs' & Hhost). rewrite Hs in Hs'.
    injection Hs' as <-. destruct Hxy as [[-> ->]|[-> ->]]; [left|right];
      (split; [|split]); try done; by apply (wf_viewer_tracked _ _ Hwf code s). }
  unfold onRelay, route. rewrite Hcp. simpl. rewrite deliver_live; [done|].
  destruct (hosts_dom st h v Hwf Hhv). destruct Hxy as [[-> ->]|[-> ->]]; done.
Qed.

(** The join that creates a pair notifies the host, and only with
    [viewer_joined]. *)
Lemma join_notifies st c ev h v :
  relay_wf st → hosts (dispatch st c ev) h v → ¬ hosts st h v →
  addressed_to h (outbox (dispatch st c ev)) = addressed_to h (outbox st) ++ [viewer_joined v].
Proof.
  intros Hwf Hnew Hold.
  destruct (hosts_new _ _ _ _ _ Hwf Hnew) as [?|(-> & [code ->] & Hu)]; [done|].
  pose proof (dispatch_wf st v (ev_message (join_stream code)) Hwf) as Hwf'.
  destruct Hnew as (code' & s' & Hh & Hs' & Hv). cbn [dispatch] in *.
  destruct (onMessage st v (join_stream code)) as [st'|e] eqn:Hm.
  - simpl in Hm. destruct (onJoinStream_Ok _ _ _ _ Hm) as (s & _ & Hs & Hreg & Hconns & Ho & _).
    pose proof (wf_viewer_tracked _ _ Hwf' _ _ _ Hs' Hv) as Hvt. rewrite Hconns, lookup_insert_eq in Hvt.
    injection Hvt as <-. rewrite Hreg, lookup_insert_eq in Hs'. injection Hs' as <-.
    destruct (wf_host_backed _ _ Hwf' _ _ Hh) as (s1 & Hs1 & Hhost).
    rewrite Hreg, lookup_insert_eq in Hs1. injection Hs1 as <-. simpl in Hhost. subst h.
    rewrite Ho. unfold notifyViewerJoined. rewrite deliver_live.
    + by rewrite addressed_to_app, addressed_to_cons_eq.
    + apply elem_of_dom. by eexists.
  - exfalso. apply Hold. by exists code', s'.
Qed.

(** Only [v]'s own events make the relay send something that concerns
    [v]: its join, its leaving, its signals. *)
Lemma new_msg_concerns st c ev x m v : new_msg st c ev x m → concerns v m = true → c = v.
Proof.
  destruct m; cbn [new_msg concerns]; intros Hm Hv; try discriminate;
    apply bool_decide_eq_true in Hv; naive_solver.
Qed.

Lemma dispatch_unconcerned st c ev x v :
  relay_wf st → c ≠ v →
  ∃ l, addressed_to x (outbox (dispatch st c ev)) = addressed_to x (outbox st) ++ l ∧
    Forall (λ m, concerns v m = false) l.
Proof.
  intros Hwf Hne. destruct (dispatch_delta st c ev Hwf) as (o' & Ho & Hd).
  exists (addressed_to x o'). rewrite Ho, addressed_to_app. split; [done|].
  eapply Forall_impl; [apply (Forall_addressed_to _ x _ Hd)|]. intros m [Hm _]. cbn in Hm.
  destruct (concerns v m) eqn:Hc; [|done]. by pose proof (new_msg_concerns _ _ _ _ _ _ Hm Hc).
Qed.

(** A client message that is neither a join nor a signal for [x], sent
    by another connection, makes the relay send [x] nothing. *)
Lemma dispatch_not_to st c m x :
  relay_wf st → c ≠ x → (∀ code, m ≠ join_stream code) → (∀ k p, as_signal m ≠ Some (k, x, p)) →
  addressed_to x (outbox (dispatch st c (ev_message m))) = addressed_to x (outbox st).
Proof.
  intros Hwf Hne Hj Hs. destruct (dispatch_delta st c (ev_message m) Hwf) as (o' & Ho & Hd).
  rewrite Ho, addressed_to_app.
  assert (Hnil : addressed_to x o' = []); [|by rewrite Hnil, app_nil_r].
  pose proof (Forall_addressed_to _ x _ Hd) as Hall.
  destruct (addressed_to x o') as [|m' l]; [done|]. exfalso.
  apply Forall_cons in Hall as [[Hm _] _]. cbn in Hm.
  destruct m'; cbn [new_msg] in Hm; naive_solver.
Qed.

(** The same over a run of events of one connection. *)
Lemma relay_run_unconcerned st ces x v :
  relay_wf st → Forall (λ ce, ce.1 ≠ v) ces →
  ∃ l, addressed_to x (outbox (run st ces)) = addressed_to x (outbox st) ++ l ∧
    Forall (λ m, concerns v m = false) l.
Proof.
  intros Hwf Hces. revert st Hwf. induction Hces as [|[c ev] ces Hc _ IH]; intros st Hwf.
  - exists []. by rewrite app_nil_r.
  - change (run st ((c, ev) :: ces)) with (run (dispatch st c ev) ces).
    destruct (dispatch_unconcerned st c ev x v Hwf Hc) as (l1 & H1 & Hl1).
    destruct (IH (dispatch st c ev)) as (l2 & H2 & Hl2); [by apply dispatch_wf|].
    exists (l1 ++ l2). rewrite H2, H1, app_assoc. split; [done|].
    by apply Forall_app.
Qed.

Lemma run_not_to st c ms x :
  relay_wf st → c ≠ x →
  Forall (λ m, (∀ code, m ≠ join_stream code) ∧ ∀ k p, as_signal m ≠ Some (k, x, p)) ms →
  addressed_to x (outbox (run st ((λ m, (c, ev_message m)) <$> ms))) = addressed_to x (outbox st).
Proof.
  intros Hwf Hne Hms. revert st Hwf. induction Hms as [|m ms [Hj Hs] _ IH]; intros st Hwf; [done|].
  change (run st ((λ m, (c, ev_message m)) <$> m :: ms))
    with (run (dispatch st c (ev_message m)) ((λ m, (c, ev_message m)) <$> ms)).
  rewrite IH by by apply dispatch_wf. by apply dispatch_not_to.
Qed.

(** A run of messages keeps every host-viewer pair. *)
Lemma run_hosts st c ms h v :
  relay_wf st → hosts st h v → hosts (run st ((λ m, (c, ev_message m)) <$> ms)) h v.
Proof.
  revert st. induction ms as [|m ms IH]; intros st Hwf Hhv; [done|].
  change (run st ((λ m, (c, ev_message m)) <$> m :: ms))
    with (run (dispatch st c (ev_message m)) ((λ m, (c, ev_message m)) <$> ms)).
  apply IH; [by apply dispatch_wf|by apply hosts_message].
Qed.

End Facts.
End RelayFacts.
