(* ===== verification/Jinja.v ===== *)
(** * Text semantics for the page templates: Python f-strings and Jinja2

    [src/app.py] builds its two pages in two stages.  At import time Python
    evaluates the f-string literals assigned to [HOST_HTML] and
    [VIEWER_HTML] (lines 106 and 185): [{{] and [}}] stand
    for one brace, and [{NAME}] is replaced by the value of a module-level
    name.  On each request Flask passes the result to Jinja2's
    [render_template_string] (lines 246 and 250), which reads [{{ ... }}] as
    a print statement, [{% ... %}] as a block and [{# ... #}] as a comment.

    [fstring_eval] is the f-string evaluation, complete for the fields the
    repository uses (plain names; any other field is reported as
    [FUnsupported]).  [jinja_parse] is the fragment of Jinja2's lexer and
    parser these templates reach: data text, and print statements whose
    expression is a plain name.  A name followed by [:] is Jinja2's
    TemplateSyntaxError "expected token 'end of print statement', got ':'";
    anything else outside the fragment is [JUnsupported], never silently
    accepted.  Like Jinja2 with its default [keep_trailing_newline=False],
    [render_template_string] drops one trailing newline.  Both functions
    are structural over the list of characters, so they always return. *)

From S2P Require Import Prelude.
From Stdlib Require Import Ascii.

Definition chr (n : nat) : ascii := ascii_of_nat n.
Definition nl : ascii := chr 10.
Definition lbrace : ascii := chr 123.
Definition rbrace : ascii := chr 125.

(** ** Python f-strings *)

Inductive FStringError : Type :=
| FSingleCloseBrace
| FUnterminatedField
| FNameError (name : string)
| FUnsupported.

(** [field = Some acc] while reading the name of a replacement field
    (characters reversed). *)
Fixpoint fstring_go (env : string → option string) (field : option (list ascii))
    (cs : list ascii) : result FStringError (list ascii) :=
  match cs with
  | [] => match field with None => Ok [] | Some _ => Err FUnterminatedField end
  | c :: r =>
      match field with
      | Some acc =>
          if Ascii.eqb c rbrace then
            let name := String.string_of_list_ascii (rev acc) in
            match env name with
            | Some v => result_map (app (String.list_ascii_of_string v)) (fstring_go env None r)
            | None => Err (FNameError name)
            end
          else if Ascii.eqb c lbrace then Err FUnsupported
          else fstring_go env (Some (c :: acc)) r
      | None =>
          if Ascii.eqb c lbrace then
            match r with
            | c2 :: r2 =>
                if Ascii.eqb c2 lbrace then result_map (cons lbrace) (fstring_go env None r2)
                else fstring_go env (Some []) r
            | [] => Err FUnterminatedField
            end
          else if Ascii.eqb c rbrace then
            match r with
            | c2 :: r2 =>
                if Ascii.eqb c2 rbrace then result_map (cons rbrace) (fstring_go env None r2)
                else Err FSingleCloseBrace
            | [] => Err FSingleCloseBrace
            end
          else result_map (cons c) (fstring_go env None r)
      end
  end.

Definition fstring_eval (env : string → option string) (s : string) : result FStringError string :=
  result_map String.string_of_list_ascii (fstring_go env None (String.list_ascii_of_string s)).

(** Brace doubling, the escape a literal brace needs inside an f-string. *)
Fixpoint fstring_escape (cs : list ascii) : list ascii :=
  match cs with
  | [] => []
  | c :: r =>
      if Ascii.eqb c lbrace || Ascii.eqb c rbrace then c :: c :: fstring_escape r
      else c :: fstring_escape r
  end.

(** ** The fragment of Jinja2 *)

Inductive JinjaError : Type :=
| TemplateSyntaxError (message : string)
| JUnsupported.

Inductive JNode : Type :=
| JData (text : list ascii)
| JPrint (name : string).

Inductive JState : Type :=
| SData              (* template data *)
| SBrace             (* after one [{] in data *)
| SPre               (* after [{{], before the expression *)
| SName (acc : list ascii)   (* reading a name, reversed *)
| SPost (name : string)      (* after the name *)
| SClose (name : string).    (* after the first [}] of [}}] *)

Definition is_space (c : ascii) : bool :=
  Ascii.eqb c " " || Ascii.eqb c nl || Ascii.eqb c (chr 9) || Ascii.eqb c (chr 13).

Definition is_name_start (c : ascii) : bool :=
  let n := nat_of_ascii c in
  (Nat.leb 65 n && Nat.leb n 90) || (Nat.leb 97 n && Nat.leb n 122) || Nat.eqb n 95.

Definition is_name_char (c : ascii) : bool :=
  is_name_start c || (Nat.leb 48 (nat_of_ascii c) && Nat.leb (nat_of_ascii c) 57).

Definition end_of_print_error : JinjaError :=
  TemplateSyntaxError "expected token 'end of print statement', got ':'".

Definition cons_data (c : ascii) (ns : list JNode) : list JNode :=
  match ns with
  | JData d :: ns' => JData (c :: d) :: ns'
  | _ => JData [c] :: ns
  end.

Fixpoint jinja_parse (st : JState) (cs : list ascii) : result JinjaError (list JNode) :=
  match cs with
  | [] =>
      match st with
      | SData => Ok []
      | SBrace => Ok [JData [lbrace]]
      | _ => Err (TemplateSyntaxError "unexpected end of template")
      end
  | c :: r =>
      match st with
      | SData =>
          if Ascii.eqb c lbrace then jinja_parse SBrace r
          else result_map (cons_data c) (jinja_parse SData r)
      | SBrace =>
          if Ascii.eqb c lbrace then jinja_parse SPre r
          else if Ascii.eqb c "%" || Ascii.eqb c "#" then Err JUnsupported
          else result_map (λ ns, cons_data lbrace (cons_data c ns)) (jinja_parse SData r)
      | SPre =>
          if is_space c then jinja_parse SPre r
          else if is_name_start c then jinja_parse (SName [c]) r
          else Err JUnsupported
      | SName acc =>
          if is_name_char c then jinja_parse (SName (c :: acc)) r
          else if is_space c then jinja_parse (SPost (String.string_of_list_ascii (rev acc))) r
          else if Ascii.eqb c rbrace then jinja_parse (SClose (String.string_of_list_ascii (rev acc))) r
          else if Ascii.eqb c ":" then Err end_of_print_error
          else Err JUnsupported
      | SPost name =>
          if is_space c then jinja_parse (SPost name) r
          else if Ascii.eqb c rbrace then jinja_parse (SClose name) r
          else if Ascii.eqb c ":" then Err end_of_print_error
          else Err JUnsupported
      | SClose name =>
          if Ascii.eqb c rbrace then result_map (cons (JPrint name)) (jinja_parse SData r)
          else Err JUnsupported
      end
  end.

(** An undefined name prints as the empty string (Jinja2's [Undefined]). *)
Definition jinja_render (ctx : string → option string) (ns : list JNode) : list ascii :=
  ns ≫= λ n, match n with
             | JData d => d
             | JPrint x => match ctx x with
                           | Some v => String.list_ascii_of_string v
                           | None => []
                           end
             end.

Definition strip_trailing_newline (cs : list ascii) : list ascii :=
  match last cs with
  | Some c => if Ascii.eqb c nl then removelast cs else cs
  | None => cs
  end.

Definition render_template_string (ctx : string → option string) (source : string)
    : result JinjaError string :=
  result_map (λ ns, String.string_of_list_ascii (jinja_render ctx ns))
    (jinja_parse SData (strip_trailing_newline (String.list_ascii_of_string source))).

(** A text is free of Jinja2 syntax when no [{] is followed by [{], [%]
    or [#]. *)
Fixpoint jinja_free (cs : list ascii) : bool :=
  match cs with
  | [] => true
  | c :: r =>
      (if Ascii.eqb c lbrace then
         match r with
         | c2 :: _ => negb (Ascii.eqb c2 lbrace || Ascii.eqb c2 "%" || Ascii.eqb c2 "#")
         | [] => true
         end
       else true) && jinja_free r
  end.

(** ** Lemmas *)

Lemma result_map_Ok {E A B} (f : A → B) (m : result E A) a :
  m = Ok a → result_map f m = Ok (f a).
Proof. by intros ->. Qed.

Lemma jinja_render_cons_data ctx c ns :
  jinja_render ctx (cons_data c ns) = c :: jinja_render ctx ns.
Proof. destruct ns as [|[d|x] ns]; reflexivity. Qed.

Lemma jinja_free_cons c r : jinja_free (c :: r) = true → jinja_free r = true.
Proof. simpl. intros ?%andb_prop. naive_solver. Qed.

(** Both parser states at once: data, and data right after a lone brace. *)
Lemma jinja_free_parse ctx cs :
  jinja_free cs = true →
  (∃ ns, jinja_parse SData cs = Ok ns ∧ jinja_render ctx ns = cs) ∧
  (jinja_free (lbrace :: cs) = true →
   ∃ ns, jinja_parse SBrace cs = Ok ns ∧ jinja_render ctx ns = lbrace :: cs).
Proof.
  induction cs as [|c r IH]; intros Hfree.
  - split; [by exists []|]. intros _. by exists [JData [lbrace]].
  - pose proof (jinja_free_cons _ _ Hfree) as Hr. destruct (IH Hr) as [[ns [Hp Hn]] Hb].
    split.
    + simpl. destruct (Ascii.eqb c lbrace) eqn:Hc.
      * apply Ascii.eqb_eq in Hc as ->. apply Hb. exact Hfree.
      * exists (cons_data c ns). rewrite Hp. split; [done|].
        by rewrite jinja_render_cons_data, Hn.
    + intros Hfb. cbn [jinja_free] in Hfb. rewrite Ascii.eqb_refl in Hfb.
      apply andb_prop in Hfb as [Hnot _]. apply negb_true_iff in Hnot.
      apply orb_false_iff in Hnot as [Hnot Hhash].
      apply orb_false_iff in Hnot as [Hlb Hpct].
      cbn [jinja_parse]. rewrite Hlb, Hpct, Hhash. cbn [orb].
      exists (cons_data lbrace (cons_data c ns)). rewrite Hp. split; [done|].
      by rewrite !jinja_render_cons_data, Hn.
Qed.

Lemma lbrace_rbrace : Ascii.eqb rbrace lbrace = false.
Proof. reflexivity. Qed.

(** ** Theorems *)

(** doubling every brace is the inverse of f-string
    evaluation: whatever the environment, an f-string whose literal is the
    escape of a text evaluates to that text. *)
Theorem fstring_escape_roundtrip env cs : fstring_go env None (fstring_escape cs) = Ok cs.
Proof.
  induction cs as [|c r IH]; [done|]. cbn [fstring_escape].
  destruct (Ascii.eqb c lbrace) eqn:Hl; [apply Ascii.eqb_eq in Hl as ->|];
    [|destruct (Ascii.eqb c rbrace) eqn:Hr; [apply Ascii.eqb_eq in Hr as ->|]];
    cbn [orb fstring_go]; rewrite ?Ascii.eqb_refl, ?lbrace_rbrace, ?Hl, ?Hr;
    rewrite ?Ascii.eqb_refl; by rewrite IH.
Qed.

(** Jinja2 serves a template that contains none of its
    opening delimiters verbatim, less one trailing newline, whatever the
    context. *)
Theorem jinja_free_verbatim ctx s :
  jinja_free (strip_trailing_newline (String.list_ascii_of_string s)) = true →
  render_template_string ctx s =
    Ok (String.string_of_list_ascii (strip_trailing_newline (String.list_ascii_of_string s))).
Proof.
  intros Hfree. unfold render_template_string.
  destruct (jinja_free_parse ctx _ Hfree) as [(ns & Hp & Hn) _].
  by rewrite Hp; simpl; rewrite Hn.
Qed.
