(* ===== verification/Pages.v ===== *)
(** * Pages: the Flask application of [src/app.py]

    The module-level values and the request handlers of [src/app.py]:
    [SIGNALING_SERVER_URL] (line 12), the stylesheet [STYLE_CSS]
    (lines 15-104), the f-string literals of [HOST_HTML] (106-183) and
    [VIEWER_HTML] (185-242), evaluated at import with the names defined
    above them, the three routes [host], [viewer] and [index] (244-254),
    Flask's dispatch of a request path to them with an uncaught exception
    answered by status 500, and the [__main__] entry (255-257).

    The literals are kept line by line as in the source; in these Rocq
    strings the character [~] stands for the double quote (a Rocq string
    literal cannot hold it undoubled), and [src_line] puts it back.  The
    source contains no [~] of its own. *)

From S2P Require Import Prelude Jinja.
From Stdlib Require Import Ascii.

Module Pages.

Definition dquote : ascii := chr 34.

Definition src_line (s : string) : string :=
  String.string_of_list_ascii
    ((λ c, if Ascii.eqb c "~" then dquote else c) <$> String.list_ascii_of_string s).

(** A Python triple-quoted literal whose opening quotes end their line and
    whose closing quotes start their own line: a newline, then each line
    followed by a newline. *)
Definition py_triple (ls : list string) : string :=
  String.string_of_list_ascii
    (nl :: (ls ≫= λ l, String.list_ascii_of_string (src_line l) ++ [nl])).

(** [SIGNALING_SERVER_URL = "https://your-signaling-app-name.onrender.com"] *)
Definition SIGNALING_SERVER_URL : string := "https://your-signaling-app-name.onrender.com".

(** [STYLE_CSS]: a plain triple-quoted literal, no substitution. *)
Definition STYLE_CSS : string := py_triple [
    "    :root {";
    "        --background-color: #1a1a1a;";
    "        --container-bg: rgba(35, 35, 35, 0.5);";
    "        --blur-effect: blur(10px);";
    "        --border-color: rgba(255, 255, 255, 0.2);";
    "        --text-color: #f0f0f0;";
    "        --primary-color: #00aaff;";
    "        --primary-hover: #0088cc;";
    "    }";
    "    body {";
    "        background-color: var(--background-color);";
    "        background-image: radial-gradient(circle at 10% 20%, rgba(0, 170, 255, 0.3), transparent 30%),";
    "                          radial-gradient(circle at 80% 90%, rgba(100, 0, 255, 0.3), transparent 30%);";
    "        font-family: 'Segoe UI', Tahoma, Geneva, Verdana, sans-serif;";
    "        color: var(--text-color);";
    "        display: flex;";
    "        justify-content: center;";
    "        align-items: center;";
    "        min-height: 100vh;";
    "        margin: 0;";
    "        padding: 20px;";
    "        box-sizing: border-box;";
    "    }";
    "    .container {";
    "        background: var(--container-bg);";
    "        backdrop-filter: var(--blur-effect);";
    "        -webkit-backdrop-filter: var(--blur-effect);";
    "        border: 1px solid var(--border-color);";
    "        border-radius: 15px;";
    "        padding: 40px;";
    "        width: 100%;";
    "        max-width: 600px;";
    "        text-align: center;";
    "        box-shadow: 0 8px 32px 0 rgba(0, 0, 0, 0.37);";
    "    }";
    "    h1 {";
    "        margin-bottom: 25px;";
    "        font-size: 2.5em;";
    "    }";
    "    p {";
    "        margin-bottom: 30px;";
    "        font-size: 1.1em;";
    "    }";
    "    video {";
    "        width: 100%;";
    "        border-radius: 10px;";
    "        background-color: #000;";
    "        margin-top: 20px;";
    "        border: 1px solid var(--border-color);";
    "    }";
    "    button, input {";
    "        width: 100%;";
    "        padding: 15px;";
    "        border-radius: 8px;";
    "        border: 1px solid var(--border-color);";
    "        background-color: transparent;";
    "        color: var(--text-color);";
    "        font-size: 1em;";
    "        margin-bottom: 15px;";
    "        box-sizing: border-box;";
    "        transition: all 0.3s ease;";
    "    }";
    "    button {";
    "        background-color: var(--primary-color);";
    "        color: white;";
    "        border: none;";
    "        cursor: pointer;";
    "        font-weight: bold;";
    "    }";
    "    button:hover {";
    "        background-color: var(--primary-hover);";
    "        box-shadow: 0 0 15px var(--primary-color);";
    "    }";
    "    input::placeholder {";
    "        color: #aaa;";
    "    }";
    "    input:focus {";
    "        outline: none;";
    "        border-color: var(--primary-color);";
    "        box-shadow: 0 0 10px var(--primary-color);";
    "    }";
    "    #streamCode {";
    "        background-color: rgba(0,0,0,0.3);";
    "        padding: 10px 15px;";
    "        border-radius: 5px;";
    "        font-family: monospace;";
    "        color: var(--primary-color);";
    "    }"].

(** The f-string literal of [HOST_HTML], as written. *)
Definition HOST_HTML_literal : string := py_triple [
    "<!DOCTYPE html>";
    "<html>";
    "<head>";
    "    <title>Host Screen</title>";
    "    <meta name=~viewport~ content=~width=device-width, initial-scale=1.0~>";
    "    <style>{STYLE_CSS}</style>";
    "</head>";
    "<body>";
    "    <div class=~container~>";
    "        <h1>Host Stream</h1>";
    "        <p>Start your screen share to begin streaming with internal audio.</p>";
    "        <button id=~startStream~>Start Stream</button>";
    "        <p>Your Stream Code: <b id=~streamCode~>Not Started</b></p>";
    "        <video id=~localVideo~ autoplay muted playsinline></video>";
    "    </div>";
    "    <script src=~https://cdn.socket.io/4.7.5/socket.io.min.js~></script>";
    "    <script>";
    "        document.addEventListener(~DOMContentLoaded~, () => {{";
    "            // IMPORTANT: Connect to your signaling server on Render";
    "            const socket = io(~{SIGNALING_SERVER_URL}~, {{transports: ['websocket']}});";
    "";
    "            const startStreamButton = document.getElementById('startStream');";
    "            const localVideo = document.getElementById('localVideo');";
    "            const streamCodeDisplay = document.getElementById('streamCode');";
    "            let localStream;";
    "            const peerConnections = {{}};";
    "";
    "            startStreamButton.onclick = async () => {{";
    "                try {{";
    "                    localStream = await navigator.mediaDevices.getDisplayMedia({{";
    "                        video: true,";
    "                        audio: {{ echoCancellation: false, noiseSuppression: false, autoGainControl: false }}";
    "                    }});";
    "                    localVideo.srcObject = localStream;";
    "                    socket.emit('start_stream');";
    "                    console.log(~Stream capture started.~);";
    "                }} catch (error) {{";
    "                    console.error(~Failed to start stream: ~, error);";
    "                    alert(~Could not start stream. Ensure you are on HTTPS and have granted permissions.~);";
    "                }}";
    "            }};";
    "";
    "            socket.on('connect', () => console.log(~Connected to signaling server.~));";
    "            socket.on('stream_started', (data) => {{";
    "                streamCodeDisplay.textContent = data.stream_code;";
    "                console.log(`Stream started with code: ${{data.stream_code}}`);";
    "            }});";
    "            socket.on('viewer_joined', (data) => {{";
    "                const viewerId = data.viewer_id;";
    "                console.log(`Viewer ${{viewerId}} joined, creating peer connection.`);";
    "                const peerConnection = new RTCPeerConnection({{{{ iceServers: [{{ urls: 'stun:stun.l.google.com:19302' }}] }}}});";
    "                peerConnections[viewerId] = peerConnection;";
    "                localStream.getTracks().forEach(track => peerConnection.addTrack(track, localStream));";
    "                peerConnection.onicecandidate = (event) => {{";
    "                    if (event.candidate) socket.emit('ice_candidate', {{ 'to': viewerId, 'candidate': event.candidate }});";
    "                }};";
    "                peerConnection.createOffer()";
    "                    .then(offer => peerConnection.setLocalDescription(offer))";
    "                    .then(() => socket.emit('offer', {{ 'to': viewerId, 'offer': peerConnection.localDescription }}));";
    "            }});";
    "            socket.on('answer', (data) => {{";
    "                console.log(`Received answer from ${{data.from}}`);";
    "                peerConnections[data.from].setRemoteDescription(new RTCSessionDescription(data.answer));";
    "            }});";
    "            socket.on('ice_candidate', (data) => peerConnections[data.from].addIceCandidate(new RTCIceCandidate(data.candidate)));";
    "            socket.on('viewer_left', (data) => {{";
    "                if (peerConnections[data.viewer_id]) {{";
    "                    peerConnections[data.viewer_id].close();";
    "                    delete peerConnections[data.viewer_id];";
    "                    console.log(`Viewer ${{data.viewer_id}} left.`);";
    "                }}";
    "            }});";
    "        }});";
    "    </script>";
    "</body>";
    "</html>"].

(** The f-string literal of [VIEWER_HTML], as written. *)
Definition VIEWER_HTML_literal : string := py_triple [
    "<!DOCTYPE html>";
    "<html>";
    "<head>";
    "    <title>Viewer Screen</title>";
    "    <meta name=~viewport~ content=~width=device-width, initial-scale=1.0~>";
    "    <style>{STYLE_CSS}</style>";
    "</head>";
    "<body>";
    "    <div class=~container~>";
    "        <h1>Join a Stream</h1>";
    "        <p>Enter the code from the host to start watching the stream.</p>";
    "        <input type=~text~ id=~streamCodeInput~ placeholder=~Enter Stream Code~>";
    "        <button id=~joinStream~>Join Stream</button>";
    "        <video id=~remoteVideo~ autoplay playsinline></video>";
    "    </div>";
    "    <script src=~https://cdn.socket.io/4.7.5/socket.io.min.js~></script>";
    "    <script>";
    "        document.addEventListener(~DOMContentLoaded~, () => {{";
    "            // IMPORTANT: Connect to your signaling server on Render";
    "            const socket = io(~{SIGNALING_SERVER_URL}~, {{transports: ['websocket']}});";
    "";
    "            const joinStreamButton = document.getElementById('joinStream');";
    "            const streamCodeInput = document.getElementById('streamCodeInput');";
    "            const remoteVideo = document.getElementById('remoteVideo');";
    "            let peerConnection;";
    "";
    "            joinStreamButton.onclick = () => {{";
    "                const streamCode = streamCodeInput.value;";
    "                if (streamCode) socket.emit('join_stream', {{ 'stream_code': streamCode }});";
    "            }};";
    "            ";
    "            socket.on('connect', () => console.log(~Connected to signaling server.~));";
    "            socket.on('offer', (data) => {{";
    "                const hostId = data.from;";
    "                console.log(~Received offer, creating peer connection.~);";
    "                peerConnection = new RTCPeerConnection({{{{ iceServers: [{{ urls: 'stun:stun.l.google.com:19302' }}] }}}});";
    "                peerConnection.setRemoteDescription(new RTCSessionDescription(data.offer));";
    "                peerConnection.createAnswer()";
    "                    .then(answer => peerConnection.setLocalDescription(answer))";
    "                    .then(() => socket.emit('answer', {{ 'to': hostId, 'answer': peerConnection.localDescription }}));";
    "                peerConnection.ontrack = (event) => remoteVideo.srcObject = event.streams[0];";
    "                peerConnection.onicecandidate = (event) => {{";
    "                    if (event.candidate) socket.emit('ice_candidate', {{ 'to': hostId, 'candidate': event.candidate }});";
    "                }};";
    "            }});";
    "            socket.on('ice_candidate', (data) => peerConnection.addIceCandidate(new RTCIceCandidate(data.candidate)));";
    "            socket.on('stream_ended', (data) => {{";
    "                alert(`Stream ${{data.stream_code}} has ended.`);";
    "                remoteVideo.srcObject = null;";
    "                if (peerConnection) peerConnection.close();";
    "            }});";
    "            socket.on('error', (data) => alert(data.message));";
    "        }});";
    "    </script>";
    "</body>";
    "</html>"].

(** The module's names visible to the f-string of line 106 (and, with
    [HOST_HTML] itself, of line 185); only these two are referenced. *)
Definition module_env (name : string) : option string :=
  if String.eqb name "STYLE_CSS" then Some STYLE_CSS
  else if String.eqb name "SIGNALING_SERVER_URL" then Some SIGNALING_SERVER_URL
  else None.

Definition from_ok {E} (r : result E string) : string :=
  match r with Ok s => s | Err _ => EmptyString end.

(** [HOST_HTML] and [VIEWER_HTML]: the values the f-strings evaluate to
    (the evaluation succeeds: [HOST_HTML_evaluates]). *)
Definition HOST_HTML : string := from_ok (fstring_eval module_env HOST_HTML_literal).
Definition VIEWER_HTML : string := from_ok (fstring_eval module_env VIEWER_HTML_literal).

(** Flask's template context: no template of the repository prints a
    context variable, so the context is left empty. *)
Definition flask_context (name : string) : option string := None.

(** [def host(): return render_template_string(HOST_HTML)] *)
Definition host : result JinjaError string := render_template_string flask_context HOST_HTML.

(** [def viewer(): return render_template_string(VIEWER_HTML)] *)
Definition viewer : result JinjaError string := render_template_string flask_context VIEWER_HTML.

(** [def index(): return "Welcome! Use /host or /viewer."] *)
Definition index : string := "Welcome! Use /host or /viewer.".

Record Response : Type := mkResponse { status : nat; body : string }.

(** A view's outcome as an HTTP response: an uncaught exception in the view
    is answered by Flask with 500 Internal Server Error. *)
Definition to_response (r : result JinjaError string) : Response :=
  match r with
  | Ok b => mkResponse 200 b
  | Err _ => mkResponse 500 "Internal Server Error"
  end.

(** The URL map of the three [@app.route] decorators. *)
Definition dispatch_request (path : string) : Response :=
  if String.eqb path "/host" then to_response host
  else if String.eqb path "/viewer" then to_response viewer
  else if String.eqb path "/" then mkResponse 200 index
  else mkResponse 404 "Not Found".

(** The names the module binds (imports, assignments, view functions). *)
Definition module_globals : list string :=
  ["Flask"; "render_template_string"; "SocketIO"; "logging"; "app";
   "SIGNALING_SERVER_URL"; "STYLE_CSS"; "HOST_HTML"; "VIEWER_HTML";
   "host"; "viewer"; "index"].

Inductive PyError : Type := NameError (name : string).

(** [if __name__ == '__main__': socketio.run(app, ...)]: the name
    [socketio] must be bound for the call to start the server. *)
Definition run_main : result PyError unit :=
  if bool_decide ("socketio" ∈ module_globals) then Ok tt else Err (NameError "socketio").

(** The print statement the f-strings of lines 157 and 221 produce. *)
Definition ice_servers_print : string :=
  "{{ iceServers: [{ urls: 'stun:stun.l.google.com:19302' }] }}".

(** ** Theorems *)

(** C1: neither page is ever served: a request for [/host] or for
    [/viewer] is answered with status 500, because rendering the template
    raises; [/] answers with its welcome text. *)
Theorem pages_not_served :
  dispatch_request "/host" = mkResponse 500 "Internal Server Error" ∧
  dispatch_request "/viewer" = mkResponse 500 "Internal Server Error" ∧
  dispatch_request "/" = mkResponse 200 "Welcome! Use /host or /viewer.".
Proof. split; [|split]; vm_compute; reflexivity. Qed.

(** C2: the f-strings evaluate, and in each value the first
    Jinja2 delimiter is the [{{] that the quadruple braces of
    [new RTCPeerConnection({{{{ iceServers: ... }}}})] (lines 157 and 221)
    leave behind: the text before it is free of Jinja2 syntax, and Jinja2
    rejects the print statement [{{ iceServers: ...] with
    "expected token 'end of print statement', got ':'". *)
Theorem templates_rejected_at_ice_servers :
  fstring_eval module_env HOST_HTML_literal = Ok HOST_HTML ∧
  fstring_eval module_env VIEWER_HTML_literal = Ok VIEWER_HTML ∧
  (let cs := String.list_ascii_of_string HOST_HTML in
   jinja_free (take 4976 cs) = true ∧
   take 60 (drop 4976 cs) = String.list_ascii_of_string ice_servers_print) ∧
  (let cs := String.list_ascii_of_string VIEWER_HTML in
   jinja_free (take 4190 cs) = true ∧
   take 60 (drop 4190 cs) = String.list_ascii_of_string ice_servers_print) ∧
  host = Err end_of_print_error ∧ viewer = Err end_of_print_error.
Proof. repeat split; vm_compute; reflexivity. Qed.


End Pages.
