(* ===== verification/HostClient.v ===== *)
(** * HostClient: the JavaScript of the host page

    The [DOMContentLoaded] handler of [HOST_HTML] (src/app.py lines
    124-179) as a state machine.  Its state is the handler's closure:
    [localStream] (the [let], undefined until a capture succeeds),
    [peerConnections] (the object keyed by viewer id, here a [gmap]), the
    [streamCode] element's text and the [localVideo] element's source;
    what the page sends is the list of [socket.emit] calls, in order, and
    the alerts it shows.

    A browser [RTCPeerConnection] is an abstract record [PC] (its tracks,
    local and remote descriptions, added ICE candidates, and whether it is
    closed).  The promise chain [createOffer().then(setLocalDescription)
    .then(emit 'offer')] is asynchronous: the handler records the offer as
    pending, and the event [HOfferReady] (the browser resolving
    [createOffer]) completes it.  A socket.io handler that throws (a
    [TypeError] on [undefined]) keeps the effects it made before the throw:
    each handler returns the new state together with the error it raised,
    if any. *)

From S2P Require Import Prelude Protocol.

(** ** Browser objects shared by the two pages *)

Abbreviation Track := nat.
Abbreviation MediaStream := (list Track).

Record PC : Type := mkPC {
  pc_tracks : list Track;
  pc_local : option Payload;
  pc_remote : option Payload;
  pc_candidates : list Payload;
  pc_closed : bool
}.

Definition new_pc : PC := mkPC [] None None [] false.

Definition pc_set_local (d : Payload) (pc : PC) : PC :=
  mkPC (pc_tracks pc) (Some d) (pc_remote pc) (pc_candidates pc) (pc_closed pc).
Definition pc_set_remote (d : Payload) (pc : PC) : PC :=
  mkPC (pc_tracks pc) (pc_local pc) (Some d) (pc_candidates pc) (pc_closed pc).
Definition pc_add_candidate (c : Payload) (pc : PC) : PC :=
  mkPC (pc_tracks pc) (pc_local pc) (pc_remote pc) (pc_candidates pc ++ [c]) (pc_closed pc).
Definition pc_add_tracks (ts : list Track) (pc : PC) : PC :=
  mkPC (pc_tracks pc ++ ts) (pc_local pc) (pc_remote pc) (pc_candidates pc) (pc_closed pc).
Definition pc_close (pc : PC) : PC :=
  mkPC (pc_tracks pc) (pc_local pc) (pc_remote pc) (pc_candidates pc) true.

(** A call on a closed connection rejects its promise: no state change,
    and nothing is thrown synchronously. *)
Definition if_open (f : PC → PC) (pc : PC) : PC := if pc_closed pc then pc else f pc.

(** The errors a handler can throw. *)
Inductive JsError : Type :=
| TypeError (message : string).

(** ** Order of the messages a page sends *)

(** In a list of sent messages, every ICE candidate for [v] comes after a
    message [first v] ([offer] for the host page, [answer] for the viewer
    page). *)
Definition is_ice (v : ConnId) (m : ClientMsg) : Prop := ∃ c, m = ice_candidate v c.

Definition ice_preceded (first : ConnId → ClientMsg → Prop) (l : list ClientMsg) : Prop :=
  preceded is_ice first l.

Definition not_ice (m : ClientMsg) : Prop := ∀ v c, m ≠ ice_candidate v c.

Lemma ice_preceded_app first l l' :
  ice_preceded first l → Forall not_ice l' → ice_preceded first (l ++ l').
Proof.
  intros Hl Hl'. apply preceded_app; [done|]. intros v m Hm [c ->].
  rewrite Forall_forall in Hl'. by destruct (Hl' _ Hm v c).
Qed.

Lemma ice_preceded_snoc first l v c m :
  ice_preceded first l → m ∈ l → first v m → ice_preceded first (l ++ [ice_candidate v c]).
Proof.
  intros Hl Hin Hf. apply preceded_app; [done|].
  intros v' m' ->%list_elem_of_singleton [c' [= -> ->]]. eauto.
Qed.

Lemma ice_preceded_nil first : ice_preceded first [].
Proof. apply preceded_nil. Qed.

Module HostClient.

Record Host : Type := mkHost {
  localStream : option MediaStream;
  localVideo_srcObject : option MediaStream;
  streamCode_text : string;
  peerConnections : gmap ConnId PC;
  pending_offers : gset ConnId;
  emitted : list ClientMsg;
  alerts : list string
}.

(** The page as loaded: [<b id="streamCode">Not Started</b>]. *)
Definition init : Host := mkHost None None "Not Started" ∅ ∅ [] [].

Definition emit (h : Host) (m : ClientMsg) : Host :=
  mkHost (localStream h) (localVideo_srcObject h) (streamCode_text h) (peerConnections h)
    (pending_offers h) (emitted h ++ [m]) (alerts h).

Definition set_pcs (h : Host) (pcs : gmap ConnId PC) : Host :=
  mkHost (localStream h) (localVideo_srcObject h) (streamCode_text h) pcs
    (pending_offers h) (emitted h) (alerts h).

(** [startStreamButton.onclick]: the capture resolves with a stream
    ([Some]) or rejects ([None], the [catch] branch). *)
Definition onclick_startStream (h : Host) (capture : option MediaStream) : Host :=
  match capture with
  | Some s =>
      emit (mkHost (Some s) (Some s) (streamCode_text h) (peerConnections h)
              (pending_offers h) (emitted h) (alerts h)) start_stream
  | None =>
      mkHost (localStream h) (localVideo_srcObject h) (streamCode_text h) (peerConnections h)
        (pending_offers h) (emitted h)
        (alerts h ++ ["Could not start stream. Ensure you are on HTTPS and have granted permissions."])
  end.

(** [socket.on('stream_started', ...)]: show the code. *)
Definition on_stream_started (h : Host) (code : Code) : Host :=
  mkHost (localStream h) (localVideo_srcObject h) code (peerConnections h)
    (pending_offers h) (emitted h) (alerts h).

(** [socket.on('viewer_joined', ...)]: create and store the connection,
    then add the local tracks (a TypeError when no capture has succeeded:
    the connection stays stored, without tracks and without an offer),
    then start the offer. *)
Definition on_viewer_joined (h : Host) (viewerId : ConnId) : Host * option JsError :=
  let h1 := set_pcs h (<[viewerId := new_pc]> (peerConnections h)) in
  match localStream h1 with
  | None => (h1, Some (TypeError "Cannot read properties of undefined (reading 'getTracks')"))
  | Some s =>
      let h2 := set_pcs h1 (<[viewerId := pc_add_tracks s new_pc]> (peerConnections h1)) in
      (mkHost (localStream h2) (localVideo_srcObject h2) (streamCode_text h2)
         (peerConnections h2) (pending_offers h2 ∪ {[viewerId]}) (emitted h2) (alerts h2), None)
  end.

(** The browser resolves the [createOffer] of the connection to [v]:
    [setLocalDescription(offer)], then [emit('offer', {to: v, offer})].  On
    a connection that is gone (closed by [viewer_left]) the chain rejects
    and nothing is sent. *)
Definition offer_ready (h : Host) (v : ConnId) (sdp : Payload) : Host :=
  if bool_decide (v ∈ pending_offers h) then
    let h1 := mkHost (localStream h) (localVideo_srcObject h) (streamCode_text h)
                (peerConnections h) (pending_offers h ∖ {[v]}) (emitted h) (alerts h) in
    match peerConnections h !! v with
    | Some pc =>
        if pc_closed pc then h1
        else emit (set_pcs h1 (<[v := pc_set_local sdp pc]> (peerConnections h1))) (offer v sdp)
    | None => h1
    end
  else h.

(** [peerConnection.onicecandidate] of the connection to [viewerId]: a
    non-null candidate is sent to that viewer.  The browser gathers
    candidates only for an open connection with a local description. *)
Definition on_icecandidate (h : Host) (viewerId : ConnId) (cand : option Payload) : Host :=
  match peerConnections h !! viewerId, cand with
  | Some pc, Some c =>
      if negb (pc_closed pc) && bool_decide (is_Some (pc_local pc))
      then emit h (ice_candidate viewerId c) else h
  | _, _ => h
  end.

(** [socket.on('answer', ...)]: [peerConnections[data.from]
    .setRemoteDescription(...)]; a TypeError when there is no connection
    for the sender. *)
Definition on_answer (h : Host) (from : ConnId) (sdp : Payload) : Host * option JsError :=
  match peerConnections h !! from with
  | Some pc => (set_pcs h (<[from := if_open (pc_set_remote sdp) pc]> (peerConnections h)), None)
  | None => (h, Some (TypeError "Cannot read properties of undefined (reading 'setRemoteDescription')"))
  end.

(** [socket.on('ice_candidate', ...)]: [peerConnections[data.from]
    .addIceCandidate(...)]. *)
Definition on_ice_candidate (h : Host) (from : ConnId) (cand : Payload) : Host * option JsError :=
  match peerConnections h !! from with
  | Some pc => (set_pcs h (<[from := if_open (pc_add_candidate cand) pc]> (peerConnections h)), None)
  | None => (h, Some (TypeError "Cannot read properties of undefined (reading 'addIceCandidate')"))
  end.

(** [socket.on('viewer_left', ...)]: close and forget the connection, if
    there is one (once deleted, the closed object is unreachable but for
    its pending offer, which then rejects). *)
Definition on_viewer_left (h : Host) (viewerId : ConnId) : Host :=
  match peerConnections h !! viewerId with
  | Some _ => set_pcs h (delete viewerId (peerConnections h))
  | None => h
  end.

(** The events the page reacts to. *)
Inductive HostEvent : Type :=
| HClickStart (capture : option MediaStream)
| HServer (m : ServerMsg)
| HOfferReady (viewerId : ConnId) (sdp : Payload)
| HIceGathered (viewerId : ConnId) (cand : option Payload).

(** Dispatch of one event.  The page registers no listener for
    [stream_ended], [offer], [error] or [viewer]-side events: they are
    ignored. *)
Definition step (h : Host) (ev : HostEvent) : Host * option JsError :=
  match ev with
  | HClickStart cap => (onclick_startStream h cap, None)
  | HServer m =>
      match m with
      | stream_started code => (on_stream_started h code, None)
      | viewer_joined v => on_viewer_joined h v
      | answer_from v sdp => on_answer h v sdp
      | ice_candidate_from v c => on_ice_candidate h v c
      | viewer_left v => (on_viewer_left h v, None)
      | _ => (h, None)
      end
  | HOfferReady v sdp => (offer_ready h v sdp, None)
  | HIceGathered v c => (on_icecandidate h v c, None)
  end.

(** The page after a sequence of events. *)
Definition run (h : Host) (evs : list HostEvent) : Host := foldl (λ h ev, fst (step h ev)) h evs.

(** ** Ordering of what the page sends *)

(** Every stored connection with a local description has had its offer
    sent. *)
Definition offers_sent (h : Host) : Prop :=
  ∀ v pc, peerConnections h !! v = Some pc → is_Some (pc_local pc) →
    ∃ sdp, offer v sdp ∈ emitted h.

Definition is_offer (v : ConnId) (m : ClientMsg) : Prop := ∃ sdp, m = offer v sdp.

Definition host_inv (h : Host) : Prop := offers_sent h ∧ ice_preceded is_offer (emitted h).

(** A step that sends no ICE candidate and gives no connection a local
    description it did not have keeps the invariant. *)
Lemma host_inv_frame h h' l' :
  host_inv h → emitted h' = emitted h ++ l' → Forall not_ice l' →
  (∀ v pc', peerConnections h' !! v = Some pc' → is_Some (pc_local pc') →
     ∃ pc, peerConnections h !! v = Some pc ∧ is_Some (pc_local pc)) →
  host_inv h'.
Proof.
  intros [Hoff Hice] He Hl' Hpcs. split.
  - intros v pc' Hv Hloc. destruct (Hpcs _ _ Hv Hloc) as (pc & Hpc & Hl).
    destruct (Hoff _ _ Hpc Hl) as [sdp Hin]. exists sdp. rewrite He. set_solver.
  - rewrite He. by apply ice_preceded_app.
Qed.

Lemma host_inv_init : host_inv init.
Proof.
  split; [|apply ice_preceded_nil]. intros v pc Hv. cbn in Hv. by rewrite lookup_empty in Hv.
Qed.

Lemma host_inv_step h ev : host_inv h → host_inv (fst (step h ev)).
Proof.
  intros Hinv. destruct ev as [cap|m|v sdp|v cand]; simpl.
  - eapply (host_inv_frame _ _ (match cap with Some _ => [start_stream] | None => [] end));
      [done|..].
    + destruct cap; simpl; [done|by rewrite app_nil_r].
    + destruct cap; repeat constructor; congruence.
    + destruct cap; simpl; eauto.
  - destruct m as [code|v|v|code|v sdp|v sdp|v c|msg]; simpl;
      try (eapply (host_inv_frame _ _ []); [done|by rewrite app_nil_r|done|]); simpl; eauto.
    + (* viewer_joined *)
      unfold on_viewer_joined, set_pcs. destruct (localStream h); simpl;
        (eapply (host_inv_frame _ _ []); [done|by rewrite app_nil_r|done|]); simpl;
        intros w pc' Hw Hl; apply lookup_insert_Some in Hw as [[<- <-]|[_ ?]];
        try (destruct Hl; discriminate); eauto;
        apply lookup_insert_Some in H as [[<- <-]|[_ ?]]; [destruct Hl; discriminate|eauto].
    + (* viewer_left *)
      unfold on_viewer_left, set_pcs. destruct (peerConnections h !! v); simpl;
        (eapply (host_inv_frame _ _ []); [done|by rewrite app_nil_r|done|]); simpl; eauto;
        intros w pc' [_ ?]%lookup_delete_Some ?; eauto.
    + (* answer *)
      unfold on_answer, set_pcs. destruct (peerConnections h !! v) as [pc|] eqn:Hv; simpl;
        (eapply (host_inv_frame _ _ []); [done|by rewrite app_nil_r|done|]); simpl; eauto.
      intros w pc' Hw Hl. apply lookup_insert_Some in Hw as [[<- <-]|[_ ?]]; [|eauto].
      exists pc. split; [done|]. unfold if_open in Hl. by destruct (pc_closed pc).
    + (* ice_candidate *)
      unfold on_ice_candidate, set_pcs. destruct (peerConnections h !! v) as [pc|] eqn:Hv; simpl;
        (eapply (host_inv_frame _ _ []); [done|by rewrite app_nil_r|done|]); simpl; eauto.
      intros w pc' Hw Hl. apply lookup_insert_Some in Hw as [[<- <-]|[_ ?]]; [|eauto].
      exists pc. split; [done|]. unfold if_open in Hl. by destruct (pc_closed pc).
  - (* offer ready *)
    destruct Hinv as [Hoff Hice]. unfold offer_ready.
    case_bool_decide; [|done]. destruct (peerConnections h !! v) as [pc|] eqn:Hv; [|done].
    destruct (pc_closed pc); [done|]. unfold emit, set_pcs. split; simpl.
    + intros w pc' Hw Hl. cbn [peerConnections] in Hw.
      apply lookup_insert_Some in Hw as [[<- <-]|[_ Hw]].
      * exists sdp. set_solver.
      * destruct (Hoff _ _ Hw Hl) as [sdp' ?]. exists sdp'. set_solver.
    + apply ice_preceded_app; [done|]. repeat constructor. congruence.
  - (* ICE gathered *)
    destruct Hinv as [Hoff Hice]. unfold on_icecandidate.
    destruct (peerConnections h !! v) as [pc|] eqn:Hv; [|done]. destruct cand as [c|]; [|done].
    destruct (negb (pc_closed pc) && bool_decide (is_Some (pc_local pc))) eqn:Hc; [|done].
    apply andb_prop in Hc as [_ Hl%bool_decide_eq_true]. destruct (Hoff _ _ Hv Hl) as [sdp Hin].
    unfold emit. split; simpl.
    + intros w pc' Hw Hl'. cbn [peerConnections] in Hw.
      destruct (Hoff _ _ Hw Hl') as [sdp' ?]. exists sdp'. set_solver.
    + eapply ice_preceded_snoc; [done|exact Hin|by eexists].
Qed.

(** ** What a step may send and what it keeps *)

(** The messages the page sends. *)
Definition host_msg (m : ClientMsg) : Prop :=
  m = start_stream ∨ (∃ v p, m = offer v p) ∨ (∃ v p, m = ice_candidate v p).

(** A step only appends to what the page has sent, and only [start_stream],
    offers and ICE candidates. *)
Lemma host_step_emitted h ev : ∃ l, emitted (fst (step h ev)) = emitted h ++ l ∧ Forall host_msg l.
Proof.
  assert (Hnil : emitted h = emitted h ++ []) by by rewrite app_nil_r.
  destruct ev as [[cap|]|m|v sdp|v [c|]]; simpl.
  - eexists. split; [done|]. apply Forall_singleton. by left.
  - eexists. split; [exact Hnil|constructor].
  - destruct m as [code|v|v|code|v sdp|v sdp|v c|msg]; simpl;
      unfold on_viewer_joined, on_answer, on_ice_candidate, on_viewer_left;
      repeat case_match; simpl; (eexists; split; [exact Hnil|constructor]).
  - unfold offer_ready. repeat case_match; simpl;
      first [eexists; split; [exact Hnil|constructor]
            |eexists; split; [done|]; apply Forall_singleton; right; left; eauto].
  - unfold on_icecandidate. repeat case_match; simpl;
      first [eexists; split; [exact Hnil|constructor]
            |eexists; split; [done|]; apply Forall_singleton; right; right; eauto].
  - unfold on_icecandidate. repeat case_match; simpl; (eexists; split; [exact Hnil|constructor]).
Qed.

(** No [socket.on] listener of the page sends anything: the page sends
    only from the Start button and from the browser's callbacks. *)
Lemma host_listeners_silent h m : emitted (fst (step h (HServer m))) = emitted h.
Proof.
  destruct m; cbn [step fst];
    unfold on_stream_started, on_viewer_joined, on_answer, on_ice_candidate, on_viewer_left, set_pcs;
    repeat case_match; done.
Qed.

(** Once [viewer_left v] is handled, the page holds no connection to [v],
    and the offer chain of the deleted connection, if the browser still
    resolves it, sends nothing. *)
Lemma viewer_left_forgets h v :
  peerConnections (fst (step h (HServer (viewer_left v)))) !! v = None ∧
  ∀ sdp, emitted (offer_ready (fst (step h (HServer (viewer_left v)))) v sdp) =
         emitted (fst (step h (HServer (viewer_left v)))).
Proof.
  assert (Hv : peerConnections (fst (step h (HServer (viewer_left v)))) !! v = None).
  { cbn [step fst]. unfold on_viewer_left. destruct (peerConnections h !! v) eqn:Hh; [|done].
    apply lookup_delete_eq. }
  split; [done|]. intros sdp. unfold offer_ready. rewrite Hv. by case_bool_decide.
Qed.

(** A message of the relay that does not concern [v] leaves the page's
    connection to [v], its capture and what it has sent as they are. *)
Lemma step_unconcerned h m v :
  concerns v m = false →
  peerConnections (fst (step h (HServer m))) !! v = peerConnections h !! v ∧
  localStream (fst (step h (HServer m))) = localStream h ∧
  emitted (fst (step h (HServer m))) = emitted h.
Proof.
  intros Hc. split_and!; [|by destruct m; cbn [step fst]; unfold on_stream_started, on_viewer_joined,
    on_answer, on_ice_candidate, on_viewer_left, set_pcs; repeat case_match|apply host_listeners_silent].
  destruct m as [code|w|w|code|w sdp|w sdp|w c|msg]; cbn [concerns] in Hc; cbn [step fst]; try done;
    apply bool_decide_eq_false in Hc;
    unfold on_viewer_joined, on_answer, on_ice_candidate, on_viewer_left, set_pcs;
    repeat case_match; simplify_eq/=; rewrite ?lookup_insert_ne, ?lookup_delete_ne; done.
Qed.

Lemma run_unconcerned h ms v :
  Forall (λ m, concerns v m = false) ms →
  let h' := run h (HServer <$> ms) in
  peerConnections h' !! v = peerConnections h !! v ∧ localStream h' = localStream h ∧
  emitted h' = emitted h.
Proof.
  intros Hms. revert h. induction Hms as [|m ms Hm _ IH]; intros h; [done|].
  cbn [fmap list_fmap run foldl]. destruct (IH (fst (step h (HServer m)))) as (H1 & H2 & H3).
  destruct (step_unconcerned h m v Hm) as (H4 & H5 & H6). unfold run in *. split_and!; congruence.
Qed.

(** With a capture, [viewer_joined] and the browser resolving the offer
    leave a connection with the captured tracks and the offer as its
    local description, and send exactly that offer. *)
Lemma joined_offer h st v sdp :
  localStream h = Some st →
  let h2 := offer_ready (fst (on_viewer_joined h v)) v sdp in
  snd (on_viewer_joined h v) = None ∧ emitted h2 = emitted h ++ [offer v sdp] ∧
  peerConnections h2 !! v = Some (mkPC st (Some sdp) None [] false) ∧ localStream h2 = Some st.
Proof.
  intros Hs. unfold on_viewer_joined, set_pcs. simpl. rewrite Hs. simpl.
  split; [done|]. unfold offer_ready. simpl.
  rewrite bool_decide_eq_true_2 by set_solver.
  rewrite lookup_insert_eq. simpl. split_and!; [done|by rewrite lookup_insert_eq|done].
Qed.

(** [v] has an offer under way or sent. *)
Definition offered (h : Host) (v : ConnId) : Prop :=
  v ∈ pending_offers h ∨ ∃ sdp, offer v sdp ∈ emitted h.

(** Only a [viewer_joined v] starts an offer for [v]. *)
Lemma step_offered h ev v :
  offered (fst (step h ev)) v → offered h v ∨ ev = HServer (viewer_joined v).
Proof.
  unfold offered. destruct ev as [[cap|]|m|v' sdp|v' [c|]]; simpl.
  - intros [?|[sdp ?]]; left; [by left|right; exists sdp; set_solver].
  - by left.
  - destruct m as [code|v'|v'|code|v' sdp|v' sdp|v' c|msg]; simpl;
      unfold on_viewer_joined, on_answer, on_ice_candidate, on_viewer_left;
      repeat case_match; simpl; try (by left).
    destruct (decide (v' = v)) as [->|Hne]; [by right|].
    intros [Hin|?]; left; [left; set_solver|by right].
  - unfold offer_ready. case_bool_decide as Hp; [|by left].
    repeat case_match; simpl; intros [Hin|[sdp' Hin]]; left; try (left; set_solver).
    + by right; exists sdp'.
    + apply elem_of_app in Hin as [Hin|Hin%list_elem_of_singleton]; [by right; exists sdp'|].
      injection Hin as -> ->. by left.
    + by right; exists sdp'.
  - unfold on_icecandidate. repeat case_match; simpl; intros [Hin|[sdp Hin]]; left;
      try (by left); right; exists sdp; set_solver.
  - unfold on_icecandidate. repeat case_match; by left.
Qed.

(** The page never sends [join_stream]. *)
Lemma host_step_no_join h ev code :
  join_stream code ∉ emitted h → join_stream code ∉ emitted (fst (step h ev)).
Proof.
  intros Hn. destruct (host_step_emitted h ev) as (l & -> & Hl).
  intros [?|Hin]%elem_of_app; [done|]. rewrite Forall_forall in Hl.
  destruct (Hl _ Hin) as [?|[(? & ? & ?)|(? & ? & ?)]]; discriminate.
Qed.

(** The capture of a page that has asked to start a stream is kept. *)
Lemma host_stream_step h ev :
  (start_stream ∈ emitted h → is_Some (localStream h)) →
  start_stream ∈ emitted (fst (step h ev)) → is_Some (localStream (fst (step h ev))).
Proof.
  intros Hs Hin. destruct ev as [cap|m|v sdp|v c]; simpl in *;
    unfold onclick_startStream, on_viewer_joined, on_answer, on_ice_candidate, on_viewer_left,
      offer_ready, on_icecandidate, emit, set_pcs in *;
    repeat case_match; simplify_eq/=; first [by eexists|apply Hs; set_solver].
Qed.

(** A connection is forgotten only on [viewer_left]. *)
Lemma host_pcs_step h ev v :
  is_Some (peerConnections h !! v) →
  is_Some (peerConnections (fst (step h ev)) !! v) ∨ ev = HServer (viewer_left v).
Proof.
  intros Hv. destruct ev as [cap|m|v' sdp|v' c]; simpl;
    unfold onclick_startStream, on_viewer_joined, on_answer, on_ice_candidate, on_viewer_left,
      offer_ready, on_icecandidate, emit, set_pcs;
    repeat case_match; simplify_eq/=;
    first [by left
          |left; rewrite !lookup_insert_is_Some'; naive_solver
          |match goal with |- context [delete ?x _] =>
             destruct (decide (x = v)) as [->|?]; [by right|left];
             rewrite lookup_delete_is_Some; naive_solver end].
Qed.

Lemma host_joined_pc h v : is_Some (peerConnections (fst (step h (HServer (viewer_joined v)))) !! v).
Proof.
  simpl. unfold on_viewer_joined, set_pcs. destruct (localStream h); simpl;
    by rewrite lookup_insert_eq.
Qed.

(** What the page throws: [getTracks] of an undefined [localStream] on
    [viewer_joined], or a signal from a viewer it has no connection for. *)
Lemma host_step_throw h ev e :
  snd (step h ev) = Some e →
  (∃ v, ev = HServer (viewer_joined v) ∧ localStream h = None) ∨
  (∃ v p, (ev = HServer (answer_from v p) ∨ ev = HServer (ice_candidate_from v p)) ∧
          peerConnections h !! v = None).
Proof.
  destruct ev as [cap|m|v sdp|v c]; simpl; try discriminate.
  destruct m as [code|v|v|code|v sdp|v sdp|v c|msg]; simpl; try discriminate;
    unfold on_viewer_joined, on_answer, on_ice_candidate; repeat case_match; simplify_eq/=;
    try discriminate; eauto 10.
Qed.

(** ** The connection table

    [peerConnections] against an abstract table: the set of viewers that
    have joined and not left since.  The per-viewer listeners ([answer],
    [ice_candidate], [viewer_left]) each touch one entry of the table,
    through [partial_alter]. *)

(** The abstract table after one event. *)
Definition tracked_after (vs : gset ConnId) (ev : HostEvent) : gset ConnId :=
  match ev with
  | HServer (viewer_joined v) => {[v]} ∪ vs
  | HServer (viewer_left v) => vs ∖ {[v]}
  | _ => vs
  end.

(** The listeners that change one connection and send nothing: the
    viewer they concern and what they do to its entry. *)
Definition quiet (ev : HostEvent) : option (ConnId * (option PC → option PC)) :=
  match ev with
  | HServer (answer_from v sdp) => Some (v, fmap (if_open (pc_set_remote sdp)))
  | HServer (ice_candidate_from v c) => Some (v, fmap (if_open (pc_add_candidate c)))
  | HServer (viewer_left v) => Some (v, λ _, None)
  | _ => None
  end.

Lemma set_pcs_id h : set_pcs h (peerConnections h) = h.
Proof. by destruct h. Qed.

Lemma set_pcs_set_pcs h m m' : set_pcs (set_pcs h m) m' = set_pcs h m'.
Proof. done. Qed.

Lemma step_dom h ev :
  dom (peerConnections (fst (step h ev))) = tracked_after (dom (peerConnections h)) ev.
Proof.
  destruct ev as [cap|m|v sdp|v c]; [|destruct m| |]; simpl;
    unfold onclick_startStream, on_stream_started, on_viewer_joined, on_answer,
      on_ice_candidate, on_viewer_left, offer_ready, on_icecandidate, emit, set_pcs;
    repeat case_match; simplify_eq/=; rewrite ?dom_insert_L, ?dom_delete_L; try done;
    repeat match goal with
           | H : _ !! _ = Some _ |- _ => apply elem_of_dom_2 in H
           | H : _ !! _ = None |- _ => apply not_elem_of_dom_2 in H
           end; set_solver.
Qed.

(** A quiet listener is [partial_alter] on its viewer's entry. *)
Lemma quiet_step h ev v g :
  quiet ev = Some (v, g) → fst (step h ev) = set_pcs h (partial_alter g v (peerConnections h)).
Proof.
  intros Hq. destruct ev as [cap|m|v' sdp|v' c]; [|destruct m| |]; simpl in *; try discriminate;
    injection Hq as -> <-; unfold on_answer, on_ice_candidate, on_viewer_left;
    destruct (peerConnections h !! v) as [pc|] eqn:E; simpl;
    first [rewrite <- (set_pcs_id h) at 1; f_equal|f_equal];
    apply map_eq; intros j; destruct (decide (v = j)) as [<-|?];
    rewrite ?lookup_partial_alter_eq, ?lookup_partial_alter_ne, ?lookup_insert_eq,
      ?lookup_insert_ne, ?lookup_delete_eq, ?lookup_delete_ne, ?E by done; done.
Qed.

(** Whether a quiet listener throws depends on its viewer's entry only. *)
Lemma quiet_throw h h' ev v g :
  quiet ev = Some (v, g) → peerConnections h !! v = peerConnections h' !! v →
  snd (step h ev) = snd (step h' ev).
Proof.
  intros Hq Hv. destruct ev as [cap|m|v' sdp|v' c]; [|destruct m| |]; simpl in *; try discriminate;
    injection Hq as -> <-; unfold on_answer, on_ice_candidate; rewrite ?Hv;
    by repeat case_match.
Qed.

(** ** Offers under way

    The page never closes a connection it keeps (it deletes it on
    [viewer_left]), so an offer under way for a stored connection is
    sent when the browser resolves it. *)

Definition pcs_open (h : Host) : Prop :=
  ∀ v pc, peerConnections h !! v = Some pc → pc_closed pc = false.

Lemma pcs_open_step h ev : pcs_open h → pcs_open (fst (step h ev)).
Proof.
  intros Ho. destruct ev as [cap|m|v sdp|v c]; [|destruct m| |]; simpl;
    unfold onclick_startStream, on_stream_started, on_viewer_joined, on_answer,
      on_ice_candidate, on_viewer_left, offer_ready, on_icecandidate, emit, set_pcs, pcs_open in *;
    repeat case_match; simplify_eq/=; try done; intros v' pc' Hv';
    repeat match goal with
           | H : <[_ := _]> _ !! _ = Some _ |- _ => apply lookup_insert_Some in H as [[_ <-]|[_ H]]
           | H : delete _ _ !! _ = Some _ |- _ => apply lookup_delete_Some in H as [_ H]
           end; eauto; unfold if_open; repeat case_match; simpl; eauto.
Qed.

Lemma offered_step h ev v :
  offered h v → (∃ pc, peerConnections h !! v = Some pc ∧ pc_closed pc = false) →
  offered (fst (step h ev)) v.
Proof.
  intros Hoff (pc & Hpc & Hcl).
  assert (Hkeep : ∀ h', emitted h ⊆ emitted h' →
            (v ∈ pending_offers h → v ∈ pending_offers h') → offered h' v).
  { intros h' He Hv. destruct Hoff as [?|[sdp0 ?]]; [left; auto|right; exists sdp0; set_solver]. }
  destruct ev as [cap|m|v' sdp|v' c]; [|destruct m| |]; simpl;
    unfold onclick_startStream, on_stream_started, on_viewer_joined, on_answer,
      on_ice_candidate, on_viewer_left, on_icecandidate, emit, set_pcs;
    try (unfold offer_ready; case_bool_decide;
         [destruct (decide (v' = v)) as [->|Hne];
          [rewrite Hpc, Hcl; right; exists sdp; simpl; set_solver|]|]);
    repeat case_match; simplify_eq/=; try done; apply Hkeep; simpl; set_solver.
Qed.

(** With a capture, [viewer_joined v] puts an offer for [v] under way. *)
Lemma joined_offered h v s :
  localStream h = Some s → offered (fst (step h (HServer (viewer_joined v)))) v.
Proof. intros Hs. left. cbn. unfold on_viewer_joined. cbn. rewrite Hs. cbn. set_solver. Qed.

(** When the browser resolves an offer for a stored open connection, the
    page has sent an offer to that viewer. *)
Lemma offer_ready_sends h v sdp pc :
  offered h v → peerConnections h !! v = Some pc → pc_closed pc = false →
  ∃ sdp', offer v sdp' ∈ emitted (fst (step h (HOfferReady v sdp))).
Proof.
  intros Hoff Hpc Hcl. cbn. unfold offer_ready. case_bool_decide as Hp.
  - rewrite Hpc, Hcl. exists sdp. cbn. set_solver.
  - destruct Hoff as [?|[sdp' ?]]; [done|]. by exists sdp'.
Qed.

Lemma run_cons h ev evs : run h (ev :: evs) = run (fst (step h ev)) evs.
Proof. done. Qed.

(** Only [stream_started] changes the code the page shows. *)
Lemma streamCode_step h ev :
  streamCode_text (fst (step h ev)) =
    match ev with HServer (stream_started code) => code | _ => streamCode_text h end.
Proof.
  destruct ev as [cap|m|v sdp|v c]; [|destruct m| |]; simpl;
    unfold onclick_startStream, on_stream_started, on_viewer_joined, on_answer,
      on_ice_candidate, on_viewer_left, offer_ready, on_icecandidate, emit, set_pcs;
    repeat case_match; simplify_eq/=; done.
Qed.

(** Over a run, the page sends only [start_stream], offers and ICE
    candidates. *)
Lemma host_run_emitted h evs :
  ∃ l, emitted (run h evs) = emitted h ++ l ∧ Forall host_msg l.
Proof.
  apply (foldl_appends _ emitted host_msg (λ _, True) (λ _, True)); [|done|by apply Forall_true].
  intros h' ev _ _. split; [done|apply host_step_emitted].
Qed.

(** ** How many offers the page sends *)

Definition offer_to (v : ConnId) (m : ClientMsg) : bool :=
  match m with offer w _ => bool_decide (w = v) | _ => false end.

Definition is_join (v : ConnId) (ev : HostEvent) : bool :=
  match ev with HServer (viewer_joined w) => bool_decide (w = v) | _ => false end.

(** The offers sent to [v], plus one while an offer to [v] is under way:
    only a [viewer_joined v] raises it, and by one. *)
Definition offers_owed (v : ConnId) (h : Host) : nat :=
  count_if (offer_to v) (emitted h) + if bool_decide (v ∈ pending_offers h) then 1 else 0.

Lemma offers_owed_step v h ev :
  offers_owed v (fst (step h ev)) ≤ offers_owed v h + (if is_join v ev then 1 else 0).
Proof.
  unfold offers_owed. destruct ev as [cap|m|v' sdp|v' c]; [|destruct m| |]; simpl;
    unfold onclick_startStream, on_stream_started, on_viewer_joined, on_answer,
      on_ice_candidate, on_viewer_left, offer_ready, on_icecandidate, emit, set_pcs;
    repeat (case_bool_decide || case_match); simplify_eq/=; rewrite ?count_if_app; simpl;
    repeat case_bool_decide; first [lia | exfalso; set_solver].
Qed.

(** ** When no capture succeeds *)

Definition failed_click (ev : HostEvent) : bool :=
  match ev with HClickStart None => true | _ => false end.

Definition no_capture (ev : HostEvent) : Prop := ∀ st, ev ≠ HClickStart (Some st).

(** No stream, no offer under way, and no connection with a local
    description. *)
Definition uncaptured (h : Host) : Prop :=
  localStream h = None ∧ pending_offers h = ∅ ∧
  ∀ v pc, peerConnections h !! v = Some pc → pc_local pc = None.

Lemma uncaptured_step h ev :
  uncaptured h → no_capture ev →
  uncaptured (fst (step h ev)) ∧ emitted (fst (step h ev)) = emitted h ∧
  length (alerts (fst (step h ev))) = length (alerts h) + (if failed_click ev then 1 else 0).
Proof.
  intros (Hs & Hp & Hl) Hev. unfold uncaptured.
  destruct ev as [[st|]|m|v sdp|v c]; [by destruct (Hev st)| |destruct m| |];
    cbn [step fst failed_click];
    unfold onclick_startStream, on_stream_started, on_viewer_joined, on_answer,
      on_ice_candidate, on_viewer_left, offer_ready, on_icecandidate, emit, set_pcs, if_open;
    rewrite ?Hs; repeat (case_match || case_bool_decide); simplify_eq/=;
    repeat match goal with H : peerConnections h !! _ = Some _ |- _ => apply Hl in H end;
    try match goal with H : is_Some (pc_local ?p), E : pc_local ?p = None |- _ =>
          rewrite E in H; by destruct H end;
    try match goal with H : _ ∈ pending_offers h |- _ => rewrite Hp in H; set_solver end;
    rewrite ?length_app; cbn; split_and!; try done; try lia;
    intros w pc' Hw;
    first [apply lookup_insert_Some in Hw as [[_ <-]|[_ Hw]]; [by cbn|eauto]
          |apply lookup_delete_Some in Hw as [_ Hw]; eauto
          |eauto].
Qed.

(** ** Theorems *)

(** C3: whatever the order in which the page's events happen
    (clicks, relay messages, offers resolving, ICE candidates gathered),
    the host page never sends a viewer an ICE candidate before it has sent
    that viewer an offer. *)
Theorem host_ice_after_offer evs : ice_preceded is_offer (emitted (run init evs)).
Proof.
  assert (∀ h, host_inv h → host_inv (run h evs)) as Hrun.
  { induction evs as [|ev evs IH]; intros h Hh; simpl; [done|]. by apply IH, host_inv_step. }
  apply Hrun, host_inv_init.
Qed.

(** C29: once a capture has succeeded, a [viewer_joined] for [v]
    stores a connection carrying the captured tracks, and when the browser
    resolves the offer the host sends it to [v], unchanged, as the
    connection's local description. *)
Theorem viewer_joined_then_offer h s v sdp :
  localStream h = Some s → peerConnections h !! v = None →
  let h1 := fst (on_viewer_joined h v) in
  snd (on_viewer_joined h v) = None ∧
  let h2 := offer_ready h1 v sdp in
  emitted h2 = emitted h ++ [offer v sdp] ∧
  peerConnections h2 !! v = Some (mkPC s (Some sdp) None [] false).
Proof.
  intros Hs _. destruct (joined_offer h s v sdp Hs) as (? & ? & ? & _). done.
Qed.


(** C31: after [viewer_left] for [v], an answer or an ICE
    candidate from [v] throws a TypeError ([peerConnections[v]] is
    undefined) and changes nothing. *)
Theorem late_signal_after_viewer_left h v sdp :
  on_answer (on_viewer_left h v) v sdp =
    (on_viewer_left h v,
     Some (TypeError "Cannot read properties of undefined (reading 'setRemoteDescription')")) ∧
  on_ice_candidate (on_viewer_left h v) v sdp =
    (on_viewer_left h v,
     Some (TypeError "Cannot read properties of undefined (reading 'addIceCandidate')")).
Proof.
  assert (peerConnections (on_viewer_left h v) !! v = None) as Hnone.
  { unfold on_viewer_left. destruct (peerConnections h !! v) eqn:E; [|done].
    simpl. apply lookup_delete_eq. }
  unfold on_answer, on_ice_candidate. by rewrite Hnone.
Qed.

(** C17: the host page's table of connections refines the abstract
    table of viewers: after any sequence of events, [peerConnections] has
    an entry for exactly the viewers that have joined and not left since
    ([viewer_joined] stores the connection even when the listener then
    throws; [viewer_left] deletes it). *)
Theorem peerConnections_refine h evs :
  dom (peerConnections (run h evs)) = foldl tracked_after (dom (peerConnections h)) evs.
Proof.
  revert h. induction evs as [|ev evs IH]; intros h; [done|].
  by rewrite run_cons, IH, step_dom.
Qed.

(** C33: the listeners for answers, ICE candidates and departures of
    two different viewers commute: in either order the page ends in the
    same state, and each listener throws in one order exactly when it
    throws in the other. *)
Theorem quiet_listeners_commute h e1 e2 v1 v2 g1 g2 :
  quiet e1 = Some (v1, g1) → quiet e2 = Some (v2, g2) → v1 ≠ v2 →
  run h [e1; e2] = run h [e2; e1] ∧
  snd (step h e1) = snd (step (fst (step h e2)) e1) ∧
  snd (step h e2) = snd (step (fst (step h e1)) e2).
Proof.
  intros H1 H2 Hne. split_and!.
  - rewrite !run_cons. cbn [run foldl].
    rewrite (quiet_step h e1 v1 g1 H1), (quiet_step h e2 v2 g2 H2),
      (quiet_step _ e1 v1 g1 H1), (quiet_step _ e2 v2 g2 H2), !set_pcs_set_pcs.
    cbn [peerConnections set_pcs]. f_equal. by apply partial_alter_partial_alter_ne.
  - apply (quiet_throw _ _ _ _ _ H1). rewrite (quiet_step h e2 v2 g2 H2). cbn.
    by rewrite lookup_partial_alter_ne.
  - apply (quiet_throw _ _ _ _ _ H2). rewrite (quiet_step h e1 v1 g1 H1). cbn.
    by rewrite lookup_partial_alter_ne.
Qed.

(** C32: clicking Start a second time, with a second successful
    capture, replaces [localStream] and sends [start_stream] again, while
    the page still shows the first code.  The relay refuses the second
    start with an [error] ([AlreadyHosting]), which no listener of the
    host page handles: the page is unchanged by it.  A viewer that joins
    afterwards is given the second capture's tracks, under the first
    code. *)
Theorem second_start_ignored h s1 s2 msg v :
  let h2 := onclick_startStream (onclick_startStream h (Some s1)) (Some s2) in
  localStream h2 = Some s2 ∧ streamCode_text h2 = streamCode_text h ∧
  emitted h2 = emitted h ++ [start_stream; start_stream] ∧
  step h2 (HServer (error msg)) = (h2, None) ∧
  peerConnections (fst (step h2 (HServer (viewer_joined v)))) !! v = Some (pc_add_tracks s2 new_pc).
Proof.
  cbn. split_and!; [done|done|by rewrite <- app_assoc|done|].
  unfold on_viewer_joined. cbn. by rewrite lookup_insert_eq.
Qed.

(** C18: the page sends a viewer at most as many offers as it has
    received [viewer_joined] messages for that viewer, whatever the order
    of its events: an offer is sent only when the browser resolves an
    offer under way, and resolving it ends it. *)
Theorem offers_bounded_by_joins v evs :
  count_if (offer_to v) (emitted (run init evs)) ≤ count_if (is_join v) evs.
Proof.
  pose proof (foldl_bound _ (offers_owed v) (is_join v) (offers_owed_step v) init evs) as Hb.
  assert (offers_owed v init = 0) as H0.
  { unfold offers_owed. cbn. rewrite bool_decide_eq_false_2; set_solver. }
  unfold run. unfold offers_owed at 1 in Hb. lia.
Qed.

(** C19: a host page whose every capture fails sends nothing.  In any
    interleaving of clicks whose [getDisplayMedia] rejects, relay
    messages, promise resolutions and candidate gathering, the page never
    sends a message (not even [start_stream]), never gets a stream, and
    shows exactly one alert per failed click. *)
Theorem capture_failed_silent evs :
  Forall no_capture evs →
  emitted (run init evs) = [] ∧ localStream (run init evs) = None ∧
  length (alerts (run init evs)) = count_if failed_click evs.
Proof.
  assert (Hrun : ∀ h, uncaptured h → Forall no_capture evs →
    uncaptured (run h evs) ∧ emitted (run h evs) = emitted h ∧
    length (alerts (run h evs)) = length (alerts h) + count_if failed_click evs).
  { induction evs as [|ev evs IH]; intros h Hh Hevs; [cbn; split_and!; [done|done|lia]|].
    apply Forall_cons in Hevs as [Hev Hevs]. rewrite run_cons.
    destruct (uncaptured_step h ev Hh Hev) as (Hh1 & He1 & Ha1).
    destruct (IH _ Hh1 Hevs) as (Hu & He & Ha). cbn [count_if].
    split_and!; [done|congruence|lia]. }
  intros Hevs. destruct (Hrun init) as ((Hs & _) & He & Ha); [|done|].
  - split_and!; [done|done|]. intros v pc Hv. cbn in Hv. by rewrite lookup_empty in Hv.
  - split_and!; [done|done|]. rewrite Ha. cbn. lia.
Qed.

(** Every capture is refused; a viewer joins anyway, its offer and ICE
    events happen, and nothing is sent. *)
Lemma capture_failed_silent_witness :
  Forall no_capture [HClickStart None; HServer (viewer_joined 2); HOfferReady 2 "o";
                     HIceGathered 2 (Some "c"); HClickStart None] ∧
  emitted (run init [HClickStart None; HServer (viewer_joined 2); HOfferReady 2 "o";
                     HIceGathered 2 (Some "c"); HClickStart None]) = [] ∧
  length (alerts (run init [HClickStart None; HServer (viewer_joined 2); HOfferReady 2 "o";
                            HIceGathered 2 (Some "c"); HClickStart None])) = 2.
Proof.
  assert (Hf : Forall no_capture [HClickStart None; HServer (viewer_joined 2); HOfferReady 2 "o";
                                  HIceGathered 2 (Some "c"); HClickStart None])
    by (repeat constructor; intros st; discriminate).
  destruct (capture_failed_silent _ Hf) as (He & _ & Ha). split_and!; [exact Hf|exact He|].
  rewrite Ha. reflexivity.
Defined.

Lemma viewer_joined_then_offer_witness :
  localStream (onclick_startStream init (Some [7])) = Some [7] ∧
  peerConnections (onclick_startStream init (Some [7])) !! 2 = None ∧
  emitted (offer_ready (fst (on_viewer_joined (onclick_startStream init (Some [7])) 2)) 2 "o") =
    [start_stream; offer 2 "o"].
Proof.
  assert (H1 : localStream (onclick_startStream init (Some [7])) = Some [7]) by reflexivity.
  assert (H2 : peerConnections (onclick_startStream init (Some [7])) !! 2 = None) by reflexivity.
  split; [exact H1|split; [exact H2|]].
  exact (proj1 (proj2 (viewer_joined_then_offer _ _ 2 "o" H1 H2))).
Defined.


Lemma quiet_listeners_commute_witness :
  let h := run init [HClickStart (Some [7]); HServer (viewer_joined 2); HServer (viewer_joined 3)] in
  (quiet (HServer (answer_from 2 "a")) = Some (2, fmap (if_open (pc_set_remote "a"))) ∧
   quiet (HServer (viewer_left 3)) = Some (3, λ _, None) ∧ 2 ≠ 3) ∧
  run h [HServer (answer_from 2 "a"); HServer (viewer_left 3)] =
    run h [HServer (viewer_left 3); HServer (answer_from 2 "a")] ∧
  snd (step h (HServer (answer_from 2 "a"))) =
    snd (step (fst (step h (HServer (viewer_left 3)))) (HServer (answer_from 2 "a"))) ∧
  snd (step h (HServer (viewer_left 3))) =
    snd (step (fst (step h (HServer (answer_from 2 "a")))) (HServer (viewer_left 3))).
Proof.
  intros h.
  assert (H1 : quiet (HServer (answer_from 2 "a")) = Some (2, fmap (if_open (pc_set_remote "a"))))
    by reflexivity.
  assert (H2 : quiet (HServer (viewer_left 3)) = Some (3, λ _, None)) by reflexivity.
  assert (H3 : 2 ≠ 3) by lia.
  split; [done|exact (quiet_listeners_commute h _ _ 2 3 _ _ H1 H2 H3)].
Defined.

End HostClient.
