(* ===== verification/ViewerClient.v ===== *)
(** * ViewerClient: the JavaScript of the viewer page

    The [DOMContentLoaded] handler of [VIEWER_HTML] (src/app.py lines
    203-238) as a state machine.  Its state is the handler's closure: the
    single [let peerConnection] (undefined until the first offer), the code
    typed into [streamCodeInput], and the [remoteVideo] element's source;
    what the page sends is its list of [socket.emit] calls and the alerts
    it shows.

    [peerConnection] is one variable shared by every callback: the answer
    chain [createAnswer().then(answer => peerConnection.setLocalDescription
    (answer)).then(() => socket.emit('answer', ...))] reads it when the
    promises resolve, not when the offer arrived.  To keep this aliasing
    visible, each connection object gets a serial number and a pending
    answer records the serial of the object it was created on; when it
    resolves, it acts on whatever [peerConnection] is then. *)

From S2P Require Import Prelude Protocol HostClient.

Module ViewerClient.

Record Viewer : Type := mkViewer {
  streamCodeInput_value : string;
  peerConnection : option (nat * ConnId * PC);   (* serial, hostId, object *)
  next_serial : nat;
  pending_answers : list (nat * ConnId);    (* serial, hostId *)
  remoteVideo_srcObject : option MediaStream;
  emitted : list ClientMsg;
  alerts : list string
}.

Definition init : Viewer := mkViewer "" None 0 [] None [] [].

Definition emit (w : Viewer) (m : ClientMsg) : Viewer :=
  mkViewer (streamCodeInput_value w) (peerConnection w) (next_serial w) (pending_answers w)
    (remoteVideo_srcObject w) (emitted w ++ [m]) (alerts w).

Definition set_pc (w : Viewer) (p : option (nat * ConnId * PC)) : Viewer :=
  mkViewer (streamCodeInput_value w) p (next_serial w) (pending_answers w)
    (remoteVideo_srcObject w) (emitted w) (alerts w).

(** Typing into the input box. *)
Definition type_code (w : Viewer) (s : string) : Viewer :=
  mkViewer s (peerConnection w) (next_serial w) (pending_answers w)
    (remoteVideo_srcObject w) (emitted w) (alerts w).

(** [joinStreamButton.onclick]: [if (streamCode) socket.emit('join_stream',
    {stream_code: streamCode})]; the empty string is the only falsy
    value an input's [value] can have.  The code is sent as typed. *)
Definition onclick_joinStream (w : Viewer) : Viewer :=
  let streamCode := streamCodeInput_value w in
  if String.eqb streamCode "" then w else emit w (join_stream streamCode).

(** [socket.on('offer', ...)]: a new connection replaces [peerConnection],
    gets the remote description, and starts an answer for [hostId]; its
    [ontrack] and [onicecandidate] handlers capture [hostId]. *)
Definition on_offer (w : Viewer) (hostId : ConnId) (sdp : Payload) : Viewer :=
  let n := next_serial w in
  mkViewer (streamCodeInput_value w) (Some (n, hostId, pc_set_remote sdp new_pc)) (S n)
    (pending_answers w ++ [(n, hostId)]) (remoteVideo_srcObject w) (emitted w) (alerts w).

(** The browser resolves the oldest pending [createAnswer]: set it as the
    local description of the current [peerConnection] and send it to the
    recorded host.  When [peerConnection] has been replaced or closed
    meanwhile, [setLocalDescription] rejects and nothing is sent. *)
Definition answer_ready (w : Viewer) (sdp : Payload) : Viewer :=
  match pending_answers w with
  | [] => w
  | (n, hostId) :: rest =>
      let w1 := mkViewer (streamCodeInput_value w) (peerConnection w) (next_serial w) rest
                  (remoteVideo_srcObject w) (emitted w) (alerts w) in
      match peerConnection w with
      | Some (m, hid, pc) =>
          if bool_decide (m = n) && negb (pc_closed pc)
          then emit (set_pc w1 (Some (m, hid, pc_set_local sdp pc))) (answer hostId sdp)
          else w1
      | None => w1
      end
  end.

(** [peerConnection.ontrack]: show the remote stream. *)
Definition on_track (w : Viewer) (s : MediaStream) : Viewer :=
  mkViewer (streamCodeInput_value w) (peerConnection w) (next_serial w) (pending_answers w)
    (Some s) (emitted w) (alerts w).

(** [peerConnection.onicecandidate]: send a non-null candidate to the host
    of the offer (the [hostId] captured by the offer handler).  The browser
    gathers candidates only for an open connection with a local
    description. *)
Definition on_icecandidate (w : Viewer) (cand : option Payload) : Viewer :=
  match peerConnection w, cand with
  | Some (_, hostId, pc), Some c =>
      if negb (pc_closed pc) && bool_decide (is_Some (pc_local pc))
      then emit w (ice_candidate hostId c) else w
  | _, _ => w
  end.

(** [socket.on('ice_candidate', ...)]: [peerConnection.addIceCandidate];
    a TypeError before the first offer. *)
Definition on_ice_candidate (w : Viewer) (cand : Payload) : Viewer * option JsError :=
  match peerConnection w with
  | Some (n, hid, pc) => (set_pc w (Some (n, hid, if_open (pc_add_candidate cand) pc)), None)
  | None => (w, Some (TypeError "Cannot read properties of undefined (reading 'addIceCandidate')"))
  end.

(** [socket.on('stream_ended', ...)]: alert, clear the video, close the
    connection if there is one (the variable keeps the closed object). *)
Definition on_stream_ended (w : Viewer) (code : Code) : Viewer :=
  mkViewer (streamCodeInput_value w)
    (match peerConnection w with
     | Some (n, hid, pc) => Some (n, hid, pc_close pc)
     | None => None
     end)
    (next_serial w) (pending_answers w) None (emitted w)
    (alerts w ++ [String.append "Stream " (String.append code " has ended.")]).

(** [socket.on('error', (data) => alert(data.message))]. *)
Definition on_error (w : Viewer) (message : string) : Viewer :=
  mkViewer (streamCodeInput_value w) (peerConnection w) (next_serial w) (pending_answers w)
    (remoteVideo_srcObject w) (emitted w) (alerts w ++ [message]).

Inductive ViewerEvent : Type :=
| VType (s : string)
| VClickJoin
| VServer (m : ServerMsg)
| VAnswerReady (sdp : Payload)
| VTrack (s : MediaStream)
| VIceGathered (cand : option Payload).

(** Dispatch of one event; [stream_started], [viewer_joined], [viewer_left]
    and [answer] have no listener on this page. *)
Definition step (w : Viewer) (ev : ViewerEvent) : Viewer * option JsError :=
  match ev with
  | VType s => (type_code w s, None)
  | VClickJoin => (onclick_joinStream w, None)
  | VServer m =>
      match m with
      | offer_from h sdp => (on_offer w h sdp, None)
      | ice_candidate_from _ c => on_ice_candidate w c
      | stream_ended code => (on_stream_ended w code, None)
      | error msg => (on_error w msg, None)
      | _ => (w, None)
      end
  | VAnswerReady sdp => (answer_ready w sdp, None)
  | VTrack s => (on_track w s, None)
  | VIceGathered c => (on_icecandidate w c, None)
  end.

Fixpoint run (w : Viewer) (evs : list ViewerEvent) : Viewer :=
  match evs with
  | [] => w
  | ev :: evs' => run (fst (step w ev)) evs'
  end.

Lemma run_foldl w evs : run w evs = foldl (λ w ev, fst (step w ev)) w evs.
Proof. revert w. induction evs as [|ev evs IH]; intros w; [done|]. apply IH. Qed.

(** ** Invariant: a host is answered before it is sent ICE candidates

    [vi_pending_lt] and [vi_pending_host] tie the pending answers to the
    connection object: a pending answer with the serial of the current
    [peerConnection] was started for that connection's host, so the
    [answer] the chain sends goes to the host the connection's
    [onicecandidate] will later address. *)

Definition is_answer (h : ConnId) (m : ClientMsg) : Prop := ∃ sdp, m = answer h sdp.

Record viewer_inv (w : Viewer) : Prop := {
  vi_pending_lt : ∀ n h, (n, h) ∈ pending_answers w → n < next_serial w;
  vi_pending_host : ∀ n hid pc h,
    peerConnection w = Some (n, hid, pc) → (n, h) ∈ pending_answers w → h = hid;
  vi_answered : ∀ n hid pc,
    peerConnection w = Some (n, hid, pc) → is_Some (pc_local pc) →
    ∃ m, m ∈ emitted w ∧ is_answer hid m;
  vi_order : ice_preceded is_answer (emitted w)
}.

Lemma viewer_inv_init : viewer_inv init.
Proof. split; cbn; [set_solver|done|done|apply ice_preceded_nil]. Qed.

(** A step that keeps the pending answers, sends no ICE candidate and gives
    no connection a local description it did not have keeps the invariant. *)
Lemma viewer_inv_frame w w' l' :
  viewer_inv w → emitted w' = emitted w ++ l' → Forall not_ice l' →
  pending_answers w' = pending_answers w → next_serial w' = next_serial w →
  (∀ n hid pc', peerConnection w' = Some (n, hid, pc') →
     ∃ pc, peerConnection w = Some (n, hid, pc) ∧
       (is_Some (pc_local pc') → is_Some (pc_local pc))) →
  viewer_inv w'.
Proof.
  intros [Hlt Hhost Hans Hord] He Hl' Hp Hn Hpc. split; rewrite ?He, ?Hp, ?Hn.
  - done.
  - intros n hid pc' h (pc & Hw & _)%Hpc. eauto.
  - intros n hid pc' (pc & Hw & Hloc)%Hpc Hl.
    destruct (Hans _ _ _ Hw (Hloc Hl)) as (m & ? & ?). exists m. set_solver.
  - by apply ice_preceded_app.
Qed.

Lemma viewer_inv_step w ev : viewer_inv w → viewer_inv (fst (step w ev)).
Proof.
  intros Hw. pose proof Hw as [Hlt Hhost Hans Hord].
  destruct ev as [s| |m|sdp|s|cand]; simpl.
  - eapply (viewer_inv_frame _ _ []); [done|by rewrite app_nil_r|done..|]. simpl. eauto.
  - unfold onclick_joinStream. destruct (String.eqb _ _); [done|].
    eapply (viewer_inv_frame _ _ [_]); [done..|repeat constructor; congruence|done|done|].
    simpl. eauto.
  - destruct m as [code|v|v|code|v sdp|v sdp|v c|msg]; simpl; try done.
    + (* stream_ended *)
      eapply (viewer_inv_frame _ _ []); [done|by rewrite app_nil_r|done..|]. simpl.
      destruct (peerConnection w) as [[[n' hid'] pc]|]; [|done].
      intros ??? [= <- <- <-]. by exists pc.
    + (* offer *)
      unfold on_offer. split; simpl.
      * intros n h [?%Hlt|Hin]%elem_of_app; [lia|]. set_unfold in Hin. naive_solver lia.
      * intros n hid pc h [= <- <- <-] [?%Hlt|Hin]%elem_of_app; [lia|].
        set_unfold in Hin. naive_solver.
      * intros n hid pc [= <- <- <-] Hl. by destruct Hl.
      * done.
    + (* ice_candidate *)
      unfold on_ice_candidate. destruct (peerConnection w) as [[[n' hid'] pc]|] eqn:Hpcw; simpl; [|done].
      eapply (viewer_inv_frame _ _ []); [done|by rewrite app_nil_r|done..|]. simpl.
      intros ??? [= <- <- <-]. exists pc. split; [done|]. unfold if_open. by destruct (pc_closed pc).
  - (* answer ready *)
    unfold answer_ready. destruct (pending_answers w) as [|[n h] rest] eqn:Hp; [done|].
    assert (Hrest : ∀ x, x ∈ rest → x ∈ pending_answers w) by (rewrite Hp; set_solver).
    pose proof (vi_pending_lt w Hw) as Hlt'.
    destruct (peerConnection w) as [[[m hid] pc]|] eqn:Hpc.
    + destruct (bool_decide (m = n) && negb (pc_closed pc)) eqn:Hc.
      * apply andb_prop in Hc as [->%bool_decide_eq_true _].
        assert (h = hid) as ->.
        { apply (vi_pending_host w Hw n hid pc h Hpc). rewrite Hp. set_solver. }
        split; simpl.
        -- intros ?? ?%Hrest. by eapply Hlt'.
        -- intros ???? [= <- <- <-] ?%Hrest. by eapply (vi_pending_host w Hw _ _ _ _ Hpc).
        -- intros ??? [= <- <- <-] _. exists (answer hid sdp). split; [set_solver|by eexists].
        -- apply ice_preceded_app; [done|]. repeat constructor. congruence.
      * split; simpl; rewrite <-?Hpc.
        -- intros ?? ?%Hrest. by eapply Hlt'.
        -- intros ???? Heq ?%Hrest. by eapply (vi_pending_host w Hw _ _ _ _ Heq).
        -- exact (vi_answered w Hw).
        -- exact (vi_order w Hw).
    + split; simpl; rewrite <-?Hpc.
      * intros ?? ?%Hrest. by eapply Hlt'.
      * intros ???? Heq. congruence.
      * exact (vi_answered w Hw).
      * exact (vi_order w Hw).
  - eapply (viewer_inv_frame _ _ []); [done|by rewrite app_nil_r|done..|]. simpl. eauto.
  - (* ICE gathered *)
    unfold on_icecandidate. destruct (peerConnection w) as [[[n hid] pc]|] eqn:Hpc; [|done].
    pose proof (vi_answered w Hw) as Hans'.
    destruct cand as [c|]; [|done].
    destruct (negb (pc_closed pc) && bool_decide (is_Some (pc_local pc))) eqn:Hc; [|done].
    apply andb_prop in Hc as [_ Hl%bool_decide_eq_true].
    destruct (Hans' _ _ _ Hpc Hl) as (m & Hin & Hm). unfold emit. split; simpl.
    + exact (vi_pending_lt w Hw).
    + exact (vi_pending_host w Hw).
    + intros ??? Heq Hl'. destruct (Hans' _ _ _ Heq Hl') as (m' & ? & ?).
      exists m'. set_solver.
    + by eapply ice_preceded_snoc.
Qed.

Lemma viewer_inv_run w evs : viewer_inv w → viewer_inv (run w evs).
Proof. revert w. induction evs as [|ev evs IH]; intros w Hw; simpl; [done|]. by apply IH, viewer_inv_step. Qed.

(** ** What a step may send, keep or throw *)

(** The messages the page sends. *)
Definition viewer_msg (m : ClientMsg) : Prop :=
  (∃ code, m = join_stream code) ∨ (∃ h p, m = answer h p) ∨ (∃ h p, m = ice_candidate h p).

Lemma viewer_step_emitted w ev :
  ∃ l, emitted (fst (step w ev)) = emitted w ++ l ∧ Forall viewer_msg l.
Proof.
  assert (Hnil : emitted w = emitted w ++ []) by by rewrite app_nil_r.
  destruct ev as [s| |m|sdp|s|cand]; simpl.
  - eexists. split; [exact Hnil|constructor].
  - unfold onclick_joinStream. case_match; [eexists; split; [exact Hnil|constructor]|].
    eexists. split; [done|]. apply Forall_singleton. left. by eexists.
  - destruct m; simpl; unfold on_ice_candidate; repeat case_match; simpl;
      (eexists; split; [exact Hnil|constructor]).
  - unfold answer_ready. repeat case_match; simpl;
      first [eexists; split; [exact Hnil|constructor]
            |eexists; split; [done|]; apply Forall_singleton; right; left; eauto].
  - eexists. split; [exact Hnil|constructor].
  - unfold on_icecandidate. repeat case_match; simpl;
      first [eexists; split; [exact Hnil|constructor]
            |eexists; split; [done|]; apply Forall_singleton; right; right; eauto].
Qed.

(** Once the first offer has arrived, [peerConnection] is never undefined
    again. *)
(** No [socket.on] listener of the page sends anything: the page sends
    only from the Join button and from the browser's callbacks. *)
Lemma viewer_listeners_silent w m : emitted (fst (step w (VServer m))) = emitted w.
Proof.
  destruct m; cbn [step fst];
    unfold on_offer, on_ice_candidate, on_stream_ended, on_error, set_pc; repeat case_match; done.
Qed.

Lemma viewer_step_pc w ev :
  is_Some (peerConnection w) → is_Some (peerConnection (fst (step w ev))).
Proof.
  intros [[[n hid] pc] Hpc]. destruct ev as [s| |m|sdp|s|cand]; simpl.
  - by rewrite Hpc.
  - unfold onclick_joinStream. case_match; simpl; by rewrite Hpc.
  - destruct m; simpl; unfold on_ice_candidate, on_stream_ended; rewrite ?Hpc; simpl; try done;
      by rewrite Hpc.
  - unfold answer_ready. repeat case_match; simpl; rewrite ?Hpc; by eauto.
  - by rewrite Hpc.
  - unfold on_icecandidate. rewrite Hpc. repeat case_match; simpl; by rewrite Hpc.
Qed.

Lemma viewer_offer_pc w h sdp : is_Some (peerConnection (fst (step w (VServer (offer_from h sdp))))).
Proof. by eexists. Qed.

(** The only error the page throws: an ICE candidate before any offer. *)
Lemma viewer_step_throw w ev e :
  snd (step w ev) = Some e →
  (∃ h c, ev = VServer (ice_candidate_from h c)) ∧ peerConnection w = None.
Proof.
  destruct ev as [s| |m|sdp|s|cand]; simpl; try discriminate.
  destruct m; simpl; try discriminate. unfold on_ice_candidate.
  destruct (peerConnection w) as [[[n hid] pc]|]; simpl; [discriminate|]. eauto.
Qed.

(** An answer is sent only for a pending answer chain, and a chain is
    started only by an offer. *)
Lemma viewer_step_answer w ev h p :
  answer h p ∈ emitted (fst (step w ev)) →
  answer h p ∈ emitted w ∨ ∃ k, (k, h) ∈ pending_answers w.
Proof.
  destruct (viewer_step_emitted w ev) as (l & El & _).
  destruct ev as [s| |m|sdp|s|cand]; [| |destruct m| | |]; simpl in *;
    unfold type_code, onclick_joinStream, on_offer, on_ice_candidate, on_stream_ended, on_error,
      answer_ready, on_track, on_icecandidate, emit, set_pc in *;
    repeat case_match; simplify_eq/=; rewrite ?elem_of_app, ?list_elem_of_singleton;
    try (intros [?|?]; [by left|]); try (by left); try congruence.
  all: match goal with H : answer _ _ = answer _ _ |- _ => injection H as -> -> end;
    right; eexists; by left.
Qed.

Lemma viewer_step_pending w ev k h :
  (k, h) ∈ pending_answers (fst (step w ev)) →
  (k, h) ∈ pending_answers w ∨ ∃ sdp, ev = VServer (offer_from h sdp).
Proof.
  destruct ev as [s| |m|sdp|s|cand]; [| |destruct m| | |]; simpl;
    unfold type_code, onclick_joinStream, on_offer, on_ice_candidate, on_stream_ended, on_error,
      answer_ready, on_track, on_icecandidate, emit, set_pc;
    repeat case_match; simplify_eq/=; try (by left).
  all: repeat match goal with H : pending_answers _ = _ |- _ => rewrite H in *; clear H end.
  all: intros Hin; set_unfold in Hin; destruct_or?; simplify_eq;
    first [by left | right; by eexists | left; set_solver].
Qed.

(** ** After [stream_ended]: the closed connection stays silent

    [on_stream_ended] closes the connection but leaves it in the
    [peerConnection] variable.  Until a new offer replaces it, every call
    the page makes on it is a call on a closed connection. *)

Definition offer_event (ev : ViewerEvent) : bool :=
  match ev with VServer (offer_from _ _) => true | _ => false end.

Definition pc_shut (w : Viewer) : Prop :=
  ∀ n h pc, peerConnection w = Some (n, h, pc) → pc_closed pc = true.

Definition join_msg (m : ClientMsg) : Prop := ∃ code, m = join_stream code.

Lemma shut_step w ev :
  pc_shut w → offer_event ev = false →
  pc_shut (fst (step w ev)) ∧
  ∃ l, emitted (fst (step w ev)) = emitted w ++ l ∧ Forall join_msg l.
Proof.
  intros Hs Hev.
  assert (Hnil : emitted w = emitted w ++ []) by by rewrite app_nil_r.
  destruct ev as [s| |m|sdp|s|cand]; [| |destruct m| | |]; simpl in *; try discriminate;
    unfold type_code, onclick_joinStream, on_ice_candidate, on_stream_ended, on_error,
      answer_ready, on_track, on_icecandidate, emit, set_pc, pc_shut in *; simpl;
    repeat case_match; simplify_eq/=;
    try match goal with
        | Hs : ∀ a b c, Some (?x, ?y, ?p) = Some (a, b, c) → _ |- _ =>
            pose proof (Hs x y p eq_refl) as Hc; rewrite ?Hc in *
        end;
    simpl in *; rewrite ?andb_false_r in *; try discriminate;
    (split; [intros ????; simplify_eq/=; unfold if_open; rewrite ?Hc; by eauto|]);
    first [eexists; split; [exact Hnil|constructor]
          |eexists; split; [done|]; apply Forall_singleton; by eexists].
Qed.

Lemma shut_run w evs :
  pc_shut w → Forall (λ ev, offer_event ev = false) evs →
  ∃ l, emitted (run w evs) = emitted w ++ l ∧ Forall join_msg l.
Proof.
  intros Hs Hevs. rewrite run_foldl.
  apply (foldl_appends _ emitted join_msg pc_shut (λ ev, offer_event ev = false)); [|done..].
  intros w' ev. apply shut_step.
Qed.

(** Over a run, the page sends only [join_stream], answers and ICE
    candidates. *)
Lemma viewer_run_emitted w evs :
  ∃ l, emitted (run w evs) = emitted w ++ l ∧ Forall viewer_msg l.
Proof.
  rewrite run_foldl.
  apply (foldl_appends _ emitted viewer_msg (λ _, True) (λ _, True)); [|done|by apply Forall_true].
  intros w' ev _ _. split; [done|apply viewer_step_emitted].
Qed.

(** ** How many answers the page sends *)

Definition answer_to (h : ConnId) (m : ClientMsg) : bool :=
  match m with answer t _ => bool_decide (t = h) | _ => false end.

Definition offer_from_ev (h : ConnId) (ev : ViewerEvent) : bool :=
  match ev with VServer (offer_from g _) => bool_decide (g = h) | _ => false end.

(** The answers sent to [h], plus the answers under way for [h]: only an
    offer from [h] raises it, and by one. *)
Definition answers_owed (h : ConnId) (w : Viewer) : nat :=
  count_if (answer_to h) (emitted w) + count_if (λ p, bool_decide (p.2 = h)) (pending_answers w).

Lemma answers_owed_step h w ev :
  answers_owed h (fst (step w ev)) ≤ answers_owed h w + (if offer_from_ev h ev then 1 else 0).
Proof.
  unfold answers_owed. destruct ev as [s| |m|sdp|s|cand]; [| |destruct m| | |]; simpl;
    unfold type_code, onclick_joinStream, on_offer, on_ice_candidate, on_stream_ended, on_error,
      answer_ready, on_track, on_icecandidate, emit, set_pc;
    repeat (case_bool_decide || case_match); simplify_eq/=; rewrite ?count_if_app; simpl;
    repeat case_bool_decide; simplify_eq/=;
    repeat match goal with H : pending_answers _ = _ |- _ => rewrite H end; simpl; lia.
Qed.

(** The browser resolving every pending [createAnswer] of a page whose
    newest pending answer belongs to its open [peerConnection]: the stale
    ones send nothing, and the last one sends the answer to that
    connection's host and makes it the local description. *)
Lemma answer_all w n h pc l a :
  peerConnection w = Some (n, h, pc) → pc_closed pc = false →
  pending_answers w = l ++ [(n, h)] → Forall (λ e, e.1 ≠ n) l →
  let w' := run w (replicate (S (length l)) (VAnswerReady a)) in
  peerConnection w' = Some (n, h, pc_set_local a pc) ∧ pending_answers w' = [] ∧
  emitted w' = emitted w ++ [answer h a].
Proof.
  revert w. induction l as [|[m hm] l IH]; intros w Hpc Hopen Hpend Hl;
    cbn [length]; rewrite replicate_S; change (run w (?e :: ?es)) with (run (fst (step w e)) es);
    cbn [step fst]; unfold answer_ready; rewrite Hpend, Hpc; cbn [app].
  - rewrite bool_decide_eq_true_2, Hopen by done. done.
  - apply Forall_cons in Hl as [Hm Hl]. cbn [fst] in Hm.
    rewrite bool_decide_eq_false_2 by done. cbn [andb].
    match goal with |- context [run ?w1 _] => exact (IH w1 eq_refl Hopen eq_refl Hl) end.
Qed.

(** ** Theorems *)

(** C4: whatever the order in which the page's events happen
    (typing, clicks, server messages, answers resolving, candidates being
    gathered, in any interleaving), the viewer page never sends a host an
    ICE candidate before it has sent that host an answer.  This holds
    although the answer chain reads the shared [peerConnection] when it
    resolves: an answer is sent only on the connection it was started
    for. *)
Theorem viewer_ice_after_answer evs : ice_preceded is_answer (emitted (run init evs)).
Proof. apply vi_order, viewer_inv_run, viewer_inv_init. Qed.


(** C35: because the answer chain reads the shared
    [peerConnection] when it resolves, a second offer that arrives before
    the first answer is ready makes the first answer go nowhere: only the
    second host is ever answered. *)
Theorem second_offer_drops_first_answer w h1 h2 o1 o2 a1 a2 :
  pending_answers w = [] →
  let w1 := on_offer (on_offer w h1 o1) h2 o2 in
  let w2 := answer_ready (answer_ready w1 a1) a2 in
  emitted w2 = emitted w ++ [answer h2 a2].
Proof.
  intros Hp. unfold on_offer, answer_ready. simpl. rewrite Hp. simpl.
  rewrite bool_decide_eq_false_2 by lia. simpl.
  by rewrite bool_decide_eq_true_2.
Qed.


(** C37: each page speaks its own role's part of the protocol, in
    every run: the host page sends only [start_stream], [offer] and
    [ice_candidate]; the viewer page sends only [join_stream], [answer]
    and [ice_candidate].  Neither page ever sends a message of the other
    role, which the relay would refuse. *)
Theorem pages_keep_their_role hevs vevs :
  Forall HostClient.host_msg (HostClient.emitted (HostClient.run HostClient.init hevs)) ∧
  Forall viewer_msg (emitted (run init vevs)).
Proof.
  destruct (HostClient.host_run_emitted HostClient.init hevs) as (l & -> & Hl).
  destruct (viewer_run_emitted init vevs) as (l' & -> & Hl'). by split.
Qed.

(** C20: the page sends a host at most as many answers as it has
    received offers from that host, whatever the order of its events:
    each offer starts one answer, and the browser resolving an answer
    ends it whether or not it is sent. *)
Theorem answers_bounded_by_offers h evs :
  count_if (answer_to h) (emitted (run init evs)) ≤ count_if (offer_from_ev h) evs.
Proof.
  pose proof (foldl_bound _ (answers_owed h) (offer_from_ev h) (answers_owed_step h) init evs) as Hb.
  rewrite run_foldl. unfold answers_owed at 1 in Hb. cbn in Hb |- *. lia.
Qed.


Lemma second_offer_drops_first_answer_witness :
  pending_answers init = [] ∧
  emitted (answer_ready (answer_ready (on_offer (on_offer init 1 "o1") 5 "o2") "a1") "a2") =
    [answer 5 "a2"].
Proof.
  assert (H : pending_answers init = []) by reflexivity.
  split; [exact H|exact (second_offer_drops_first_answer init 1 5 "o1" "o2" "a1" "a2" H)].
Defined.


End ViewerClient.
