(* ===== verification/System.v ===== *)
(** * System: the relay composed with the host and viewer pages

    The whole application: a relay ([Lifecycle]) and a set of browser
    pages, each the host page ([HostClient]) or the viewer page
    ([ViewerClient]) of [src/app.py], connected to the relay over a
    Socket.IO transport.  Each page has one connection, with a fixed id.

    The transport keeps the order of each direction of each connection
    (the specification, section 5: no reordering per sender and target).
    - A page's sent messages are its [emitted] list. [sent] counts those
      the relay has processed so far.
    - What the relay sends to a page is the part of its outbox addressed
      to the page ([inbox]). [recvd] counts those the page has handled.
    - A page first connects ([Fresh] to [Live]). It is closed when it
      disconnects ([Dead]), and a closed page's id never connects again.
    Any interleaving of page events, transmissions, deliveries, connects
    and disconnects is an execution ([sys_run] over any list of
    [SysEvent]s).  The errors the pages throw are collected in [thrown].

    The main result is [no_page_throws]: no page ever throws.  It rests on
    invariants, preserved by every event and combined in [inv].
    - [sys_inv] relates the relay, the channels and the pages:
      - an offer the host page sent to a viewer it still hosts has
        reached that viewer ([si_offer_sent]);
      - a viewer's inbox has every ICE candidate after an offer from the
        same host ([si_ice_order]);
      - a viewer page that has handled an offer has a connection
        ([si_viewer_pc]).
    - [hs_inv] covers the host pages:
      - a [viewer_joined] goes only to a page that has sent
        [start_stream], which it does only with a capture;
      - a viewer's signals reach the host between its [viewer_joined]
        and its [viewer_left] ([hs_signals]);
      - the host page keeps a connection for every viewer it has seen
        join and not leave ([hs_pcs]).
    - [authentic]: every signal a page receives was sent, as it is, by
      the page it names.
    - [offer_inv]: a host page keeps its connections open and has an
      offer under way or sent for every viewer it has seen join and not
      leave (used by [Delivery]).
    - [sig_inv]: a viewer page answers only hosts whose offer it has
      handled, and every signal one end of a session has sent to the
      other has reached it (used by [Delivery]).  A pair that forms has
      exchanged no signal before: whoever has signalled whom is paired
      with it or closed ([signalled_paired]).
    The events that go through the relay are handled at once in the
    Section [relay_update]. *)

From S2P Require Import Prelude Protocol CodeGenerator SessionRegistry ConnectionTracker SignalingRouter Lifecycle RelayFacts HostClient ViewerClient.

Module System.
Import SessionRegistry ConnectionTracker SignalingRouter Lifecycle RelayFacts.

Inductive Page : Type :=
| PHost (h : HostClient.Host)
| PViewer (w : ViewerClient.Viewer).

Inductive PageKind : Type := HostPage | ViewerPage.

Inductive Status : Type := Fresh | Live | Dead.

Record Node : Type := mkNode {
  page : Page;
  status : Status;
  sent : nat;    (* messages of the page processed by the relay *)
  recvd : nat    (* messages of the relay handled by the page *)
}.

Definition init_page (k : PageKind) : Page :=
  match k with
  | HostPage => PHost HostClient.init
  | ViewerPage => PViewer ViewerClient.init
  end.

Definition page_emitted (p : Page) : list ClientMsg :=
  match p with
  | PHost h => HostClient.emitted h
  | PViewer w => ViewerClient.emitted w
  end.

Definition is_host (p : Page) : bool := match p with PHost _ => true | PViewer _ => false end.

(** A page handles a message of the relay: the page's [socket.on]
    listeners. *)
Definition page_receive (p : Page) (m : ServerMsg) : Page * option JsError :=
  match p with
  | PHost h => let r := HostClient.step h (HostClient.HServer m) in (PHost (fst r), snd r)
  | PViewer w => let r := ViewerClient.step w (ViewerClient.VServer m) in (PViewer (fst r), snd r)
  end.

(** The events of a page that do not come from the relay: clicks, typing,
    the browser resolving promises and gathering candidates. *)
Inductive Local : Type :=
| LHost (ev : HostClient.HostEvent)
| LViewer (ev : ViewerClient.ViewerEvent).

Definition page_local (p : Page) (l : Local) : Page * option JsError :=
  match p, l with
  | PHost h, LHost ev =>
      match ev with
      | HostClient.HServer _ => (p, None)
      | _ => let r := HostClient.step h ev in (PHost (fst r), snd r)
      end
  | PViewer w, LViewer ev =>
      match ev with
      | ViewerClient.VServer _ => (p, None)
      | _ => let r := ViewerClient.step w ev in (PViewer (fst r), snd r)
      end
  | _, _ => (p, None)
  end.

Inductive SysEvent : Type :=
| SConnect (c : ConnId)
| SDisconnect (c : ConnId)
| SLocal (c : ConnId) (l : Local)
| STransmit (c : ConnId)    (* the relay processes the next message of [c] *)
| SDeliver (c : ConnId).    (* [c] handles the next message of the relay *)

Section System.
Context `{CodeSource G}.

Record Sys : Type := mkSys {
  relay : Relay G;
  nodes : gmap ConnId Node;
  thrown : list (ConnId * JsError)
}.

Definition sys_init (g : G) (kinds : gmap ConnId PageKind) : Sys :=
  mkSys (init g) ((λ k, mkNode (init_page k) Fresh 0 0) <$> kinds) [].

(** The messages of the relay for [c], in order. *)
Definition inbox (s : Sys) (c : ConnId) : list ServerMsg := addressed_to c (outbox (relay s)).

Definition update (s : Sys) (c : ConnId) (n : Node) (r : Relay G) (e : option JsError) : Sys :=
  mkSys r (<[c := n]> (nodes s))
    (thrown s ++ match e with Some e => [(c, e)] | None => [] end).

Definition sys_step (s : Sys) (ev : SysEvent) : Sys :=
  match ev with
  | SConnect c =>
      match nodes s !! c with
      | Some n =>
          match status n with
          | Fresh => update s c (mkNode (page n) Live (sent n) (recvd n))
                       (dispatch (relay s) c ev_connect) None
          | _ => s
          end
      | None => s
      end
  | SDisconnect c =>
      match nodes s !! c with
      | Some n =>
          match status n with
          | Live => update s c (mkNode (page n) Dead (sent n) (recvd n))
                      (dispatch (relay s) c ev_disconnect) None
          | _ => s
          end
      | None => s
      end
  | SLocal c l =>
      match nodes s !! c with
      | Some n =>
          match status n with
          | Dead => s
          | _ => let r := page_local (page n) l in
                 update s c (mkNode (fst r) (status n) (sent n) (recvd n)) (relay s) (snd r)
          end
      | None => s
      end
  | STransmit c =>
      match nodes s !! c with
      | Some n =>
          match status n, page_emitted (page n) !! sent n with
          | Live, Some m => update s c (mkNode (page n) Live (S (sent n)) (recvd n))
                              (dispatch (relay s) c (ev_message m)) None
          | _, _ => s
          end
      | None => s
      end
  | SDeliver c =>
      match nodes s !! c with
      | Some n =>
          match status n, inbox s c !! recvd n with
          | Live, Some m =>
              let r := page_receive (page n) m in
              update s c (mkNode (fst r) Live (sent n) (S (recvd n))) (relay s) (snd r)
          | _, _ => s
          end
      | None => s
      end
  end.

Definition sys_run (s : Sys) (evs : list SysEvent) : Sys := foldl sys_step s evs.

(** ** The invariant of the composed system *)

Definition dead (s : Sys) (c : ConnId) : Prop := ∃ n, nodes s !! c = Some n ∧ status n = Dead.

(** What the relay has processed of a page, and what the page has handled
    of the relay. *)
Definition sent_msgs (n : Node) : list ClientMsg := take (sent n) (page_emitted (page n)).
Definition handled (s : Sys) (c : ConnId) (n : Node) : list ServerMsg := take (recvd n) (inbox s c).

Definition is_ice_from (h : ConnId) (m : ServerMsg) : Prop := ∃ p, m = ice_candidate_from h p.
Definition is_offer_from (h : ConnId) (m : ServerMsg) : Prop := ∃ sdp, m = offer_from h sdp.
Definition is_offer_from_any (m : ServerMsg) : Prop := ∃ h sdp, m = offer_from h sdp.

(** What each page guarantees on its own ([HostClient], [ViewerClient]). *)
Definition page_ok (p : Page) : Prop :=
  match p with
  | PHost h => HostClient.host_inv h ∧ Forall HostClient.host_msg (HostClient.emitted h)
  | PViewer w => Forall ViewerClient.viewer_msg (ViewerClient.emitted w)
  end.

Record sys_inv (s : Sys) : Prop := {
  si_wf : relay_wf (relay s);
  si_live : ∀ c, c ∈ dom (conns (relay s)) ↔ ∃ n, nodes s !! c = Some n ∧ status n = Live;
  si_bounds : ∀ c n, nodes s !! c = Some n →
    sent n ≤ length (page_emitted (page n)) ∧ recvd n ≤ length (inbox s c);
  si_page : ∀ c n, nodes s !! c = Some n → page_ok (page n);
  si_host_role : ∀ c code, conns (relay s) !! c = Some (Host code) →
    ∃ n, nodes s !! c = Some n ∧ is_host (page n) = true;
  si_offered : ∀ c n h v, nodes s !! c = Some n → page n = PHost h →
    HostClient.offered h v → viewer_joined v ∈ handled s c n;
  si_joined : ∀ h v, viewer_joined v ∈ inbox s h → hosts (relay s) h v ∨ dead s v ∨ dead s h;
  si_offer_sent : ∀ h n v sdp, hosts (relay s) h v → nodes s !! h = Some n →
    offer v sdp ∈ sent_msgs n → offer_from h sdp ∈ inbox s v;
  si_ice_order : ∀ v n w, nodes s !! v = Some n → page n = PViewer w →
    preceded is_ice_from is_offer_from (inbox s v);
  si_viewer_pc : ∀ v n w, nodes s !! v = Some n → page n = PViewer w →
    (∃ m, m ∈ handled s v n ∧ is_offer_from_any m) → is_Some (ViewerClient.peerConnection w)
}.

(** The host page's side.  A host page that handles [viewer_joined] has a
    capture, and a signal from a viewer reaches it between that viewer's
    [viewer_joined] and [viewer_left]. *)
Definition from_viewer (v : ConnId) (m : ServerMsg) : Prop :=
  ∃ p, m = answer_from v p ∨ m = ice_candidate_from v p.

Definition signals_ok (l : list ServerMsg) : Prop :=
  ∀ i m v, l !! i = Some m → from_viewer v m →
    viewer_joined v ∈ take i l ∧ viewer_left v ∉ take i l.

Record hs_inv (s : Sys) : Prop := {
  hs_started : ∀ h code, conns (relay s) !! h = Some (Host code) →
    ∃ n, nodes s !! h = Some n ∧ start_stream ∈ sent_msgs n;
  hs_joined_started : ∀ h n v, nodes s !! h = Some n → viewer_joined v ∈ inbox s h →
    start_stream ∈ sent_msgs n;
  hs_stream : ∀ h n hp, nodes s !! h = Some n → page n = PHost hp →
    start_stream ∈ HostClient.emitted hp → is_Some (HostClient.localStream hp);
  hs_viewer_role : ∀ v code, conns (relay s) !! v = Some (Viewer code) →
    ∃ n, nodes s !! v = Some n ∧ is_host (page n) = false;
  hs_pair : ∀ h v, hosts (relay s) h v →
    viewer_joined v ∈ inbox s h ∧ viewer_left v ∉ inbox s h;
  hs_left_dead : ∀ h v, viewer_left v ∈ inbox s h → dead s v;
  hs_signals : ∀ h n hp, nodes s !! h = Some n → page n = PHost hp → signals_ok (inbox s h);
  hs_pcs : ∀ h n hp v, nodes s !! h = Some n → page n = PHost hp →
    viewer_joined v ∈ handled s h n → viewer_left v ∉ handled s h n →
    is_Some (HostClient.peerConnections hp !! v);
  hs_clean : thrown s = []
}.

(** The client message that carries a signal of kind [k] for [t]. *)
Definition signal_msg (k : SignalKind) (t : ConnId) (p : Payload) : ClientMsg :=
  match k with
  | SigOffer => offer t p
  | SigAnswer => answer t p
  | SigIce => ice_candidate t p
  end.

(** Every signal a page receives was sent, as it is, to that page by the
    page it names as sender. *)
Definition authentic (s : Sys) : Prop :=
  ∀ x k h p, relayed k h p ∈ inbox s x →
    ∃ n, nodes s !! h = Some n ∧ signal_msg k x p ∈ sent_msgs n.

(** A host page keeps its connections open, and has an offer under way
    or sent for every viewer whose [viewer_joined] it has handled and
    whose [viewer_left] it has not. *)
Record offer_inv (s : Sys) : Prop := {
  oi_open : ∀ h n hp, nodes s !! h = Some n → page n = PHost hp → HostClient.pcs_open hp;
  oi_offered : ∀ h n hp v, nodes s !! h = Some n → page n = PHost hp →
    viewer_joined v ∈ handled s h n → viewer_left v ∉ handled s h n → HostClient.offered hp v
}.

(** The signals between the two ends of a session.  A viewer page keeps
    its own invariant and answers only hosts whose offer it has handled;
    and every signal one end of a session has sent to the other has
    reached it. *)
Record sig_inv (s : Sys) : Prop := {
  sg_vinv : ∀ v n w, nodes s !! v = Some n → page n = PViewer w → ViewerClient.viewer_inv w;
  sg_prov : ∀ v n w h p, nodes s !! v = Some n → page n = PViewer w →
    answer h p ∈ ViewerClient.emitted w → ∃ sdp, offer_from h sdp ∈ handled s v n;
  sg_pend : ∀ v n w k h, nodes s !! v = Some n → page n = PViewer w →
    (k, h) ∈ ViewerClient.pending_answers w → ∃ sdp, offer_from h sdp ∈ handled s v n;
  sg_delivered : ∀ h v x y n k p, hosts (relay s) h v → (x = h ∧ y = v ∨ x = v ∧ y = h) →
    nodes s !! x = Some n → signal_msg k y p ∈ sent_msgs n → relayed k x p ∈ inbox s y
}.

(** ** Lemmas *)

Lemma inbox_init g kinds c : inbox (sys_init g kinds) c = [].
Proof. done. Qed.

Lemma signals_ok_app l l' :
  signals_ok l →
  (∀ m v, m ∈ l' → from_viewer v m → viewer_joined v ∈ l ∧ viewer_left v ∉ l ++ l') →
  signals_ok (l ++ l').
Proof.
  intros Hl Hl' i m v Hi Hm. apply lookup_app_Some in Hi as [Hi|[Hge Hi]].
  - rewrite take_app_le by (apply lookup_lt_Some in Hi; lia). by apply (Hl i m v).
  - apply list_elem_of_lookup_2 in Hi. destruct (Hl' _ _ Hi Hm) as [Hj Hleft].
    rewrite take_app, take_ge by lia. split; [set_solver|].
    intros Hin. apply Hleft. apply elem_of_app in Hin as [?|?%subseteq_take]; set_solver.
Qed.

(** *** The pages' steps *)

Lemma page_local_kind p l : is_host (fst (page_local p l)) = is_host p.
Proof. destruct p, l as [[]|[]]; done. Qed.

Lemma page_receive_kind p m : is_host (fst (page_receive p m)) = is_host p.
Proof. by destruct p. Qed.

Lemma page_local_emitted p l : ∃ es, page_emitted (fst (page_local p l)) = page_emitted p ++ es.
Proof.
  destruct p as [h|w], l as [ev|ev]; cbn [page_local page_emitted fst];
    try (exists []; by rewrite app_nil_r).
  - destruct ev; cbn [page_local page_emitted fst]; try (exists []; by rewrite app_nil_r);
      match goal with |- context [HostClient.step h ?ev] =>
        destruct (HostClient.host_step_emitted h ev) as (es & Hes & _); eauto end.
  - destruct ev; cbn [page_local page_emitted fst]; try (exists []; by rewrite app_nil_r);
      match goal with |- context [ViewerClient.step w ?ev] =>
        destruct (ViewerClient.viewer_step_emitted w ev) as (es & Hes & _); eauto end.
Qed.

Lemma page_receive_emitted p m : ∃ es, page_emitted (fst (page_receive p m)) = page_emitted p ++ es.
Proof.
  destruct p as [h|w]; simpl.
  - destruct (HostClient.host_step_emitted h (HostClient.HServer m)) as (es & Hes & _); eauto.
  - destruct (ViewerClient.viewer_step_emitted w (ViewerClient.VServer m)) as (es & Hes & _); eauto.
Qed.

Lemma page_step_ok_host h ev :
  page_ok (PHost h) → page_ok (PHost (fst (HostClient.step h ev))).
Proof.
  intros [Hinv Hmsg]. split; [by apply HostClient.host_inv_step|].
  destruct (HostClient.host_step_emitted h ev) as (es & -> & Hes). by apply Forall_app.
Qed.

Lemma page_step_ok_viewer w ev :
  page_ok (PViewer w) → page_ok (PViewer (fst (ViewerClient.step w ev))).
Proof.
  intros Hmsg. simpl. destruct (ViewerClient.viewer_step_emitted w ev) as (es & -> & Hes).
  by apply Forall_app.
Qed.

Lemma page_local_ok p l : page_ok p → page_ok (fst (page_local p l)).
Proof.
  intros Hok. destruct p as [h|w], l as [ev|ev]; cbn [page_local fst]; try done;
    destruct ev; cbn [fst]; try done; first [by apply page_step_ok_host|by apply page_step_ok_viewer].
Qed.

Lemma page_receive_ok p m : page_ok p → page_ok (fst (page_receive p m)).
Proof. destruct p; cbn [page_receive fst]; [apply page_step_ok_host|apply page_step_ok_viewer]. Qed.

(** A local event of a page is one of its own steps, or nothing. *)
Lemma page_local_host h ev :
  page_local (PHost h) (LHost ev) = (PHost h, None) ∨
  ((∀ m, ev ≠ HostClient.HServer m) ∧
   page_local (PHost h) (LHost ev) =
     (PHost (fst (HostClient.step h ev)), snd (HostClient.step h ev))).
Proof. destruct ev; [right|left|right|right]; try done; split; done. Qed.

Lemma page_local_viewer w ev :
  page_local (PViewer w) (LViewer ev) = (PViewer w, None) ∨
  ((∀ m, ev ≠ ViewerClient.VServer m) ∧
   page_local (PViewer w) (LViewer ev) =
     (PViewer (fst (ViewerClient.step w ev)), snd (ViewerClient.step w ev))).
Proof. destruct ev; [right|right|left|right|right|right]; try done; split; done. Qed.

(** Only the relay's [viewer_joined v] makes a host page offer to [v]. *)
Lemma page_local_offered h l h' v :
  fst (page_local (PHost h) l) = PHost h' → HostClient.offered h' v → HostClient.offered h v.
Proof.
  destruct l as [ev|ev]; [|by intros [= ->]].
  destruct (page_local_host h ev) as [->|[Hne ->]]; intros Heq; cbn [fst] in Heq; [by simplify_eq|].
  assert (h' = fst (HostClient.step h ev)) as -> by congruence.
  intros [?|?]%HostClient.step_offered; [done|]. by destruct (Hne (viewer_joined v)).
Qed.

Lemma page_receive_offered h m h' v :
  fst (page_receive (PHost h) m) = PHost h' → HostClient.offered h' v →
  HostClient.offered h v ∨ m = viewer_joined v.
Proof.
  intros Heq. assert (h' = fst (HostClient.step h (HostClient.HServer m))) as -> by
    (cbn [page_receive fst] in Heq; congruence).
  intros [?|Hm]%HostClient.step_offered; [by left|]. right. congruence.
Qed.

(** The viewer page's [peerConnection] is defined after the first offer. *)
Lemma page_local_pc w l w' :
  fst (page_local (PViewer w) l) = PViewer w' →
  is_Some (ViewerClient.peerConnection w) → is_Some (ViewerClient.peerConnection w').
Proof.
  destruct l as [ev|ev]; [by intros [= ->]|].
  destruct (page_local_viewer w ev) as [->|[_ ->]]; intros Heq; cbn [fst] in Heq; [by simplify_eq|].
  assert (w' = fst (ViewerClient.step w ev)) as -> by congruence.
  apply ViewerClient.viewer_step_pc.
Qed.

Lemma page_receive_pc w m w' :
  fst (page_receive (PViewer w) m) = PViewer w' →
  is_Some (ViewerClient.peerConnection w) ∨ is_offer_from_any m →
  is_Some (ViewerClient.peerConnection w').
Proof.
  intros Heq. assert (w' = fst (ViewerClient.step w (ViewerClient.VServer m))) as -> by
    (cbn [page_receive fst] in Heq; congruence).
  intros [Hpc|(h & sdp & ->)].
  - by apply ViewerClient.viewer_step_pc.
  - apply ViewerClient.viewer_offer_pc.
Qed.

(** A viewer page throws only on an ICE candidate before any offer. *)
Lemma page_local_nothrow p l : snd (page_local p l) = None.
Proof.
  destruct p as [h|w], l as [ev|ev]; try done.
  - destruct (page_local_host h ev) as [->|[Hne ->]]; [done|]. cbn [snd].
    destruct (snd (HostClient.step h ev)) eqn:He; [|done].
    destruct (HostClient.host_step_throw _ _ _ He) as [(v & -> & _)|(v & p & [-> | ->] & _)];
      by destruct (Hne _ eq_refl).
  - destruct (page_local_viewer w ev) as [->|[Hne ->]]; [done|]. cbn [snd].
    destruct (snd (ViewerClient.step w ev)) eqn:He; [|done].
    destruct (ViewerClient.viewer_step_throw _ _ _ He) as ((h & c & ->) & _).
    by destruct (Hne _ eq_refl).
Qed.

Lemma page_receive_throw p m e :
  snd (page_receive p m) = Some e →
  is_host p = true ∨
  ∃ w h c, p = PViewer w ∧ m = ice_candidate_from h c ∧ ViewerClient.peerConnection w = None.
Proof.
  destruct p as [h|w]; [by left|]. cbn [page_receive snd].
  intros ((h & c & Hm) & Hpc)%ViewerClient.viewer_step_throw. injection Hm as ->.
  right. by exists w, h, c.
Qed.

(** *** Updating one node *)

Lemma update_status (m : gmap ConnId Node) c n n' x st :
  m !! c = Some n → status n' = status n →
  (∃ n0, <[c := n']> m !! x = Some n0 ∧ status n0 = st) ↔ (∃ n0, m !! x = Some n0 ∧ status n0 = st).
Proof.
  intros Hc Hs. destruct (decide (x = c)) as [->|Hne].
  - rewrite lookup_insert_eq, Hc. split; intros (n0 & [= <-] & <-); eauto.
  - by rewrite lookup_insert_ne.
Qed.

Lemma update_kind (m : gmap ConnId Node) c n n' x :
  m !! c = Some n → is_host (page n') = is_host (page n) →
  (∃ n0, m !! x = Some n0 ∧ is_host (page n0) = true) →
  ∃ n0, <[c := n']> m !! x = Some n0 ∧ is_host (page n0) = true.
Proof.
  intros Hc Hk (n0 & Hx & Hh). destruct (decide (x = c)) as [->|Hne].
  - rewrite lookup_insert_eq. rewrite Hc in Hx. simplify_eq. eauto.
  - rewrite lookup_insert_ne by done. eauto.
Qed.

Lemma take_emitted_app n (l es : list ClientMsg) : n ≤ length l → take n (l ++ es) = take n l.
Proof. apply take_app_le. Qed.

(** An event of one page that leaves the relay alone keeps the invariant
    when the page's new state is related to the old one as below. *)
Lemma sys_inv_page_update s c n n' te :
  sys_inv s → nodes s !! c = Some n →
  status n' = status n → sent n' = sent n →
  (∃ es, page_emitted (page n') = page_emitted (page n) ++ es) →
  (page_ok (page n) → page_ok (page n')) →
  is_host (page n') = is_host (page n) →
  recvd n ≤ recvd n' ≤ length (inbox s c) →
  (∀ h h' v, page n = PHost h → page n' = PHost h' →
     HostClient.offered h' v → viewer_joined v ∈ take (recvd n') (inbox s c)) →
  (∀ w w', page n = PViewer w → page n' = PViewer w' →
     (∃ m, m ∈ take (recvd n') (inbox s c) ∧ is_offer_from_any m) →
     is_Some (ViewerClient.peerConnection w')) →
  sys_inv (mkSys (relay s) (<[c := n']> (nodes s)) (thrown s ++ te)).
Proof.
  intros Hs Hn Hst Hsent [es Hes] Hok Hk Hrecvd Hoff Hpc.
  assert (Hdead : ∀ x, dead (mkSys (relay s) (<[c := n']> (nodes s)) (thrown s ++ te)) x ↔ dead s x)
    by (intros x; apply (update_status _ _ _ _ _ _ Hn Hst)).
  assert (Hsame : ∀ x n0, <[c := n']> (nodes s) !! x = Some n0 →
            (x = c ∧ n0 = n') ∨ (x ≠ c ∧ nodes s !! x = Some n0))
    by (intros x n0 Hx; apply lookup_insert_Some in Hx; naive_solver).
  split; unfold handled, inbox, sent_msgs; cbn [relay nodes thrown].
  - apply (si_wf _ Hs).
  - intros x. rewrite (si_live _ Hs). symmetry. apply (update_status _ _ _ _ _ _ Hn Hst).
  - intros x n0 [[-> ->]|[_ Hx]]%Hsame; [|by apply (si_bounds _ Hs)].
    destruct (si_bounds _ Hs _ _ Hn) as [Hb _]. rewrite Hsent, Hes, length_app. split; [lia|unfold inbox in Hrecvd; lia].
  - intros x n0 [[-> ->]|[_ Hx]]%Hsame; [|by apply (si_page _ Hs x)].
    apply Hok, (si_page _ Hs _ _ Hn).
  - intros x code Hx. eapply update_kind; [exact Hn|exact Hk|]. by apply (si_host_role _ Hs _ code).
  - intros x n0 h' v [[-> ->]|[_ Hx]]%Hsame Hp' Hv; [|by apply (si_offered _ Hs x n0 h')].
    destruct (page n) as [h|w] eqn:Hp; [|by rewrite Hp' in Hk].
    by apply (Hoff h h' v).
  - intros h v Hv. rewrite !Hdead. by apply (si_joined _ Hs).
  - intros h n0 v sdp Hh [[-> ->]|[_ Hx]]%Hsame Hin; [|by apply (si_offer_sent _ Hs h n0)].
    eapply (si_offer_sent _ Hs _ n); [done..|]. unfold sent_msgs.
    destruct (si_bounds _ Hs _ _ Hn) as [Hb _]. by rewrite <- (take_emitted_app _ _ es), <- Hes, <- Hsent.
  - intros v n0 w' [[-> ->]|[_ Hx]]%Hsame Hp'; [|by apply (si_ice_order _ Hs v n0 w')].
    destruct (page n) as [h|w] eqn:Hp; [by rewrite Hp' in Hk|]. by apply (si_ice_order _ Hs c n w).
  - intros v n0 w' [[-> ->]|[_ Hx]]%Hsame Hp' Hm; [|by apply (si_viewer_pc _ Hs v n0 w')].
    destruct (page n) as [h|w] eqn:Hp; [by rewrite Hp' in Hk|]. by apply (Hpc w w').
Qed.

(** The host page keeps its capture and its connections. *)
Lemma page_local_stream h l h' :
  fst (page_local (PHost h) l) = PHost h' →
  (start_stream ∈ HostClient.emitted h → is_Some (HostClient.localStream h)) →
  start_stream ∈ HostClient.emitted h' → is_Some (HostClient.localStream h').
Proof.
  destruct l as [ev|ev]; [|by intros [= ->]].
  destruct (page_local_host h ev) as [->|[_ ->]]; intros Heq; cbn [fst] in Heq; [by simplify_eq|].
  assert (h' = fst (HostClient.step h ev)) as -> by congruence. apply HostClient.host_stream_step.
Qed.

Lemma page_receive_stream h m h' :
  fst (page_receive (PHost h) m) = PHost h' →
  (start_stream ∈ HostClient.emitted h → is_Some (HostClient.localStream h)) →
  start_stream ∈ HostClient.emitted h' → is_Some (HostClient.localStream h').
Proof.
  intros Heq. assert (h' = fst (HostClient.step h (HostClient.HServer m))) as -> by
    (cbn [page_receive fst] in Heq; congruence).
  apply HostClient.host_stream_step.
Qed.

Lemma page_local_pcs h l h' v :
  fst (page_local (PHost h) l) = PHost h' →
  is_Some (HostClient.peerConnections h !! v) → is_Some (HostClient.peerConnections h' !! v).
Proof.
  destruct l as [ev|ev]; [|by intros [= ->]].
  destruct (page_local_host h ev) as [->|[Hne ->]]; intros Heq; cbn [fst] in Heq; [by simplify_eq|].
  assert (h' = fst (HostClient.step h ev)) as -> by congruence.
  intros [?|?]%(HostClient.host_pcs_step _ ev); [done|]. by destruct (Hne _ H0).
Qed.

Lemma page_receive_pcs h m h' v :
  fst (page_receive (PHost h) m) = PHost h' →
  (is_Some (HostClient.peerConnections h !! v) ∧ m ≠ viewer_left v) ∨ m = viewer_joined v →
  is_Some (HostClient.peerConnections h' !! v).
Proof.
  intros Heq. assert (h' = fst (HostClient.step h (HostClient.HServer m))) as -> by
    (cbn [page_receive fst] in Heq; congruence).
  intros [[Hv Hm]| ->]; [|apply HostClient.host_joined_pc].
  destruct (HostClient.host_pcs_step _ (HostClient.HServer m) _ Hv) as [?|Heq']; [done|].
  injection Heq'. done.
Qed.

(** What a host page throws on a message of the relay. *)
Lemma page_receive_throw_host h m e :
  snd (page_receive (PHost h) m) = Some e →
  (∃ v, m = viewer_joined v ∧ HostClient.localStream h = None) ∨
  (∃ v, from_viewer v m ∧ HostClient.peerConnections h !! v = None).
Proof.
  cbn [page_receive snd]. intros [(v & Hm & Hs)|(v & p & [Hm|Hm] & Hv)]%HostClient.host_step_throw;
    injection Hm as ->; [left|right|right]; exists v; [done| |]; (split; [|done]); exists p; auto.
Qed.

(** *** Preservation, event by event *)

Lemma sys_inv_local s c l : sys_inv s → sys_inv (sys_step s (SLocal c l)).
Proof.
  intros Hs. cbn [sys_step]. destruct (nodes s !! c) as [n|] eqn:Hn; [|done].
  assert (Hup : sys_inv (update s c (mkNode (fst (page_local (page n) l)) (status n) (sent n)
                  (recvd n)) (relay s) (snd (page_local (page n) l)))).
  { unfold update. eapply sys_inv_page_update; [exact Hs|exact Hn|done|done|..]; cbn [page recvd].
    - apply page_local_emitted.
    - apply page_local_ok.
    - apply page_local_kind.
    - pose proof (si_bounds _ Hs _ _ Hn). lia.
    - intros h h' v Hp Hp' Hoff. apply (si_offered _ Hs c n h v Hn Hp).
      rewrite Hp in Hp'. by eapply page_local_offered.
    - intros w w' Hp Hp' Hm. rewrite Hp in Hp'. eapply page_local_pc; [exact Hp'|].
      by apply (si_viewer_pc _ Hs c n w). }
  by destruct (status n).
Qed.

(** A delivered ICE candidate finds the viewer's connection: the relay sent
    an offer before it, and the page has handled that offer. *)
Lemma delivered_ice_has_pc s v n w h c :
  sys_inv s → nodes s !! v = Some n → page n = PViewer w →
  inbox s v !! recvd n = Some (ice_candidate_from h c) →
  is_Some (ViewerClient.peerConnection w).
Proof.
  intros Hs Hn Hp Hi. apply (si_viewer_pc _ Hs v n w Hn Hp).
  destruct (preceded_take _ _ _ _ _ _ (si_ice_order _ Hs v n w Hn Hp) Hi (ex_intro _ c eq_refl))
    as (b & Hb & sdp & ->).
  exists (offer_from h sdp). split; [done|]. by exists h, sdp.
Qed.

Lemma sys_inv_deliver s c : sys_inv s → sys_inv (sys_step s (SDeliver c)).
Proof.
  intros Hs. cbn [sys_step]. destruct (nodes s !! c) as [n|] eqn:Hn; [|done].
  destruct (status n) eqn:Hst; try done.
  destruct (inbox s c !! recvd n) as [m|] eqn:Hm; [|done].
  assert (Htake : take (S (recvd n)) (inbox s c) = take (recvd n) (inbox s c) ++ [m])
    by by apply take_S_r.
  unfold update. eapply sys_inv_page_update; [exact Hs|exact Hn|done|done|..]; cbn [page recvd].
  - apply page_receive_emitted.
  - apply page_receive_ok.
  - apply page_receive_kind.
  - apply lookup_lt_Some in Hm. lia.
  - intros h h' v Hp Hp' Hoff. rewrite Htake. rewrite Hp in Hp'.
    destruct (page_receive_offered _ _ _ _ Hp' Hoff) as [Ho| ->].
    + pose proof (si_offered _ Hs c n h v Hn Hp Ho). set_solver.
    + set_solver.
  - intros w w' Hp Hp' (m0 & Hm0 & Hoffer). rewrite Hp in Hp'. eapply page_receive_pc; [exact Hp'|].
    rewrite Htake in Hm0. apply elem_of_app in Hm0 as [Hm0|Hm0%list_elem_of_singleton]; [|subst m0; by right].
    left. apply (si_viewer_pc _ Hs c n w Hn Hp). by exists m0.
Qed.

(** *** The host side: page events *)

Lemma update_kind_false (m : gmap ConnId Node) c n n' x :
  m !! c = Some n → is_host (page n') = is_host (page n) →
  (∃ n0, m !! x = Some n0 ∧ is_host (page n0) = false) →
  ∃ n0, <[c := n']> m !! x = Some n0 ∧ is_host (page n0) = false.
Proof.
  intros Hc Hk (n0 & Hx & Hh). destruct (decide (x = c)) as [->|Hne].
  - rewrite lookup_insert_eq. rewrite Hc in Hx. simplify_eq. eauto.
  - rewrite lookup_insert_ne by done. eauto.
Qed.

Lemma hs_inv_init g kinds : hs_inv (sys_init g kinds).
Proof.
  split; unfold handled; rewrite ?inbox_init; cbn [relay nodes thrown sys_init];
    unfold hosts, dead; cbn [conns reg outbox init];
    try (intros *; rewrite ?lookup_fmap, ?lookup_empty, ?take_nil); try done.
  - intros Hn Hv. rewrite inbox_init in Hv. set_solver.
  - intros Hn Hp Hin. destruct (kinds !! h) as [[]|]; simplify_eq/=. set_solver.
  - naive_solver.
  - intros Hv. rewrite inbox_init in Hv. set_solver.
  - intros Hn Hp Hj. rewrite inbox_init, take_nil in Hj. set_solver.
Qed.

(** A page event keeps the host side when the page keeps its capture and
    its connections as below and throws nothing. *)
Lemma hs_page_update s c n n' :
  hs_inv s → nodes s !! c = Some n →
  status n' = status n → sent n' = sent n →
  (∃ es, page_emitted (page n') = page_emitted (page n) ++ es) →
  sent n ≤ length (page_emitted (page n)) →
  is_host (page n') = is_host (page n) →
  (∀ h h', page n = PHost h → page n' = PHost h' →
     (start_stream ∈ HostClient.emitted h → is_Some (HostClient.localStream h)) →
     start_stream ∈ HostClient.emitted h' → is_Some (HostClient.localStream h')) →
  (∀ h h' v, page n = PHost h → page n' = PHost h' →
     viewer_joined v ∈ take (recvd n') (inbox s c) → viewer_left v ∉ take (recvd n') (inbox s c) →
     is_Some (HostClient.peerConnections h' !! v)) →
  hs_inv (mkSys (relay s) (<[c := n']> (nodes s)) (thrown s)).
Proof.
  intros Hs Hn Hst Hsent [es Hes] Hb Hk Hstream Hpcs.
  assert (Hsm : sent_msgs n' = sent_msgs n).
  { unfold sent_msgs. by rewrite Hsent, Hes, take_app_le. }
  assert (Hsame : ∀ x n0, <[c := n']> (nodes s) !! x = Some n0 →
            (x = c ∧ n0 = n') ∨ (x ≠ c ∧ nodes s !! x = Some n0))
    by (intros x n0 Hx; apply lookup_insert_Some in Hx; naive_solver).
  assert (Hat : ∀ x P, (∃ n0, nodes s !! x = Some n0 ∧ P (sent_msgs n0)) →
            ∃ n0, <[c := n']> (nodes s) !! x = Some n0 ∧ P (sent_msgs n0)).
  { intros x P (n0 & Hx & HP). destruct (decide (x = c)) as [->|Hne].
    - rewrite lookup_insert_eq. rewrite Hn in Hx. simplify_eq. exists n'. by rewrite Hsm.
    - rewrite lookup_insert_ne by done. eauto. }
  split; unfold handled, inbox; cbn [relay nodes thrown].
  - intros h code Hh. apply Hat. by apply (hs_started _ Hs h code).
  - intros h n0 v [[-> ->]|[_ Hx]]%Hsame Hv; [rewrite Hsm|]; by eapply (hs_joined_started _ Hs).
  - intros h n0 h' [[-> ->]|[_ Hx]]%Hsame Hp'; [|by apply (hs_stream _ Hs h n0 h')].
    destruct (page n) as [hh|ww] eqn:Hp; [|by rewrite Hp' in Hk].
    apply (Hstream hh h' eq_refl Hp'). by apply (hs_stream _ Hs c n hh).
  - intros v code Hv. eapply update_kind_false; [exact Hn|exact Hk|].
    by apply (hs_viewer_role _ Hs v code).
  - apply (hs_pair _ Hs).
  - intros h v Hv. destruct (hs_left_dead _ Hs h v Hv) as (n0 & Hn0 & Hd).
    apply (update_status _ _ _ _ _ _ Hn Hst). eauto.
  - intros h n0 h' [[-> ->]|[_ Hx]]%Hsame Hp'; [|by apply (hs_signals _ Hs h n0 h')].
    destruct (page n) as [hh|ww] eqn:Hp; [|by rewrite Hp' in Hk]. by apply (hs_signals _ Hs c n hh).
  - intros h n0 h' v [[-> ->]|[_ Hx]]%Hsame Hp'; [|by apply (hs_pcs _ Hs h n0 h')].
    destruct (page n) as [hh|ww] eqn:Hp; [|by rewrite Hp' in Hk]. by apply (Hpcs hh h' v).
  - apply (hs_clean _ Hs).
Qed.

Lemma hs_local s c l : sys_inv s → hs_inv s → hs_inv (sys_step s (SLocal c l)).
Proof.
  intros Hs Hh. cbn [sys_step]. destruct (nodes s !! c) as [n|] eqn:Hn; [|done].
  assert (Hup : hs_inv (update s c (mkNode (fst (page_local (page n) l)) (status n) (sent n)
                  (recvd n)) (relay s) (snd (page_local (page n) l)))).
  { unfold update. rewrite page_local_nothrow, app_nil_r.
    eapply hs_page_update; [exact Hh|exact Hn|done|done|..]; cbn [page recvd].
    - apply page_local_emitted.
    - apply (si_bounds _ Hs _ _ Hn).
    - apply page_local_kind.
    - intros h h' Hp Hp'. rewrite Hp in Hp'. by apply (page_local_stream h l).
    - intros h h' v Hp Hp' Hj Hl. rewrite Hp in Hp'. eapply page_local_pcs; [exact Hp'|].
      by apply (hs_pcs _ Hh c n h v). }
  by destruct (status n).
Qed.

(** A page handles a relay message without throwing. *)
Lemma deliver_nothrow s c n m :
  sys_inv s → hs_inv s → nodes s !! c = Some n → inbox s c !! recvd n = Some m →
  snd (page_receive (page n) m) = None.
Proof.
  intros Hs Hh Hn Hm. destruct (snd (page_receive (page n) m)) as [e|] eqn:He; [exfalso|done].
  destruct (page n) as [h|w] eqn:Hp.
  - destruct (page_receive_throw_host _ _ _ He) as [(v & -> & Hnone)|(v & Hfrom & Hnone)].
    + apply list_elem_of_lookup_2 in Hm.
      pose proof (hs_joined_started _ Hh _ _ _ Hn Hm) as Hst. unfold sent_msgs in Hst.
      rewrite Hp in Hst. apply subseteq_take in Hst.
      destruct (hs_stream _ Hh _ _ _ Hn Hp Hst). congruence.
    + destruct (hs_signals _ Hh _ _ _ Hn Hp _ _ _ Hm Hfrom) as [Hj Hl].
      destruct (hs_pcs _ Hh _ _ _ v Hn Hp Hj Hl). congruence.
  - destruct (page_receive_throw _ _ _ He) as [?|(w' & h & c0 & Hw & -> & Hpc)]; [done|].
    injection Hw as <-. destruct (delivered_ice_has_pc _ _ _ _ _ _ Hs Hn Hp Hm). congruence.
Qed.

Lemma hs_deliver s c : sys_inv s → hs_inv s → hs_inv (sys_step s (SDeliver c)).
Proof.
  intros Hs Hh. cbn [sys_step]. destruct (nodes s !! c) as [n|] eqn:Hn; [|done].
  destruct (status n) eqn:Hst; try done.
  destruct (inbox s c !! recvd n) as [m|] eqn:Hm; [|done].
  assert (Htake : take (S (recvd n)) (inbox s c) = take (recvd n) (inbox s c) ++ [m])
    by by apply take_S_r.
  unfold update. rewrite (deliver_nothrow s c n m Hs Hh Hn Hm), app_nil_r.
  eapply hs_page_update; [exact Hh|exact Hn|done|done|..]; cbn [page recvd].
  - apply page_receive_emitted.
  - apply (si_bounds _ Hs _ _ Hn).
  - apply page_receive_kind.
  - intros h h' Hp Hp'. rewrite Hp in Hp'. by apply (page_receive_stream h m).
  - intros h h' v Hp Hp' Hj Hl. rewrite Hp in Hp'. eapply page_receive_pcs; [exact Hp'|].
    rewrite Htake in Hj, Hl.
    apply elem_of_app in Hj as [Hj|Hj%list_elem_of_singleton]; [left|by right].
    split; [apply (hs_pcs _ Hh c n h v Hn Hp Hj); set_solver|]. intros ->. set_solver.
Qed.

(** *** Authenticity: page events *)

Lemma authentic_init g kinds : authentic (sys_init g kinds).
Proof. intros x k h p Hin. rewrite inbox_init in Hin. set_solver. Qed.

Lemma authentic_page_update s c n n' te :
  authentic s → nodes s !! c = Some n → sent n' = sent n →
  (∃ es, page_emitted (page n') = page_emitted (page n) ++ es) →
  sent n ≤ length (page_emitted (page n)) →
  authentic (mkSys (relay s) (<[c := n']> (nodes s)) te).
Proof.
  intros Ha Hn Hsent [es Hes] Hb x k h p Hin.
  destruct (Ha x k h p Hin) as (n0 & Hh & Hm). destruct (decide (h = c)) as [->|Hne].
  - exists n'. cbn [nodes]. rewrite lookup_insert_eq. split; [done|].
    rewrite Hn in Hh. injection Hh as <-. unfold sent_msgs in *.
    by rewrite Hsent, Hes, take_app_le.
  - exists n0. cbn [nodes]. by rewrite lookup_insert_ne.
Qed.

Lemma authentic_local s c l : sys_inv s → authentic s → authentic (sys_step s (SLocal c l)).
Proof.
  intros Hs Ha. cbn [sys_step]. destruct (nodes s !! c) as [n|] eqn:Hn; [|done].
  destruct (status n); try done; (eapply authentic_page_update; [exact Ha|exact Hn|done|
    apply page_local_emitted|apply (si_bounds _ Hs _ _ Hn)]).
Qed.

Lemma authentic_deliver s c : sys_inv s → authentic s → authentic (sys_step s (SDeliver c)).
Proof.
  intros Hs Ha. cbn [sys_step]. destruct (nodes s !! c) as [n|] eqn:Hn; [|done].
  destruct (status n); try done. destruct (inbox s c !! recvd n); [|done].
  eapply authentic_page_update; [exact Ha|exact Hn|done|
    apply page_receive_emitted|apply (si_bounds _ Hs _ _ Hn)].
Qed.

(** *** Offers under way: page events *)

Lemma offer_inv_init g kinds : offer_inv (sys_init g kinds).
Proof.
  split; cbn [nodes sys_init]; intros h n hp *; rewrite lookup_fmap;
    destruct (kinds !! h) as [[]|]; intros Hn Hp; simplify_eq/=.
  - intros v pc Hv. cbn in Hv. by rewrite lookup_empty in Hv.
  - unfold handled. cbn [recvd]. rewrite take_0. set_solver.
Qed.

Lemma page_local_host_step p l h' :
  fst (page_local p l) = PHost h' → ∃ h, p = PHost h ∧ (h' = h ∨ ∃ ev, h' = fst (HostClient.step h ev)).
Proof.
  intros Heq. destruct p as [h|w].
  - exists h. split; [done|]. destruct l as [ev|ev]; [|left; cbn in Heq; congruence].
    destruct (page_local_host h ev) as [E|[_ E]]; rewrite E in Heq; cbn [fst] in Heq;
      injection Heq as <-; eauto.
  - exfalso. destruct l as [ev|ev]; [cbn in Heq; discriminate|]. destruct ev; cbn in Heq; discriminate.
Qed.

(** A page event of [c] that keeps [c]'s handled messages keeps the
    invariant when the new host page keeps its connections open and its
    offers under way. *)
Lemma offer_inv_page_update s c n n' te :
  offer_inv s → nodes s !! c = Some n →
  (∀ h', page n' = PHost h' → HostClient.pcs_open h' ∧
     ∀ v, viewer_joined v ∈ take (recvd n') (inbox s c) →
          viewer_left v ∉ take (recvd n') (inbox s c) → HostClient.offered h' v) →
  offer_inv (mkSys (relay s) (<[c := n']> (nodes s)) te).
Proof.
  intros Ho Hn Hnew. split; unfold handled, inbox; cbn [relay nodes];
    intros h n0 hp *; (destruct (decide (h = c)) as [->|Hne];
      [rewrite lookup_insert_eq; intros [= <-] Hp; by apply Hnew|
       rewrite lookup_insert_ne by done; intros Hh Hp]).
  - by apply (oi_open _ Ho h n0).
  - by apply (oi_offered _ Ho h n0).
Qed.

Lemma offer_inv_local s c l :
  sys_inv s → hs_inv s → offer_inv s → offer_inv (sys_step s (SLocal c l)).
Proof.
  intros Hs Hh Ho. cbn [sys_step]. destruct (nodes s !! c) as [n|] eqn:Hn; [|done].
  assert (Hup : offer_inv (update s c (mkNode (fst (page_local (page n) l)) (status n) (sent n)
                  (recvd n)) (relay s) (snd (page_local (page n) l)))).
  { apply (offer_inv_page_update s c n); [done|done|]. cbn [page recvd].
    intros h' Hp'. destruct (page_local_host_step _ _ _ Hp') as (h & Hp & [->|[ev ->]]).
    - split; [by apply (oi_open _ Ho c n)|]. intros v Hj Hl. by apply (oi_offered _ Ho c n).
    - split; [apply HostClient.pcs_open_step; by apply (oi_open _ Ho c n)|].
      intros v Hj Hl. apply HostClient.offered_step; [by apply (oi_offered _ Ho c n)|].
      destruct (hs_pcs _ Hh c n h v Hn Hp Hj Hl) as [pc Hpc]. exists pc. split; [done|].
      exact (oi_open _ Ho c n h Hn Hp v pc Hpc). }
  by destruct (status n).
Qed.

Lemma offer_inv_deliver s c :
  sys_inv s → hs_inv s → offer_inv s → offer_inv (sys_step s (SDeliver c)).
Proof.
  intros Hs Hh Ho. cbn [sys_step]. destruct (nodes s !! c) as [n|] eqn:Hn; [|done].
  destruct (status n) eqn:Hst; try done.
  destruct (inbox s c !! recvd n) as [m|] eqn:Hm; [|done].
  apply (offer_inv_page_update s c n); [done|done|]. cbn [page recvd].
  intros h' Hp'. destruct (page n) as [h|w] eqn:Hp; [|by cbn [page_receive fst] in Hp'].
  assert (h' = fst (HostClient.step h (HostClient.HServer m))) as ->
    by (cbn [page_receive fst] in Hp'; congruence).
  rewrite (take_S_r _ _ _ Hm).
  split; [apply HostClient.pcs_open_step; by apply (oi_open _ Ho c n)|].
  intros v Hj Hl. apply elem_of_app in Hj as [Hj|Hj%list_elem_of_singleton].
  - assert (Hl' : viewer_left v ∉ take (recvd n) (inbox s c)) by set_solver.
    apply HostClient.offered_step; [by apply (oi_offered _ Ho c n)|].
    destruct (hs_pcs _ Hh c n h v Hn Hp Hj Hl') as [pc Hpc]. exists pc. split; [done|].
    exact (oi_open _ Ho c n h Hn Hp v pc Hpc).
  - subst m. apply list_elem_of_lookup_2 in Hm.
    pose proof (hs_joined_started _ Hh _ _ _ Hn Hm) as Hss. unfold sent_msgs in Hss.
    rewrite Hp in Hss. apply subseteq_take in Hss.
    destruct (hs_stream _ Hh _ _ _ Hn Hp Hss) as [cap Hcap].
    by apply (HostClient.joined_offered _ _ cap).
Qed.

(** *** Signals between the ends of a session: page events *)

Lemma sig_inv_init g kinds : sig_inv (sys_init g kinds).
Proof.
  split; unfold handled, sent_msgs; cbn [nodes relay sys_init].
  - intros v n w. rewrite lookup_fmap. destruct (kinds !! v) as [[]|]; intros Hn Hp; simplify_eq/=.
    apply ViewerClient.viewer_inv_init.
  - intros v n w h p. rewrite lookup_fmap. destruct (kinds !! v) as [[]|]; intros Hn Hp; simplify_eq/=.
    set_solver.
  - intros v n w k h. rewrite lookup_fmap. destruct (kinds !! v) as [[]|]; intros Hn Hp; simplify_eq/=.
    set_solver.
  - intros h v x y n k p (code & ss & Hh & _). cbn in Hh. by rewrite lookup_empty in Hh.
Qed.

Lemma page_local_viewer_step p l w' :
  fst (page_local p l) = PViewer w' →
  ∃ w, p = PViewer w ∧ (w' = w ∨ ∃ ev, (∀ m, ev ≠ ViewerClient.VServer m) ∧
                                      w' = fst (ViewerClient.step w ev)).
Proof.
  intros Heq. destruct p as [h|w].
  - exfalso. destruct l as [ev|ev]; [|cbn in Heq; discriminate]. destruct ev; cbn in Heq; discriminate.
  - exists w. split; [done|]. destruct l as [ev|ev]; [left; cbn in Heq; congruence|].
    destruct (page_local_viewer w ev) as [E|[Hne E]]; rewrite E in Heq; cbn [fst] in Heq;
      injection Heq as <-; eauto.
Qed.

(** A page event of [c] that keeps what [c] has sent keeps the invariant
    when a new viewer page keeps its invariant and the provenance of its
    answers. *)
Lemma sig_inv_page_update s c n n' te :
  sig_inv s → nodes s !! c = Some n → sent n' = sent n →
  (∃ es, page_emitted (page n') = page_emitted (page n) ++ es) →
  sent n ≤ length (page_emitted (page n)) →
  (∀ w', page n' = PViewer w' → ViewerClient.viewer_inv w' ∧
     (∀ h p, answer h p ∈ ViewerClient.emitted w' →
        ∃ sdp, offer_from h sdp ∈ take (recvd n') (inbox s c)) ∧
     (∀ k h, (k, h) ∈ ViewerClient.pending_answers w' →
        ∃ sdp, offer_from h sdp ∈ take (recvd n') (inbox s c))) →
  sig_inv (mkSys (relay s) (<[c := n']> (nodes s)) te).
Proof.
  intros Hg Hn Hsent [es Hes] Hb Hnew.
  assert (Hsm : sent_msgs n' = sent_msgs n) by (unfold sent_msgs; by rewrite Hsent, Hes, take_app_le).
  split; unfold handled, inbox; cbn [relay nodes].
  - intros v n0 w Hv Hp. destruct (decide (v = c)) as [->|Hne].
    + rewrite lookup_insert_eq in Hv. injection Hv as <-. by apply Hnew.
    + rewrite lookup_insert_ne in Hv by done. by apply (sg_vinv _ Hg v n0).
  - intros v n0 w h p Hv Hp. destruct (decide (v = c)) as [->|Hne].
    + rewrite lookup_insert_eq in Hv. injection Hv as <-. by apply Hnew.
    + rewrite lookup_insert_ne in Hv by done. by apply (sg_prov _ Hg v n0 w).
  - intros v n0 w k h Hv Hp. destruct (decide (v = c)) as [->|Hne].
    + rewrite lookup_insert_eq in Hv. injection Hv as <-. by apply Hnew.
    + rewrite lookup_insert_ne in Hv by done. by apply (sg_pend _ Hg v n0 w).
  - intros h v x y n0 k p Hhv Hxy Hx Hin. destruct (decide (x = c)) as [->|Hne].
    + rewrite lookup_insert_eq in Hx. injection Hx as <-. rewrite Hsm in Hin.
      by apply (sg_delivered _ Hg h v c y n k p).
    + rewrite lookup_insert_ne in Hx by done. by apply (sg_delivered _ Hg h v x y n0 k p).
Qed.

Lemma sig_inv_local s c l : sys_inv s → sig_inv s → sig_inv (sys_step s (SLocal c l)).
Proof.
  intros Hs Hg. cbn [sys_step]. destruct (nodes s !! c) as [n|] eqn:Hn; [|done].
  assert (Hup : sig_inv (update s c (mkNode (fst (page_local (page n) l)) (status n) (sent n)
                  (recvd n)) (relay s) (snd (page_local (page n) l)))).
  { apply (sig_inv_page_update s c n); [done|done|done|apply page_local_emitted|
      apply (si_bounds _ Hs _ _ Hn)|]. cbn [page recvd].
    intros w' Hp'. destruct (page_local_viewer_step _ _ _ Hp') as (w & Hp & [->|(ev & Hev & ->)]).
    - split_and!; [by apply (sg_vinv _ Hg c n)|intros h p; exact (sg_prov _ Hg c n w h p Hn Hp)|
        intros k h; exact (sg_pend _ Hg c n w k h Hn Hp)].
    - split_and!; [apply ViewerClient.viewer_inv_step; by apply (sg_vinv _ Hg c n)| |].
      + intros h p [Hold|[k Hk]]%ViewerClient.viewer_step_answer;
          [exact (sg_prov _ Hg c n w h p Hn Hp Hold)|exact (sg_pend _ Hg c n w k h Hn Hp Hk)].
      + intros k h [Hold|[sdp Heq]]%ViewerClient.viewer_step_pending;
          [exact (sg_pend _ Hg c n w k h Hn Hp Hold)|by destruct (Hev _ Heq)]. }
  by destruct (status n).
Qed.

Lemma sig_inv_deliver s c : sys_inv s → sig_inv s → sig_inv (sys_step s (SDeliver c)).
Proof.
  intros Hs Hg. cbn [sys_step]. destruct (nodes s !! c) as [n|] eqn:Hn; [|done].
  destruct (status n) eqn:Hst; try done.
  destruct (inbox s c !! recvd n) as [m|] eqn:Hm; [|done].
  apply (sig_inv_page_update s c n); [done|done|done|apply page_receive_emitted|
    apply (si_bounds _ Hs _ _ Hn)|]. cbn [page recvd].
  intros w' Hp'. destruct (page n) as [h0|w] eqn:Hp; [by cbn [page_receive fst] in Hp'|].
  assert (w' = fst (ViewerClient.step w (ViewerClient.VServer m))) as ->
    by (cbn [page_receive fst] in Hp'; congruence).
  rewrite (take_S_r _ _ _ Hm).
  split_and!; [apply ViewerClient.viewer_inv_step; by apply (sg_vinv _ Hg c n)| |].
  - intros h p [Hold|[k Hk]]%ViewerClient.viewer_step_answer;
      [destruct (sg_prov _ Hg c n w h p Hn Hp Hold) as [sdp ?]
      |destruct (sg_pend _ Hg c n w k h Hn Hp Hk) as [sdp ?]]; exists sdp; set_solver.
  - intros k h [Hold|[sdp Heq]]%ViewerClient.viewer_step_pending.
    + destruct (sg_pend _ Hg c n w k h Hn Hp Hold) as [sdp ?]. exists sdp. set_solver.
    + injection Heq as ->. exists sdp. set_solver.
Qed.

(** *** Who signals whom

    A host page signals a viewer only after an offer for it was under
    way, hence after handling its [viewer_joined]; a viewer page signals a
    host only after answering it, hence after handling its offer.  So
    whoever has signalled whom is, or was, paired with it in a session
    that has not been re-formed: the two are paired now, or one of them is
    closed. *)

Lemma offered_paired s h n hp v :
  sys_inv s → nodes s !! h = Some n → page n = PHost hp → HostClient.offered hp v →
  hosts (relay s) h v ∨ dead s v ∨ dead s h.
Proof.
  intros Hs Hn Hp Hoff. apply (si_joined _ Hs).
  apply (subseteq_take (recvd n)). by apply (si_offered _ Hs h n hp).
Qed.

Lemma viewer_answer_paired s v n w h p :
  sys_inv s → authentic s → sig_inv s → nodes s !! v = Some n → page n = PViewer w →
  answer h p ∈ ViewerClient.emitted w → hosts (relay s) h v ∨ dead s v ∨ dead s h.
Proof.
  intros Hs Ha Hg Hn Hp Hans.
  destruct (sg_prov _ Hg v n w h p Hn Hp Hans) as [sdp Hoff].
  apply subseteq_take in Hoff.
  destruct (Ha v SigOffer h sdp Hoff) as (nh & Hnh & Hsent).
  apply subseteq_take in Hsent. cbn [signal_msg] in Hsent.
  pose proof (si_page _ Hs h nh Hnh) as Hok.
  destruct (page nh) as [hp|w'] eqn:Hph; cbn [page_ok page_emitted] in Hok, Hsent.
  - apply (offered_paired s h nh hp v Hs Hnh Hph). right. by exists sdp.
  - rewrite Forall_forall in Hok. destruct (Hok _ Hsent) as [(? & ?)|[(? & ? & ?)|(? & ? & ?)]];
      discriminate.
Qed.

Lemma signalled_paired s x y n k p :
  sys_inv s → authentic s → sig_inv s → nodes s !! x = Some n →
  signal_msg k y p ∈ page_emitted (page n) →
  hosts (relay s) x y ∨ hosts (relay s) y x ∨ dead s x ∨ dead s y.
Proof.
  intros Hs Ha Hg Hn Hin. pose proof (si_page _ Hs x n Hn) as Hok.
  destruct (page n) as [hp|w] eqn:Hp; cbn [page_ok page_emitted] in Hok, Hin.
  - destruct Hok as [[_ Hord] Hmsg].
    assert (Hoff : HostClient.offered hp y).
    { destruct k; cbn [signal_msg] in Hin.
      - right. by exists p.
      - rewrite Forall_forall in Hmsg.
        destruct (Hmsg _ Hin) as [?|[(? & ? & ?)|(? & ? & ?)]]; discriminate.
      - apply list_elem_of_lookup_1 in Hin as [i Hi].
        destruct (Hord i y _ Hi (ex_intro _ p eq_refl)) as (j & b & _ & Hj & [sdp ->]).
        right. exists sdp. by apply list_elem_of_lookup_2 with j. }
    destruct (offered_paired s x n hp y Hs Hn Hp Hoff) as [?|[?|?]]; tauto.
  - assert (Hans : ∃ p', answer y p' ∈ ViewerClient.emitted w).
    { destruct k; cbn [signal_msg] in Hin.
      - rewrite Forall_forall in Hok.
        destruct (Hok _ Hin) as [(? & ?)|[(? & ? & ?)|(? & ? & ?)]]; discriminate.
      - by exists p.
      - apply list_elem_of_lookup_1 in Hin as [i Hi].
        destruct (ViewerClient.vi_order _ (sg_vinv _ Hg x n w Hn Hp) i y _ Hi (ex_intro _ p eq_refl))
          as (j & b & _ & Hj & [sdp ->]).
        exists sdp. by apply list_elem_of_lookup_2 with j. }
    destruct Hans as [p' Hans].
    destruct (viewer_answer_paired s x n w y p' Hs Ha Hg Hn Hp Hans) as [?|[?|?]]; tauto.
Qed.

(** *** Events that go through the relay

    A connect, a disconnect or a transmission changes the relay by one
    [dispatch] of connection [c], and changes [c]'s node only in its
    status or its count of sent messages.  The hypotheses below describe
    the three cases at once. *)
Section relay_update.
Context (s : Sys) (c : ConnId) (n n' : Node) (ev : TransportEvent).
Hypothesis Hs : sys_inv s.
Hypothesis Hn : nodes s !! c = Some n.
Hypothesis Hpage : page n' = page n.
Hypothesis Hrecvd : recvd n' = recvd n.
Hypothesis Hnd : status n ≠ Dead.
Hypothesis Hdis : ev = ev_disconnect → status n' = Dead.
Hypothesis Hmsg : ∀ m, ev = ev_message m →
  page_emitted (page n) !! sent n = Some m ∧ status n = Live ∧ status n' = Live.
Hypothesis Hsent : sent n' ≤ length (page_emitted (page n)).
Hypothesis Hsent_cases : ∀ m, m ∈ sent_msgs n' → m ∈ sent_msgs n ∨ ev = ev_message m.
Hypothesis Hdom : ∀ x, x ≠ c →
  x ∈ dom (conns (dispatch (relay s) c ev)) ↔ x ∈ dom (conns (relay s)).
Hypothesis Hdomc : c ∈ dom (conns (dispatch (relay s) c ev)) ↔ status n' = Live.
Hypothesis Hhs : hs_inv s.
Hypothesis Hsent_mono : ∀ x, x ∈ sent_msgs n → x ∈ sent_msgs n'.
Hypothesis Hsent_new : ∀ m, ev = ev_message m → m ∈ sent_msgs n'.
Hypothesis Hau : authentic s.
Hypothesis Hoi : offer_inv s.
Hypothesis Hsg : sig_inv s.

Lemma ru_delta : ∃ o', outbox (dispatch (relay s) c ev) = outbox (relay s) ++ o' ∧
  delta_ok (relay s) c ev o'.
Proof. apply dispatch_delta, (si_wf _ Hs). Qed.

Lemma ru_lookup x n0 : <[c := n']> (nodes s) !! x = Some n0 →
  (x = c ∧ n0 = n') ∨ (x ≠ c ∧ nodes s !! x = Some n0).
Proof. intros Hx. apply lookup_insert_Some in Hx. naive_solver. Qed.

Lemma ru_dead x : dead s x → x ≠ c ∧ dead (update s c n' (dispatch (relay s) c ev) None) x.
Proof.
  intros (n0 & Hx & Hd). assert (x ≠ c) by (intros ->; congruence).
  split; [done|]. exists n0. cbn [nodes update]. by rewrite lookup_insert_ne.
Qed.

Lemma ru_kind x : (∃ n0, nodes s !! x = Some n0 ∧ is_host (page n0) = true) →
  ∃ n0, <[c := n']> (nodes s) !! x = Some n0 ∧ is_host (page n0) = true.
Proof. apply update_kind with n; [done|by rewrite Hpage]. Qed.

Let r' := dispatch (relay s) c ev.
Let s' := update s c n' r' None.

Lemma ru_inbox : ∃ o', delta_ok (relay s) c ev o' ∧ ∀ x, inbox s' x = inbox s x ++ addressed_to x o'.
Proof.
  destruct ru_delta as (o' & Ho & Hd). exists o'. split; [done|]. intros x.
  unfold s', r', inbox. cbn [update relay]. rewrite Ho. apply addressed_to_app.
Qed.

(** What a node has handled and its kind of page do not change. *)
Lemma ru_node x n0 : <[c := n']> (nodes s) !! x = Some n0 →
  ∃ n1, nodes s !! x = Some n1 ∧ page n0 = page n1 ∧
    take (recvd n0) (inbox s' x) = take (recvd n1) (inbox s x).
Proof.
  intros Hx. destruct ru_inbox as (o' & _ & Hi). rewrite Hi.
  apply ru_lookup in Hx as [[-> ->]|[_ Hx]]; [exists n|exists n0];
    (split; [done|]); (split; [done|]); rewrite ?Hrecvd; apply take_app_le;
    [apply (si_bounds _ Hs _ _ Hn)|apply (si_bounds _ Hs _ _ Hx)].
Qed.

Lemma ru_host_role x code : conns r' !! x = Some (Host code) →
  ∃ n0, <[c := n']> (nodes s) !! x = Some n0 ∧ is_host (page n0) = true.
Proof.
  intros [Hold|[-> ->]]%host_role_new; [apply ru_kind; by apply (si_host_role _ Hs x code)|].
  destruct (Hmsg _ eq_refl) as (Hm & _ & _). rewrite lookup_insert_eq. eexists. split; [done|].
  rewrite Hpage. pose proof (si_page _ Hs _ _ Hn) as Hok. destruct (page n) as [h|w]; [done|].
  simpl in Hok, Hm. apply list_elem_of_lookup_2 in Hm. rewrite Forall_forall in Hok.
  destruct (Hok _ Hm) as [[? ?]|[(? & ? & ?)|(? & ? & ?)]]; discriminate.
Qed.

Lemma ru_joined h v : viewer_joined v ∈ inbox s' h → hosts r' h v ∨ dead s' v ∨ dead s' h.
Proof.
  destruct ru_inbox as (o' & Hd & Hi). rewrite Hi. intros [Hold|Hnew]%elem_of_app.
  - destruct (si_joined _ Hs _ _ Hold) as [Hh|[Hv|Hh]].
    + destruct (decide (ev = ev_disconnect ∧ (c = h ∨ c = v))) as [[-> Hc]|Hno].
      * right. pose proof (Hdis eq_refl).
        destruct Hc as [<-|<-]; [right|left]; exists n'; unfold s'; cbn; by rewrite lookup_insert_eq.
      * left. apply hosts_stable; [apply (si_wf _ Hs)|done|]. intros ->. split; intros <-; naive_solver.
    + right; left. by apply ru_dead.
    + right; right. by apply ru_dead.
  - left. apply elem_of_addressed_to in Hnew. unfold delta_ok in Hd. rewrite Forall_forall in Hd.
    by destruct (Hd _ Hnew) as [(_ & _ & _ & Hh) _].
Qed.

(** A viewer that joins has been sent no offer yet: an offer to [v] needs
    the host to have handled [viewer_joined v], which the relay sends only
    to the host of a session [v] is in. *)
Lemma ru_no_early_offer h n0 v sdp :
  hosts r' h v → conns (relay s) !! v = Some Unassigned → v = c →
  nodes s !! h = Some n0 → offer v sdp ∉ sent_msgs n0.
Proof.
  intros Hh' Hu -> Hn0 Hin. unfold r' in *. pose proof (dispatch_wf _ c ev (si_wf _ Hs)) as Hwf'.
  destruct Hh' as (code & s0 & Hh & Hs0 & Hv).
  pose proof (wf_viewer_tracked _ _ Hwf' _ _ _ Hs0 Hv) as Hvt.
  destruct (host_role_new _ _ _ _ _ Hh) as [Hold|[-> _]]; [|congruence].
  destruct (si_host_role _ Hs _ _ Hold) as (n1 & Hn1 & Hk). rewrite Hn0 in Hn1. simplify_eq.
  destruct (page n1) as [hh|ww] eqn:Hp; [|done].
  assert (Hoff : HostClient.offered hh c).
  { right. exists sdp. unfold sent_msgs in Hin. rewrite Hp in Hin. by apply subseteq_take in Hin. }
  pose proof (si_offered _ Hs _ _ _ _ Hn0 Hp Hoff) as Hj. apply subseteq_take in Hj.
  destruct (si_joined _ Hs _ _ Hj) as [(code' & s1 & _ & Hs1 & Hv1)|[Hd|Hd]].
  - pose proof (wf_viewer_tracked _ _ (si_wf _ Hs) _ _ _ Hs1 Hv1). congruence.
  - by destruct (ru_dead _ Hd).
  - destruct Hd as (n2 & Hn2 & Hd). rewrite Hn0 in Hn2. simplify_eq.
    assert (Hl : h ∈ dom (conns (relay s))) by (apply elem_of_dom; eauto).
    apply (si_live _ Hs) in Hl as (n3 & Hn3 & Hl). congruence.
Qed.

Lemma ru_offer_sent h n0 v sdp : hosts r' h v → <[c := n']> (nodes s) !! h = Some n0 →
  offer v sdp ∈ sent_msgs n0 → offer_from h sdp ∈ inbox s' v.
Proof.
  intros Hh' Hn0 Hin.
  destruct (hosts_new _ _ _ _ _ (si_wf _ Hs) Hh') as [Hh|(Hcv & _ & Hu)].
  - apply ru_lookup in Hn0 as [[-> ->]|[Hne Hn0]].
    + destruct (Hsent_cases _ Hin) as [Hold|Hev].
      * destruct ru_inbox as (o' & _ & Hi). rewrite Hi. apply elem_of_app. left.
        by apply (si_offer_sent _ Hs c n v sdp).
      * unfold s', r', inbox. cbn [update relay]. rewrite Hev.
        rewrite (dispatch_signal_hosts _ _ _ (offer v sdp) SigOffer sdp (si_wf _ Hs) Hh eq_refl). cbn [outbox].
        rewrite addressed_to_app, addressed_to_cons_eq. set_solver.
    + destruct ru_inbox as (o' & _ & Hi). rewrite Hi. apply elem_of_app. left.
      by apply (si_offer_sent _ Hs h n0 v sdp).
  - exfalso. assert (Hhc : h ≠ c).
    { intros ->. unfold r' in Hh'. destruct Hh' as (code & s0 & Hh & Hs0 & Hv).
      pose proof (wf_viewer_tracked _ _ (dispatch_wf _ c ev (si_wf _ Hs)) _ _ _ Hs0 Hv).
      rewrite <- Hcv in *. congruence. }
    rewrite lookup_insert_ne in Hn0 by done. by apply (ru_no_early_offer h n0 v sdp).
Qed.

(** A relayed ICE candidate comes from a host page that has sent its offer
    before, and the relay has passed that offer on. *)
Lemma ru_ice_order v n0 w : <[c := n']> (nodes s) !! v = Some n0 → page n0 = PViewer w →
  preceded is_ice_from is_offer_from (inbox s' v).
Proof.
  intros Hv Hp. destruct (ru_node _ _ Hv) as (n1 & Hv1 & Hp1 & _). rewrite Hp in Hp1.
  destruct ru_inbox as (o' & Hd & Hi). rewrite Hi.
  apply preceded_app; [by apply (si_ice_order _ Hs v n1 w)|].
  intros h m Hm [p ->]. apply elem_of_addressed_to in Hm. unfold delta_ok in Hd.
  rewrite Forall_forall in Hd. destruct (Hd _ Hm) as [(<- & Hev & Hcp) _].
  destruct (Hmsg _ Hev) as (Hem & _ & _).
  assert (Hhv : hosts (relay s) c v).
  { apply counterparts_to_viewer; [apply (si_wf _ Hs)|done|]. intros code Hcode.
    destruct (si_host_role _ Hs _ _ Hcode) as (n2 & Hn2 & Hk). rewrite Hv1 in Hn2. simplify_eq.
    by rewrite <- Hp1 in Hk. }
  pose proof Hhv as (code & s0 & Hc & _).
  destruct (si_host_role _ Hs _ _ Hc) as (n2 & Hn2 & Hk).
  assert (n2 = n) as -> by congruence.
  destruct (page n) as [hh|ww] eqn:Hpn; [|done].
  pose proof (si_page _ Hs _ _ Hn) as Hok. rewrite Hpn in Hok. destruct Hok as [[_ Hord] _].
  simpl in Hem.
  destruct (preceded_take _ _ _ _ _ _ Hord Hem (ex_intro _ p eq_refl)) as (b & Hb & sdp & ->).
  exists (offer_from c sdp). split; [|by exists sdp].
  apply (si_offer_sent _ Hs c n v sdp); [done|done|]. unfold sent_msgs. by rewrite Hpn.
Qed.

Lemma sys_inv_relay_update : sys_inv s'.
Proof.
  pose proof ru_inbox as (o' & Hd & Hi). split.
  - apply dispatch_wf, (si_wf _ Hs).
  - intros x. unfold s', r'. cbn [update relay nodes]. destruct (decide (x = c)) as [->|Hne].
    + rewrite Hdomc, lookup_insert_eq. naive_solver.
    + rewrite Hdom, lookup_insert_ne by done. apply (si_live _ Hs).
  - intros x n0 Hx. destruct (ru_node _ _ Hx) as (n1 & Hx1 & Hp & _). rewrite Hi, length_app.
    apply ru_lookup in Hx as [[-> ->]|[_ Hx]].
    + rewrite Hpage, Hrecvd. pose proof (si_bounds _ Hs _ _ Hn). lia.
    + pose proof (si_bounds _ Hs _ _ Hx). lia.
  - intros x n0 Hx. destruct (ru_node _ _ Hx) as (n1 & Hx1 & -> & _). by apply (si_page _ Hs x).
  - apply ru_host_role.
  - intros x n0 h v Hx Hp Hoff. destruct (ru_node _ _ Hx) as (n1 & Hx1 & Hp1 & Ht).
    unfold handled. rewrite Ht. rewrite Hp in Hp1. by apply (si_offered _ Hs x n1 h v).
  - apply ru_joined.
  - apply ru_offer_sent.
  - apply ru_ice_order.
  - intros v n0 w Hv Hp Hm. destruct (ru_node _ _ Hv) as (n1 & Hv1 & Hp1 & Ht).
    unfold handled in Hm. rewrite Ht in Hm. rewrite Hp in Hp1. by apply (si_viewer_pc _ Hs v n1 w).
Qed.

(** The host side. *)

Lemma ru_sent_at x (P : list ClientMsg → Prop) :
  (∀ l l', (∀ y, y ∈ l → y ∈ l') → P l → P l') →
  (∃ n0, nodes s !! x = Some n0 ∧ P (sent_msgs n0)) →
  ∃ n0, <[c := n']> (nodes s) !! x = Some n0 ∧ P (sent_msgs n0).
Proof.
  intros Hmono (n0 & Hx & HP). destruct (decide (x = c)) as [->|Hne].
  - rewrite lookup_insert_eq. rewrite Hn in Hx. injection Hx as <-. exists n'.
    split; [done|]. by apply (Hmono (sent_msgs n)).
  - rewrite lookup_insert_ne by done. eauto.
Qed.

Lemma ru_started h code : conns r' !! h = Some (Host code) →
  ∃ n0, <[c := n']> (nodes s) !! h = Some n0 ∧ start_stream ∈ sent_msgs n0.
Proof.
  intros [Hold|[-> Hev]]%host_role_new.
  - apply ru_sent_at; [intros l l' Hl ?; by apply Hl|]. by apply (hs_started _ Hhs h code).
  - exists n'. rewrite lookup_insert_eq. split; [done|]. by apply Hsent_new.
Qed.

Lemma ru_joined_started h n0 v : <[c := n']> (nodes s) !! h = Some n0 →
  viewer_joined v ∈ inbox s' h → start_stream ∈ sent_msgs n0.
Proof.
  intros Hh Hv. destruct ru_inbox as (o' & Hd & Hi). rewrite Hi in Hv.
  assert (Hold : ∃ n1, nodes s !! h = Some n1 ∧ start_stream ∈ sent_msgs n1).
  { apply elem_of_app in Hv as [Hv|Hv].
    - destruct (ru_node _ _ Hh) as (n1 & Hh1 & _). exists n1. split; [done|].
      by apply (hs_joined_started _ Hhs h n1 v).
    - apply elem_of_addressed_to in Hv. unfold delta_ok in Hd. rewrite Forall_forall in Hd.
      destruct (Hd _ Hv) as [(_ & [code' Hev] & _ & (code & s0 & Hhost & _)) _].
      destruct (host_role_new _ _ _ _ _ Hhost) as [Hhold|[_ Hev']]; [|congruence].
      by apply (hs_started _ Hhs h code). }
  destruct (ru_sent_at h (λ l, start_stream ∈ l)) as (n2 & Hh2 & Hst); [naive_solver|done|].
  congruence.
Qed.

Lemma ru_viewer_role v code : conns r' !! v = Some (Viewer code) →
  ∃ n0, <[c := n']> (nodes s) !! v = Some n0 ∧ is_host (page n0) = false.
Proof.
  intros [Hold|[-> [code' Hev]]]%viewer_role_new.
  - eapply update_kind_false; [exact Hn|by rewrite Hpage|]. by apply (hs_viewer_role _ Hhs v code).
  - rewrite lookup_insert_eq. eexists. split; [done|]. rewrite Hpage.
    destruct (Hmsg _ Hev) as (Hm & _ & _). pose proof (si_page _ Hs _ _ Hn) as Hok.
    destruct (page n) as [h|w]; [|done]. destruct Hok as [_ Hok]. simpl in Hm.
    apply list_elem_of_lookup_2 in Hm. rewrite Forall_forall in Hok.
    destruct (Hok _ Hm) as [?|[(? & ? & ?)|(? & ? & ?)]]; discriminate.
Qed.

(** After its disconnect, a connection is in no pair. *)
Lemma ru_gone h v : ev = ev_disconnect → v = c → ¬ hosts r' h v.
Proof.
  intros Hev -> Hhv. pose proof (Hdis Hev) as Hd.
  destruct (hosts_dom _ _ _ (dispatch_wf _ c ev (si_wf _ Hs)) Hhv) as [_ Hc].
  apply Hdomc in Hc. congruence.
Qed.

Lemma ru_pair h v : hosts r' h v → viewer_joined v ∈ inbox s' h ∧ viewer_left v ∉ inbox s' h.
Proof.
  intros Hhv. destruct (hosts_new _ _ _ _ _ (si_wf _ Hs) Hhv) as [Hold|(Hcv & _ & Hu)].
  - destruct (hs_pair _ Hhs h v Hold) as [Hj Hl]. destruct ru_inbox as (o' & Hd & Hi). rewrite Hi.
    split; [set_solver|]. intros [?|Hv]%elem_of_app; [done|].
    apply elem_of_addressed_to in Hv. unfold delta_ok in Hd. rewrite Forall_forall in Hd.
    destruct (Hd _ Hv) as [(Hcv & Hev & _) _]. exact (ru_gone h v Hev (eq_sym Hcv) Hhv).
  - subst v. assert (Hnew : ¬ hosts (relay s) h c).
    { intros (code & s0 & _ & Hs0 & Hv).
      pose proof (wf_viewer_tracked _ _ (si_wf _ Hs) _ _ _ Hs0 Hv). congruence. }
    unfold s', r', inbox. cbn [update relay].
    rewrite (join_notifies _ _ _ _ _ (si_wf _ Hs) Hhv Hnew). split; [set_solver|].
    intros [Hl|Hl]%elem_of_app; [|set_solver].
    by destruct (ru_dead _ (hs_left_dead _ Hhs h c Hl)).
Qed.

Lemma ru_left_dead h v : viewer_left v ∈ inbox s' h → dead s' v.
Proof.
  destruct ru_inbox as (o' & Hd & Hi). rewrite Hi. intros [Hv|Hv]%elem_of_app.
  - by destruct (ru_dead _ (hs_left_dead _ Hhs h v Hv)).
  - apply elem_of_addressed_to in Hv. unfold delta_ok in Hd. rewrite Forall_forall in Hd.
    destruct (Hd _ Hv) as [(-> & Hev & _) _]. exists n'. unfold s'. cbn [update nodes].
    rewrite lookup_insert_eq. split; [done|]. by apply Hdis.
Qed.

Lemma ru_signals h n0 hp : <[c := n']> (nodes s) !! h = Some n0 → page n0 = PHost hp →
  signals_ok (inbox s' h).
Proof.
  intros Hh Hp. destruct (ru_node _ _ Hh) as (n1 & Hh1 & Hp1 & _). rewrite Hp in Hp1.
  destruct ru_inbox as (o' & Hd & Hi). rewrite Hi.
  apply signals_ok_app; [by apply (hs_signals _ Hhs h n1 hp)|].
  intros m v Hm [p Hmv]. apply elem_of_addressed_to in Hm. unfold delta_ok in Hd.
  rewrite Forall_forall in Hd.
  assert (Hcp : c = v ∧ (∃ m', ev = ev_message m') ∧
                counterparts (reg (relay s)) (conns (relay s)) v h = true).
  { destruct Hmv as [->| ->]; destruct (Hd _ Hm) as [(-> & Hev & Hcp) _]; eauto. }
  destruct Hcp as (Hcv & [m' Hev] & Hcp). subst v.
  assert (Hhv : hosts (relay s) h c).
  { apply counterparts_from_viewer; [apply (si_wf _ Hs)|done|]. intros code Hcode.
    destruct (hs_viewer_role _ Hhs _ _ Hcode) as (n2 & Hn2 & Hk). rewrite Hh1 in Hn2.
    injection Hn2 as <-. by rewrite <- Hp1 in Hk. }
  destruct (hs_pair _ Hhs _ _ Hhv) as [Hj Hl]. split; [done|].
  intros [?|Hv]%elem_of_app; [done|]. apply elem_of_addressed_to in Hv.
  destruct (Hd _ Hv) as [(_ & Hev' & _) _]. congruence.
Qed.

Lemma hs_relay_update : hs_inv s'.
Proof.
  split.
  - apply ru_started.
  - apply ru_joined_started.
  - intros h n0 hp Hh Hp. destruct (ru_node _ _ Hh) as (n1 & Hh1 & Hp1 & _).
    rewrite Hp in Hp1. by apply (hs_stream _ Hhs h n1 hp).
  - apply ru_viewer_role.
  - apply ru_pair.
  - apply ru_left_dead.
  - apply ru_signals.
  - intros h n0 hp v Hh Hp Hj Hl. destruct (ru_node _ _ Hh) as (n1 & Hh1 & Hp1 & Ht).
    unfold handled in Hj, Hl. rewrite Ht in Hj, Hl. rewrite Hp in Hp1.
    by apply (hs_pcs _ Hhs h n1 hp v).
  - unfold s'. cbn [update thrown]. rewrite app_nil_r. apply (hs_clean _ Hhs).
Qed.

(** A relayed signal is the message the sender has just transmitted. *)
Lemma ru_authentic : authentic s'.
Proof.
  intros x k h p Hin. destruct ru_inbox as (o' & Hd & Hi). rewrite Hi in Hin.
  apply elem_of_app in Hin as [Hin|Hin].
  - destruct (Hau x k h p Hin) as (n0 & Hh & Hm).
    apply (ru_sent_at h (λ l, signal_msg k x p ∈ l)); [naive_solver|eauto].
  - apply elem_of_addressed_to in Hin. unfold delta_ok in Hd. rewrite Forall_forall in Hd.
    destruct (Hd _ Hin) as [Hnew _].
    assert (Hc : c = h ∧ ev = ev_message (signal_msg k x p)) by (destruct k; naive_solver).
    destruct Hc as [Hch Hev]. subst h. exists n'. unfold s'. cbn [update nodes].
    rewrite lookup_insert_eq. split; [done|]. by apply Hsent_new.
Qed.

(** A signal between the two ends of a session reaches its target: a new
    one is relayed at once, and a pair that forms now has exchanged no
    signal before. *)
Lemma ru_sig_inv : sig_inv s'.
Proof.
  split.
  - intros v n0 w Hv Hp. destruct (ru_node _ _ Hv) as (n1 & Hv1 & Hp1 & _).
    rewrite Hp in Hp1. symmetry in Hp1. exact (sg_vinv _ Hsg v n1 w Hv1 Hp1).
  - intros v n0 w h p Hv Hp Hans. destruct (ru_node _ _ Hv) as (n1 & Hv1 & Hp1 & Ht).
    unfold handled. rewrite Ht. rewrite Hp in Hp1. symmetry in Hp1.
    exact (sg_prov _ Hsg v n1 w h p Hv1 Hp1 Hans).
  - intros v n0 w k h Hv Hp Hk. destruct (ru_node _ _ Hv) as (n1 & Hv1 & Hp1 & Ht).
    unfold handled. rewrite Ht. rewrite Hp in Hp1. symmetry in Hp1.
    exact (sg_pend _ Hsg v n1 w k h Hv1 Hp1 Hk).
  - intros h v x y n0 k p Hhv' Hxy Hx Hin.
    destruct (hosts_new _ _ _ _ _ (si_wf _ Hs) Hhv') as [Hhv|(Hcv & [code Hev] & Hu)].
    + assert (Hold : ∀ nx, nodes s !! x = Some nx → signal_msg k y p ∈ sent_msgs nx →
                relayed k x p ∈ inbox s' y).
      { intros nx Hnx Hinx. destruct ru_inbox as (o' & _ & Hi). rewrite Hi. apply elem_of_app.
        left. exact (sg_delivered _ Hsg h v x y nx k p Hhv Hxy Hnx Hinx). }
      apply ru_lookup in Hx as [[-> ->]|[Hne Hx]]; [|by apply (Hold n0)].
      destruct (Hsent_cases _ Hin) as [Hin'|Hev]; [by apply (Hold n)|].
      unfold s', r', inbox. cbn [update relay]. rewrite Hev.
      rewrite (dispatch_signal_pair _ h v c y _ k p (si_wf _ Hs) Hhv Hxy) by (by destruct k).
      cbn [outbox]. rewrite addressed_to_app, addressed_to_cons_eq. set_solver.
    + exfalso. subst v.
      assert (Hsent0 : ∃ nx, nodes s !! x = Some nx ∧ signal_msg k y p ∈ page_emitted (page nx)).
      { apply ru_lookup in Hx as [[-> ->]|[_ Hx]].
        - exists n. split; [done|]. destruct (Hsent_cases _ Hin) as [Hin'|Hev'].
          + by apply subseteq_take in Hin'.
          + rewrite Hev in Hev'. destruct k; discriminate.
        - exists n0. split; [done|]. by apply subseteq_take in Hin. }
      destruct Hsent0 as (nx & Hnx & Hem).
      assert (Hwf' : relay_wf r') by apply dispatch_wf, (si_wf _ Hs).
      assert (Hhc : h ≠ c) by (eapply hosts_distinct; [exact Hwf'|exact Hhv']).
      assert (Hlive : ∀ z, z = h ∨ z = c → ¬ dead s z).
      { intros z Hz (nz & Hnz & Hdz).
        assert (Hz' : z ∈ dom (conns (relay s))).
        { destruct Hz as [->| ->]; [|apply elem_of_dom; by eexists].
          apply Hdom; [done|]. by destruct (hosts_dom _ _ _ Hwf' Hhv'). }
        apply (si_live _ Hs) in Hz' as (nz' & Hnz' & Hl). congruence. }
      destruct (unassigned_unpaired _ c h (si_wf _ Hs) Hu) as [Hn1 Hn2].
      destruct (unassigned_unpaired _ c c (si_wf _ Hs) Hu) as [Hn3 _].
      destruct (signalled_paired s x y nx k p Hs Hau Hsg Hnx Hem) as [Hp|[Hp|[Hd|Hd]]];
        destruct Hxy as [[-> ->]|[-> ->]]; try done; by apply (Hlive _ (or_introl eq_refl) Hd)
        || by apply (Hlive _ (or_intror eq_refl) Hd).
Qed.

(** The relay's events change no host page and nothing it has handled. *)
Lemma ru_offer_inv : offer_inv s'.
Proof.
  split.
  - intros h n0 hp Hh Hp. destruct (ru_node _ _ Hh) as (n1 & Hh1 & Hp1 & _).
    rewrite Hp in Hp1. by apply (oi_open _ Hoi h n1).
  - intros h n0 hp v Hh Hp Hj Hl. destruct (ru_node _ _ Hh) as (n1 & Hh1 & Hp1 & Ht).
    unfold handled in Hj, Hl. rewrite Ht in Hj, Hl. rewrite Hp in Hp1.
    by apply (oi_offered _ Hoi h n1).
Qed.

End relay_update.

(** Both invariants together: the relay's tables, the pages and the
    channels agree, and no page has thrown. *)
Definition inv (s : Sys) : Prop := sys_inv s ∧ hs_inv s ∧ authentic s ∧ offer_inv s ∧ sig_inv s.

Lemma inv_sys s : inv s → sys_inv s.
Proof. by intros []. Qed.
Lemma inv_hs s : inv s → hs_inv s.
Proof. by intros (_ & ? & _). Qed.
Lemma inv_offer s : inv s → offer_inv s.
Proof. by intros (_ & _ & _ & ? & _). Qed.
Lemma inv_sig s : inv s → sig_inv s.
Proof. by intros (_ & _ & _ & _ & ?). Qed.

Lemma inv_connect s c : inv s → inv (sys_step s (SConnect c)).
Proof.
  intros (Hs & Hh & Ha & Ho & Hg). cbn [sys_step]. destruct (nodes s !! c) as [n|] eqn:Hn; [|done].
  destruct (status n) eqn:Hst; try done.
  set (n' := mkNode (page n) Live (sent n) (recvd n)).
  assert (status n ≠ Dead) by (by rewrite Hst).
  assert (ev_connect = ev_disconnect → status n' = Dead) by discriminate.
  assert (∀ m, ev_connect = ev_message m →
    page_emitted (page n) !! sent n = Some m ∧ status n = Live ∧ status n' = Live) by discriminate.
  assert (sent n' ≤ length (page_emitted (page n))) by apply (si_bounds _ Hs _ _ Hn).
  assert (∀ m, m ∈ sent_msgs n' → m ∈ sent_msgs n ∨ ev_connect = ev_message m) by (intros; by left).
  assert (∀ x, x ≠ c → x ∈ dom (conns (dispatch (relay s) c ev_connect)) ↔ x ∈ dom (conns (relay s)))
    by (intros x Hx; rewrite dispatch_dom_connect; set_solver).
  assert (c ∈ dom (conns (dispatch (relay s) c ev_connect)) ↔ status n' = Live)
    by (rewrite dispatch_dom_connect; set_solver).
  assert (∀ x, x ∈ sent_msgs n → x ∈ sent_msgs n') by done.
  assert (∀ m, ev_connect = ev_message m → m ∈ sent_msgs n') by discriminate.
  split_and!; [eapply (sys_inv_relay_update s c n)|eapply (hs_relay_update s c n)|
    eapply (ru_authentic s c n)|eapply (ru_offer_inv s c n)|eapply (ru_sig_inv s c n)]; eauto.
Qed.

Lemma inv_disconnect s c : inv s → inv (sys_step s (SDisconnect c)).
Proof.
  intros (Hs & Hh & Ha & Ho & Hg). cbn [sys_step]. destruct (nodes s !! c) as [n|] eqn:Hn; [|done].
  destruct (status n) eqn:Hst; try done.
  set (n' := mkNode (page n) Dead (sent n) (recvd n)).
  assert (status n ≠ Dead) by (by rewrite Hst).
  assert (ev_disconnect = ev_disconnect → status n' = Dead) by done.
  assert (∀ m, ev_disconnect = ev_message m →
    page_emitted (page n) !! sent n = Some m ∧ status n = Live ∧ status n' = Live) by discriminate.
  assert (sent n' ≤ length (page_emitted (page n))) by apply (si_bounds _ Hs _ _ Hn).
  assert (∀ m, m ∈ sent_msgs n' → m ∈ sent_msgs n ∨ ev_disconnect = ev_message m) by (intros; by left).
  assert (∀ x, x ≠ c →
    x ∈ dom (conns (dispatch (relay s) c ev_disconnect)) ↔ x ∈ dom (conns (relay s)))
    by (intros x Hx; rewrite dispatch_dom_disconnect; set_solver).
  assert (c ∈ dom (conns (dispatch (relay s) c ev_disconnect)) ↔ status n' = Live)
    by (rewrite dispatch_dom_disconnect; split; [set_solver|discriminate]).
  assert (∀ x, x ∈ sent_msgs n → x ∈ sent_msgs n') by done.
  assert (∀ m, ev_disconnect = ev_message m → m ∈ sent_msgs n') by discriminate.
  split_and!; [eapply (sys_inv_relay_update s c n)|eapply (hs_relay_update s c n)|
    eapply (ru_authentic s c n)|eapply (ru_offer_inv s c n)|eapply (ru_sig_inv s c n)]; eauto.
Qed.

Lemma inv_transmit s c : inv s → inv (sys_step s (STransmit c)).
Proof.
  intros (Hs & Hh & Ha & Ho & Hg). cbn [sys_step]. destruct (nodes s !! c) as [n|] eqn:Hn; [|done].
  destruct (status n) eqn:Hst; try done.
  destruct (page_emitted (page n) !! sent n) as [m|] eqn:Hm; [|done].
  assert (Hc : c ∈ dom (conns (relay s))) by (apply (si_live _ Hs); eauto).
  set (n' := mkNode (page n) Live (S (sent n)) (recvd n)).
  assert (Hsm : sent_msgs n' = sent_msgs n ++ [m]) by (apply take_S_r, Hm).
  assert (status n ≠ Dead) by (by rewrite Hst).
  assert (ev_message m = ev_disconnect → status n' = Dead) by discriminate.
  assert (∀ m', ev_message m = ev_message m' →
    page_emitted (page n) !! sent n = Some m' ∧ status n = Live ∧ status n' = Live)
    by (intros m' [= <-]; done).
  assert (sent n' ≤ length (page_emitted (page n))) by (apply lookup_lt_Some in Hm; simpl; lia).
  assert (∀ m', m' ∈ sent_msgs n' → m' ∈ sent_msgs n ∨ ev_message m = ev_message m').
  { intros m'. rewrite Hsm. intros [?|?%list_elem_of_singleton]%elem_of_app; [by left|right; by subst]. }
  assert (∀ x, x ≠ c →
    x ∈ dom (conns (dispatch (relay s) c (ev_message m))) ↔ x ∈ dom (conns (relay s)))
    by (intros x Hx; by rewrite dispatch_dom_message).
  assert (c ∈ dom (conns (dispatch (relay s) c (ev_message m))) ↔ status n' = Live)
    by (rewrite dispatch_dom_message by done; done).
  assert (∀ x, x ∈ sent_msgs n → x ∈ sent_msgs n') by (rewrite Hsm; set_solver).
  assert (∀ m', ev_message m = ev_message m' → m' ∈ sent_msgs n')
    by (intros m' [= <-]; rewrite Hsm; set_solver).
  split_and!; [eapply (sys_inv_relay_update s c n)|eapply (hs_relay_update s c n)|
    eapply (ru_authentic s c n)|eapply (ru_offer_inv s c n)|eapply (ru_sig_inv s c n)]; eauto.
Qed.

Lemma inv_step s ev : inv s → inv (sys_step s ev).
Proof.
  intros (Hs & Hh & Ha & Ho & Hg). destruct ev.
  - by apply inv_connect.
  - by apply inv_disconnect.
  - split_and!; [by apply sys_inv_local|by apply hs_local|by apply authentic_local|
      by apply offer_inv_local|by apply sig_inv_local].
  - by apply inv_transmit.
  - split_and!; [by apply sys_inv_deliver|by apply hs_deliver|by apply authentic_deliver|
      by apply offer_inv_deliver|by apply sig_inv_deliver].
Qed.

Lemma inv_run s evs : inv s → inv (sys_run s evs).
Proof.
  unfold sys_run. revert s. induction evs as [|ev evs IH]; intros s Hs; [done|].
  cbn [foldl]. by apply IH, inv_step.
Qed.

Lemma page_ok_init k : page_ok (init_page k).
Proof. destruct k; simpl; [split; [apply HostClient.host_inv_init|]|]; constructor. Qed.

Lemma sys_inv_init g kinds : sys_inv (sys_init g kinds).
Proof.
  split; unfold handled; rewrite ?inbox_init; cbn [relay nodes thrown sys_init];
    unfold hosts, dead; cbn [conns reg outbox init];
    try (intros *; rewrite ?lookup_fmap, ?lookup_empty, ?take_nil).
  - apply init_wf.
  - rewrite dom_empty. split; [set_solver|]. intros (n & Hn & Hl).
    destruct (kinds !! c); simplify_eq/=.
  - intros Hn. destruct (kinds !! c); simplify_eq/=. lia.
  - intros Hn. destruct (kinds !! c); simplify_eq/=. apply page_ok_init.
  - done.
  - intros Hn Hp Hoff. destruct (kinds !! c) as [k|]; simplify_eq/=.
    destruct k; simplify_eq/=. destruct Hoff as [?|[? ?]]; set_solver.
  - rewrite inbox_init. set_solver.
  - naive_solver.
  - intros. rewrite inbox_init. apply preceded_nil.
  - intros Hn Hp (m & Hin & _). rewrite inbox_init, take_nil in Hin. set_solver.
Qed.

Lemma inv_init g kinds : inv (sys_init g kinds).
Proof.
  split_and!; [apply sys_inv_init|apply hs_inv_init|apply authentic_init|apply offer_inv_init|
    apply sig_inv_init].
Qed.

(** ** Theorems *)

(** C5: in the application as a whole (any number of host and viewer
    pages and a relay that follows the specification), whatever the
    interleaving of clicks, promise resolutions, candidate gathering,
    transmissions, deliveries, connects and disconnects, no page ever
    throws.  The errors each page can throw on its own cannot happen here:
    - an ICE candidate before any offer (see [ViewerClient.ice_before_offer]),
      because the host page sends a viewer ICE candidates only after its
      offer and the relay passes both on in order;
    - a [viewer_joined] before a capture, because the relay sends it only to
      a connection that has started a stream, which the host page does
      only after its capture succeeded;
    - an answer or ICE candidate from an unknown viewer (see
      [HostClient.late_signal_after_viewer_left]), because the relay
      passes on a viewer's signals only between that viewer's
      [viewer_joined] and its [viewer_left]. *)
Theorem no_page_throws g kinds evs : thrown (sys_run (sys_init g kinds) evs) = [].
Proof. destruct (inv_run _ evs (inv_init g kinds)) as (_ & Hh & _). apply (hs_clean _ Hh). Qed.

(** C6: Every signal a page receives in the composed system was sent by the
    page it names as sender, addressed to the receiving page, with the same
    payload: the relay neither forges, redirects nor alters signals. *)
Theorem signals_authentic g kinds evs x k h p :
  relayed k h p ∈ inbox (sys_run (sys_init g kinds) evs) x →
  ∃ n, nodes (sys_run (sys_init g kinds) evs) !! h = Some n ∧ signal_msg k x p ∈ sent_msgs n.
Proof. destruct (inv_run _ evs (inv_init g kinds)) as (_ & _ & Ha & _). apply Ha. Qed.

End System.

(** A run of the whole application: host page 1 starts a stream, viewer
    page 2 joins it, the host's offer and one ICE candidate reach the
    viewer in that order, and nobody throws. *)
Definition demo_events : list SysEvent :=
  [SConnect 1; SConnect 2;
   SLocal 1 (LHost (HostClient.HClickStart (Some [7])));
   STransmit 1; SDeliver 1;
   SLocal 2 (LViewer (ViewerClient.VType "AB12CD"));
   SLocal 2 (LViewer ViewerClient.VClickJoin);
   STransmit 2; SDeliver 1;
   SLocal 1 (LHost (HostClient.HOfferReady 2 "o"));
   SLocal 1 (LHost (HostClient.HIceGathered 2 (Some "c1")));
   STransmit 1; STransmit 1; SDeliver 2; SDeliver 2].

Definition demo : Sys (G := list Code) :=
  sys_run (sys_init ["AB12CD"] (<[1 := HostPage]> (<[2 := ViewerPage]> ∅))) demo_events.

Example demo_run :
  inbox demo 1 = [stream_started "AB12CD"; viewer_joined 2] ∧
  inbox demo 2 = [offer_from 1 "o"; ice_candidate_from 1 "c1"] ∧
  thrown demo = [].
Proof. vm_compute. repeat split. Qed.

Lemma signals_authentic_witness :
  ∃ n, nodes demo !! 1 = Some n ∧ signal_msg SigOffer 2 "o" ∈ sent_msgs n.
Proof.
  apply (signals_authentic ["AB12CD"] (<[1 := HostPage]> (<[2 := ViewerPage]> ∅)) demo_events).
  apply list_elem_of_In. vm_compute. left. reflexivity.
Defined.

End System.
