(* ===== verification/Delivery.v ===== *)
(** * Delivery: what the ordered channels eventually carry

    [System] shows what can never happen (no page throws, no forged
    signal).  This file shows what does happen when the transport does its
    work.  Socket.IO delivers every message a live connection has emitted,
    in order, and delivers to a live page everything addressed to it.
    The schedules [flush_out] and [flush_in] are that work, written out as
    event lists: as many transmissions as the page has unsent messages,
    and as many deliveries as the relay has unhandled messages for it.

    The results:
    - [signal_reaches_peer]: in every reachable state, an offer, answer
      or ICE candidate that one end of a session has emitted for the other
      is handled by the other end's listener once the sender's outgoing
      channel and then the receiver's incoming channel have been flushed;
    - [joined_viewer_gets_offer]: a viewer the relay has paired with a
      live host gets an offer from it, once the host page has handled its
      messages, the browser has resolved the offer the page started, and
      both channels have been flushed.
    The schedules are finite by construction (their length is the
    backlog), and [flush_out_spec] and [flush_in_spec] show that they
    empty the backlog: this is the termination argument.  The results
    rest on [System.sig_inv] (a signal between the ends of a session has
    reached its target) and [System.offer_inv] (a host page has an offer
    under way or sent for every viewer it has seen join and not leave). *)

From S2P Require Import Prelude Protocol CodeGenerator SessionRegistry ConnectionTracker SignalingRouter Lifecycle RelayFacts HostClient ViewerClient System.

Module Delivery.
Import SessionRegistry Lifecycle RelayFacts System.

Section Delivery.
Context `{CodeSource G}.
Local Abbreviation State := (Sys (G := G)).
Implicit Types s : State.

(** How many messages a page has emitted that the relay has not yet
    processed, and how many messages of the relay the page has not yet
    handled. *)
Definition backlog_out s (c : ConnId) : nat :=
  match nodes s !! c with Some n => length (page_emitted (page n)) - sent n | None => 0 end.

Definition backlog_in s (c : ConnId) : nat :=
  match nodes s !! c with Some n => length (inbox s c) - recvd n | None => 0 end.

(** The transport's work on one channel. *)
Definition flush_out s (c : ConnId) : list SysEvent := replicate (backlog_out s c) (STransmit c).
Definition flush_in s (c : ConnId) : list SysEvent := replicate (backlog_in s c) (SDeliver c).

(** Flush the host's outgoing channel, then the viewer's incoming one. *)
Definition drain s (h v : ConnId) : list SysEvent :=
  flush_out s h ++ flush_in (sys_run s (flush_out s h)) v.

Definition live s (c : ConnId) : Prop := ∃ n, nodes s !! c = Some n ∧ status n = Live.

(** ** Lemmas *)

Lemma sys_run_cons s e l : sys_run s (e :: l) = sys_run (sys_step s e) l.
Proof. done. Qed.

Lemma sys_run_app s l l' : sys_run s (l ++ l') = sys_run (sys_run s l) l'.
Proof. apply foldl_app. Qed.

(** One transmission by a live page with an unsent message. *)
Lemma transmit_step s c n m :
  nodes s !! c = Some n → status n = Live → page_emitted (page n) !! sent n = Some m →
  sys_step s (STransmit c) =
    update s c (mkNode (page n) Live (S (sent n)) (recvd n)) (dispatch (relay s) c (ev_message m)) None.
Proof. intros Hn Hst Hm. cbn [sys_step]. by rewrite Hn, Hst, Hm. Qed.

(** One delivery to a live page with an unhandled message. *)
Lemma deliver_step s c n m :
  nodes s !! c = Some n → status n = Live → inbox s c !! recvd n = Some m →
  sys_step s (SDeliver c) =
    update s c (mkNode (page_receive (page n) m).1 Live (sent n) (S (recvd n)))
      (relay s) (page_receive (page n) m).2.
Proof. intros Hn Hst Hm. cbn [sys_step]. by rewrite Hn, Hst, Hm. Qed.

(** A page event of a live page. *)
Lemma local_step s c n l :
  nodes s !! c = Some n → status n = Live →
  sys_step s (SLocal c l) =
    update s c (mkNode (page_local (page n) l).1 Live (sent n) (recvd n)) (relay s)
      (page_local (page n) l).2.
Proof. intros Hn Hst. cbn [sys_step]. by rewrite Hn, Hst. Qed.

(** The connection an event belongs to. *)
Definition ev_conn (ev : SysEvent) : ConnId :=
  match ev with
  | SConnect c | SDisconnect c | SLocal c _ | STransmit c | SDeliver c => c
  end.

(** An event of one connection changes no other page. *)
Lemma sys_step_other s ev x : ev_conn ev ≠ x → nodes (sys_step s ev) !! x = nodes s !! x.
Proof.
  intros Hne. destruct ev as [c|c|c l|c|c]; cbn [ev_conn] in Hne; cbn [sys_step];
    repeat case_match; try done; cbn [update nodes]; by rewrite lookup_insert_ne.
Qed.

Lemma sys_run_other s evs x :
  Forall (λ ev, ev_conn ev ≠ x) evs → nodes (sys_run s evs) !! x = nodes s !! x.
Proof.
  intros Hevs. revert s. induction Hevs as [|ev evs Hev _ IH]; intros s; [done|].
  by rewrite sys_run_cons, IH, sys_step_other.
Qed.

(** A page keeps its kind: no event turns a host page into a viewer page
    or back, and no event removes a page. *)
Lemma sys_step_kind s ev c n :
  nodes s !! c = Some n →
  ∃ n', nodes (sys_step s ev) !! c = Some n' ∧ is_host (page n') = is_host (page n).
Proof.
  intros Hn. destruct ev as [c'|c'|c' l|c'|c']; cbn [sys_step];
    repeat case_match; try (by eauto); cbn [update nodes];
    (destruct (decide (c' = c)) as [->|Hne];
     [rewrite lookup_insert_eq; eexists; split; [done|]; simplify_eq;
      cbn [page]; by rewrite ?page_local_kind, ?page_receive_kind
     |rewrite lookup_insert_ne by done; eauto]).
Qed.

Lemma sys_run_kind s evs c n :
  nodes s !! c = Some n →
  ∃ n', nodes (sys_run s evs) !! c = Some n' ∧ is_host (page n') = is_host (page n).
Proof.
  revert s n. induction evs as [|ev evs IH]; intros s n Hn; [eauto|].
  rewrite sys_run_cons. destruct (sys_step_kind s ev c n Hn) as (n1 & Hn1 & Hk1).
  destruct (IH _ _ Hn1) as (n2 & Hn2 & Hk2). exists n2. split; [done|congruence].
Qed.

(** [k] transmissions by a live page with at least [k] unsent messages
    advance its counter by [k], touch no other page, and keep every
    host-viewer pair of the relay. *)
Lemma flush_out_spec k s c n :
  inv s → nodes s !! c = Some n → status n = Live →
  k ≤ length (page_emitted (page n)) - sent n →
  let s' := sys_run s (replicate k (STransmit c)) in
  nodes s' !! c = Some (mkNode (page n) Live (sent n + k) (recvd n)) ∧
  (∀ x, x ≠ c → nodes s' !! x = nodes s !! x) ∧
  (∀ h v, hosts (relay s) h v → hosts (relay s') h v).
Proof.
  revert s n. induction k as [|k IH]; intros s n Hs Hn Hst Hk; cbn [replicate].
  - rewrite Nat.add_0_r. destruct n. simpl in *. subst. done.
  - rewrite sys_run_cons. destruct (lookup_lt_is_Some_2 (page_emitted (page n)) (sent n)) as [m Hm]; [lia|].
    rewrite (transmit_step s c n m Hn Hst Hm).
    set (s1 := update s c _ _ None).
    assert (Hs1 : inv s1).
    { unfold s1. rewrite <- (transmit_step s c n m Hn Hst Hm). by apply inv_step. }
    destruct (IH s1 (mkNode (page n) Live (S (sent n)) (recvd n))) as (Hc & Hx & Hh);
      [done|unfold s1; cbn [update nodes]; by rewrite lookup_insert_eq|done|simpl; lia|].
    split_and!.
    + rewrite Hc. cbn [sent]. do 2 f_equal. lia.
    + intros x Hxc. rewrite Hx by done. unfold s1. cbn [update nodes]. by rewrite lookup_insert_ne.
    + intros h v Hhv. apply Hh. unfold s1. cbn [update relay]. apply hosts_message; [apply Hs|done].
Qed.

(** A page handling a sequence of the relay's messages, in order. *)
Definition receive_all (p : Page) (ms : list ServerMsg) : Page :=
  foldl (λ p m, fst (page_receive p m)) p ms.

(** [k] deliveries to a live page with at least [k] unhandled messages:
    the page handles the next [k] messages of its inbox in order, its
    counter advances by [k], and the relay and the other pages are left
    as they are. *)
Lemma flush_in_run k s c n :
  nodes s !! c = Some n → status n = Live → k ≤ length (inbox s c) - recvd n →
  let s' := sys_run s (replicate k (SDeliver c)) in
  relay s' = relay s ∧
  nodes s' !! c = Some (mkNode (receive_all (page n) (take k (drop (recvd n) (inbox s c))))
                         Live (sent n) (recvd n + k)) ∧
  (∀ x, x ≠ c → nodes s' !! x = nodes s !! x).
Proof.
  revert s n. induction k as [|k IH]; intros s n Hn Hst Hk; cbn [replicate].
  - rewrite Nat.add_0_r. split_and!; [done| |done]. destruct n. simpl in *. by subst.
  - rewrite sys_run_cons.
    destruct (lookup_lt_is_Some_2 (inbox s c) (recvd n)) as [m Hm]; [lia|].
    rewrite (deliver_step s c n m Hn Hst Hm).
    set (s1 := update s c _ _ _).
    assert (Hi : inbox s1 c = inbox s c) by done.
    destruct (IH s1 (mkNode (page_receive (page n) m).1 Live (sent n) (S (recvd n))))
      as (Hr & Hc & Hx);
      [unfold s1; cbn [update nodes]; by rewrite lookup_insert_eq|done|rewrite Hi; cbn [recvd]; lia|].
    split_and!; [done| |].
    + rewrite Hc, Hi. cbn [sent recvd page]. rewrite (drop_S _ _ _ Hm). cbn [take receive_all foldl].
      do 2 f_equal. lia.
    + intros x Hxc. rewrite Hx by done. unfold s1. cbn [update nodes]. by rewrite lookup_insert_ne.
Qed.

Lemma flush_in_spec k s c n :
  nodes s !! c = Some n → status n = Live → k ≤ length (inbox s c) - recvd n →
  let s' := sys_run s (replicate k (SDeliver c)) in
  relay s' = relay s ∧ (∃ p, nodes s' !! c = Some (mkNode p Live (sent n) (recvd n + k))) ∧
  (∀ x, x ≠ c → nodes s' !! x = nodes s !! x).
Proof. intros Hn Hst Hk. destruct (flush_in_run k s c n Hn Hst Hk) as (? & ? & ?). eauto. Qed.

(** Flushing a page's incoming channel: the page handles every message
    it had not handled, in order. *)
Lemma flush_in_page s c n :
  inv s → nodes s !! c = Some n → status n = Live →
  let s' := sys_run s (flush_in s c) in
  relay s' = relay s ∧
  nodes s' !! c = Some (mkNode (receive_all (page n) (drop (recvd n) (inbox s c)))
                         Live (sent n) (length (inbox s c))) ∧
  (∀ x, x ≠ c → nodes s' !! x = nodes s !! x).
Proof.
  intros Hinv Hn Hst. pose proof (si_bounds _ (inv_sys _ Hinv) c n Hn) as [_ Hb].
  unfold flush_in, backlog_in. rewrite Hn.
  destruct (flush_in_run (length (inbox s c) - recvd n) s c n Hn Hst) as (Hr & Hc & Hx); [lia|].
  split_and!; [done| |done]. rewrite Hc, take_ge by (rewrite length_drop; lia). do 2 f_equal. lia.
Qed.

(** [k] transmissions by a live page: the relay processes the page's
    next [k] unsent messages, in order. *)
Lemma flush_out_run k s c n :
  nodes s !! c = Some n → status n = Live → k ≤ length (page_emitted (page n)) - sent n →
  let s' := sys_run s (replicate k (STransmit c)) in
  relay s' = run (relay s) ((λ m, (c, ev_message m)) <$> take k (drop (sent n) (page_emitted (page n)))) ∧
  nodes s' !! c = Some (mkNode (page n) Live (sent n + k) (recvd n)) ∧
  (∀ x, x ≠ c → nodes s' !! x = nodes s !! x).
Proof.
  revert s n. induction k as [|k IH]; intros s n Hn Hst Hk; cbn [replicate].
  - rewrite Nat.add_0_r. split_and!; [done| |done]. destruct n. simpl in *. by subst.
  - rewrite sys_run_cons. destruct (lookup_lt_is_Some_2 (page_emitted (page n)) (sent n)) as [m Hm]; [lia|].
    rewrite (transmit_step s c n m Hn Hst Hm).
    set (s1 := update s c _ _ None).
    destruct (IH s1 (mkNode (page n) Live (S (sent n)) (recvd n))) as (Hr & Hc & Hx);
      [unfold s1; cbn [update nodes]; by rewrite lookup_insert_eq|done|simpl; lia|].
    split_and!.
    + rewrite Hr. unfold s1. cbn [update relay page sent]. rewrite (drop_S _ _ _ Hm). done.
    + rewrite Hc. cbn [sent]. do 2 f_equal. lia.
    + intros x Hxc. rewrite Hx by done. unfold s1. cbn [update nodes]. by rewrite lookup_insert_ne.
Qed.

(** Flushing a page's outgoing channel: the relay processes every message
    the page had not sent, in order. *)
Lemma flush_out_page s c n :
  inv s → nodes s !! c = Some n → status n = Live →
  let s' := sys_run s (flush_out s c) in
  relay s' = run (relay s) ((λ m, (c, ev_message m)) <$> drop (sent n) (page_emitted (page n))) ∧
  nodes s' !! c = Some (mkNode (page n) Live (length (page_emitted (page n))) (recvd n)) ∧
  (∀ x, x ≠ c → nodes s' !! x = nodes s !! x).
Proof.
  intros Hinv Hn Hst. pose proof (si_bounds _ (inv_sys _ Hinv) c n Hn) as [Hb _].
  unfold flush_out, backlog_out. rewrite Hn.
  destruct (flush_out_run (length (page_emitted (page n)) - sent n) s c n Hn Hst) as (Hr & Hc & Hx); [lia|].
  split_and!; [|rewrite Hc; do 2 f_equal; lia|done].
  rewrite Hr, take_ge by (rewrite length_drop; lia). done.
Qed.

(** Page events of a live page change only that page. *)
Lemma locals_run s c n ls :
  nodes s !! c = Some n → status n = Live →
  let s' := sys_run s (SLocal c <$> ls) in
  relay s' = relay s ∧
  nodes s' !! c = Some (mkNode (foldl (λ p l, fst (page_local p l)) (page n) ls) Live (sent n) (recvd n)) ∧
  (∀ x, x ≠ c → nodes s' !! x = nodes s !! x).
Proof.
  revert s n. induction ls as [|l ls IH]; intros s n Hn Hst.
  - split_and!; [done| |done]. destruct n. simpl in *. by subst.
  - cbn [fmap list_fmap]. rewrite sys_run_cons, (local_step s c n l Hn Hst).
    set (s1 := update s c _ _ _).
    destruct (IH s1 (mkNode (fst (page_local (page n) l)) Live (sent n) (recvd n))) as (Hr & Hc & Hx);
      [unfold s1; cbn [update nodes]; by rewrite lookup_insert_eq|done|].
    split_and!; [done|done|].
    intros x Hxc. rewrite Hx by done. unfold s1. cbn [update nodes]. by rewrite lookup_insert_ne.
Qed.

(** Flushing a page's incoming channel whose last message is [m], when
    the page has not handled it yet, ends with [m] handled last: the
    page's state is what its listener for [m] made of it. *)
Lemma flush_in_last s c n m :
  inv s → nodes s !! c = Some n → status n = Live → last (inbox s c) = Some m →
  recvd n < length (inbox s c) →
  ∃ p, relay (sys_run s (flush_in s c)) = relay s ∧ is_host p = is_host (page n) ∧
    nodes (sys_run s (flush_in s c)) !! c =
      Some (mkNode (fst (page_receive p m)) Live (sent n) (length (inbox s c))).
Proof.
  intros Hinv Hn Hst [l Hl]%last_Some Hlt.
  set (k := length l - recvd n).
  rewrite Hl, length_app in Hlt. cbn [length] in Hlt.
  assert (Hflush : flush_in s c = replicate k (SDeliver c) ++ [SDeliver c]).
  { unfold flush_in, backlog_in. rewrite Hn, Hl, length_app, <- replicate_S_end.
    f_equal. cbn [length]. lia. }
  destruct (flush_in_spec k s c n Hn Hst) as (Hrel & (p & Hc) & _);
    [rewrite Hl, length_app; cbn [length]; lia|].
  set (s2 := sys_run s (replicate k (SDeliver c))) in *.
  assert (Hm : inbox s2 c !! (recvd n + k) = Some m).
  { unfold inbox. rewrite Hrel. fold (inbox s c). rewrite Hl. apply list_lookup_middle. lia. }
  destruct (sys_run_kind s (replicate k (SDeliver c)) c n Hn) as (n2 & Hn2 & Hk2).
  fold s2 in Hn2. rewrite Hc in Hn2. injection Hn2 as <-.
  rewrite Hflush, sys_run_app. fold s2. rewrite sys_run_cons.
  rewrite (deliver_step s2 c _ _ Hc eq_refl Hm). exists p. cbn [sys_run foldl update relay nodes page] in *.
  split_and!; [done|done|]. rewrite lookup_insert_eq. do 3 f_equal.
  rewrite Hl, length_app. cbn [length recvd]. lia.
Qed.

(** The host of a session is a host page. *)
Lemma hosts_host_page s h v n :
  inv s → hosts (relay s) h v → nodes s !! h = Some n → ∃ hp, page n = PHost hp.
Proof.
  intros Hinv (code & ss & Hh & _) Hn.
  destruct (si_host_role _ (inv_sys _ Hinv) h code Hh) as (n' & Hn' & Hk).
  rewrite Hn in Hn'. injection Hn' as <-. destruct (page n) as [hp|]; [by exists hp|done].
Qed.

(** Once the host page has handled everything the relay sent it, an offer
    for each viewer it hosts is under way or sent, on an open connection:
    the browser resolving it leaves the page with an offer sent to the
    viewer. *)
Lemma offer_sent_after_flush s h v sdp :
  inv s → live s h → hosts (relay s) h v →
  let s1 := sys_run s (flush_in s h ++ [SLocal h (LHost (HostClient.HOfferReady v sdp))]) in
  inv s1 ∧ relay s1 = relay s ∧ (∀ x, x ≠ h → nodes s1 !! x = nodes s !! x) ∧
  ∃ n1 sdp', nodes s1 !! h = Some n1 ∧ status n1 = Live ∧ offer v sdp' ∈ page_emitted (page n1).
Proof.
  intros Hinv (nh & Hnh & Hst) Hhv s1.
  assert (Hinv1 : inv s1) by by apply inv_run.
  destruct (hs_pair _ (inv_hs _ Hinv) h v Hhv) as [Hj Hl].
  pose proof (si_bounds _ (inv_sys _ Hinv) h nh Hnh) as [_ Hb].
  destruct (flush_in_spec (backlog_in s h) s h nh Hnh Hst) as (Hr & (p & Hc) & Hx);
    [unfold backlog_in; rewrite Hnh; lia|].
  fold (flush_in s h) in Hr, Hc, Hx. set (s0 := sys_run s (flush_in s h)) in *.
  assert (Hinv0 : inv s0) by by apply inv_run.
  set (n0 := mkNode p Live (sent nh) (recvd nh + backlog_in s h)) in Hc.
  assert (Hhv0 : hosts (relay s0) h v) by by rewrite Hr.
  destruct (hosts_host_page s0 h v n0 Hinv0 Hhv0 Hc) as [hp Hp].
  assert (Hhandled : handled s0 h n0 = inbox s h).
  { unfold handled, inbox. rewrite Hr. fold (inbox s h). cbn [recvd n0].
    unfold backlog_in. rewrite Hnh. apply take_ge. lia. }
  assert (Hoff : HostClient.offered hp v).
  { apply (oi_offered _ (inv_offer _ Hinv0) h n0 hp v Hc Hp); by rewrite Hhandled. }
  destruct (hs_pcs _ (inv_hs _ Hinv0) h n0 hp v Hc Hp) as [pc Hpc]; [by rewrite Hhandled..|].
  pose proof (oi_open _ (inv_offer _ Hinv0) h n0 hp Hc Hp v pc Hpc) as Hcl.
  destruct (HostClient.offer_ready_sends hp v sdp pc Hoff Hpc Hcl) as [sdp' Hsent].
  assert (Hs1 : s1 = sys_step s0 (SLocal h (LHost (HostClient.HOfferReady v sdp))))
    by (unfold s1, s0; by rewrite sys_run_app).
  rewrite (local_step s0 h n0) in Hs1 by done.
  split_and!; [done|by rewrite Hs1|..].
  - intros x Hxh. rewrite Hs1. cbn [update nodes]. rewrite lookup_insert_ne by done. by apply Hx.
  - exists (mkNode (page_local (page n0) (LHost (HostClient.HOfferReady v sdp))).1 Live
      (sent n0) (recvd n0)), sdp'.
    rewrite Hs1. cbn [update nodes]. rewrite lookup_insert_eq. split_and!; [done|done|].
    cbn [page]. rewrite Hp. exact Hsent.
Qed.

(** A signal that one end of a session has emitted for the other, in any
    state of the invariant, is handled by the other end once the sender's
    outgoing channel and the receiver's incoming channel are flushed. *)
Lemma signal_delivered s h v x y k p :
  inv s → live s x → live s y → hosts (relay s) h v → (x = h ∧ y = v ∨ x = v ∧ y = h) →
  (∃ n, nodes s !! x = Some n ∧ signal_msg k y p ∈ page_emitted (page n)) →
  ∃ n', nodes (sys_run s (drain s x y)) !! y = Some n' ∧
        relayed k x p ∈ handled (sys_run s (drain s x y)) y n'.
Proof.
  intros Hinv (nx0 & Hnx0 & Hstx) (ny & Hny & Hsty) Hhv Hxy (nx & Hnx & Hsig).
  rewrite Hnx in Hnx0. injection Hnx0 as <-.
  assert (Hneq : x ≠ y).
  { pose proof (hosts_distinct _ h v (si_wf _ (inv_sys _ Hinv)) Hhv).
    destruct Hxy as [[-> ->]|[-> ->]]; congruence. }
  set (s1 := sys_run s (flush_out s x)).
  destruct (flush_out_spec (backlog_out s x) s x nx Hinv Hnx Hstx) as (Hx1 & Hy1 & Hp1);
    [unfold backlog_out; rewrite Hnx; lia|].
  fold (flush_out s x) s1 in Hx1, Hy1, Hp1.
  assert (Hinv1 : inv s1) by by apply inv_run.
  assert (Hin : relayed k x p ∈ inbox s1 y).
  { eapply (sg_delivered _ (inv_sig _ Hinv1)); [by apply Hp1|exact Hxy|exact Hx1|].
    unfold sent_msgs. cbn [page sent]. unfold backlog_out. rewrite Hnx.
    rewrite take_ge; [done|lia]. }
  assert (Hny1 : nodes s1 !! y = Some ny) by (rewrite Hy1; congruence).
  pose proof (si_bounds _ (inv_sys _ Hinv1) y ny Hny1) as [_ Hb].
  destruct (flush_in_spec (backlog_in s1 y) s1 y ny Hny1 Hsty) as (Hr & (pg & Hc) & _);
    [unfold backlog_in; rewrite Hny1; lia|].
  set (s' := sys_run s (drain s x y)).
  assert (Hs' : s' = sys_run s1 (flush_in s1 y)) by apply sys_run_app.
  fold (flush_in s1 y) in Hr, Hc. rewrite <- Hs' in Hr, Hc. eexists. split; [exact Hc|].
  unfold handled, inbox. rewrite Hr. fold (inbox s1 y). cbn [recvd].
  unfold backlog_in. rewrite Hny1. rewrite take_ge; [done|lia].
Qed.

(** ** Theorems *)

(** C7: in every reachable state of the application, an offer, an
    answer or an ICE candidate that one end of a session (a live host page
    or a live viewer page it hosts) has emitted for the other end is
    handled by the other end's listener, once the transport has carried
    the sender's unsent messages to the relay and the relay's unhandled
    messages to the receiver ([drain]).  Nothing is lost between one
    page's [socket.emit] and the other page's [socket.on]. *)
Theorem signal_reaches_peer g kinds evs h v x y k p :
  let s := sys_run (sys_init g kinds) evs in
  live s x → live s y → hosts (relay s) h v → (x = h ∧ y = v ∨ x = v ∧ y = h) →
  (∃ n, nodes s !! x = Some n ∧ signal_msg k y p ∈ page_emitted (page n)) →
  let s' := sys_run s (drain s x y) in
  ∃ n', nodes s' !! y = Some n' ∧ relayed k x p ∈ handled s' y n'.
Proof. intros s. apply signal_delivered, inv_run, inv_init. Qed.

End Delivery.

(** C8: in every reachable state of the application, a viewer that
    the relay has paired with a live host gets an offer from that host.
    The host page handles what the relay has sent it (among it the
    [viewer_joined]), the browser resolves the offer the page started,
    and the transport carries the host's messages to the relay and the
    relay's messages to the viewer: the viewer page's [offer] listener
    has then handled an offer from the host. *)
Theorem joined_viewer_gets_offer g kinds evs h v sdp :
  let s := sys_run (sys_init g kinds) evs in
  live s h → live s v → hosts (relay s) h v →
  let s1 := sys_run s (flush_in s h ++ [SLocal h (LHost (HostClient.HOfferReady v sdp))]) in
  let s2 := sys_run s1 (drain s1 h v) in
  ∃ sdp' n', nodes s2 !! v = Some n' ∧ offer_from h sdp' ∈ handled s2 v n'.
Proof.
  intros s Hh (nv & Hnv & Hstv) Hhv s1 s2.
  assert (Hinv : inv s) by apply inv_run, inv_init.
  assert (Hneq : h ≠ v) by (eapply hosts_distinct; [apply Hinv|done]).
  destruct (offer_sent_after_flush s h v sdp Hinv Hh Hhv)
    as (Hinv1 & Hr & Hx & n1 & sdp' & Hn1 & Hst1 & Hoff).
  fold s1 in Hinv1, Hr, Hx, Hn1.
  exists sdp'. apply (signal_delivered s1 h v h v SigOffer sdp');
    [done|by exists n1| |by rewrite Hr|by left|by exists n1].
  exists nv. rewrite Hx by done. done.
Qed.

Definition demo_kinds : gmap ConnId PageKind := <[1 := HostPage]> (<[2 := ViewerPage]> ∅).

(** The demonstration run of [System], after which the viewer's browser
    resolves its answer to host 1, not yet sent. *)
Lemma signal_reaches_peer_witness :
  let s := sys_run (sys_init ["AB12CD"] demo_kinds)
             (demo_events ++ [SLocal 2 (LViewer (ViewerClient.VAnswerReady "a"))]) in
  (live s 2 ∧ live s 1 ∧ hosts (relay s) 1 2 ∧ (2 = 1 ∧ 1 = 2 ∨ 2 = 2 ∧ 1 = 1) ∧
   ∃ n, nodes s !! 2 = Some n ∧ signal_msg SigAnswer 1 "a" ∈ page_emitted (page n)) ∧
  let s' := sys_run s (drain s 2 1) in
  ∃ n', nodes s' !! 1 = Some n' ∧ relayed SigAnswer 2 "a" ∈ handled s' 1 n'.
Proof.
  set (evs := demo_events ++ [SLocal 2 (LViewer (ViewerClient.VAnswerReady "a"))]).
  assert (H1 : live (sys_run (sys_init ["AB12CD"] demo_kinds) evs) 2)
    by (eexists; split; [vm_compute; reflexivity|reflexivity]).
  assert (H2 : live (sys_run (sys_init ["AB12CD"] demo_kinds) evs) 1)
    by (eexists; split; [vm_compute; reflexivity|reflexivity]).
  assert (H3 : hosts (relay (sys_run (sys_init ["AB12CD"] demo_kinds) evs)) 1 2)
    by (apply hostsb_spec; vm_compute; reflexivity).
  assert (H4 : 2 = 1 ∧ 1 = 2 ∨ 2 = 2 ∧ 1 = 1) by (right; done).
  assert (H5 : ∃ n, nodes (sys_run (sys_init ["AB12CD"] demo_kinds) evs) !! 2 = Some n ∧
                 signal_msg SigAnswer 1 "a" ∈ page_emitted (page n)).
  { eexists. split; [vm_compute; reflexivity|]. apply list_elem_of_In. vm_compute. tauto. }
  exact (conj (conj H1 (conj H2 (conj H3 (conj H4 H5))))
           (signal_reaches_peer ["AB12CD"] demo_kinds evs 1 2 2 1 SigAnswer "a" H1 H2 H3 H4 H5)).
Defined.

(** The demonstration run stopped just after the relay has paired
    viewer 2 with host 1, before the host page has heard of it. *)
Lemma joined_viewer_gets_offer_witness :
  let s := sys_run (sys_init ["AB12CD"] demo_kinds) (take 8 demo_events) in
  (live s 1 ∧ live s 2 ∧ hosts (relay s) 1 2) ∧
  let s1 := sys_run s (flush_in s 1 ++ [SLocal 1 (LHost (HostClient.HOfferReady 2 "o"))]) in
  let s2 := sys_run s1 (drain s1 1 2) in
  ∃ sdp' n', nodes s2 !! 2 = Some n' ∧ offer_from 1 sdp' ∈ handled s2 2 n'.
Proof.
  assert (H1 : live (sys_run (sys_init ["AB12CD"] demo_kinds) (take 8 demo_events)) 1)
    by (eexists; split; [vm_compute; reflexivity|reflexivity]).
  assert (H2 : live (sys_run (sys_init ["AB12CD"] demo_kinds) (take 8 demo_events)) 2)
    by (eexists; split; [vm_compute; reflexivity|reflexivity]).
  assert (H3 : hosts (relay (sys_run (sys_init ["AB12CD"] demo_kinds) (take 8 demo_events))) 1 2)
    by (apply hostsb_spec; vm_compute; reflexivity).
  exact (conj (conj H1 (conj H2 H3))
           (joined_viewer_gets_offer ["AB12CD"] demo_kinds (take 8 demo_events) 1 2 "o" H1 H2 H3)).
Defined.

End Delivery.
