(* ===== verification/Codes.v ===== *)
(** * Codes: the stream code, from the relay to the host's screen and back

    The relay makes up a stream code when a host starts a stream, and
    sends it to the host in [stream_started].  The host page's listener
    shows it in the [streamCode] element (src/app.py lines 150-153).  A
    person reads it there and types it into a viewer page's input, whose
    join button sends it back to the relay in [join_stream] (lines
    212-215).  The relay then pairs the viewer with the session of that
    code.

    This file shows that the round trip lands where it should.  The
    invariant [code_inv] holds in every reachable state of [System]:
    - a [stream_started code] in a host's inbox names the code the relay
      has that host hosting, for as long as the host is connected
      ([ci_started]);
    - the code a host page shows is one it has been sent, or the page
      still shows "Not Started" and has been sent none ([ci_shown]).
    The relay never sends a host two different codes: a [Host] role lasts
    as long as its connection ([RelayFacts.host_role_kept]).  So the code
    a live host page shows is the code of its session
    ([shown_code_hosted]).  A viewer page that is connected and not yet
    in a session, into which that code is typed and joined, is paired
    with the host, and the host is sent [viewer_joined]
    ([code_roundtrip]), and then gets the host's offer once the channels
    are flushed ([join_by_code_gets_offer]).  A code that names no session goes back to the
    viewer page as the relay's invalid-code error, which the page's
    [error] listener shows ([wrong_code_reported]). *)

From S2P Require Import Prelude Protocol CodeGenerator SessionRegistry ConnectionTracker SignalingRouter Lifecycle RelayFacts HostClient ViewerClient System Delivery.

Module Codes.
Import SessionRegistry ConnectionTracker SignalingRouter Lifecycle RelayFacts System Delivery.

Section Codes.
Context `{CodeSource G}.
Local Abbreviation State := (Sys (G := G)).
Implicit Types s : State.

(** The text of [<b id="streamCode">] before any code arrives. *)
Definition not_started : string := "Not Started".

Record code_inv s : Prop := {
  ci_started : ∀ h code, stream_started code ∈ inbox s h →
    conns (relay s) !! h = Some (Host code) ∨ dead s h;
  ci_shown : ∀ h n hp, nodes s !! h = Some n → page n = PHost hp →
    stream_started (HostClient.streamCode_text hp) ∈ handled s h n ∨
    HostClient.streamCode_text hp = not_started ∧ ∀ code, stream_started code ∉ handled s h n
}.

(** A viewer page that is connected, has sent everything it emitted, and
    is in no session yet. *)
Definition viewer_idle s (v : ConnId) : Prop :=
  ∃ nv w, nodes s !! v = Some nv ∧ status nv = Live ∧ page nv = PViewer w ∧
    sent nv = length (ViewerClient.emitted w) ∧ conns (relay s) !! v = Some Unassigned.

(** Type [code] into the viewer page, click Join, and let the transport
    carry the [join_stream] to the relay. *)
Definition type_and_join (v : ConnId) (code : string) : list SysEvent :=
  [SLocal v (LViewer (ViewerClient.VType code)); SLocal v (LViewer ViewerClient.VClickJoin);
   STransmit v].

(** ** Lemmas *)

Lemma handled_inbox s h n m : m ∈ handled s h n → m ∈ inbox s h.
Proof. unfold handled. apply subseteq_take. Qed.

(** A page event of a host page shows what it showed before. *)
Lemma page_local_text p l hp' :
  fst (page_local p l) = PHost hp' →
  ∃ hp, p = PHost hp ∧ HostClient.streamCode_text hp' = HostClient.streamCode_text hp.
Proof.
  intros Heq. destruct p as [hp|w], l as [ev|ev]; [|by eauto|..];
    destruct ev; cbn in Heq; simplify_eq; eexists; (split; [reflexivity|]);
    unfold HostClient.onclick_startStream, HostClient.offer_ready, HostClient.on_icecandidate,
      HostClient.emit, HostClient.set_pcs; by repeat case_match.
Qed.

Lemma code_inv_init g kinds : code_inv (sys_init g kinds).
Proof.
  split.
  - intros h code. rewrite inbox_init. set_solver.
  - intros h n hp. cbn [nodes sys_init]. rewrite lookup_fmap.
    destruct (kinds !! h) as [[]|]; intros Hn Hp; simplify_eq/=.
    right. unfold handled. cbn [recvd]. rewrite take_0. split; [done|set_solver].
Qed.

(** An event of one page that leaves the relay alone. *)
Lemma code_inv_page_update s c n n' te :
  code_inv s → nodes s !! c = Some n → status n' = status n →
  (∀ hp', page n' = PHost hp' →
     stream_started (HostClient.streamCode_text hp') ∈ take (recvd n') (inbox s c) ∨
     HostClient.streamCode_text hp' = not_started ∧
     ∀ code, stream_started code ∉ take (recvd n') (inbox s c)) →
  code_inv (mkSys (relay s) (<[c := n']> (nodes s)) te).
Proof.
  intros Hci Hn Hst Hnew. split.
  - intros h code Hin. destruct (ci_started _ Hci h code Hin) as [?|Hd]; [by left|right].
    unfold dead. cbn [nodes]. by rewrite (update_status _ _ _ _ _ _ Hn Hst).
  - unfold handled, inbox. cbn [relay nodes]. intros h n0 hp.
    destruct (decide (h = c)) as [->|Hne].
    + rewrite lookup_insert_eq. intros [= <-]. apply Hnew.
    + rewrite lookup_insert_ne by done. apply (ci_shown _ Hci).
Qed.

Lemma code_inv_local s c l : code_inv s → code_inv (sys_step s (SLocal c l)).
Proof.
  intros Hci. cbn [sys_step]. destruct (nodes s !! c) as [n|] eqn:Hn; [|done].
  assert (Hup : code_inv (update s c (mkNode (fst (page_local (page n) l)) (status n) (sent n)
                  (recvd n)) (relay s) (snd (page_local (page n) l)))).
  { apply (code_inv_page_update s c n); [done|done|done|]. cbn [page recvd].
    intros hp' Hp'. destruct (page_local_text _ _ _ Hp') as (hp & Hp & ->).
    exact (ci_shown _ Hci c n hp Hn Hp). }
  by destruct (status n).
Qed.

Lemma code_inv_deliver s c : code_inv s → code_inv (sys_step s (SDeliver c)).
Proof.
  intros Hci. cbn [sys_step]. destruct (nodes s !! c) as [n|] eqn:Hn; [|done].
  destruct (status n) eqn:Hst; try done.
  destruct (inbox s c !! recvd n) as [m|] eqn:Hm; [|done].
  apply (code_inv_page_update s c n); [done|done|by rewrite Hst|]. cbn [page recvd].
  intros hp' Hp'. destruct (page n) as [hp|w] eqn:Hp; [|by cbn [page_receive fst] in Hp'].
  assert (hp' = fst (HostClient.step hp (HostClient.HServer m))) as ->
    by (cbn [page_receive fst] in Hp'; congruence).
  rewrite HostClient.streamCode_step, (take_S_r _ _ _ Hm).
  destruct m as [code| | | | | | |]; [left; set_solver|..];
    (destruct (ci_shown _ Hci c n hp Hn Hp) as [Hin|[Htext Hnone]];
     [left; set_solver|right; split; [done|]]; intros code ?%elem_of_app;
     set_unfold; naive_solver).
Qed.

(** ** The relay's events *)

Section relay_update.
Context (s : State) (c : ConnId) (n n' : Node) (ev : TransportEvent).
Hypothesis Hinv : inv s.
Hypothesis Hci : code_inv s.
Hypothesis Hn : nodes s !! c = Some n.
Hypothesis Hnd : status n ≠ Dead.
Hypothesis Hst' : status n' = Live ∨ status n' = Dead.
Hypothesis Hpage : page n' = page n.
Hypothesis Hrecvd : recvd n' = recvd n.
Hypothesis Hs' : sys_inv (update s c n' (dispatch (relay s) c ev) None).

Lemma cu_inbox : ∃ o', delta_ok (relay s) c ev o' ∧
  ∀ x, inbox (update s c n' (dispatch (relay s) c ev) None) x = inbox s x ++ addressed_to x o'.
Proof.
  destruct (dispatch_delta (relay s) c ev (si_wf _ (inv_sys _ Hinv))) as (o' & Ho & Hd).
  exists o'. split; [done|]. intros x. unfold inbox. cbn [update relay].
  by rewrite Ho, addressed_to_app.
Qed.

(** A host that leaves the relay's table is dead. *)
Lemma cu_dead h code : conns (relay s) !! h = Some (Host code) →
  conns (dispatch (relay s) c ev) !! h = Some (Host code) ∨
  dead (update s c n' (dispatch (relay s) c ev) None) h.
Proof.
  intros Hh. destruct (decide (h ∈ dom (conns (dispatch (relay s) c ev)))) as [Hd|Hd].
  { left. by apply host_role_kept; [apply (si_wf _ (inv_sys _ Hinv))|..]. }
  right. destruct (proj1 (si_live _ (inv_sys _ Hinv) h) (elem_of_dom_2 _ _ _ Hh))
    as (n0 & Hn0 & Hl0).
  pose proof (si_live _ Hs' h) as Hl. cbn [update relay nodes] in Hl.
  assert (Hnl : ¬ ∃ n1, <[c := n']> (nodes s) !! h = Some n1 ∧ status n1 = Live)
    by (by rewrite <- Hl).
  unfold dead. cbn [update nodes]. destruct (decide (h = c)) as [->|Hne].
  - rewrite lookup_insert_eq in Hnl |- *. exists n'. split; [done|].
    destruct Hst' as [?|]; [|done]. exfalso. eauto.
  - rewrite lookup_insert_ne in Hnl by done. exfalso. eauto.
Qed.

Lemma cu_code_inv : code_inv (update s c n' (dispatch (relay s) c ev) None).
Proof.
  destruct cu_inbox as (o' & Hd & Hi). split.
  - intros h code. rewrite Hi. intros [Hin|Hin]%elem_of_app.
    + destruct (ci_started _ Hci h code Hin) as [Hh|(n0 & Hn0 & Hd0)]; [by apply cu_dead|right].
      assert (h ≠ c) by (intros ->; congruence).
      exists n0. cbn [update nodes]. by rewrite lookup_insert_ne.
    + apply elem_of_addressed_to in Hin. unfold delta_ok in Hd. rewrite Forall_forall in Hd.
      destruct (Hd _ Hin) as [Hm _]. cbn in Hm. destruct Hm as [-> Hh]. by left.
  - intros h n0 hp Hh Hp. unfold handled. rewrite Hi.
    cbn [update nodes] in Hh. destruct (decide (h = c)) as [->|Hne].
    + rewrite lookup_insert_eq in Hh. injection Hh as <-.
      pose proof (si_bounds _ (inv_sys _ Hinv) c n Hn) as [_ Hb].
      rewrite Hrecvd, take_app_le by done. rewrite Hpage in Hp.
      exact (ci_shown _ Hci c n hp Hn Hp).
    + rewrite lookup_insert_ne in Hh by done.
      pose proof (si_bounds _ (inv_sys _ Hinv) h n0 Hh) as [_ Hb].
      rewrite take_app_le by done. exact (ci_shown _ Hci h n0 hp Hh Hp).
Qed.

End relay_update.

Lemma code_inv_step s ev : inv s → code_inv s → code_inv (sys_step s ev).
Proof.
  intros Hinv Hci. pose proof (inv_sys _ (inv_step s ev Hinv)) as Hs'.
  destruct ev as [c|c|c l|c|c]; [| |by apply code_inv_local| |by apply code_inv_deliver];
    cbn [sys_step] in *; destruct (nodes s !! c) as [n|] eqn:Hn; try done;
    destruct (status n) eqn:Hst; try done;
    try (destruct (page_emitted (page n) !! sent n); [|done]);
    (eapply (cu_code_inv s c n); [done|done|done|by rewrite Hst|cbn; auto|done|done|exact Hs']).
Qed.

Lemma code_inv_run s evs : inv s → code_inv s → code_inv (sys_run s evs).
Proof.
  unfold sys_run. revert s. induction evs as [|ev evs IH]; intros s Hs Hc; [done|].
  cbn [foldl]. apply IH; [by apply inv_step|by apply code_inv_step].
Qed.

(** The code a live host page shows is the code of the session the relay
    has it hosting, as soon as the page has been sent one. *)
Lemma shown_code_hosted s h n hp code :
  inv s → code_inv s → nodes s !! h = Some n → status n = Live → page n = PHost hp →
  stream_started code ∈ handled s h n →
  HostClient.streamCode_text hp = code ∧ conns (relay s) !! h = Some (Host code).
Proof.
  intros Hinv Hci Hn Hst Hp Hin.
  assert (Hlive : ∀ c, stream_started c ∈ handled s h n → conns (relay s) !! h = Some (Host c)).
  { intros c Hc. destruct (ci_started _ Hci h c (handled_inbox _ _ _ _ Hc)) as [?|(n0 & Hn0 & Hd)];
      [done|congruence]. }
  destruct (ci_shown _ Hci h n hp Hn Hp) as [Hshown|[_ Hnone]]; [|by destruct (Hnone code)].
  pose proof (Hlive _ Hshown) as Ht. rewrite (Hlive _ Hin) in Ht. injection Ht as ->. auto.
Qed.

(** Typing a code into an idle viewer page and joining hands the relay a
    [join_stream] with that code, and nothing else. *)
Lemma idle_join s v code :
  viewer_idle s v → code ≠ "" →
  relay (sys_run s (type_and_join v code)) = dispatch (relay s) v (ev_message (join_stream code)) ∧
  ∃ nv n1, nodes s !! v = Some nv ∧ nodes (sys_run s (type_and_join v code)) !! v = Some n1 ∧
    status n1 = Live ∧ recvd n1 = recvd nv.
Proof.
  intros (nv & w & Hnv & Hst & Hp & Hsent & _) Hne. unfold type_and_join.
  rewrite !sys_run_cons, (local_step s v nv) by done.
  rewrite (local_step _ v (mkNode (fst (page_local (page nv) (LViewer (ViewerClient.VType code))))
    Live (sent nv) (recvd nv))); [|by cbn [update nodes]; rewrite lookup_insert_eq|done].
  erewrite (transmit_step _ v _ (join_stream code));
    [|cbn [update nodes]; by rewrite lookup_insert_eq|done|].
  - split; [done|]. exists nv. eexists. cbn [sys_run foldl update nodes].
    by rewrite lookup_insert_eq.
  - cbn [page sent]. rewrite Hp. cbn [page_local fst ViewerClient.step].
    unfold ViewerClient.onclick_joinStream.
    cbn [ViewerClient.streamCodeInput_value ViewerClient.type_code].
    rewrite (proj2 (String.eqb_neq code "") Hne). cbn [ViewerClient.emitted ViewerClient.emit].
    rewrite Hsent. by apply list_lookup_middle.
Qed.

(** The relay pairs a viewer that joins with an existing code with the
    host of that code, and tells the host. *)
Lemma join_pairs st h v code :
  relay_wf st → conns st !! h = Some (Host code) → conns st !! v = Some Unassigned →
  hosts (dispatch st v (ev_message (join_stream code))) h v ∧
  addressed_to h (outbox (dispatch st v (ev_message (join_stream code)))) =
    addressed_to h (outbox st) ++ [viewer_joined v].
Proof.
  intros Hwf Hh Hv. destruct (wf_host_backed _ _ Hwf _ _ Hh) as (ss & Hss & _).
  assert (Hnew : hosts (dispatch st v (ev_message (join_stream code))) h v).
  { rewrite (dispatch_join_Ok st v code ss Hv Hss). exists code.
    eexists. cbn [conns reg]. rewrite lookup_insert_ne by congruence. rewrite lookup_insert_eq.
    split_and!; [done|done|]. cbn. set_solver. }
  split; [done|]. apply join_notifies; [done..|]. by apply (unassigned_unpaired st v h).
Qed.

(** ** Theorems *)

(** C9: the stream code goes round without loss.  In every reachable
    state of the application, a live host page that has been sent its
    code shows exactly that code.  When a person types the code the page
    shows into a connected viewer page that is in no session yet, and
    clicks Join, the relay pairs that viewer with this host, and the
    host's next message from the relay is [viewer_joined] for the
    viewer. *)
Theorem code_roundtrip g kinds evs h v nh hp code :
  let s := sys_run (sys_init g kinds) evs in
  nodes s !! h = Some nh → status nh = Live → page nh = PHost hp →
  stream_started code ∈ handled s h nh → viewer_idle s v → code ≠ "" →
  let s' := sys_run s (type_and_join v (HostClient.streamCode_text hp)) in
  HostClient.streamCode_text hp = code ∧ hosts (relay s') h v ∧
  inbox s' h = inbox s h ++ [viewer_joined v].
Proof.
  intros s Hnh Hst Hp Hin Hidle Hne s'.
  assert (Hinv : inv s) by apply inv_run, inv_init.
  assert (Hci : code_inv s) by (apply code_inv_run, code_inv_init; apply inv_init).
  destruct (shown_code_hosted s h nh hp code Hinv Hci Hnh Hst Hp Hin) as [Htext Hh].
  pose proof Hidle as (nv & w & _ & _ & _ & _ & Hv).
  destruct (join_pairs (relay s) h v code (si_wf _ (inv_sys _ Hinv)) Hh Hv) as [Hpair Hnotify].
  unfold s', inbox. rewrite Htext, (proj1 (idle_join s v code Hidle Hne)). done.
Qed.

(** C10: a viewer that joins with the code the host page shows gets
    the host's offer.  In every reachable state where a live host page
    has been sent its code, a connected viewer page in no session into
    which the shown code is typed and joined is paired with the host; once
    the host page has handled the relay's messages, the browser has
    resolved the offer the page started, and the transport has carried
    the host's messages to the relay and the relay's to the viewer, the
    viewer page's [offer] listener has handled an offer from this host.
    This is the specification's scenario (section 8) run on the pages of
    src/app.py, from the code on the host's screen to the offer. *)
Theorem join_by_code_gets_offer g kinds evs h v nh hp code sdp :
  let s := sys_run (sys_init g kinds) evs in
  nodes s !! h = Some nh → status nh = Live → page nh = PHost hp →
  stream_started code ∈ handled s h nh → viewer_idle s v → code ≠ "" →
  let s1 := sys_run s (type_and_join v (HostClient.streamCode_text hp)) in
  let s2 := sys_run s1 (flush_in s1 h ++ [SLocal h (LHost (HostClient.HOfferReady v sdp))]) in
  let s3 := sys_run s2 (drain s2 h v) in
  ∃ sdp' n', nodes s3 !! v = Some n' ∧ offer_from h sdp' ∈ handled s3 v n'.
Proof.
  intros s Hnh Hst Hp Hin Hidle Hne s1 s2 s3.
  assert (Hinv : inv s) by apply inv_run, inv_init.
  assert (Hci : code_inv s) by (apply code_inv_run, code_inv_init; apply inv_init).
  destruct (shown_code_hosted s h nh hp code Hinv Hci Hnh Hst Hp Hin) as [Htext Hh]. subst code.
  pose proof Hidle as (nv & w & Hnv & Hstv & _ & _ & Hv).
  assert (Hhv : h ≠ v) by congruence.
  destruct (join_pairs (relay s) h v _ (si_wf _ (inv_sys _ Hinv)) Hh Hv) as [Hpair _].
  destruct (idle_join s v _ Hidle Hne) as [Hr (nv' & n1 & _ & Hn1 & Hst1 & _)].
  fold s1 in Hr, Hn1.
  assert (Hinv1 : inv s1) by by apply inv_run.
  assert (Hh1 : nodes s1 !! h = Some nh)
    by (unfold s1, type_and_join; rewrite sys_run_other; [done|repeat constructor; cbn; congruence]).
  destruct (offer_sent_after_flush s1 h v sdp Hinv1) as (Hinv2 & Hr2 & Hx & n2 & sdp' & Hn2 & Hst2 & Hoff);
    [by exists nh|by rewrite Hr|].
  fold s2 in Hinv2, Hr2, Hx, Hn2.
  exists sdp'. apply (signal_delivered s2 h v h v SigOffer sdp');
    [done|by exists n2|exists n1; by rewrite Hx|by rewrite Hr2, Hr|by left|by exists n2].
Qed.

(** C12: a code that names no session is reported to the viewer that
    typed it.  In every reachable state, when a code that no live session
    has is typed into a connected viewer page that is in no session, and
    Join is clicked, the relay refuses the join: the viewer stays
    unassigned.  Once the transport has delivered the relay's messages to
    the page, the last alert the page has shown is the invalid-code
    message, through its [error] listener. *)
Theorem wrong_code_reported g kinds evs v code :
  let s := sys_run (sys_init g kinds) evs in
  viewer_idle s v → code ≠ "" → reg (relay s) !! code = None →
  let s1 := sys_run s (type_and_join v code) in
  let s' := sys_run s1 (flush_in s1 v) in
  conns (relay s') !! v = Some Unassigned ∧
  ∃ n' w', nodes s' !! v = Some n' ∧ page n' = PViewer w' ∧
    last (ViewerClient.alerts w') = Some "invalid or ended stream code".
Proof.
  intros s Hidle Hne Hcode s1 s'.
  assert (Hinv : inv s) by apply inv_run, inv_init.
  pose proof Hidle as (nv0 & w0 & Hnv0 & _ & Hp0 & _ & Hv).
  destruct (idle_join s v code Hidle Hne) as [Hr (nv & n1 & Hnv & Hn1 & Hst1 & Hrc)].
  fold s1 in Hr, Hn1. rewrite Hnv0 in Hnv. injection Hnv as <-.
  assert (Hr1 : relay s1 = mkRelay (reg (relay s)) (conns (relay s))
            (outbox (relay s) ++ [v ◃ error "invalid or ended stream code"]) (gen (relay s))).
  { rewrite Hr. unfold dispatch, onMessage. rewrite onJoinStream_unknown by done. simpl.
    rewrite deliver_live; [done|]. apply elem_of_dom. by eexists. }
  assert (Hin1 : inbox s1 v = inbox s v ++ [error "invalid or ended stream code"]).
  { unfold inbox. rewrite Hr1. cbn [outbox]. by rewrite addressed_to_app, addressed_to_cons_eq. }
  assert (Hinv1 : inv s1) by by apply inv_run.
  pose proof (si_bounds _ (inv_sys _ Hinv) v nv0 Hnv0) as [_ Hb].
  destruct (flush_in_last s1 v n1 (error "invalid or ended stream code") Hinv1 Hn1 Hst1)
    as (p & Hrel & Hk & Hc); [by rewrite Hin1, last_snoc|rewrite Hin1, length_app; cbn; lia|].
  fold s' in Hrel, Hc.
  destruct (sys_run_kind s (type_and_join v code) v nv0 Hnv0) as (n3 & Hn3 & Hk3).
  fold s1 in Hn3. rewrite Hn1 in Hn3. injection Hn3 as <-. rewrite Hk3, Hp0 in Hk.
  destruct p as [hp|w2]; [done|]. split.
  - by rewrite Hrel, Hr1.
  - rewrite Hc. do 2 eexists. split_and!; [done|done|]. cbn. apply last_snoc.
Qed.

End Codes.

(** Viewer page 2 connected, host page 1 connected, no stream started:
    the code "ZZZZZZ" names no session. *)
Lemma wrong_code_reported_witness :
  let s := sys_run (sys_init ["AB12CD"] demo_kinds) [SConnect 1; SConnect 2] in
  let s1 := sys_run s (type_and_join 2 "ZZZZZZ") in
  let s' := sys_run s1 (flush_in s1 2) in
  conns (relay s') !! 2 = Some Unassigned ∧
  ∃ n' w', nodes s' !! 2 = Some n' ∧ page n' = PViewer w' ∧
    last (ViewerClient.alerts w') = Some "invalid or ended stream code".
Proof.
  assert (H1 : viewer_idle (sys_run (sys_init ["AB12CD"] demo_kinds) [SConnect 1; SConnect 2]) 2).
  { eexists _, _. split_and!; [vm_compute; reflexivity..]. }
  assert (H2 : "ZZZZZZ" ≠ "") by discriminate.
  assert (H3 : reg (relay (sys_run (sys_init ["AB12CD"] demo_kinds) [SConnect 1; SConnect 2]))
                 !! "ZZZZZZ" = None) by (vm_compute; reflexivity).
  exact (wrong_code_reported ["AB12CD"] demo_kinds [SConnect 1; SConnect 2] 2 "ZZZZZZ" H1 H2 H3).
Defined.

Definition roundtrip_events : list SysEvent := take 5 demo_events.

(** The demonstration run stopped when host page 1 shows its code and
    viewer page 2 is connected. *)
Lemma code_roundtrip_witness :
  let s := sys_run (sys_init ["AB12CD"] demo_kinds) roundtrip_events in
  ∃ nh hp, nodes s !! 1 = Some nh ∧ page nh = PHost hp ∧
    HostClient.streamCode_text hp = "AB12CD" ∧
    hosts (relay (sys_run s (type_and_join 2 (HostClient.streamCode_text hp)))) 1 2.
Proof.
  pose (nh := match nodes (sys_run (sys_init ["AB12CD"] demo_kinds) roundtrip_events) !! 1 with
              | Some n => n | None => mkNode (PHost HostClient.init) Dead 0 0 end).
  pose (hp := match page nh with PHost hp => hp | PViewer _ => HostClient.init end).
  assert (H1 : nodes (sys_run (sys_init ["AB12CD"] demo_kinds) roundtrip_events) !! 1 = Some nh)
    by (vm_compute; reflexivity).
  assert (H2 : status nh = Live) by (vm_compute; reflexivity).
  assert (H3 : page nh = PHost hp) by (vm_compute; reflexivity).
  assert (H4 : stream_started "AB12CD" ∈
                 handled (sys_run (sys_init ["AB12CD"] demo_kinds) roundtrip_events) 1 nh)
    by (apply list_elem_of_In; vm_compute; left; reflexivity).
  assert (H5 : viewer_idle (sys_run (sys_init ["AB12CD"] demo_kinds) roundtrip_events) 2).
  { eexists _, _. split_and!; [vm_compute; reflexivity..]. }
  assert (H6 : "AB12CD" ≠ "") by discriminate.
  destruct (code_roundtrip ["AB12CD"] demo_kinds roundtrip_events 1 2 nh hp "AB12CD"
              H1 H2 H3 H4 H5 H6) as (Ht & Hh & _).
  exists nh, hp. split_and!; [exact H1|exact H3|exact Ht|exact Hh].
Defined.

(** From the same point: viewer 2 joins with the code host 1 shows, and
    gets host 1's offer. *)
Lemma join_by_code_gets_offer_witness :
  let s := sys_run (sys_init ["AB12CD"] demo_kinds) roundtrip_events in
  ∃ nh hp, nodes s !! 1 = Some nh ∧ page nh = PHost hp ∧
    let s1 := sys_run s (type_and_join 2 (HostClient.streamCode_text hp)) in
    let s2 := sys_run s1 (flush_in s1 1 ++ [SLocal 1 (LHost (HostClient.HOfferReady 2 "o"))]) in
    let s3 := sys_run s2 (drain s2 1 2) in
    ∃ sdp' n', nodes s3 !! 2 = Some n' ∧ offer_from 1 sdp' ∈ handled s3 2 n'.
Proof.
  pose (nh := match nodes (sys_run (sys_init ["AB12CD"] demo_kinds) roundtrip_events) !! 1 with
              | Some n => n | None => mkNode (PHost HostClient.init) Dead 0 0 end).
  pose (hp := match page nh with PHost hp => hp | PViewer _ => HostClient.init end).
  assert (H1 : nodes (sys_run (sys_init ["AB12CD"] demo_kinds) roundtrip_events) !! 1 = Some nh)
    by (vm_compute; reflexivity).
  assert (H2 : status nh = Live) by (vm_compute; reflexivity).
  assert (H3 : page nh = PHost hp) by (vm_compute; reflexivity).
  assert (H4 : stream_started "AB12CD" ∈
                 handled (sys_run (sys_init ["AB12CD"] demo_kinds) roundtrip_events) 1 nh)
    by (apply list_elem_of_In; vm_compute; left; reflexivity).
  assert (H5 : viewer_idle (sys_run (sys_init ["AB12CD"] demo_kinds) roundtrip_events) 2).
  { eexists _, _. split_and!; [vm_compute; reflexivity..]. }
  assert (H6 : "AB12CD" ≠ "") by discriminate.
  exists nh, hp. split_and!; [exact H1|exact H3|].
  exact (join_by_code_gets_offer ["AB12CD"] demo_kinds roundtrip_events 1 2 nh hp "AB12CD" "o"
           H1 H2 H3 H4 H5 H6).
Defined.

End Codes.
