(* ===== verification/Quiescence.v ===== *)
(** * Quiescence: the transport's work comes to an end

    Socket.IO carries what the pages emit to the relay and what the relay
    sends to the pages.  Neither page's [socket.on] listeners emit
    anything: the host page sends from its Start button and its browser
    callbacks (the offer chain, ICE gathering), and the viewer page sends
    from its Join button and its browser callbacks (the answer chain, ICE
    gathering).  See [HostClient.host_listeners_silent] and
    [ViewerClient.viewer_listeners_silent].  So delivering the relay's
    messages never makes new work for the transport.

    [quiesce] is the transport's work from a state, written out as a
    finite list of events.  It transmits every page's unsent messages,
    one channel after the other, and then delivers every page's unhandled
    messages.  [transport_quiesces] shows that after it, no transmission
    and no delivery changes the state: the transport has no work left
    until a page event (a click, a promise resolving, a candidate being
    gathered) or a connect or disconnect makes some. *)

From S2P Require Import Prelude Protocol CodeGenerator SessionRegistry ConnectionTracker SignalingRouter Lifecycle RelayFacts HostClient ViewerClient System Delivery.

Module Quiescence.
Import Lifecycle System Delivery.

Section Quiescence.
Context `{CodeSource G}.
Local Abbreviation State := (Sys (G := G)).
Implicit Types s : State.

(** Flush the outgoing channels of [cs], one after the other, each from
    the state the previous flushes left. *)
Fixpoint flush_outs s (cs : list ConnId) : list SysEvent :=
  match cs with
  | [] => []
  | c :: cs' => flush_out s c ++ flush_outs (sys_run s (flush_out s c)) cs'
  end.

Fixpoint flush_ins s (cs : list ConnId) : list SysEvent :=
  match cs with
  | [] => []
  | c :: cs' => flush_in s c ++ flush_ins (sys_run s (flush_in s c)) cs'
  end.

(** All the transport's work: every page's outgoing channel, then every
    page's incoming channel. *)
Definition quiesce s : list SysEvent :=
  let cs := elements (dom (nodes s)) in
  flush_outs s cs ++ flush_ins (sys_run s (flush_outs s cs)) cs.

(** The events of the transport. *)
Definition transport (ev : SysEvent) : Prop :=
  match ev with STransmit _ | SDeliver _ => True | _ => False end.

(** A live page whose messages have all reached the relay, and one that
    has handled every message of the relay. *)
Definition out_done s (c : ConnId) : Prop :=
  ∀ n, nodes s !! c = Some n → status n = Live → sent n = length (page_emitted (page n)).

Definition in_done s (c : ConnId) : Prop :=
  ∀ n, nodes s !! c = Some n → status n = Live → recvd n = length (inbox s c).

(** ** Lemmas *)

Lemma page_receive_silent p m : page_emitted (fst (page_receive p m)) = page_emitted p.
Proof.
  destruct p as [h|w]; cbn [page_receive fst page_emitted];
    [apply HostClient.host_listeners_silent|apply ViewerClient.viewer_listeners_silent].
Qed.

(** The transport never adds a page. *)
Lemma sys_step_none s ev x : nodes s !! x = None → nodes (sys_step s ev) !! x = None.
Proof.
  intros Hx. destruct ev as [c|c|c l|c|c]; cbn [sys_step]; repeat case_match; try done;
    cbn [update nodes]; rewrite lookup_insert_ne; congruence.
Qed.

Lemma sys_run_none s evs x : nodes s !! x = None → nodes (sys_run s evs) !! x = None.
Proof.
  unfold sys_run. revert s. induction evs as [|ev evs IH]; intros s Hx; [done|].
  apply IH, sys_step_none, Hx.
Qed.

(** A channel with nothing to carry is quiet. *)
Lemma transmit_done s c : out_done s c → sys_step s (STransmit c) = s.
Proof.
  intros Ho. cbn [sys_step]. destruct (nodes s !! c) as [n|] eqn:Hn; [|done].
  destruct (status n) eqn:Hst; try done.
  rewrite (proj2 (lookup_ge_None _ _)); [done|]. rewrite (Ho n Hn Hst). lia.
Qed.

Lemma deliver_done s c : in_done s c → sys_step s (SDeliver c) = s.
Proof.
  intros Hi. cbn [sys_step]. destruct (nodes s !! c) as [n|] eqn:Hn; [|done].
  destruct (status n) eqn:Hst; try done.
  rewrite (proj2 (lookup_ge_None _ _)); [done|]. rewrite (Hi n Hn Hst). lia.
Qed.

(** Every page stays done with its outgoing channel under the transport:
    deliveries do not make it send. *)
Lemma out_done_step s ev c : transport ev → out_done s c → out_done (sys_step s ev) c.
Proof.
  intros Hev Ho. destruct ev as [| | |c'|c']; try done.
  - destruct (decide (c' = c)) as [->|Hne].
    + by rewrite transmit_done.
    + intros n. rewrite sys_step_other by done. apply Ho.
  - cbn [sys_step]. destruct (nodes s !! c') as [n'|] eqn:Hn'; [|done].
    destruct (status n') eqn:Hst; try done. destruct (inbox s c' !! recvd n') as [m|]; [|done].
    intros n. cbn [update nodes]. destruct (decide (c' = c)) as [->|Hne].
    + rewrite lookup_insert_eq. intros [= <-] _. cbn [page sent].
      rewrite page_receive_silent. exact (Ho n' Hn' Hst).
    + rewrite lookup_insert_ne by done. apply Ho.
Qed.

Lemma out_done_run s evs c : Forall transport evs → out_done s c → out_done (sys_run s evs) c.
Proof.
  intros Hevs. unfold sys_run. revert s. induction Hevs as [|ev evs Hev _ IH]; intros s Ho; [done|].
  apply IH, out_done_step, Ho. done.
Qed.

(** Deliveries keep a page done with its incoming channel. *)
Lemma in_done_deliver s c' c : in_done s c → in_done (sys_step s (SDeliver c')) c.
Proof.
  intros Hi. destruct (decide (c' = c)) as [->|Hne].
  - by rewrite deliver_done.
  - intros n. rewrite sys_step_other by done.
    assert (inbox (sys_step s (SDeliver c')) c = inbox s c) as ->; [|apply Hi].
    unfold inbox. cbn [sys_step]. by repeat case_match.
Qed.

Lemma in_done_run s evs c : Forall (λ ev, ∃ c', ev = SDeliver c') evs → in_done s c →
  in_done (sys_run s evs) c.
Proof.
  intros Hevs. unfold sys_run. revert s.
  induction Hevs as [|ev evs [c' ->] _ IH]; intros s Hi; [done|].
  by apply IH, in_done_deliver.
Qed.

(** The same event repeated on a state it does not change. *)
Lemma run_replicate_noop s e k : sys_step s e = s → sys_run s (replicate k e) = s.
Proof. intros He. induction k as [|k IH]; [done|]. by rewrite replicate_S, sys_run_cons, He. Qed.

(** Flushing one channel empties it. *)
Lemma flush_out_done s c : inv s → out_done (sys_run s (flush_out s c)) c.
Proof.
  intros Hinv n. destruct (nodes s !! c) as [n0|] eqn:Hn0; [|by rewrite sys_run_none].
  destruct (status n0) eqn:Hst;
    try (unfold flush_out; rewrite run_replicate_noop by (cbn [sys_step]; by rewrite Hn0, Hst);
      congruence).
  pose proof (si_bounds _ (inv_sys _ Hinv) c n0 Hn0) as [Hb _].
  destruct (flush_out_spec (backlog_out s c) s c n0 Hinv Hn0 Hst) as (Hc & _ & _);
    [unfold backlog_out; rewrite Hn0; lia|].
  fold (flush_out s c) in Hc. rewrite Hc. intros [= <-] _. cbn [sent page].
  unfold backlog_out. rewrite Hn0. lia.
Qed.

Lemma flush_in_done s c : inv s → in_done (sys_run s (flush_in s c)) c.
Proof.
  intros Hinv n. destruct (nodes s !! c) as [n0|] eqn:Hn0; [|by rewrite sys_run_none].
  destruct (status n0) eqn:Hst;
    try (unfold flush_in; rewrite run_replicate_noop by (cbn [sys_step]; by rewrite Hn0, Hst);
      congruence).
  pose proof (si_bounds _ (inv_sys _ Hinv) c n0 Hn0) as [_ Hb].
  destruct (flush_in_spec (backlog_in s c) s c n0 Hn0 Hst) as (Hr & (p & Hc) & _);
    [unfold backlog_in; rewrite Hn0; lia|].
  fold (flush_in s c) in Hr, Hc. rewrite Hc. intros [= <-] _. cbn [recvd].
  unfold inbox. rewrite Hr. fold (inbox s c). unfold backlog_in. rewrite Hn0. lia.
Qed.

Lemma flush_outs_transport s cs : Forall transport (flush_outs s cs).
Proof.
  revert s. induction cs as [|c cs IH]; intros s; [constructor|].
  apply Forall_app. split; [by apply Forall_replicate|apply IH].
Qed.

Lemma flush_ins_deliveries s cs : Forall (λ ev, ∃ c', ev = SDeliver c') (flush_ins s cs).
Proof.
  revert s. induction cs as [|c cs IH]; intros s; [constructor|].
  apply Forall_app. split; [apply Forall_replicate; eauto|apply IH].
Qed.

Lemma flush_outs_done s cs c : inv s → c ∈ cs → out_done (sys_run s (flush_outs s cs)) c.
Proof.
  revert s. induction cs as [|c' cs IH]; intros s Hinv Hc; [set_solver|].
  cbn [flush_outs]. rewrite sys_run_app.
  assert (Hinv1 : inv (sys_run s (flush_out s c'))) by by apply inv_run.
  apply elem_of_cons in Hc as [->|Hc]; [|by apply IH].
  apply out_done_run; [apply flush_outs_transport|by apply flush_out_done].
Qed.

Lemma flush_ins_done s cs c : inv s → c ∈ cs → in_done (sys_run s (flush_ins s cs)) c.
Proof.
  revert s. induction cs as [|c' cs IH]; intros s Hinv Hc; [set_solver|].
  cbn [flush_ins]. rewrite sys_run_app.
  assert (Hinv1 : inv (sys_run s (flush_in s c'))) by by apply inv_run.
  apply elem_of_cons in Hc as [->|Hc]; [|by apply IH].
  apply in_done_run; [apply flush_ins_deliveries|by apply flush_in_done].
Qed.

(** ** Theorems *)

(** C15: the transport's work terminates.  From every reachable state of
    the application, the finite schedule [quiesce] (transmit every page's
    unsent messages, then deliver every page's unhandled messages) leads
    to a state where no transmission and no delivery, on any channel,
    changes anything.  Delivering a message never gives the transport new
    work, because no [socket.on] listener of either page emits. *)
Theorem transport_quiesces g kinds evs c :
  let s := sys_run (sys_init g kinds) evs in
  let s' := sys_run s (quiesce s) in
  sys_step s' (STransmit c) = s' ∧ sys_step s' (SDeliver c) = s'.
Proof.
  intros s s'. assert (Hinv : inv s) by apply inv_run, inv_init.
  destruct (nodes s !! c) as [n|] eqn:Hc.
  - assert (Hin : c ∈ elements (dom (nodes s))) by (apply elem_of_elements, elem_of_dom; eauto).
    set (s1 := sys_run s (flush_outs s (elements (dom (nodes s))))).
    assert (Hs' : s' = sys_run s1 (flush_ins s1 (elements (dom (nodes s))))) by apply sys_run_app.
    split; [apply transmit_done|apply deliver_done]; rewrite Hs'.
    + apply out_done_run; [|by apply flush_outs_done].
      eapply Forall_impl; [apply flush_ins_deliveries|]. by intros ? [? ->].
    + apply flush_ins_done; [by apply inv_run|done].
  - assert (Hn' : nodes s' !! c = None) by by apply sys_run_none.
    cbn [sys_step]. by rewrite Hn'.
Qed.

End Quiescence.
End Quiescence.
