(* ===== verification/Teardown.v ===== *)
(** * Teardown: what the viewer pages see when their host goes away

    The relay's only way to end a session is the host's disconnect
    (specification 4.5 and 9): it destroys the session, sends
    [stream_ended] to every viewer of it, and leaves each viewer
    unassigned.  On the viewer page, the [stream_ended] listener
    (src/app.py lines 232-236) alerts "Stream <code> has ended.", clears
    the video element and closes the peer connection, if there is one.

    [stream_end_reaches_viewer] composes the two.  In every reachable
    state, when the host of a session disconnects, each viewer page of
    that session, once the transport has delivered the relay's messages
    to it, has shown that alert last, shows no video, holds only a closed
    connection, and can join again. *)

From S2P Require Import Prelude Protocol CodeGenerator SessionRegistry ConnectionTracker SignalingRouter Lifecycle RelayFacts HostClient ViewerClient System Delivery.

Module Teardown.
Import SessionRegistry ConnectionTracker Lifecycle RelayFacts System Delivery.

Section Teardown.
Context `{CodeSource G}.
Local Abbreviation State := (Sys (G := G)).
Implicit Types s : State.

(** The alert of the viewer page's [stream_ended] listener. *)
Definition ended_alert (code : Code) : string :=
  String.append "Stream " (String.append code " has ended.").

(** ** Lemmas *)

(** A host's disconnect: each viewer of its session is sent
    [stream_ended] after everything it was sent before, is left
    unassigned, and its page is untouched. *)
Lemma host_disconnect_step s h v code ss :
  inv s → conns (relay s) !! h = Some (Host code) → reg (relay s) !! code = Some ss →
  v ∈ viewerConnectionIds ss →
  inbox (sys_step s (SDisconnect h)) v = inbox s v ++ [stream_ended code] ∧
  conns (relay (sys_step s (SDisconnect h))) !! v = Some Unassigned ∧
  nodes (sys_step s (SDisconnect h)) !! v = nodes s !! v.
Proof.
  intros Hinv Hh Hss Hv. pose proof (si_wf _ (inv_sys _ Hinv)) as Hwf.
  destruct (proj1 (si_live _ (inv_sys _ Hinv) h) (elem_of_dom_2 _ _ _ Hh)) as (nh & Hnh & Hst).
  assert (Hne : h ≠ v) by (eapply hosts_distinct; [done|by exists code, ss]).
  destruct (host_disconnect_wf (relay s) h code ss Hwf Hh Hss) as (Hout & _ & Hun).
  cbn [sys_step]. rewrite Hnh, Hst. unfold inbox. cbn [update relay nodes].
  split_and!; [|by apply Hun|by rewrite lookup_insert_ne].
  rewrite Hout, addressed_to_app. f_equal.
  apply addressed_to_broadcast; [apply NoDup_elements|by apply elem_of_elements].
Qed.

(** ** Theorems *)

(** C13: the end of a stream reaches its viewers.  In every reachable
    state, when the host of a session disconnects, each live viewer page
    of that session, once the transport has delivered the relay's
    messages to it, has shown "Stream <code> has ended." as its last
    alert, shows no video, holds no open peer connection, and is
    unassigned at the relay, free to join another stream. *)
Theorem stream_end_reaches_viewer g kinds evs h v :
  let s := sys_run (sys_init g kinds) evs in
  hosts (relay s) h v → live s v →
  let s1 := sys_step s (SDisconnect h) in
  let s' := sys_run s1 (flush_in s1 v) in
  ∃ code n' w', conns (relay s) !! h = Some (Host code) ∧
    nodes s' !! v = Some n' ∧ page n' = PViewer w' ∧
    last (ViewerClient.alerts w') = Some (ended_alert code) ∧
    ViewerClient.remoteVideo_srcObject w' = None ∧ ViewerClient.pc_shut w' ∧
    conns (relay s') !! v = Some Unassigned.
Proof.
  intros s Hhv (nv & Hnv & Hstv) s1 s'.
  assert (Hinv : inv s) by apply inv_run, inv_init.
  assert (Hinv1 : inv s1) by by apply inv_step.
  destruct Hhv as (code & ss & Hh & Hss & Hvin).
  destruct (host_disconnect_step s h v code ss Hinv Hh Hss Hvin) as (Hin1 & Hun & Hnv1).
  fold s1 in Hin1, Hun, Hnv1. rewrite Hnv in Hnv1.
  pose proof (si_bounds _ (inv_sys _ Hinv) v nv Hnv) as [_ Hb].
  destruct (flush_in_last s1 v nv (stream_ended code) Hinv1 Hnv1 Hstv)
    as (p & Hrel & Hk & Hc); [by rewrite Hin1, last_snoc|rewrite Hin1, length_app; cbn; lia|].
  fold s' in Hrel, Hc.
  destruct (hs_viewer_role _ (inv_hs _ Hinv) v code) as (n0 & Hn0 & Hk0);
    [exact (wf_viewer_tracked _ _ (si_wf _ (inv_sys _ Hinv)) _ _ _ Hss Hvin)|].
  rewrite Hnv in Hn0. injection Hn0 as <-. rewrite Hk0 in Hk.
  destruct p as [hp|w2]; [done|].
  exists code. eexists _, _. rewrite Hc. split_and!; [done|done|done|cbn; apply last_snoc|done| |].
  - intros n0 h0 pc0. cbn. destruct (ViewerClient.peerConnection w2) as [[[??]?]|]; naive_solver.
  - by rewrite Hrel.
Qed.

End Teardown.

(** The demonstration run: viewer 2 has joined host 1's stream and
    received its offer and an ICE candidate when host 1 disconnects. *)
Lemma stream_end_reaches_viewer_witness :
  let s := sys_run (sys_init ["AB12CD"] demo_kinds) demo_events in
  (hosts (relay s) 1 2 ∧ live s 2) ∧
  let s1 := sys_step s (SDisconnect 1) in
  let s' := sys_run s1 (flush_in s1 2) in
  ∃ code n' w', conns (relay s) !! 1 = Some (Host code) ∧
    nodes s' !! 2 = Some n' ∧ page n' = PViewer w' ∧
    last (ViewerClient.alerts w') = Some (ended_alert code) ∧
    ViewerClient.remoteVideo_srcObject w' = None ∧ ViewerClient.pc_shut w' ∧
    conns (relay s') !! 2 = Some Unassigned.
Proof.
  assert (H1 : hosts (relay (sys_run (sys_init ["AB12CD"] demo_kinds) demo_events)) 1 2)
    by (apply hostsb_spec; vm_compute; reflexivity).
  assert (H2 : live (sys_run (sys_init ["AB12CD"] demo_kinds) demo_events) 2)
    by (eexists; split; [vm_compute; reflexivity|reflexivity]).
  exact (conj (conj H1 H2) (stream_end_reaches_viewer ["AB12CD"] demo_kinds demo_events 1 2 H1 H2)).
Defined.

End Teardown.
