(* ===== verification/Departure.v ===== *)
(** * Departure: what the host page sees when a viewer goes away

    A viewer's disconnect (specification 4.5) removes it from its
    session and sends [viewer_left] to the session's host.  On the host
    page, the [viewer_left] listener (src/app.py lines 171-177) closes and
    deletes the viewer's [RTCPeerConnection], if there is one.

    [viewer_departure_reaches_host] composes the two.  In every reachable
    state, when a viewer of a session disconnects, the host page, once
    the transport has delivered the relay's messages to it, holds no
    connection to that viewer; an offer to it that the browser resolves
    afterwards sends nothing; and the relay no longer pairs the two. *)

From S2P Require Import Prelude Protocol CodeGenerator SessionRegistry ConnectionTracker SignalingRouter Lifecycle RelayFacts HostClient ViewerClient System Delivery.

Module Departure.
Import SessionRegistry ConnectionTracker Lifecycle RelayFacts System Delivery.

Section Departure.
Context `{CodeSource G}.
Local Abbreviation State := (Sys (G := G)).
Implicit Types s : State.

(** The scenario: viewer [v] disconnects, then the transport delivers
    to [h] everything the relay has sent it. *)
Definition depart s v h : State :=
  let s1 := sys_step s (SDisconnect v) in
  sys_run s1 (flush_in s1 h).

(** ** Lemmas *)

(** A viewer's disconnect: its host is sent [viewer_left] after
    everything it was sent before, and the host's page is untouched. *)
Lemma viewer_disconnect_step s h v :
  inv s → hosts (relay s) h v →
  inbox (sys_step s (SDisconnect v)) h = inbox s h ++ [viewer_left v] ∧
  nodes (sys_step s (SDisconnect v)) !! h = nodes s !! h ∧
  dead (sys_step s (SDisconnect v)) v.
Proof.
  intros Hinv Hhv. pose proof (si_wf _ (inv_sys _ Hinv)) as Hwf.
  pose proof (hosts_distinct _ h v Hwf Hhv) as Hne.
  destruct Hhv as (code & ss & Hh & Hss & Hvin).
  pose proof (wf_viewer_tracked _ _ Hwf _ _ _ Hss Hvin) as Hv.
  destruct (wf_host_backed _ _ Hwf _ _ Hh) as (ss' & Hss' & <-).
  rewrite Hss in Hss'. injection Hss' as <-.
  destruct (proj1 (si_live _ (inv_sys _ Hinv) v) (elem_of_dom_2 _ _ _ Hv)) as (nv & Hnv & Hst).
  destruct (viewer_disconnect_wf (relay s) v code ss Hwf Hv Hss) as (Hout & _ & _).
  cbn [sys_step]. rewrite Hnv, Hst. unfold inbox, dead. cbn [update relay nodes].
  split_and!; [|by rewrite lookup_insert_ne|by eexists; rewrite lookup_insert_eq].
  by rewrite Hout, addressed_to_app, addressed_to_cons_eq.
Qed.

(** ** Theorems *)

(** C14: the departure of a viewer reaches its host.  In every reachable
    state, when a viewer of a live host's session disconnects, the host
    page, once the transport has delivered the relay's messages to it,
    holds no [RTCPeerConnection] for the viewer, and an offer to the
    viewer that the browser resolves afterwards sends nothing; the
    viewer is dead and the relay no longer pairs it with the host. *)
Theorem viewer_departure_reaches_host g kinds evs h v :
  let s := sys_run (sys_init g kinds) evs in
  hosts (relay s) h v → live s h →
  let s' := depart s v h in
  ∃ n' hp, nodes s' !! h = Some n' ∧ page n' = PHost hp ∧
    HostClient.peerConnections hp !! v = None ∧
    (∀ sdp, HostClient.emitted (HostClient.offer_ready hp v sdp) = HostClient.emitted hp) ∧
    ¬ hosts (relay s') h v ∧ dead s' v.
Proof.
  intros s Hhv (nh & Hnh & Hsth). unfold depart. cbv zeta.
  set (s1 := sys_step s (SDisconnect v)). set (s' := sys_run s1 (flush_in s1 h)).
  assert (Hinv : inv s) by apply inv_run, inv_init.
  assert (Hinv1 : inv s1) by by apply inv_step.
  pose proof (hosts_distinct _ h v (si_wf _ (inv_sys _ Hinv)) Hhv) as Hne.
  destruct (viewer_disconnect_step s h v Hinv Hhv) as (Hin1 & Hnh1 & Hdead).
  fold s1 in Hin1, Hnh1, Hdead. rewrite Hnh in Hnh1.
  pose proof (si_bounds _ (inv_sys _ Hinv) h nh Hnh) as [_ Hb].
  destruct (flush_in_last s1 h nh (viewer_left v) Hinv1 Hnh1 Hsth)
    as (p & Hrel & Hk & Hc); [by rewrite Hin1, last_snoc|rewrite Hin1, length_app; cbn; lia|].
  fold s' in Hrel, Hc.
  destruct (hosts_host_page s h v nh Hinv Hhv Hnh) as [hp0 Hp0]. rewrite Hp0 in Hk.
  destruct p as [hp|w]; [|done].
  destruct (HostClient.viewer_left_forgets hp v) as [Hpc Hoff].
  eexists _, _. rewrite Hc. split_and!; [done|done|exact Hpc|exact Hoff| |].
  - rewrite Hrel. intros Hhv'. destruct Hhv' as (code & ss & _ & Hss & Hvin).
    destruct Hdead as (nv & Hnv & Hstv).
    pose proof (wf_viewer_tracked _ _ (si_wf _ (inv_sys _ Hinv1)) _ _ _ Hss Hvin) as Hv.
    destruct (proj1 (si_live _ (inv_sys _ Hinv1) v) (elem_of_dom_2 _ _ _ Hv)) as (nv' & Hnv' & Hst').
    rewrite Hnv in Hnv'. injection Hnv' as <-. congruence.
  - destruct Hdead as (nv & Hnv & Hstv). exists nv. split; [|done].
    unfold s'. rewrite sys_run_other; [done|]. apply Forall_replicate. cbn. congruence.
Qed.

End Departure.

(** The demonstration run: viewer 2 has joined host 1's stream and
    received its offer and an ICE candidate when it disconnects. *)
Lemma viewer_departure_reaches_host_witness :
  let s := sys_run (sys_init ["AB12CD"] demo_kinds) demo_events in
  (hosts (relay s) 1 2 ∧ live s 1) ∧
  let s' := depart s 2 1 in
  ∃ n' hp, nodes s' !! 1 = Some n' ∧ page n' = PHost hp ∧
    HostClient.peerConnections hp !! 2 = None ∧
    (∀ sdp, HostClient.emitted (HostClient.offer_ready hp 2 sdp) = HostClient.emitted hp) ∧
    ¬ hosts (relay s') 1 2 ∧ dead s' 2.
Proof.
  assert (H1 : hosts (relay (sys_run (sys_init ["AB12CD"] demo_kinds) demo_events)) 1 2)
    by (apply hostsb_spec; vm_compute; reflexivity).
  assert (H2 : live (sys_run (sys_init ["AB12CD"] demo_kinds) demo_events) 1)
    by (eexists; split; [vm_compute; reflexivity|reflexivity]).
  exact (conj (conj H1 H2) (viewer_departure_reaches_host ["AB12CD"] demo_kinds demo_events 1 2 H1 H2)).
Defined.

End Departure.
