(* ===== verification/Fairness.v ===== *)
(** * Fairness: the transport's work ends under any fair scheduler

    [Quiescence] writes out one schedule that does all of the transport's
    work.  Socket.IO promises less: it carries each page's messages and
    the relay's, in order, at times of its own choosing.  Here a
    scheduler is any infinite sequence of transmissions and deliveries
    ([schedule], with the states it visits given by [after]), and the only
    assumption on it is weak fairness ([weakly_fair]): a channel that has
    work to do is, later on, either served or out of work.

    [fair_transport_quiesces] shows that every such scheduler, from every
    reachable state, reaches a point from which each live page has had
    all its messages processed by the relay and has handled every message
    of the relay, and after which the state no longer changes.  The proof
    runs in two phases over the backlog measures [pending_out] and
    [pending_in]: outgoing backlogs never grow under the transport (no
    [socket.on] listener of either page emits) and shrink on each
    transmission, so they reach zero; from then on the relay sends
    nothing new, and the incoming backlogs reach zero in the same way
    ([Prelude.eventually_all_zero]). *)

From S2P Require Import Prelude Protocol CodeGenerator SessionRegistry ConnectionTracker SignalingRouter Lifecycle RelayFacts HostClient ViewerClient System Delivery Quiescence.

Module Fairness.
Import Lifecycle System Delivery Quiescence.

Section Fairness.
Context `{CodeSource G}.
Local Abbreviation State := (Sys (G := G)).
Implicit Types s : State.

(** An infinite sequence of events, and the state after its first [n]. *)
Definition schedule : Type := nat → SysEvent.

Definition after s (σ : schedule) (n : nat) : State := sys_run s (σ <$> seq 0 n).

(** The work left on a live page's outgoing and incoming channels. *)
Definition pending_out s (c : ConnId) : nat :=
  match nodes s !! c with
  | Some n => match status n with Live => length (page_emitted (page n)) - sent n | _ => 0 end
  | None => 0
  end.

Definition pending_in s (c : ConnId) : nat :=
  match nodes s !! c with
  | Some n => match status n with Live => length (inbox s c) - recvd n | _ => 0 end
  | None => 0
  end.

(** Weak fairness: whenever a channel has work, some later step either
    finds it without work or serves it. *)
Definition weakly_fair s (σ : schedule) : Prop :=
  ∀ c n,
    (0 < pending_out (after s σ n) c →
       ∃ m, n ≤ m ∧ (pending_out (after s σ m) c = 0 ∨ σ m = STransmit c)) ∧
    (0 < pending_in (after s σ n) c →
       ∃ m, n ≤ m ∧ (pending_in (after s σ m) c = 0 ∨ σ m = SDeliver c)).

(** ** Lemmas *)

(** The case of a step that leaves a channel's work as it is. *)
Local Ltac unchanged := split; [lia|intros; subst; cbn [ev_conn] in *; first [lia|congruence]].

Lemma after_S s σ n : after s σ (S n) = sys_step (after s σ n) (σ n).
Proof. unfold after. by rewrite seq_S, fmap_app, sys_run_app. Qed.

Lemma pending_out_nodes s s' c : nodes s' !! c = nodes s !! c → pending_out s' c = pending_out s c.
Proof. unfold pending_out. by intros ->. Qed.

Lemma pending_in_nodes s s' c :
  nodes s' !! c = nodes s !! c → inbox s' c = inbox s c → pending_in s' c = pending_in s c.
Proof. unfold pending_in. by intros -> ->. Qed.

(** A channel without work is idle. *)
Lemma transmit_idle s c : pending_out s c = 0 → sys_step s (STransmit c) = s.
Proof.
  unfold pending_out. intros Hp. cbn [sys_step].
  destruct (nodes s !! c) as [n|]; [|done]. destruct (status n); try done.
  by rewrite (proj2 (lookup_ge_None _ _)) by lia.
Qed.

Lemma deliver_idle s c : pending_in s c = 0 → sys_step s (SDeliver c) = s.
Proof.
  unfold pending_in. intros Hp. cbn [sys_step].
  destruct (nodes s !! c) as [n|]; [|done]. destruct (status n); try done.
  by rewrite (proj2 (lookup_ge_None _ _)) by lia.
Qed.

Lemma deliver_relay s c : relay (sys_step s (SDeliver c)) = relay s.
Proof. cbn [sys_step]. by repeat case_match. Qed.

(** A transmission or a delivery either changes nothing or is the step
    of [Delivery.transmit_step] or [Delivery.deliver_step]. *)
Lemma transmit_cases s c :
  (sys_step s (STransmit c) = s ∧ pending_out s c = 0) ∨
  ∃ n m, nodes s !! c = Some n ∧ status n = Live ∧ page_emitted (page n) !! sent n = Some m ∧
    sys_step s (STransmit c) =
      update s c (mkNode (page n) Live (S (sent n)) (recvd n)) (dispatch (relay s) c (ev_message m)) None.
Proof.
  unfold pending_out, pending_in. cbn [sys_step]. repeat case_match; try (left; split; [done|lia]);
    try (by right; eauto 10).
  left. split; [done|]. match goal with H : _ !! _ = None |- _ => apply lookup_ge_None in H end. lia.
Qed.

Lemma deliver_cases s c :
  (sys_step s (SDeliver c) = s ∧ pending_in s c = 0) ∨
  ∃ n m, nodes s !! c = Some n ∧ status n = Live ∧ inbox s c !! recvd n = Some m ∧
    sys_step s (SDeliver c) =
      update s c (mkNode (page_receive (page n) m).1 Live (sent n) (S (recvd n)))
        (relay s) (page_receive (page n) m).2.
Proof.
  unfold pending_out, pending_in. cbn [sys_step]. repeat case_match; try (left; split; [done|lia]);
    try (by right; eauto 10).
  left. split; [done|]. match goal with H : _ !! _ = None |- _ => apply lookup_ge_None in H end. lia.
Qed.

(** Under the transport, outgoing work never grows: a delivery makes no
    page send.  A transmission of a channel with work shrinks it. *)
Lemma pending_out_step s ev c :
  transport ev → pending_out (sys_step s ev) c ≤ pending_out s c ∧
  (ev = STransmit c → 0 < pending_out s c → pending_out (sys_step s ev) c < pending_out s c).
Proof.
  intros Hev. destruct (decide (ev_conn ev = c)) as [<-|Hne];
    [|rewrite (pending_out_nodes s (sys_step s ev)) by (by apply sys_step_other); unchanged].
  destruct ev as [| | |x|x]; unfold transport in Hev; try done; cbn [ev_conn].
  - destruct (transmit_cases s x) as [[-> ?]|(n & m & Hn & Hst & Hm & ->)]; [unchanged|].
    unfold pending_out. cbn [update nodes]. rewrite lookup_insert_eq, Hn, Hst. cbn [status sent page].
    apply lookup_lt_Some in Hm. split; lia.
  - destruct (deliver_cases s x) as [[-> ?]|(n & m & Hn & Hst & Hm & ->)]; [unchanged|].
    unfold pending_out. cbn [update nodes]. rewrite lookup_insert_eq, Hn, Hst. cbn [status sent page].
    rewrite page_receive_silent. unchanged.
Qed.

(** Once no page has outgoing work, incoming work never grows, and a
    delivery to a channel with work shrinks it. *)
Lemma pending_in_step s ev c :
  transport ev → (∀ x, pending_out s x = 0) → pending_in (sys_step s ev) c ≤ pending_in s c ∧
  (ev = SDeliver c → 0 < pending_in s c → pending_in (sys_step s ev) c < pending_in s c).
Proof.
  intros Hev Hout. destruct ev as [| | |x|x]; unfold transport in Hev; try done.
  { rewrite transmit_idle by apply Hout. unchanged. }
  destruct (decide (x = c)) as [<-|Hne].
  - destruct (deliver_cases s x) as [[-> ?]|(n & m & Hn & Hst & Hm & ->)]; [unchanged|].
    apply lookup_lt_Some in Hm. unfold pending_in, inbox in *. cbn [update nodes relay].
    rewrite lookup_insert_eq, Hn, Hst. cbn [status recvd]. split; lia.
  - rewrite (pending_in_nodes s (sys_step s (SDeliver x))); [unchanged|by apply sys_step_other|].
    unfold inbox. by rewrite deliver_relay.
Qed.

(** A page the run has not got has no work. *)
Lemma pending_absent s evs c :
  c ∉ elements (dom (nodes s)) →
  pending_out (sys_run s evs) c = 0 ∧ pending_in (sys_run s evs) c = 0.
Proof.
  intros Hc. rewrite elem_of_elements, not_elem_of_dom in Hc.
  unfold pending_out, pending_in. by rewrite sys_run_none.
Qed.

(** The first phase: from some step on, no page has outgoing work. *)
Lemma fair_out_zero s σ :
  (∀ n, transport (σ n)) → weakly_fair s σ →
  ∃ N, ∀ m x, N ≤ m → pending_out (after s σ m) x = 0.
Proof.
  intros Htr Hfair.
  assert (Hmono : ∀ x n, pending_out (after s σ (S n)) x ≤ pending_out (after s σ n) x).
  { intros x n. rewrite after_S. apply pending_out_step, Htr. }
  destruct (eventually_all_zero 0 (elements (dom (nodes s))) (λ x n, pending_out (after s σ n) x))
    with (n := 0) as (N & _ & HN); [eauto| |lia|].
  - intros x n _ _.
    refine (eventually_zero 0 (λ k, pending_out (after s σ k) x) (λ m, σ m = STransmit x)
      (λ k _, Hmono x k) _ (λ k _, proj1 (Hfair x k)) n ltac:(lia)).
    intros m _ Hm Hp. rewrite after_S. by apply pending_out_step.
  - exists N. intros m x HNm.
    destruct (decide (x ∈ elements (dom (nodes s)))) as [Hx|Hx]; [|apply pending_absent, Hx].
    pose proof (nonincreasing_le 0 (λ n, pending_out (after s σ n) x) (λ n _, Hmono x n) N m
      ltac:(lia) HNm). specialize (HN x Hx). cbn in *. lia.
Qed.

(** The second phase: then no page has incoming work either. *)
Lemma fair_all_zero s σ :
  (∀ n, transport (σ n)) → weakly_fair s σ →
  ∃ N, ∀ x, pending_out (after s σ N) x = 0 ∧ pending_in (after s σ N) x = 0.
Proof.
  intros Htr Hfair. destruct (fair_out_zero s σ Htr Hfair) as (N1 & Hout).
  assert (Hmono : ∀ x n, N1 ≤ n → pending_in (after s σ (S n)) x ≤ pending_in (after s σ n) x).
  { intros x n Hn. rewrite after_S. apply pending_in_step; [apply Htr|]. intros y. by apply Hout. }
  destruct (eventually_all_zero N1 (elements (dom (nodes s))) (λ x n, pending_in (after s σ n) x))
    with (n := N1) as (N & HN1 & HN); [eauto| |lia|].
  - intros x n _ Hn.
    refine (eventually_zero N1 (λ k, pending_in (after s σ k) x) (λ m, σ m = SDeliver x)
      (λ k Hk, Hmono x k Hk) _ (λ k _, proj2 (Hfair x k)) n Hn).
    intros m Hm Hd Hp. rewrite after_S. apply pending_in_step; [apply Htr| |done|done].
    intros y. by apply Hout.
  - exists N. intros x. split; [by apply Hout|].
    destruct (decide (x ∈ elements (dom (nodes s)))) as [Hx|Hx]; [by apply HN|apply pending_absent, Hx].
Qed.

(** ** Theorems *)

(** C16: under any weakly fair scheduler, the transport's work ends.
    From every reachable state of the application, every infinite
    sequence of transmissions and deliveries that serves, sooner or
    later, each channel that has work reaches a step at which each live
    page has had every message it emitted processed by the relay and has
    handled every message the relay sent it, and from which on the state
    never changes again. *)
Theorem fair_transport_quiesces g kinds evs σ :
  let s := sys_run (sys_init g kinds) evs in
  (∀ n, transport (σ n)) → weakly_fair s σ →
  ∃ N, (∀ c nd, nodes (after s σ N) !! c = Some nd → status nd = Live →
          sent nd = length (page_emitted (page nd)) ∧
          recvd nd = length (inbox (after s σ N) c)) ∧
       ∀ m, N ≤ m → after s σ m = after s σ N.
Proof.
  intros s Htr Hfair. destruct (fair_all_zero s σ Htr Hfair) as (N & HN).
  assert (Hinv : inv (after s σ N)) by apply inv_run, inv_run, inv_init.
  exists N. split.
  - intros c nd Hc Hst. destruct (HN c) as [Ho Hi].
    pose proof (si_bounds _ (inv_sys _ Hinv) c nd Hc) as [Hb1 Hb2].
    unfold pending_out, pending_in in Ho, Hi. rewrite Hc, Hst in Ho, Hi. lia.
  - intros m HNm. induction HNm as [|m HNm IH]; [done|].
    rewrite after_S, IH. destruct (HN (ev_conn (σ m))) as [Ho Hi].
    specialize (Htr m). destruct (σ m); try done; cbn [ev_conn] in *;
      [by apply transmit_idle|by apply deliver_idle].
Qed.

End Fairness.

(** A round-robin scheduler over the two pages of the demonstration:
    transmit for 1, transmit for 2, deliver to 1, deliver to 2, and
    again. *)
Definition demo_sched : schedule := λ n,
  match n mod 4 with
  | 0 => STransmit 1
  | 1 => STransmit 2
  | 2 => SDeliver 1
  | _ => SDeliver 2
  end.

Lemma mod4_hits n k : k < 4 → ∃ m, n ≤ m ∧ m mod 4 = k.
Proof.
  intros Hk. exists (k + (n / 4 + 1) * 4). split.
  - pose proof (Nat.div_mod_eq n 4). pose proof (Nat.mod_upper_bound n 4 ltac:(lia)). lia.
  - rewrite Nat.Div0.mod_add. by apply Nat.mod_small.
Qed.

(** The demonstration run, after which the viewer's browser has resolved
    its answer, not yet transmitted: the scheduler starts with work on
    every channel kind. *)
Lemma fair_transport_quiesces_witness :
  let s := sys_run (sys_init ["AB12CD"] demo_kinds)
             (demo_events ++ [SLocal 2 (LViewer (ViewerClient.VAnswerReady "a"))]) in
  ((∀ n, transport (demo_sched n)) ∧ weakly_fair s demo_sched) ∧
  ∃ N, (∀ c nd, nodes (after s demo_sched N) !! c = Some nd → status nd = Live →
          sent nd = length (page_emitted (page nd)) ∧
          recvd nd = length (inbox (after s demo_sched N) c)) ∧
       ∀ m, N ≤ m → after s demo_sched m = after s demo_sched N.
Proof.
  set (evs := demo_events ++ [SLocal 2 (LViewer (ViewerClient.VAnswerReady "a"))]).
  set (s := sys_run (sys_init ["AB12CD"] demo_kinds) evs).
  assert (Htr : ∀ n, transport (demo_sched n)).
  { intros n. unfold demo_sched. by destruct (n mod 4) as [|[|[|]]]. }
  assert (Habs : ∀ c, c ≠ 1 → c ≠ 2 → c ∉ elements (dom (nodes s))).
  { intros c H1 H2. rewrite elem_of_elements, not_elem_of_dom. apply sys_run_none. cbn [sys_init nodes].
    unfold demo_kinds. by rewrite lookup_fmap, lookup_insert_ne, lookup_insert_ne, lookup_empty. }
  assert (Hhit : ∀ n k, k < 4 → ∃ m, n ≤ m ∧ demo_sched m = demo_sched k).
  { intros n k Hk. destruct (mod4_hits n k Hk) as (m & Hnm & Hm). exists m. split; [done|].
    unfold demo_sched. rewrite Hm, (Nat.mod_small k) by done. done. }
  assert (Hfair : weakly_fair s demo_sched).
  { intros c n. destruct (decide (c = 1)) as [->|H1]; [|destruct (decide (c = 2)) as [->|H2]].
    - split; intros _; [destruct (Hhit n 0) as (m & ? & Hm)|destruct (Hhit n 2) as (m & ? & Hm)];
        try lia; exists m; split; [done|right; exact Hm|done|right; exact Hm].
    - split; intros _; [destruct (Hhit n 1) as (m & ? & Hm)|destruct (Hhit n 3) as (m & ? & Hm)];
        try lia; exists m; split; [done|right; exact Hm|done|right; exact Hm].
    - destruct (pending_absent s (demo_sched <$> seq 0 n) c (Habs c H1 H2)) as [Ho Hi].
      unfold after. rewrite Ho, Hi. split; lia. }
  exact (conj (conj Htr Hfair)
    (fair_transport_quiesces ["AB12CD"] demo_kinds evs demo_sched Htr Hfair)).
Defined.

End Fairness.
