(* ===== verification/Handshake.v ===== *)
(** * Handshake: the offer/answer exchange completes on both pages

    The purpose of the application is to give a host page and a viewer
    page a pair of matching [RTCPeerConnection]s: the host's holds its
    offer as local description and the viewer's answer as remote one,
    and the viewer's holds the same two the other way round.  This file
    follows the specification's scenario (section 8) on the pages of
    src/app.py to that end, in five phases, each a lemma over any state
    that satisfies the phase's precondition:
    - [join_spec]: the viewer types the code the host page shows and
      clicks Join; the relay pairs them and tells the host
      ([viewer_joined], lines 154-166 of the host page);
    - [offer_spec]: the host page handles its messages, and the browser
      resolves the offer ([createOffer ... emit('offer')]);
    - [offer_delivery_spec]: the transport carries the offer to the relay
      and on to the viewer, whose [offer] listener (lines 218-230)
      creates its connection with the offer as remote description;
    - [answer_spec]: the browser resolves the viewer's pending answers
      ([resolve_answers]), and the transport carries the answer to the
      host, whose [answer] listener (lines 167-170) sets it as the remote
      description of its connection to the viewer.
    [handshake_completes] composes them from every reachable state.

    What makes the phases compose is that nothing else in the run
    concerns this viewer: before the join the host's inbox holds nothing
    about it ([fresh_pair_unconcerned]) and the host has sent it nothing
    ([fresh_pair_no_signal]); during the run only the viewer's own events
    make the relay send something about it
    ([RelayFacts.relay_run_unconcerned]). *)

From S2P Require Import Prelude Protocol CodeGenerator SessionRegistry ConnectionTracker SignalingRouter Lifecycle RelayFacts HostClient ViewerClient System Delivery Codes.

Module Handshake.
Import SessionRegistry ConnectionTracker SignalingRouter Lifecycle RelayFacts System Delivery Codes.

Section Handshake.
Context `{CodeSource G}.
Local Abbreviation State := (Sys (G := G)).
Implicit Types s : State.

(** The browser resolves every [createAnswer] the viewer page has under
    way, each with the answer [a]: all but the newest find their
    connection replaced and are dropped, so only the newest one's SDP is
    ever sent. *)
Definition resolve_answers s (v : ConnId) (a : Payload) : list SysEvent :=
  match nodes s !! v with
  | Some n =>
      match page n with
      | PViewer w =>
          replicate (length (ViewerClient.pending_answers w)) (SLocal v (LViewer (ViewerClient.VAnswerReady a)))
      | PHost _ => []
      end
  | None => []
  end.

(** A client message that the relay forwards to [v] in no form. *)
Definition not_for (v : ConnId) (m : ClientMsg) : Prop :=
  (∀ code, m ≠ join_stream code) ∧ ∀ k p, as_signal m ≠ Some (k, v, p).

(** ** Lemmas *)

Lemma receive_all_host hp ms :
  receive_all (PHost hp) ms = PHost (HostClient.run hp (HostClient.HServer <$> ms)).
Proof.
  revert hp. induction ms as [|m ms IH]; intros hp; [done|]. apply IH.
Qed.

Lemma receive_all_viewer w ms :
  receive_all (PViewer w) ms = PViewer (ViewerClient.run w (ViewerClient.VServer <$> ms)).
Proof.
  revert w. induction ms as [|m ms IH]; intros w; [done|]. apply IH.
Qed.

Lemma receive_all_app p ms ms' : receive_all p (ms ++ ms') = receive_all (receive_all p ms) ms'.
Proof. apply foldl_app. Qed.

Lemma viewer_run_silent w ms :
  ViewerClient.emitted (ViewerClient.run w (ViewerClient.VServer <$> ms)) = ViewerClient.emitted w.
Proof.
  revert w. induction ms as [|m ms IH]; intros w; [done|].
  cbn [fmap list_fmap ViewerClient.run]. by rewrite IH, ViewerClient.viewer_listeners_silent.
Qed.

(** A connection in no session, while its would-be host is live, is the
    subject of nothing in the host's inbox: no [viewer_joined] (it would
    be paired, or one of the two dead), no [viewer_left] (it would be
    dead), and no signal (which needs a [viewer_joined] before it). *)
Lemma fresh_pair_unconcerned s h v nh hp :
  inv s → nodes s !! h = Some nh → status nh = Live → page nh = PHost hp →
  live s v → conns (relay s) !! v = Some Unassigned →
  Forall (λ m, concerns v m = false) (inbox s h).
Proof.
  intros Hinv Hnh Hsth Hp (nv & Hnv & Hstv) Hu.
  assert (Hj : viewer_joined v ∉ inbox s h).
  { intros [Hhv|[(n & Hn & Hd)|(n & Hn & Hd)]]%(si_joined _ (inv_sys _ Hinv)).
    - exact (proj1 (unassigned_unpaired _ v h (si_wf _ (inv_sys _ Hinv)) Hu) Hhv).
    - rewrite Hnv in Hn. congruence.
    - rewrite Hnh in Hn. congruence. }
  apply Forall_forall. intros m Hm. destruct (concerns v m) eqn:Hc; [exfalso|done].
  destruct m as [| w | w | | |w p|w p|]; cbn [concerns] in Hc; try discriminate;
    apply bool_decide_eq_true in Hc; subst w; [done| |..].
  - destruct (hs_left_dead _ (inv_hs _ Hinv) h v Hm) as (n & Hn & Hd). rewrite Hnv in Hn. congruence.
  - apply list_elem_of_lookup in Hm as [i Hi].
    destruct (hs_signals _ (inv_hs _ Hinv) h nh hp Hnh Hp i _ v Hi) as [Hji _]; [by exists p; left|].
    by apply Hj, (elem_of_prefix _ _ _ Hji), prefix_take.
  - apply list_elem_of_lookup in Hm as [i Hi].
    destruct (hs_signals _ (inv_hs _ Hinv) h nh hp Hnh Hp i _ v Hi) as [Hji _]; [by exists p; right|].
    by apply Hj, (elem_of_prefix _ _ _ Hji), prefix_take.
Qed.

(** Nor has the host page sent it anything: an offer would need a
    [viewer_joined] handled, and an ICE candidate an offer before it. *)
Lemma fresh_pair_no_signal s h v nh hp :
  inv s → nodes s !! h = Some nh → status nh = Live → page nh = PHost hp →
  live s v → conns (relay s) !! v = Some Unassigned →
  Forall (not_for v) (HostClient.emitted hp).
Proof.
  intros Hinv Hnh Hsth Hp Hv Hu.
  pose proof (fresh_pair_unconcerned s h v nh hp Hinv Hnh Hsth Hp Hv Hu) as Hfresh.
  pose proof (si_page _ (inv_sys _ Hinv) h nh Hnh) as Hok. rewrite Hp in Hok.
  destruct Hok as [[_ Hice] Hmsgs].
  assert (Hoff : ∀ p, offer v p ∉ HostClient.emitted hp).
  { intros p Hin. assert (Hj : viewer_joined v ∈ inbox s h).
    { apply (handled_inbox s h nh), (si_offered _ (inv_sys _ Hinv) h nh hp v Hnh Hp). right. by exists p. }
    rewrite Forall_forall in Hfresh. specialize (Hfresh _ Hj). cbn in Hfresh.
    by rewrite bool_decide_eq_true_2 in Hfresh. }
  apply Forall_forall. intros m Hm. rewrite Forall_forall in Hmsgs.
  destruct (Hmsgs m Hm) as [->|[(w & p & ->)|(w & p & ->)]];
    (split; [by intros code|intros k p' Hk]); cbn in Hk; try done; injection Hk as <- -> <-.
  - by apply (Hoff p).
  - apply list_elem_of_lookup in Hm as [i Hi].
    destruct (Hice i v _ Hi) as (j & b & _ & Hj & [sdp ->]); [by exists p|].
    by apply (Hoff sdp), list_elem_of_lookup_2 with j.
Qed.

(** Phase 1.  The viewer types the code of a live host and joins: the
    two are paired, the host's inbox gains [viewer_joined], the viewer's
    gains nothing, and the viewer page has sent all it has emitted, the
    [join_stream] last. *)
Lemma join_spec s h v nh hp nv w code :
  inv s → nodes s !! h = Some nh → status nh = Live → page nh = PHost hp →
  conns (relay s) !! h = Some (Host code) →
  nodes s !! v = Some nv → status nv = Live → page nv = PViewer w →
  sent nv = length (ViewerClient.emitted w) → conns (relay s) !! v = Some Unassigned → code ≠ "" →
  let s1 := sys_run s (type_and_join v code) in
  inv s1 ∧ hosts (relay s1) h v ∧ nodes s1 !! h = Some nh ∧
  inbox s1 h = inbox s h ++ [viewer_joined v] ∧ inbox s1 v = inbox s v ∧
  ∃ w1, nodes s1 !! v = Some (mkNode (PViewer w1) Live (length (ViewerClient.emitted w1)) (recvd nv)) ∧
    ViewerClient.emitted w1 = ViewerClient.emitted w ++ [join_stream code].
Proof.
  intros Hinv Hnh Hsth Hp Hh Hnv Hstv Hw Hsent Hu Hne s1.
  pose proof (si_wf _ (inv_sys _ Hinv)) as Hwf.
  assert (Hhv : h ≠ v) by congruence.
  destruct (idle_join s v code) as [Hr _]; [by exists nv, w|done|]. fold s1 in Hr.
  destruct (join_pairs (relay s) h v code Hwf Hh Hu) as [Hpair Hjoin].
  destruct (wf_host_backed _ _ Hwf _ _ Hh) as (ss & Hss & Hhost).
  split_and!; [by apply inv_run|by rewrite Hr|..].
  - unfold s1, type_and_join. rewrite sys_run_other; [done|repeat constructor; cbn; congruence].
  - unfold inbox. by rewrite Hr.
  - unfold inbox. rewrite Hr, (dispatch_join_Ok _ v code ss Hu Hss). cbn [outbox].
    unfold notifyViewerJoined. rewrite addressed_to_deliver, Hhost.
    rewrite bool_decide_eq_false_2 by naive_solver. by rewrite app_nil_r.
  - unfold s1. change (type_and_join v code) with
      ((SLocal v <$> [LViewer (ViewerClient.VType code); LViewer ViewerClient.VClickJoin]) ++ [STransmit v]).
    rewrite sys_run_app, sys_run_cons. change (sys_run ?x []) with x.
    destruct (locals_run s v nv [LViewer (ViewerClient.VType code); LViewer ViewerClient.VClickJoin] Hnv Hstv)
      as (_ & Hc & _).
    rewrite Hw in Hc. cbn [foldl page_local fst ViewerClient.step] in Hc.
    set (w1 := ViewerClient.onclick_joinStream (ViewerClient.type_code w code)) in Hc.
    assert (Hem : ViewerClient.emitted w1 = ViewerClient.emitted w ++ [join_stream code]).
    { unfold w1, ViewerClient.onclick_joinStream. cbn [ViewerClient.streamCodeInput_value ViewerClient.type_code].
      by rewrite (proj2 (String.eqb_neq code "") Hne). }
    erewrite (transmit_step _ v _ (join_stream code) Hc eq_refl);
      [|cbn [page sent page_emitted]; rewrite Hem, Hsent; by apply list_lookup_middle].
    exists w1. split; [|done]. cbn [update nodes]. rewrite lookup_insert_eq. cbn [page sent recvd].
    rewrite Hem, length_app, <- Hsent. cbn [length]. do 2 f_equal. lia.
Qed.

(** Phase 2.  The host page handles its messages, the last of them
    [viewer_joined v], none of the others about [v]; then the browser
    resolves the offer.  The page has a connection to [v] with the
    captured tracks and the offer as local description, and has emitted
    the offer. *)
Lemma offer_spec s1 h v nh hp st sdp old :
  inv s1 → nodes s1 !! h = Some nh → status nh = Live → page nh = PHost hp →
  HostClient.localStream hp = Some st →
  inbox s1 h = old ++ [viewer_joined v] → recvd nh ≤ length old →
  Forall (λ m, concerns v m = false) old →
  let s2 := sys_run s1 (flush_in s1 h ++ [SLocal h (LHost (HostClient.HOfferReady v sdp))]) in
  inv s2 ∧ relay s2 = relay s1 ∧ (∀ x, x ≠ h → nodes s2 !! x = nodes s1 !! x) ∧
  ∃ hp2, nodes s2 !! h = Some (mkNode (PHost hp2) Live (sent nh) (length (inbox s1 h))) ∧
    HostClient.emitted hp2 = HostClient.emitted hp ++ [offer v sdp] ∧
    HostClient.peerConnections hp2 !! v = Some (mkPC st (Some sdp) None [] false) ∧
    HostClient.localStream hp2 = Some st.
Proof.
  intros Hinv Hnh Hst Hp Hls Hin Hle Hold s2.
  assert (Hinv2 : inv s2) by by apply inv_run.
  destruct (flush_in_page s1 h nh Hinv Hnh Hst) as (Hr & Hc & Hx).
  rewrite Hin, drop_app_le, receive_all_app, Hp, !receive_all_host in Hc by done.
  destruct (HostClient.run_unconcerned hp (drop (recvd nh) old) v) as (_ & Hls' & Hem');
    [by apply Forall_drop|].
  set (hm := HostClient.run hp (HostClient.HServer <$> drop (recvd nh) old)) in *.
  cbn [fmap list_fmap HostClient.run foldl HostClient.step] in Hc.
  destruct (HostClient.joined_offer hm st v sdp) as (_ & Hem & Hpc & Hls2); [congruence|].
  split; [done|]. unfold s2. rewrite sys_run_app, sys_run_cons, (local_step _ h _ _ Hc eq_refl).
  change (sys_run ?x []) with x. cbn [update relay nodes page_local page fst HostClient.step].
  split_and!; [done| |].
  - intros x Hxh. rewrite lookup_insert_ne, Hx by done. done.
  - eexists. rewrite lookup_insert_eq, <- Hin. split_and!; [done|by rewrite Hem, Hem'|done|done].
Qed.

Lemma run_wf st ces : relay_wf st → relay_wf (run st ces).
Proof. revert st. induction ces as [|[c ev] ces IH]; intros st Hwf; [done|]. by apply IH, dispatch_wf. Qed.

(** One end of a session flushes its outgoing channel, whose last
    message is a signal to the other end and whose earlier ones are for
    no one's [y]: [y]'s inbox gains exactly that signal, nothing about a
    third connection's peer [w] reaches anyone, and the pair stays. *)
Lemma flush_signal s h v x y n U sig k p :
  inv s → hosts (relay s) h v → (x = h ∧ y = v ∨ x = v ∧ y = h) →
  nodes s !! x = Some n → status n = Live →
  drop (sent n) (page_emitted (page n)) = U ++ [sig] → as_signal sig = Some (k, y, p) →
  Forall (not_for y) U →
  let s' := sys_run s (flush_out s x) in
  hosts (relay s') h v ∧ inbox s' y = inbox s y ++ [relayed k x p] ∧
  (∀ z w, w ≠ x → ∃ L, inbox s' z = inbox s z ++ L ∧ Forall (λ m, concerns w m = false) L) ∧
  nodes s' !! x = Some (mkNode (page n) Live (length (page_emitted (page n))) (recvd n)) ∧
  (∀ z, z ≠ x → nodes s' !! z = nodes s !! z).
Proof.
  intros Hinv Hhv Hxy Hn Hst Hdrop Hsig HU s'.
  pose proof (si_wf _ (inv_sys _ Hinv)) as Hwf.
  assert (Hxy' : x ≠ y) by (pose proof (hosts_distinct _ _ _ Hwf Hhv); naive_solver).
  destruct (flush_out_page s x n Hinv Hn Hst) as (Hr & Hc & Hx). fold s' in Hr, Hc, Hx.
  rewrite Hdrop, fmap_app in Hr. unfold run in Hr. rewrite foldl_app in Hr. fold (run (relay s) ((λ m, (x, ev_message m)) <$> U)) in Hr.
  set (stU := run (relay s) ((λ m, (x, ev_message m)) <$> U)) in Hr.
  assert (HwfU : relay_wf stU) by by apply run_wf.
  assert (HhvU : hosts stU h v) by by apply run_hosts.
  cbn [fmap list_fmap foldl] in Hr. rewrite (dispatch_signal_pair stU h v x y sig k p HwfU HhvU Hxy Hsig) in Hr.
  split_and!; [|unfold inbox; rewrite Hr; cbn [outbox]; unfold stU;
    rewrite addressed_to_app, addressed_to_cons_eq, (run_not_to (relay s) x U y Hwf Hxy' HU); done
    | |done|done].
  - rewrite Hr. by destruct HhvU as (code & ss & ? & ? & ?); exists code, ss.
  - intros z w Hw. destruct (relay_run_unconcerned (relay s) ((λ m, (x, ev_message m)) <$> U) z w Hwf)
      as (L & HL & HLc); [by apply Forall_fmap, Forall_true|].
    exists (L ++ addressed_to z [(y, relayed k x p)]). unfold inbox. rewrite Hr. cbn [outbox].
    rewrite addressed_to_app. fold stU in HL. rewrite HL, app_assoc. split; [done|].
    apply Forall_app. split; [done|]. unfold addressed_to. destruct (decide (y = z)).
    + rewrite filter_cons_True by done. constructor; [|constructor].
      destruct k; cbn; try done; apply bool_decide_eq_false_2; congruence.
    + rewrite filter_cons_False by done. constructor.
Qed.

Lemma inbox_relay s s' x : relay s' = relay s → inbox s' x = inbox s x.
Proof. unfold inbox. by intros ->. Qed.

(** Phase 3.  The transport carries the host's messages, the offer last,
    to the relay, and the relay's to the viewer: the viewer page's
    [offer] listener handles the offer last. *)
Lemma offer_delivery_spec s2 h v hp2 sh rh nv w1 U sdp :
  inv s2 → hosts (relay s2) h v →
  nodes s2 !! h = Some (mkNode (PHost hp2) Live sh rh) →
  drop sh (HostClient.emitted hp2) = U ++ [offer v sdp] → Forall (not_for v) U →
  nodes s2 !! v = Some nv → status nv = Live → page nv = PViewer w1 →
  let s3 := sys_run s2 (drain s2 h v) in
  inv s3 ∧ hosts (relay s3) h v ∧
  nodes s3 !! h = Some (mkNode (PHost hp2) Live (length (HostClient.emitted hp2)) rh) ∧
  (∃ L, inbox s3 h = inbox s2 h ++ L ∧ Forall (λ m, concerns v m = false) L) ∧
  ∃ wm, ViewerClient.viewer_inv wm ∧ ViewerClient.emitted wm = ViewerClient.emitted w1 ∧
    nodes s3 !! v = Some (mkNode (PViewer (ViewerClient.on_offer wm h sdp)) Live (sent nv) (length (inbox s3 v))).
Proof.
  intros Hinv Hhv Hh Hdrop HU Hnv Hst Hw s3.
  pose proof (hosts_distinct _ _ _ (si_wf _ (inv_sys _ Hinv)) Hhv) as Hne.
  destruct (flush_signal s2 h v h v _ U (offer v sdp) SigOffer sdp Hinv Hhv (or_introl (conj eq_refl eq_refl))
    Hh eq_refl Hdrop eq_refl HU) as (Hhv' & Hinv_v & Hunc & Hh' & Hx).
  set (s2' := sys_run s2 (flush_out s2 h)) in *.
  assert (Hinv' : inv s2') by by apply inv_run.
  assert (Hnv' : nodes s2' !! v = Some nv) by (rewrite Hx; congruence).
  destruct (flush_in_page s2' v nv Hinv' Hnv' Hst) as (Hr & Hc & Hx2).
  assert (Hs3 : s3 = sys_run s2' (flush_in s2' v)) by apply sys_run_app.
  pose proof (si_bounds _ (inv_sys _ Hinv) v nv Hnv) as [_ Hb].
  rewrite Hinv_v, drop_app_le, receive_all_app, Hw, !receive_all_viewer in Hc by done.
  cbn [fmap list_fmap ViewerClient.run ViewerClient.step fst] in Hc. rewrite <- Hs3 in Hr, Hc, Hx2.
  split_and!; [by apply inv_run|by rewrite Hr|by rewrite Hx2| |].
  - destruct (Hunc h v ltac:(congruence)) as (L & HL & HLc). exists L. by rewrite (inbox_relay s2' s3), HL.
  - eexists. split_and!; [apply ViewerClient.viewer_inv_run, (sg_vinv _ (inv_sig _ Hinv) v nv _ Hnv Hw)
      |apply viewer_run_silent|]. rewrite Hc, (inbox_relay s2' s3) by done. rewrite <- Hinv_v. done.
Qed.

Lemma locals_answers w k a :
  foldl (λ p l, fst (page_local p l)) (PViewer w) (replicate k (LViewer (ViewerClient.VAnswerReady a))) =
  PViewer (ViewerClient.run w (replicate k (ViewerClient.VAnswerReady a))).
Proof. revert w. induction k as [|k IH]; intros w; [done|]. apply IH. Qed.

(** Phase 4.  The browser resolves the viewer page's pending answers,
    the newest of which belongs to its open connection: the page sends
    one answer, to that connection's host, and makes it the connection's
    local description. *)
Lemma resolve_spec s3 v h w3 n pc sv rv l a :
  nodes s3 !! v = Some (mkNode (PViewer w3) Live sv rv) →
  ViewerClient.peerConnection w3 = Some (n, h, pc) → pc_closed pc = false →
  ViewerClient.pending_answers w3 = l ++ [(n, h)] → Forall (λ e, e.1 ≠ n) l →
  let s4 := sys_run s3 (resolve_answers s3 v a) in
  relay s4 = relay s3 ∧ (∀ x, x ≠ v → nodes s4 !! x = nodes s3 !! x) ∧
  ∃ w4, nodes s4 !! v = Some (mkNode (PViewer w4) Live sv rv) ∧
    ViewerClient.emitted w4 = ViewerClient.emitted w3 ++ [answer h a] ∧
    ViewerClient.peerConnection w4 = Some (n, h, pc_set_local a pc).
Proof.
  intros Hnv Hpc Hopen Hpend Hl s4.
  assert (Hs4 : resolve_answers s3 v a =
    SLocal v <$> replicate (S (length l)) (LViewer (ViewerClient.VAnswerReady a))).
  { unfold resolve_answers. rewrite Hnv. cbn [page]. rewrite Hpend.
    by rewrite length_app, Nat.add_comm, fmap_replicate. }
  unfold s4. rewrite Hs4.
  destruct (locals_run s3 v _ (replicate (S (length l)) (LViewer (ViewerClient.VAnswerReady a))) Hnv eq_refl)
    as (Hr & Hc & Hx).
  cbn [page sent recvd] in Hc. rewrite locals_answers in Hc.
  destruct (ViewerClient.answer_all w3 n h pc l a Hpc Hopen Hpend Hl) as (Hpc4 & _ & Hem).
  split_and!; [done|done|]. eexists. split_and!; [exact Hc|exact Hem|exact Hpc4].
Qed.

(** Phase 5.  The transport carries the viewer's answer to the relay and
    on to the host, which has nothing else about the viewer to handle:
    the host page's [answer] listener makes the answer the remote
    description of its open connection to the viewer. *)
Lemma answer_delivery_spec s4 h v hp2 sh rh pc w4 sv rv a :
  inv s4 → hosts (relay s4) h v →
  nodes s4 !! h = Some (mkNode (PHost hp2) Live sh rh) →
  Forall (λ m, concerns v m = false) (drop rh (inbox s4 h)) →
  HostClient.peerConnections hp2 !! v = Some pc → pc_closed pc = false →
  nodes s4 !! v = Some (mkNode (PViewer w4) Live sv rv) →
  drop sv (ViewerClient.emitted w4) = [answer h a] →
  let s5 := sys_run s4 (drain s4 v h) in
  nodes s5 !! v = Some (mkNode (PViewer w4) Live (length (ViewerClient.emitted w4)) rv) ∧
  ∃ hp5, nodes s5 !! h = Some (mkNode (PHost hp5) Live sh (length (inbox s5 h))) ∧
    HostClient.peerConnections hp5 !! v = Some (pc_set_remote a pc) ∧
    HostClient.localStream hp5 = HostClient.localStream hp2.
Proof.
  intros Hinv Hhv Hh Hunc Hpc Hopen Hv Hdrop s5.
  pose proof (hosts_distinct _ _ _ (si_wf _ (inv_sys _ Hinv)) Hhv) as Hne.
  destruct (flush_signal s4 h v v h _ [] (answer h a) SigAnswer a Hinv Hhv (or_intror (conj eq_refl eq_refl))
    Hv eq_refl Hdrop eq_refl (Forall_nil_2 _)) as (_ & Hin & _ & Hv' & Hx).
  set (s4' := sys_run s4 (flush_out s4 v)) in *.
  assert (Hinv' : inv s4') by by apply inv_run.
  assert (Hh' : nodes s4' !! h = Some (mkNode (PHost hp2) Live sh rh)) by (rewrite Hx; congruence).
  destruct (flush_in_page s4' h _ Hinv' Hh' eq_refl) as (Hr & Hc & Hx2).
  assert (Hs5 : s5 = sys_run s4' (flush_in s4' h)) by apply sys_run_app.
  pose proof (si_bounds _ (inv_sys _ Hinv) h _ Hh) as [_ Hb]. cbn [recvd] in Hb.
  cbn [page recvd sent] in Hc. rewrite Hin, drop_app_le, receive_all_app, !receive_all_host in Hc by done.
  destruct (HostClient.run_unconcerned hp2 (drop rh (inbox s4 h)) v Hunc) as (Hpc' & Hls & _).
  set (hL := HostClient.run hp2 (HostClient.HServer <$> drop rh (inbox s4 h))) in *.
  cbn [fmap list_fmap HostClient.run foldl HostClient.step relayed] in Hc. unfold HostClient.on_answer in Hc.
  rewrite Hpc', Hpc in Hc. cbn [fst] in Hc. rewrite <- Hs5 in Hr, Hc, Hx2.
  split; [rewrite Hx2, Hv'; [done|congruence]|].
  eexists. rewrite Hc, (inbox_relay s4' s5), Hin by done. split_and!; [reflexivity| |done].
  cbn [HostClient.set_pcs HostClient.peerConnections]. rewrite lookup_insert_eq. unfold if_open. by rewrite Hopen.
Qed.

(** The host page of a live session has a capture: it sent
    [start_stream] after one. *)
Lemma hosting_page_captured s h nh hp code :
  inv s → nodes s !! h = Some nh → page nh = PHost hp → conns (relay s) !! h = Some (Host code) →
  ∃ st, HostClient.localStream hp = Some st.
Proof.
  intros Hinv Hnh Hp Hh. destruct (hs_started _ (inv_hs _ Hinv) h code Hh) as (n & Hn & Hss).
  rewrite Hnh in Hn. injection Hn as <-.
  apply (hs_stream _ (inv_hs _ Hinv) h nh hp Hnh Hp). unfold sent_msgs in Hss. rewrite Hp in Hss.
  by apply (elem_of_prefix _ _ _ Hss), prefix_take.
Qed.

(** ** Theorems *)

(** C11: the offer/answer handshake completes on both pages.  In every
    reachable state where a live host page has been sent its code, a
    connected viewer page in no session into which the shown code is
    typed and joined ends up, with the host page, holding a matching pair
    of open connections, once: the host page has handled the relay's
    messages and the browser has resolved its offer ([sdp]); the
    transport has carried the offer to the viewer; the browser has
    resolved the viewer's answers ([a]); and the transport has carried
    the answer to the host.  The host's connection to the viewer carries
    the captured tracks, has the offer as local and the answer as remote
    description; the viewer's connection, to this host, has the offer as
    remote and the answer as local description. *)
Theorem handshake_completes g kinds evs h v nh hp code sdp a :
  let s := sys_run (sys_init g kinds) evs in
  nodes s !! h = Some nh → status nh = Live → page nh = PHost hp →
  stream_started code ∈ handled s h nh → viewer_idle s v → code ≠ "" →
  let s1 := sys_run s (type_and_join v (HostClient.streamCode_text hp)) in
  let s2 := sys_run s1 (flush_in s1 h ++ [SLocal h (LHost (HostClient.HOfferReady v sdp))]) in
  let s3 := sys_run s2 (drain s2 h v) in
  let s4 := sys_run s3 (resolve_answers s3 v a) in
  let s5 := sys_run s4 (drain s4 v h) in
  ∃ nh5 hp5 pc nv5 w5 k pcv,
    nodes s5 !! h = Some nh5 ∧ page nh5 = PHost hp5 ∧
    HostClient.peerConnections hp5 !! v = Some pc ∧ HostClient.localStream hp5 = Some (pc_tracks pc) ∧
    pc_local pc = Some sdp ∧ pc_remote pc = Some a ∧ pc_closed pc = false ∧
    nodes s5 !! v = Some nv5 ∧ page nv5 = PViewer w5 ∧
    ViewerClient.peerConnection w5 = Some (k, h, pcv) ∧
    pc_remote pcv = Some sdp ∧ pc_local pcv = Some a ∧ pc_closed pcv = false.
Proof.
  intros s Hnh Hsth Hp Hin Hidle Hne s1 s2 s3 s4 s5.
  assert (Hinv : inv s) by apply inv_run, inv_init.
  assert (Hci : code_inv s) by (apply code_inv_run, code_inv_init; apply inv_init).
  destruct (shown_code_hosted s h nh hp code Hinv Hci Hnh Hsth Hp Hin) as [Htext Hh].
  subst code. pose proof Hidle as (nv & w & Hnv & Hstv & Hw & Hsent & Hu).
  destruct (hosting_page_captured s h nh hp _ Hinv Hnh Hp Hh) as [st Hls].
  assert (Hlv : live s v) by by exists nv.
  pose proof (fresh_pair_unconcerned s h v nh hp Hinv Hnh Hsth Hp Hlv Hu) as Hfresh.
  pose proof (fresh_pair_no_signal s h v nh hp Hinv Hnh Hsth Hp Hlv Hu) as Hnosig.
  pose proof (si_bounds _ (inv_sys _ Hinv) h nh Hnh) as [Hbs Hbr]. rewrite Hp in Hbs.
  destruct (join_spec s h v nh hp nv w _ Hinv Hnh Hsth Hp Hh Hnv Hstv Hw Hsent Hu Hne)
    as (Hinv1 & Hhv1 & Hh1 & Hinh1 & _ & w1 & Hv1 & _). fold s1 in Hinv1, Hhv1, Hh1, Hinh1, Hv1.
  destruct (offer_spec s1 h v nh hp st sdp (inbox s h) Hinv1 Hh1 Hsth Hp Hls Hinh1 Hbr Hfresh)
    as (Hinv2 & Hr2 & Hx2 & hp2 & Hh2 & Hem2 & Hpc2 & Hls2). fold s2 in Hinv2, Hr2, Hx2, Hh2.
  assert (Hhv : h ≠ v) by congruence.
  destruct (offer_delivery_spec s2 h v hp2 (sent nh) (length (inbox s1 h))
    (mkNode (PViewer w1) Live (length (ViewerClient.emitted w1)) (recvd nv)) w1
    (drop (sent nh) (HostClient.emitted hp)) sdp Hinv2) as (Hinv3 & Hhv3 & Hh3 & (L & HL & HLc) & wm & Hwm & Hemm & Hv3);
    [by rewrite Hr2|exact Hh2|by rewrite Hem2, drop_app_le|by apply Forall_drop|by rewrite Hx2|done|done|].
  fold s3 in Hinv3, Hhv3, Hh3, HL, Hv3. cbn [sent] in Hv3. rewrite <- Hemm in Hv3.
  destruct (resolve_spec s3 v h _ (ViewerClient.next_serial wm) (pc_set_remote sdp new_pc) _ _
    (ViewerClient.pending_answers wm) a Hv3) as (Hr4 & Hx4 & w4 & Hv4 & Hem4 & Hpc4); [done|done|done| |].
  { apply Forall_forall. intros [n' h'] Hp'. apply (ViewerClient.vi_pending_lt _ Hwm) in Hp'. cbn. lia. }
  fold s4 in Hr4, Hx4, Hv4.
  destruct (answer_delivery_spec s4 h v hp2 (length (HostClient.emitted hp2)) (length (inbox s1 h))
    (mkPC st (Some sdp) None [] false) w4 (length (ViewerClient.emitted wm)) (length (inbox s3 v)) a) as (Hv5 & hp5 & Hh5 & Hpc5 & Hls5);
    [by apply inv_run|by rewrite Hr4|rewrite Hx4 by congruence; exact Hh3| |exact Hpc2|done|exact Hv4| |].
  { rewrite (inbox_relay s3 s4), HL, (inbox_relay s1 s2), drop_app_length by done. done. }
  { rewrite Hem4, drop_app_length. done. }
  fold s5 in Hv5, Hh5. do 7 eexists.
  split_and!; [exact Hh5|done|exact Hpc5|by rewrite Hls5, Hls2|done|done|done
    |exact Hv5|done|exact Hpc4|done|done|done].
Qed.

End Handshake.

(** The demonstration run stopped when host page 1 shows its code and
    viewer page 2 is connected; the host's browser resolves the offer
    with "o" and the viewer's the answer with "a". *)
Lemma handshake_completes_witness :
  let s := sys_run (sys_init ["AB12CD"] demo_kinds) roundtrip_events in
  ∃ nh hp, (nodes s !! 1 = Some nh ∧ status nh = Live ∧ page nh = PHost hp ∧
    stream_started "AB12CD" ∈ handled s 1 nh ∧ viewer_idle s 2 ∧ "AB12CD" ≠ "") ∧
  let s1 := sys_run s (type_and_join 2 (HostClient.streamCode_text hp)) in
  let s2 := sys_run s1 (flush_in s1 1 ++ [SLocal 1 (LHost (HostClient.HOfferReady 2 "o"))]) in
  let s3 := sys_run s2 (drain s2 1 2) in
  let s4 := sys_run s3 (resolve_answers s3 2 "a") in
  let s5 := sys_run s4 (drain s4 2 1) in
  ∃ nh5 hp5 pc nv5 w5 k pcv,
    nodes s5 !! 1 = Some nh5 ∧ page nh5 = PHost hp5 ∧
    HostClient.peerConnections hp5 !! 2 = Some pc ∧ HostClient.localStream hp5 = Some (pc_tracks pc) ∧
    pc_local pc = Some "o" ∧ pc_remote pc = Some "a" ∧ pc_closed pc = false ∧
    nodes s5 !! 2 = Some nv5 ∧ page nv5 = PViewer w5 ∧
    ViewerClient.peerConnection w5 = Some (k, 1, pcv) ∧
    pc_remote pcv = Some "o" ∧ pc_local pcv = Some "a" ∧ pc_closed pcv = false.
Proof.
  pose (nh := match nodes (sys_run (sys_init ["AB12CD"] demo_kinds) roundtrip_events) !! 1 with
              | Some n => n | None => mkNode (PHost HostClient.init) Dead 0 0 end).
  pose (hp := match page nh with PHost hp => hp | PViewer _ => HostClient.init end).
  assert (H1 : nodes (sys_run (sys_init ["AB12CD"] demo_kinds) roundtrip_events) !! 1 = Some nh)
    by (vm_compute; reflexivity).
  assert (H2 : status nh = Live) by (vm_compute; reflexivity).
  assert (H3 : page nh = PHost hp) by (vm_compute; reflexivity).
  assert (H4 : stream_started "AB12CD" ∈
                 handled (sys_run (sys_init ["AB12CD"] demo_kinds) roundtrip_events) 1 nh)
    by (apply list_elem_of_In; vm_compute; left; reflexivity).
  assert (H5 : viewer_idle (sys_run (sys_init ["AB12CD"] demo_kinds) roundtrip_events) 2).
  { eexists _, _. split_and!; [vm_compute; reflexivity..]. }
  assert (H6 : "AB12CD" ≠ "") by discriminate.
  exists nh, hp. split; [split_and!; assumption|].
  exact (handshake_completes ["AB12CD"] demo_kinds roundtrip_events 1 2 nh hp "AB12CD" "o" "a"
           H1 H2 H3 H4 H5 H6).
Defined.

End Handshake.

